(* ===== verification/_CoqProject ===== *)
-Q . S2P
Prelude.v
Ela.v
Demo.v
Util.v
Samples.v
Merkle.v
MerkleSpec.v
MerkleSound.v
MerkleBuild.v
Buckets.v
Txs.v
TxsSpec.v
TxsBatch.v
Filters.v
Queue.v
QueueSpec.v
Arbiters.v
ArbitersSpec.v
CustomId.v
CustomIdSpec.v
Difficulty.v
Chain.v
ChainSpec.v
Reorg.v
Commit.v
Locator.v
ElaHeader.v
ChainDemo.v
Headers.v
StoreDemo.v
TxsDemo.v
TablesDemo.v
ArbitersDemo.v
CustomIdDemo.v
Bloom.v
BloomDemo.v
MerkleProof.v
MerkleBranch.v
MerkleBranchSpec.v
MerkleBranchDemo.v
Keeps.v
DataStore.v
SpvService.v
SpvSpec.v
SpvBlocks.v
SpvNotify.v
SpvDemo.v
Peer.v
PeerSpec.v
FpRate.v
Sync.v
SyncSpec.v
SyncStart.v
SyncChain.v
Service.v
ServiceSpec.v
Chan.v
ChanSpec.v
SyncDemo.v
Sql.v
WalletStore.v
WalletStoreSpec.v
Wallet.v
WalletSpec.v
WalletProps.v
WalletChain.v
WalletDemo.v
Keystore.v
KeystoreSpec.v
Program.v
Client.v
ClientSpec.v
ClientCli.v
ClientCliSpec.v
ClientDemo.v
Start.v
StartSpec.v
Crash.v
CrashSpec.v
StartDemo.v
