(* ===== verification/Prelude.v ===== *)
(** * A verification of Elastos.ELA.SPV

    The repository is an SPV (simplified payment verification) client of the
    Elastos chain in Go: it downloads block headers with the transactions a
    bloom filter selects, keeps the header chain of most work, stores what
    concerns the application and tells it.  This library models the client in
    Rocq and proves what makes it correct.

    ** The program, and the file that models each part

    - [util/], [interface/iutil/tx.go]: headers, outpoints, transactions with
      their serializers -- [Util]; [interface/iutil/header.go],
      [wallet/sutil/header.go]: the headers of the Elastos chain -- [ElaHeader].
    - [bloom/]: MurmurHash3 and the filter -- [Bloom]; partial Merkle trees,
      built and verified -- [Merkle] (model), [MerkleSpec], [MerkleSound],
      [MerkleBuild]; Merkle proofs -- [MerkleProof];
      the branch of one transaction -- [MerkleBranch], [MerkleBranchSpec].
    - [blockchain/difficulty.go] -- [Difficulty].
    - [database/], [blockchain/blockchain.go]: [chainDB] over a header database
      and a transaction database, and the [BlockChain] above it -- [Chain]
      (model), [ChainSpec] (laws and invariant), [Reorg], [Commit], [Locator].
    - [interface/store/], [wallet/store/headers/]: the tables in LevelDB.
      Prefixes -- [Buckets]; header stores -- [Headers]; transactions -- [Txs],
      [TxsSpec], [TxsBatch]; addresses and transaction types with the sets of
      [sdk/addrfilter.go] and [sdk/txtypesfilter.go] -- [Filters]; outpoints and
      the notification queue -- [Queue], [QueueSpec]; arbiters -- [Arbiters],
      [ArbitersSpec]; custom ids -- [CustomId], [CustomIdSpec]; the store that
      composes them and its batch -- [DataStore].
    - [interface/spvservice.go]: the service of the application, which is the
      transaction database of the chain and the state notifier of the SDK --
      [SpvService] (model), [SpvSpec], [SpvBlocks], [SpvNotify].
    - [peer/peer.go]: a connection that assembles blocks and watches for stalls
      -- [Peer], [PeerSpec].
    - [fprate/]: the false positive rate in binary64 -- [FpRate].
    - [sync/]: the manager that picks a peer, requests the inventory and feeds
      the chain -- [Sync] (model), [SyncSpec], [SyncStart], [SyncChain].
    - [sdk/service.go]: the callbacks of the peers and the loop that follows the
      transactions sent -- [Service], [ServiceSpec]; the goroutines of the
      service and of the manager with their channels -- [Chan], [ChanSpec].
    - [wallet/sutil/], [wallet/store/sqlite/]: the wallet's rows and tables,
      over the SQL statements of [Sql] -- [WalletStore], [WalletStoreSpec].
    - [spvwallet.go]: the wallet service, a transaction database of the chain
      too -- [Wallet] (model), [WalletSpec], [WalletProps]; under the block
      chain -- [WalletChain].
    - [sdk/account.go], [wallet/client/keystore.go] and [keystore_file.go],
      [interface/keystoreimpl.go]: accounts and the keystore -- [Keystore],
      [KeystoreSpec].
    - [wallet/client/wallet.go], [common.go], [database/]: the client of the
      wallet: accounts, building, signing and sending a transaction, balances
      and prompts -- [Client], [ClientSpec].
    - [wallet/client/transaction/], [account/], [wallet/]: the actions of the
      commands -- [ClientCli], [ClientCliSpec].
    - [NewSPVService], [newService], [NewWallet] and the opening of the header
      stores: both programs over the files of a data directory -- [Start],
      [StartSpec]; the service over a disk on which the program dies -- [Crash]
      (model and stores), [CrashSpec].
    - [config.go], [main.go], [sdk/crypto.go] -- [Program].

    [Prelude] has the outcomes, the state monads and the shared lemmas; [Ela]
    the interfaces of the packages outside the repository; [Keeps] the rules for
    invariants ([keeps]) and for calls that return ([total]).  [Demo],
    [Samples] and the files named [...Demo] instantiate every interface with a
    concrete implementation and apply each theorem to a concrete input.

    How the parts call each other: a [Peer] delivers blocks to the callbacks of
    the [service], which queues them for the [SyncManager]; the manager's loop
    calls [BlockChain.CommitBlock], which calls [chainDB], which calls the
    header store and, through [spvservice.PutTxs], the data store; the service
    then reports the block to [spvservice.BlockCommitted].  In the wallet
    [chainDB] calls [spvwallet.PutTxs] instead, which writes the SQLite tables;
    the client, a program of its own, reads the same tables to build a
    transaction, signs it with the keystore and hands it to the service by RPC.

    ** How the code is modelled

    A call is a function of the state: [GoM S A] takes a state and gives an
    [outcome] (a value, an error or a panic) with the state at that point, so a
    partial write before an error is visible.  A call with a loop that need not
    end is [GoL S A]: the value [None] is "out of fuel".  Errors are compared
    as the code compares them: [ErrVar] for the variables, [ErrStr] for
    messages, whose formatted arguments are mostly left out.  [uint16],
    [uint32] and [uint64] values are [Z] with their wrap-around written
    ([u16], [u32], [u64]); byte slices are lists of bytes, hashes are arrays
    with their length, maps are [gmap]s and [big.Int] is [Z].  The order in
    which a map is ranged over is a parameter ([MapOrder]): any permutation.
    Time is an argument.  A mutex makes a call atomic; the goroutines that share
    a state are step functions, and the theorems about them hold for every
    sequence of steps.  [Chan] puts the calls of the service and of the manager
    between channels of the capacity they have: a step ([sys_step]) is one
    goroutine sending, taking a turn or receiving, a goroutine that cannot has no
    step, and stopping is a step that may come at any moment.  A death is modelled by a
    disk that refuses everything after some more writes ([dying_LevelDB]); the
    refusal is a panic, since nothing in the program recovers from one, and what the
    disk holds then is what the next start opens.

    A component that others use is a class with laws: [HeadersDB]/[HeadersLaws]
    and [TxsDB]/[TxsLaws] (what the chain needs of its databases; the first is
    discharged by both header stores), [SyncConfig]/[SyncConfigLaws] (what the
    manager needs of the chain; discharged by the block chain in [SyncChain]),
    [LevelDB], [ElaCommon], [Sha] and their laws (libraries outside the
    repository, instantiated in [Demo] and [Samples]).

    The wallet's statements are data ([stmt], [query]) with their meaning on
    tables ([sql_exec], [sql_query]: constraints, conflicts, missing tables);
    a database engine is any state with calls that agree with it
    ([SQLiteLaws]), and [wrep] says which finite maps the tables hold.  The
    keystore runs in an environment [kenv]: the file, the operations of the disk
    that will fail, the position of the random source.  Ciphers, curves and
    JSON are classes ([ElaCrypto], [KeystoreJson]) whose laws are what the
    code relies on (deciphering undoes enciphering, reading undoes writing, a
    sub key depends on its inputs only); [sort.Sort] is a class that gives an
    ordered permutation.  The terminal is a list of what each read of the standard
    input returns and a list of passwords (a prompt reads through a buffer of its
    own and what it leaves there is lost), a command answers its exit code or last message, and a file named on the
    command line is a [fileView].  All of them are instantiated in [WalletDemo]
    and [ClientDemo].

    ** The theorems

    - The chain: [CommitBlock] keeps the headers a tree whose tip has the most
      work, reorganisations included, and what it answers on every branch
      ([CommitBlock_chain]); over a transaction database that does what the
      interface says ([TxsLaws]), the transactions stay in step with the tree
      ([CommitBlock_txs]).  Neither store of the repository takes transactions
      back ([spv_index_never_written], [wallet_DelTxs_fails]), so over them a
      reorganisation does not keep that.  Locators and common ancestors (Locator);
      the proof-of-work check (Difficulty).
    - Merkle trees: the stack machine equals a recursive parser, ends, and
      accepts only transactions of the block unless a string hashed for the
      message collides with a node of the block's tree; what a node builds is
      accepted; the branch of a transaction leads
      to the root of the header.
    - Sync: every message about a connected peer is processed to its end; the
      tables of requests are bounded; a block nobody asked for does not reach
      the chain; the manager over the block chain keeps the chain consistent
      under [TxsLaws]; when [startSync] starts and when it does not.
    - Start: over a transaction database with [TxsLaws] the chain and its
      transactions stay consistent through admissible blocks and restarts
      ([sync_survives_restarts]); what a restart of either program and a reset of
      the wallet keep.
    - Deaths: killed at any write of any call, the program starts again with a
      tree that holds its tip and every header it had
      ([headers_survive_deaths]), and so does the sync manager with its peers,
      whatever the transaction database does ([sync_survives_deaths]); the tables
      of the service change in one write
      ([service_writes_once]); but a block's transactions are written after its
      header, and a death in between loses them ([death_loses_transactions]).
    - Goroutines: every goroutine that waits has a token coming while the manager
      runs ([tokens_balance]), which need not be the token of its own block
      ([onBlock_takes_token]); what a stop leaves waiting for ever
      ([stop_strands], [peer_request_answered]).
    - Peers: a delivered block is complete, and a download completes.
    - The service: what [PutTxs] stores and queues, what a verified proof
      proves, which callbacks a queued transaction makes; the states of a sent
      transaction.
    - The tables: each refines a finite map or set, with round trips.
    - The wallet: [PutTxs] refines an update of maps ([wallet_PutTxs_spec]),
      what was stored reads back, the filter covers the store; and what fails:
      [DelTxs] always, whose statements are then undone, so a reorganisation too
      ([wallet_reorg_fails]).
    - The keystore: whatever accounts are made and passwords changed, the file
      opens with the last password to the same accounts ([keystore_history]);
      what an unverified password and a fault of the disk do.
    - The client: the coins a transaction spends, what it pays and returns
      ([createTransaction_spec]), sums that wrap, coins spent twice, balances,
      prompts, signatures, new accounts; the commands' files and key lists.
    - Behaviour that is probably not meant is stated as a theorem too: the
      height index that is never written ([spv_index_never_written]), a
      reorganisation that loses the tip's transactions
      ([CommitBlock_short_reorg]), a rejected block that is announced
      ([onBlock_confirms_unrequested]), a spent coin that stays in the wallet
      ([client_spends_again]), a proof of work that serves twice
      ([replayed_work]), a loop that does not end
      ([treeDepth_diverges]) and others.

    ** Bounds and fuel

    [CheckMerkleBlock] has fuel for two visits of every node a flag bit can
    create ([CheckMerkleBlock_spec] proves it enough for messages of at most
    2^31 transactions; above that [treeDepth] itself diverges, and the callers
    [blockMessage] and [VerifyTransaction] treat a call that does not return as
    one that does not reach the next statement, a panic).  The loops of the
    chain have as fuel the number of headers below their start and the locator
    a hundred turns; [CommitBlock_chain], [LatestBlockLocator_spec] and
    [getCommonAncestor_lowest] prove that they return.  The theorems of the
    chain assume heights below 2^32, those of the transaction table lists of
    fewer than 2048 ids.

    ** Not modelled

    - The log files: what is written for a reader, and where.
    - The P2P server, LevelDB, the serializers, hashes and transaction types of
      the Elastos node: outside the repository, interfaces here.
    - The declarations of Go interfaces ([interface.go] of each package): the
      model has the values behind them, and a class where a component is proved
      against one.
    - [NewCommand] of the client's commands and the layout of what they print:
      data for the library that parses the command line, and text.
    - Of [Start], [Stop], [Close] and [UpdateFilter], the calls of the P2P server
      and the closing of the files; what [Start] and [Stop] do to the loops is in
      [Chan], which takes the goroutines of the peers as any calls in any order.
    - Files that another program changes; a death inside a single write of LevelDB
      or of SQLite, which those libraries document as atomic.
    - The sequential theorems about [onBlock] and [onTx] (Service) let a call of one peer
      run to its end before the next; [Chan] is without that assumption.
    - Two processes on one database at a time: a statement of the client runs
      between two calls of the service, never within one. *)
From stdpp Require Export prelude countable gmap list strings.
From Stdlib Require Export ZArith Lia.
From Stdlib Require Export Strings.Byte.

#[global] Open Scope Z_scope.

(** ** Go errors, panics and the outcome of a call *)

(** An error value of Go: a package-level sentinel compared by identity
    ([io.EOF], [leveldb.ErrNotFound], [OrphanBlockError]) or a fresh error
    carrying a message. *)
Inductive goerr :=
  | ErrVar (name : string)
  | ErrStr (text : string).

#[global] Instance goerr_eq_dec : EqDecision goerr.
Proof. solve_decision. Defined.

Definition EOF : goerr := ErrVar "io.EOF".

(** A call returns a value, returns an error, or panics (index or slice out of
    range, nil dereference, negative [make]). *)
Inductive outcome (A : Type) : Type :=
  | Ok (a : A)
  | Err (e : goerr)
  | Panic.
Arguments Ok {A} a.
Arguments Err {A} e.
Arguments Panic {A}.

#[global] Instance outcome_eq_dec `{EqDecision A} : EqDecision (outcome A).
Proof. solve_decision. Defined.

#[global] Instance outcome_ret : MRet outcome := λ A a, Ok a.
#[global] Instance outcome_bind : MBind outcome := λ A B f o,
  match o with Ok a => f a | Err e => Err e | Panic => Panic end.
#[global] Instance outcome_fmap : FMap outcome := λ A B f o,
  match o with Ok a => Ok (f a) | Err e => Err e | Panic => Panic end.

(** A value that must be there: a nil pointer or an out-of-range index panics. *)
Definition or_panic {A} (o : option A) : outcome A :=
  match o with Some a => Ok a | None => Panic end.

Definition returns {A} (o : outcome A) : Prop :=
  match o with Panic => False | _ => True end.

Definition is_ok {A} (o : outcome A) : bool :=
  match o with Ok _ => true | _ => false end.

Lemma outcome_bind_Ok {A B} (f : A → outcome B) o b :
  (o ≫= f) = Ok b ↔ ∃ a, o = Ok a ∧ f a = Ok b.
Proof. destruct o; naive_solver. Qed.

Lemma or_panic_Ok {A} (o : option A) a : or_panic o = Ok a ↔ o = Some a.
Proof. destruct o; naive_solver. Qed.

(** ** Stateful calls

    [GoM S A] is a call that reads and updates a state [S]; the updates made
    before an error or a panic stay, as they do in Go. *)
Definition GoM (S A : Type) : Type := S → outcome A * S.

#[global] Instance GoM_ret S : MRet (GoM S) := λ A a s, (Ok a, s).
#[global] Instance GoM_bind S : MBind (GoM S) := λ A B f m s,
  match m s with
  | (Ok a, s') => f a s'
  | (Err e, s') => (Err e, s')
  | (Panic, s') => (Panic, s')
  end.

Definition getS {S} : GoM S S := λ s, (Ok s, s).
Definition putS {S} (s : S) : GoM S unit := λ _, (Ok (), s).
Definition modify {S} (f : S → S) : GoM S unit := λ s, (Ok (), f s).
Definition throw {S A} (e : goerr) : GoM S A := λ s, (Err e, s).
Definition lift {S A} (o : outcome A) : GoM S A := λ s, (o, s).

(** [x, err := m]: the caller looks at the error itself. *)
Definition try {S A} (m : GoM S A) : GoM S (goerr + A) := λ s,
  match m s with
  | (Ok a, s') => (Ok (inr a), s')
  | (Err e, s') => (Ok (inl e), s')
  | (Panic, s') => (Panic, s')
  end.

(** Run a call on a component of a larger state. *)
Definition zoom {S T A} (get : S → T) (set : T → S → S) (m : GoM T A) : GoM S A := λ s,
  let '(o, t) := m (get s) in (o, set t s).

(** [for _, x := range l { f x }], leaving the loop on the first error. *)
Fixpoint forM {S A} (l : list A) (f : A → GoM S unit) : GoM S unit :=
  match l with
  | [] => mret ()
  | x :: l' => f x ≫= λ _, forM l' f
  end.

Lemma GoM_bind_Ok {S A B} (f : A → GoM S B) (m : GoM S A) s b s' :
  (m ≫= f) s = (Ok b, s') ↔ ∃ a s1, m s = (Ok a, s1) ∧ f a s1 = (Ok b, s').
Proof.
  unfold mbind, GoM_bind. destruct (m s) as [[a|e|] s1]; naive_solver.
Qed.

(** An invariant of the state kept by every call of a loop is kept by the loop,
    however it ends. *)
Lemma forM_invariant {S A} (I : S → Prop) (f : A → GoM S unit) l s :
  (∀ x s, x ∈ l → I s → I (f x s).2) → I s → I (forM l f s).2.
Proof.
  revert s; induction l as [|x l IH]; intros s Hf Hs; [done|].
  simpl. unfold mbind, GoM_bind.
  pose proof (Hf x s ltac:(set_solver) Hs) as H1.
  destruct (f x s) as [[[]|e|] s1]; simpl in *; [|done|done].
  apply IH; [|done]. intros y s2 Hy; apply Hf; set_solver.
Qed.

(** Calls that contain a loop without a bound of its own: [None] when the fuel
    given to the loop is used up, that is when the call has not returned. *)
Notation GoL S A := (GoM S (option A)).
Definition bindL {S A B} (m : GoL S A) (f : A → GoL S B) : GoL S B :=
  m ≫= λ o, match o with Some a => f a | None => mret None end.
Definition done_ {S A} (m : GoM S A) : GoL S A := a ← m; mret (Some a).
Notation "x ←ₗ m ; k" := (bindL m (λ x, k)) (at level 20, m at level 100, k at level 200, only parsing).
(** [x, err := m] for such a call. *)
Definition tryL {S A} (m : GoL S A) : GoL S (goerr + A) :=
  r ← try m;
  mret (match r with inl e => Some (inl e) | inr (Some a) => Some (inr a) | inr None => None end).

Section zoom.
Context {S T A B : Type} (get : S → T) (set : T → S → S).
Lemma zoom_run (m : GoM T A) s o t : m (get s) = (o, t) → zoom get set m s = (o, set t s).
Proof. intros Hm. unfold zoom. by rewrite Hm. Qed.
End zoom.

(** Running the first call of a sequence. *)
Lemma bind_run {S A B} (m : GoM S A) (f : A → GoM S B) s a s' :
  m s = (Ok a, s') → (m ≫= f) s = f a s'.
Proof. intros Hm. unfold mbind, GoM_bind. by rewrite Hm. Qed.
Lemma bind_run_err {S A B} (m : GoM S A) (f : A → GoM S B) s e s' :
  m s = (Err e, s') → (m ≫= f) s = (Err e, s').
Proof. intros Hm. unfold mbind, GoM_bind. by rewrite Hm. Qed.
Lemma bindL_run {S A B} (m : GoL S A) (f : A → GoL S B) s a s' :
  m s = (Ok (Some a), s') → bindL m f s = f a s'.
Proof. intros Hm. unfold bindL. by rewrite (bind_run m _ s (Some a) s'). Qed.
Lemma try_run {S A} (m : GoM S A) s a s' : m s = (Ok a, s') → try m s = (Ok (inr a), s').
Proof. intros Hm. unfold try. by rewrite Hm. Qed.
Lemma try_run_err {S A} (m : GoM S A) s e s' : m s = (Err e, s') → try m s = (Ok (inl e), s').
Proof. intros Hm. unfold try. by rewrite Hm. Qed.
Lemma done_run {S A} (m : GoM S A) s a s' : m s = (Ok a, s') → done_ m s = (Ok (Some a), s').
Proof. intros Hm. unfold done_. by rewrite (bind_run m _ s a s'). Qed.
Lemma tryL_run {S A} (m : GoL S A) s a s' :
  m s = (Ok (Some a), s') → tryL m s = (Ok (Some (inr a)), s').
Proof. intros Hm. unfold tryL. by rewrite (bind_run _ _ s (inr (Some a)) s') by (by apply try_run). Qed.

(** ** Machine integers

    A value of an unsigned type of width [w] is a [Z] in [[0, 2^w)]; every
    arithmetic result is reduced into it. *)
Definition u8 (z : Z) : Z := z mod 2 ^ 8.
Definition u16 (z : Z) : Z := z mod 2 ^ 16.
Definition u32 (z : Z) : Z := z mod 2 ^ 32.
Definition u64 (z : Z) : Z := z mod 2 ^ 64.
Definition i64 (z : Z) : Z := (z + 2 ^ 63) mod 2 ^ 64 - 2 ^ 63.

(** [x << s] on a [uint32]: the bits shifted out are lost, and a shift by 32 or
    more gives 0. *)
Definition shl32 (x s : Z) : Z := u32 (Z.shiftl x s).

Definition fits (w z : Z) : Prop := 0 ≤ z < 2 ^ w.
#[global] Instance fits_dec w z : Decision (fits w z).
Proof. unfold fits. apply _. Defined.

Lemma u32_fits z : fits 32 (u32 z).
Proof. unfold fits, u32. apply Z.mod_pos_bound. lia. Qed.
Lemma u32_small z : fits 32 z → u32 z = z.
Proof. intros. unfold u32. by apply Z.mod_small. Qed.
Lemma u64_small z : fits 64 z → u64 z = z.
Proof. intros. unfold u64. by apply Z.mod_small. Qed.
Lemma u64_fits z : fits 64 (u64 z).
Proof. unfold fits, u64. apply Z.mod_pos_bound. lia. Qed.
Lemma u16_fits z : fits 16 (u16 z).
Proof. unfold fits, u16. apply Z.mod_pos_bound. lia. Qed.
Lemma u16_small z : fits 16 z → u16 z = z.
Proof. intros. unfold u16. by apply Z.mod_small. Qed.
Lemma i64_fits z : - 2 ^ 63 ≤ i64 z < 2 ^ 63.
Proof.
  unfold i64. pose proof (Z.mod_pos_bound (z + 2 ^ 63) (2 ^ 64)). lia.
Qed.
Lemma i64_small z : - 2 ^ 63 ≤ z < 2 ^ 63 → i64 z = z.
Proof. intros. unfold i64. rewrite Z.mod_small; lia. Qed.
(** Reading back as signed what was written as unsigned. *)
Lemma i64_u64 z : - 2 ^ 63 ≤ z < 2 ^ 63 → i64 (u64 z) = z.
Proof.
  intros. unfold i64, u64. rewrite Zplus_mod_idemp_l.
  rewrite Z.mod_small; lia.
Qed.

(** ** Bits of a power of two *)
Lemma land_pow2_small x d : 0 ≤ d → 0 ≤ x < 2 ^ d → Z.land x (2 ^ d) = 0.
Proof.
  intros Hd Hx. apply Z.bits_inj'. intros n Hn.
  rewrite Z.land_spec, Z.pow2_bits_eqb, Z.bits_0 by lia.
  destruct (Z.eqb_spec d n) as [<-|]; [|by rewrite andb_false_r].
  rewrite andb_true_r. destruct (decide (x = 0)) as [->|]; [apply Z.bits_0|].
  apply Z.bits_above_log2; [lia|]. apply Z.log2_lt_pow2; lia.
Qed.
Lemma lor_pow2_small x d : 0 ≤ d → 0 ≤ x < 2 ^ d → Z.lor x (2 ^ d) = x + 2 ^ d.
Proof.
  intros Hd Hx. pose proof (land_pow2_small x d Hd Hx).
  by rewrite <-Z.lxor_lor, Z.add_nocarry_lxor.
Qed.
Lemma lxor_pow2_add x d : 0 ≤ d → 0 ≤ x < 2 ^ d → Z.lxor (x + 2 ^ d) (2 ^ d) = x.
Proof.
  intros Hd Hx. rewrite Z.add_nocarry_lxor by (by apply land_pow2_small).
  by rewrite Z.lxor_assoc, Z.lxor_nilpotent, Z.lxor_0_r.
Qed.
Lemma land_pow2_add x d : 0 ≤ d → 0 ≤ x < 2 ^ d → Z.land (x + 2 ^ d) (2 ^ d) = 2 ^ d.
Proof.
  intros Hd Hx. rewrite <-(lor_pow2_small x d) by done.
  rewrite Z.land_lor_distr_l, land_pow2_small by done. by rewrite Z.land_diag.
Qed.
Lemma land_1 x : Z.land x 1 = x mod 2.
Proof. apply (Z.land_ones x 1). lia. Qed.
Lemma lor_1_even x : x mod 2 = 0 → Z.lor x 1 = x + 1.
Proof.
  intros H. rewrite <-Z.lxor_lor by (by rewrite land_1).
  symmetry. apply Z.add_nocarry_lxor. by rewrite land_1.
Qed.
Lemma lor_1_odd x : x mod 2 = 1 → Z.lor x 1 = x.
Proof.
  intros H. assert (He : (x - 1) mod 2 = 0) by (rewrite Zminus_mod, H; done).
  assert (Hx : Z.lor (x - 1) 1 = x) by (rewrite lor_1_even by done; lia).
  rewrite <-Hx at 1. by rewrite <-Z.lor_assoc, Z.lor_diag.
Qed.
Lemma shl1_pow2 e : 0 ≤ e → Z.shiftl 1 e = 2 ^ e.
Proof. intros. rewrite Z.shiftl_mul_pow2 by lia. lia. Qed.
Lemma shl32_1 e : 0 ≤ e < 32 → shl32 1 e = 2 ^ e.
Proof.
  intros. unfold shl32. rewrite shl1_pow2 by lia. apply u32_small.
  split; [lia|]. apply Z.pow_lt_mono_r; lia.
Qed.
Lemma shl32_1_big e : 32 ≤ e → shl32 1 e = 0.
Proof.
  intros. unfold shl32, u32. rewrite shl1_pow2 by lia.
  replace e with (32 + (e - 32)) by lia.
  rewrite Z.pow_add_r by lia. rewrite Z.mul_comm. apply Z_mod_mult.
Qed.

(** ** Bytes *)
Notation bytes := (list byte).

Definition Z_of_byte (b : byte) : Z := Z.of_N (Byte.to_N b).
Definition byte_of_Z (z : Z) : byte := default x00 (Byte.of_N (Z.to_N (z mod 256))).

#[global] Instance byte_eq_dec : EqDecision byte := Byte.byte_eq_dec.
#[global] Program Instance byte_countable : Countable byte :=
  inj_countable Byte.to_N Byte.of_N _.
Next Obligation. apply Byte.of_to_N. Qed.

Lemma Z_of_byte_range b : 0 ≤ Z_of_byte b < 256.
Proof. destruct b; cbv; split; congruence. Qed.

Lemma Z_of_byte_of_Z z : Z_of_byte (byte_of_Z z) = z mod 256.
Proof.
  unfold Z_of_byte, byte_of_Z.
  pose proof (Z.mod_pos_bound z 256 ltac:(lia)).
  destruct (Byte.of_N (Z.to_N (z mod 256))) eqn:E; simpl.
  - apply Byte.to_of_N in E. rewrite E, Z2N.id; lia.
  - apply Byte.of_N_None_iff in E. lia.
Qed.

Lemma byte_of_Z_of_byte b : byte_of_Z (Z_of_byte b) = b.
Proof.
  pose proof (Z_of_byte_range b). unfold byte_of_Z.
  rewrite Z.mod_small by lia. unfold Z_of_byte.
  by rewrite N2Z.id, Byte.of_to_N.
Qed.

#[global] Instance Z_of_byte_inj : Inj (=) (=) Z_of_byte.
Proof. intros a b H. by rewrite <-(byte_of_Z_of_byte a), H, byte_of_Z_of_byte. Qed.

(** [encoding/binary]: little- and big-endian fixed-width integers. *)
Fixpoint le_bytes (n : nat) (z : Z) : bytes :=
  match n with
  | O => []
  | S n => byte_of_Z z :: le_bytes n (z / 256)
  end.

Fixpoint le_value (bs : bytes) : Z :=
  match bs with
  | [] => 0
  | b :: bs => Z_of_byte b + 256 * le_value bs
  end.

Definition be_bytes (n : nat) (z : Z) : bytes := reverse (le_bytes n z).
Definition be_value (bs : bytes) : Z := le_value (reverse bs).

Lemma le_bytes_length n z : length (le_bytes n z) = n.
Proof. revert z; induction n; intros; simpl; auto. Qed.

Lemma le_value_range bs : 0 ≤ le_value bs < 256 ^ Z.of_nat (length bs).
Proof.
  induction bs as [|b bs IH]; simpl le_value; [simpl; lia|].
  pose proof (Z_of_byte_range b). simpl length.
  rewrite Nat2Z.inj_succ, Z.pow_succ_r by lia. lia.
Qed.

Lemma le_value_bytes n z : le_value (le_bytes n z) = z mod 256 ^ Z.of_nat n.
Proof.
  revert z; induction n as [|n IH]; intros z; [symmetry; apply Z.mod_1_r|].
  cbn [le_bytes le_value]. rewrite IH, Z_of_byte_of_Z.
  rewrite Nat2Z.inj_succ, Z.pow_succ_r by lia.
  rewrite Z.rem_mul_r; lia.
Qed.

Lemma le_bytes_value bs : le_bytes (length bs) (le_value bs) = bs.
Proof.
  induction bs as [|b bs IH]; [done|]. cbn [length le_bytes le_value].
  pose proof (Z_of_byte_range b). f_equal.
  - rewrite <-(byte_of_Z_of_byte b) at 2. unfold byte_of_Z.
    rewrite (Z.mul_comm 256), Z_mod_plus_full. done.
  - rewrite Z.mul_comm, Z.div_add, Z.div_small by lia. by rewrite Z.add_0_l.
Qed.

Lemma be_bytes_length n z : length (be_bytes n z) = n.
Proof. unfold be_bytes. by rewrite length_reverse, le_bytes_length. Qed.
Lemma be_value_bytes n z : be_value (be_bytes n z) = z mod 256 ^ Z.of_nat n.
Proof. unfold be_value, be_bytes. by rewrite reverse_involutive, le_value_bytes. Qed.
Lemma be_bytes_value bs : be_bytes (length bs) (be_value bs) = bs.
Proof.
  unfold be_bytes, be_value. rewrite <-(length_reverse bs), le_bytes_value.
  apply reverse_involutive.
Qed.
Lemma be_value_range bs : 0 ≤ be_value bs < 256 ^ Z.of_nat (length bs).
Proof. unfold be_value. rewrite <-length_reverse. apply le_value_range. Qed.

Lemma le_bytes_inj n x y :
  0 ≤ x < 256 ^ Z.of_nat n → 0 ≤ y < 256 ^ Z.of_nat n → le_bytes n x = le_bytes n y → x = y.
Proof.
  intros Hx Hy H. apply (f_equal le_value) in H. rewrite !le_value_bytes in H.
  by rewrite !Z.mod_small in H.
Qed.
Lemma be_bytes_inj n x y :
  0 ≤ x < 256 ^ Z.of_nat n → 0 ≤ y < 256 ^ Z.of_nat n → be_bytes n x = be_bytes n y → x = y.
Proof. intros Hx Hy H%(inj reverse). by apply le_bytes_inj in H. Qed.

(** The value of an encoding that has fixed length and a value in range. *)
Lemma le_value_fits32 z : fits 32 z → le_value (le_bytes 4 z) = z.
Proof. intros. rewrite le_value_bytes. by apply Z.mod_small. Qed.
Lemma be_value_fits32 z : fits 32 z → be_value (be_bytes 4 z) = z.
Proof. intros. rewrite be_value_bytes. by apply Z.mod_small. Qed.

(** [append(pad, b...)] on the left does not change a big-endian number. *)
Lemma le_value_app bs cs :
  le_value (bs ++ cs) = le_value bs + 256 ^ Z.of_nat (length bs) * le_value cs.
Proof.
  induction bs as [|b bs IH]; [simpl; lia|].
  cbn [app le_value length]. rewrite IH, Nat2Z.inj_succ, Z.pow_succ_r by lia. lia.
Qed.
Lemma le_value_zeros n : le_value (replicate n x00) = 0.
Proof. induction n as [|n IH]; [done|]. simpl. rewrite IH. done. Qed.
Lemma be_value_pad n bs : be_value (replicate n x00 ++ bs) = be_value bs.
Proof.
  unfold be_value. rewrite reverse_app, le_value_app, reverse_replicate, le_value_zeros. lia.
Qed.

(** ** Fixed-size byte arrays ([type T [n]uint8]) *)
Record array (n : nat) := Array { arr_bytes : bytes; arr_len : bool_decide (length arr_bytes = n) }.
Arguments Array {n}.
Arguments arr_bytes {n}.
Arguments arr_len {n}.
Add Printing Constructor array.

Lemma array_eq {n} (a b : array n) : arr_bytes a = arr_bytes b → a = b.
Proof.
  destruct a as [x Hx], b as [y Hy]; simpl. intros ->. f_equal. apply proof_irrel.
Qed.
#[global] Instance arr_bytes_inj n : Inj (=) (=) (@arr_bytes n).
Proof. intros a b. apply array_eq. Qed.
#[global] Instance array_eq_dec n : EqDecision (array n).
Proof.
  refine (λ a b, cast_if (decide (arr_bytes a = arr_bytes b))).
  - by apply array_eq.
  - by intros ->.
Defined.
Lemma arr_length {n} (a : array n) : length (arr_bytes a) = n.
Proof. destruct a as [x H]. exact (bool_decide_unpack _ H). Qed.

(** The proof of a test that evaluates to [true] evaluates to [I], so that arrays
    compute to closed values. *)
Definition Is_true_of (b : bool) : b = true → Is_true b :=
  match b with true => λ _, I | false => λ H, False_ind _ (diff_false_true H) end.
Lemma resize_len n (bs : bytes) : bool_decide (length (resize n x00 bs) = n) = true.
Proof. apply bool_decide_eq_true, length_resize. Qed.
Definition resize_ok n (bs : bytes) : bool_decide (length (resize n x00 bs) = n) :=
  Is_true_of _ (resize_len n bs).

(** [var a T; copy(a[:], bs)]: at most [n] bytes are copied, the rest is zero. *)
Definition copy_array (n : nat) (bs : bytes) : array n := Array (resize n x00 bs) (resize_ok n bs).

Lemma copy_array_bytes n (a : array n) : copy_array n (arr_bytes a) = a.
Proof. apply array_eq. simpl. rewrite <-(arr_length a) at 1. apply resize_all. Qed.
Lemma arr_copy_array n bs : length bs = n → arr_bytes (copy_array n bs) = bs.
Proof. intros <-. apply resize_all. Qed.

#[global] Program Instance array_countable n : Countable (array n) :=
  inj_countable arr_bytes (λ bs, Some (copy_array n bs)) _.
Next Obligation. intros n a. cbv beta. f_equal. apply (copy_array_bytes n a). Qed.
