(* ===== verification/Ela.v ===== *)
(** * The code the repository calls but does not hold

    Interfaces of the packages outside the repository: the serializers of
    [github.com/elastos/Elastos.ELA/common] ([ElaCommon]) and the key-value
    store [github.com/syndtr/goleveldb] ([LevelDB]).  The operations are
    parameters of every definition that uses them; [ElaCommonLaws] and
    [LevelDBLaws] state the documented behaviour the theorems rely on, and the
    module [Demo] gives one concrete implementation of each, used by the
    witnesses. *)
From S2P Require Export Prelude.

(** ** Hashes and program hashes: Go byte arrays *)
Notation Uint256 := (array 32).
Notation Uint168 := (array 21).

(** [var zeroHash common.Uint256] *)
Definition zeroHash : Uint256 := copy_array 32 [].
Definition EmptyUint168 : Uint168 := copy_array 21 [].

(** ** Readers and writers

    A [bytes.Reader] is the bytes not yet read, a [bytes.Buffer] the bytes
    written so far. *)
Notation Reader := (GoM bytes).
Notation Writer := (GoM bytes unit).

(** [writes m bs]: the call appends exactly [bs] and reports no error. *)
Definition writes (m : Writer) (bs : bytes) : Prop := ∀ buf, m buf = (Ok (), buf ++ bs).
(** [reads m bs x]: on input starting with [bs] the call consumes exactly [bs]
    and returns [x]. *)
Definition reads {A} (m : Reader A) (bs : bytes) (x : A) : Prop :=
  ∀ rest, m (bs ++ rest) = (Ok x, rest).

Lemma writes_ret : writes (mret ()) [].
Proof. intros buf. by rewrite app_nil_r. Qed.
Lemma writes_bind m f b1 b2 :
  writes m b1 → writes (f ()) b2 → writes (m ≫= f) (b1 ++ b2).
Proof.
  intros H1 H2 buf. unfold mbind, GoM_bind. rewrite H1, H2. by rewrite <-app_assoc.
Qed.
Lemma reads_ret {A} (x : A) : reads (mret x) [] x.
Proof. by intros rest. Qed.
Lemma reads_bind {A B} (m : Reader A) (f : A → Reader B) b1 b2 x y :
  reads m b1 x → reads (f x) b2 y → reads (m ≫= f) (b1 ++ b2) y.
Proof.
  intros H1 H2 rest. unfold mbind, GoM_bind. by rewrite <-app_assoc, H1, H2.
Qed.
Lemma reads_bind_nil {A B} (m : Reader A) (f : A → Reader B) b x y :
  reads m b x → reads (f x) [] y → reads (m ≫= f) b y.
Proof. intros. rewrite <-(app_nil_r b). by eapply reads_bind. Qed.

(** Reading [n] elements with the same reader. *)
Fixpoint readN {A} (n : nat) (m : Reader A) : Reader (list A) :=
  match n with
  | O => mret []
  | S n => x ← m; xs ← readN n m; mret (x :: xs)
  end.

Lemma writes_forM {A} (f : A → Writer) (e : A → bytes) l :
  (∀ x, x ∈ l → writes (f x) (e x)) → writes (forM l f) (l ≫= e).
Proof.
  induction l as [|x l IH]; intros H; [apply writes_ret|].
  simpl. apply writes_bind; [apply H; set_solver|]. apply IH; set_solver.
Qed.
Lemma reads_readN {A} (m : Reader A) (e : A → bytes) l :
  (∀ x, x ∈ l → reads m (e x) x) → reads (readN (length l) m) (l ≫= e) l.
Proof.
  induction l as [|x l IH]; intros H; [apply reads_ret|].
  simpl. eapply reads_bind; [apply H; set_solver|].
  eapply reads_bind_nil; [apply IH; set_solver|]. apply reads_ret.
Qed.

Create HintDb codec.
#[export] Hint Resolve writes_ret writes_bind reads_ret reads_bind reads_bind_nil : codec.

(** A pair of a writer and a reader of one type. *)
Record codec (A : Type) := Codec { wr : A → Writer; rd : Reader A }.
Arguments Codec {A}.
Arguments wr {A}.
Arguments rd {A}.

Definition codec_ok {A} (c : codec A) (P : A → Prop) : Prop :=
  ∀ x, P x → ∃ bs, writes (wr c x) bs ∧ reads (rd c) bs x.

(** ** [Elastos.ELA/common] and the constants of [Elastos.ELA/elanet/pact] *)
Class ElaCommon := {
  Uint8C : codec Z;                      (* WriteUint8 / ReadUint8 *)
  Uint16C : codec Z;                     (* WriteUint16 / ReadUint16 *)
  Uint32C : codec Z;                     (* WriteUint32 / ReadUint32 *)
  Uint64C : codec Z;                     (* WriteUint64 / ReadUint64 *)
  WriteVarUint : Z → Writer;
  ReadVarUint : Z → Reader Z;            (* the limit, 0 for none *)
  WriteVarBytes : bytes → Writer;
  ReadVarBytes : Z → Reader bytes;       (* the limit *)
  VarStringC : codec bytes;              (* WriteVarString / ReadVarString *)
  Hash256C : codec Uint256;              (* Uint256.Serialize / Deserialize *)
  Hash168C : codec Uint168;              (* Uint168.Serialize / Deserialize *)
  Fixed64C : codec Z;                    (* Fixed64.Serialize / Deserialize *)
  (* one item of WriteElements / ReadElements, which go through their
     arguments in order *)
  ElemHashC : codec Uint256;
  Elem16C : codec Z;
  Elem32C : codec Z;
  MaxTxPerBlock : Z;
  MaxBlockContextSize : Z;
  MaxVarStringLength : Z;
}.

Definition fits64s (z : Z) : Prop := - 2 ^ 63 ≤ z < 2 ^ 63.

Class ElaCommonLaws (E : ElaCommon) : Prop := {
  Uint8C_ok : codec_ok Uint8C (fits 8);
  Uint16C_ok : codec_ok Uint16C (fits 16);
  Uint32C_ok : codec_ok Uint32C (fits 32);
  Uint64C_ok : codec_ok Uint64C (fits 64);
  VarUint_ok : codec_ok (Codec WriteVarUint (ReadVarUint 0)) (fits 64);
  VarBytes_ok max : fits 32 max →
    codec_ok (Codec WriteVarBytes (ReadVarBytes max)) (λ bs, Z.of_nat (length bs) ≤ max);
  VarString_ok : codec_ok VarStringC (λ bs, Z.of_nat (length bs) ≤ MaxVarStringLength);
  Hash256C_ok : codec_ok Hash256C (λ _, True);
  Hash168C_ok : codec_ok Hash168C (λ _, True);
  Fixed64C_ok : codec_ok Fixed64C fits64s;
  ElemHashC_ok : codec_ok ElemHashC (λ _, True);
  Elem16C_ok : codec_ok Elem16C (fits 16);
  Elem32C_ok : codec_ok Elem32C (fits 32);
  MaxTxPerBlock_fits : fits 32 MaxTxPerBlock;
}.

(** ** Hash functions: [common.Sha256D] and Go's [crypto/sha256] *)
Class Sha := {
  Sha256D : bytes → Uint256;
  Sum256 : bytes → Uint256;
}.

(** [msg.MerkleBlock], as the peer-to-peer layer hands it over. *)
Record MerkleBlock (H : Type) := mkMerkleBlock {
  mb_Header : H;
  mb_Transactions : Z;
  mb_Hashes : list Uint256;
  mb_Flags : bytes;
}.
Arguments mkMerkleBlock {H}.
Arguments mb_Header {H}.
Arguments mb_Transactions {H}.
Arguments mb_Hashes {H}.
Arguments mb_Flags {H}.

(** ** Transactions: [Elastos.ELA/core/types]

    The data of a transaction the repository looks at.  The kinds the source
    switches on have a constructor; every other kind is carried by its code. *)
Inductive TxType :=
  | CoinBase | RevertToPOW | RevertToDPOS | NextTurnDPOSInfo
  | ReturnSideChainDepositCoin | CRCProposal | ProposalResult
  | TxTypeOther (code : Z).
#[global] Instance TxType_eq_dec : EqDecision TxType.
Proof. solve_decision. Defined.

Inductive OutputType := OTReturnSideChainDepositCoin | OTOther.
#[global] Instance OutputType_eq_dec : EqDecision OutputType.
Proof. solve_decision. Defined.

Inductive OutputPayload :=
  | ReturnSideChainDeposit (GenesisBlockAddress : bytes) (DepositTransactionHash : Uint256)
  | OutputPayloadOther.

Record Output := mkOutput {
  ProgramHash : Uint168;
  OutValue : Z;
  OutputLock : Z;
  OutType : OutputType;
  OutPayload : OutputPayload;
}.

Inductive ProposalType := ReserveCustomID | ReceiveCustomID | ChangeCustomIDFee | ProposalOther.
#[global] Instance ProposalType_eq_dec : EqDecision ProposalType.
Proof. solve_decision. Defined.

Record CRCProposalPayload := mkCRCProposal {
  cp_ProposalType : ProposalType;
  cp_ReservedCustomIDList : list bytes;
  cp_ReceivedCustomIDList : list bytes;
  cp_ReceiverDID : Uint168;
  cp_RateOfCustomIDFee : Z;
  cp_EIDEffectiveHeight : Z;
  cp_Hash : Z → Uint256;               (* by payload version *)
}.

Record ProposalResultItem := mkProposalResult {
  pr_ProposalHash : Uint256;
  pr_ProposalType : ProposalType;
  pr_Result : bool;
}.

Inductive Payload :=
  | PRevertToPOW (WorkingHeight : Z)
  | PRevertToDPOS (WorkHeightInterval : Z)
  | PNextTurnDPOSInfo (WorkingHeight : Z) (CRPublicKeys DPOSPublicKeys : list bytes)
  | PReturnSideChainDepositCoin
  | PCRCProposal (p : CRCProposalPayload)
  | PRecordProposalResult (ProposalResults : list ProposalResultItem)
  | POther.

(** [interfaces.Transaction]; an input is the outpoint it spends. *)
Class ElaTransaction (T : Type) := {
  etx_Hash : T → Uint256;
  etx_TxType : T → TxType;
  etx_PayloadVersion : T → Z;
  etx_Payload : T → Payload;
  etx_Outputs : T → list Output;
  etx_Inputs : T → list (Uint256 * Z);
  etx_Serialize : T → Writer;
  (* GetTransactionByBytes followed by Deserialize *)
  etx_Deserialize : Reader T;
  (* uint8(tx.TxType()) *)
  TxTypeCode : TxType → Z;
}.

(** ** [goleveldb] *)
Inductive batch_op :=
  | BPut (key value : bytes)
  | BDelete (key : bytes).

#[global] Instance batch_op_eq_dec : EqDecision batch_op.
Proof. solve_decision. Defined.

(** A [leveldb.Batch]: the operations recorded, oldest first. *)
Notation batch := (list batch_op).

Definition ErrNotFound : goerr := ErrVar "leveldb.ErrNotFound".

Class LevelDB (DB : Type) := {
  ldb_Get : DB → bytes → outcome bytes;
  ldb_Put : DB → bytes → bytes → outcome DB;
  ldb_Write : DB → batch → outcome DB;
  (* the entries an iterator over BytesPrefix(p) visits, in its order *)
  ldb_Iterate : DB → bytes → list (bytes * bytes);
}.

Definition apply_op (m : gmap bytes bytes) (o : batch_op) : gmap bytes bytes :=
  match o with
  | BPut k v => <[k := v]> m
  | BDelete k => delete k m
  end.
Definition apply_batch (b : batch) (m : gmap bytes bytes) : gmap bytes bytes :=
  foldl apply_op m b.

(** The documented behaviour of a store whose disk does not fail. *)
Class LevelDBLaws (DB : Type) `{LevelDB DB} := {
  db_view : DB → gmap bytes bytes;
  ldb_Get_view db k :
    ldb_Get db k = match db_view db !! k with Some v => Ok v | None => Err ErrNotFound end;
  ldb_Put_view db k v :
    ∃ db', ldb_Put db k v = Ok db' ∧ db_view db' = <[k := v]> (db_view db);
  ldb_Write_view db b :
    ∃ db', ldb_Write db b = Ok db' ∧ db_view db' = apply_batch b (db_view db);
  ldb_Iterate_NoDup db p : NoDup (ldb_Iterate db p).*1;
  ldb_Iterate_elem db p k v :
    (k, v) ∈ ldb_Iterate db p ↔ db_view db !! k = Some v ∧ p `prefix_of` k;
}.

Section calls.
Context `{LevelDB DB}.
(** The database calls as stateful calls. *)
Definition dbGet (k : bytes) : GoM DB bytes := λ db, (ldb_Get db k, db).
Definition dbPut (k v : bytes) : GoM DB unit := λ db,
  match ldb_Put db k v with
  | Ok db' => (Ok (), db') | Err e => (Err e, db) | Panic => (Panic, db)
  end.
Definition dbWrite (b : batch) : GoM DB unit := λ db,
  match ldb_Write db b with
  | Ok db' => (Ok (), db') | Err e => (Err e, db) | Panic => (Panic, db)
  end.
Definition dbIterate (p : bytes) : GoM DB (list (bytes * bytes)) := λ db,
  (Ok (ldb_Iterate db p), db).

Context `{!LevelDBLaws DB}.
Lemma dbGet_view db k :
  dbGet k db = (match db_view db !! k with Some v => Ok v | None => Err ErrNotFound end, db).
Proof. unfold dbGet. by rewrite ldb_Get_view. Qed.
Lemma dbPut_view db k v :
  ∃ db', dbPut k v db = (Ok (), db') ∧ db_view db' = <[k := v]> (db_view db).
Proof. unfold dbPut. destruct (ldb_Put_view db k v) as (db' & -> & ?). eauto. Qed.
Lemma dbWrite_view db b :
  ∃ db', dbWrite b db = (Ok (), db') ∧ db_view db' = apply_batch b (db_view db).
Proof. unfold dbWrite. destruct (ldb_Write_view db b) as (db' & -> & ?). eauto. Qed.
End calls.

(** Deleting the listed keys, in one batch. *)
Lemma apply_batch_deletes (ks : list bytes) m k :
  apply_batch (BDelete <$> ks) m !! k = if decide (k ∈ ks) then None else m !! k.
Proof.
  revert m; induction ks as [|k0 ks IH]; intros m; [done|].
  unfold apply_batch in *. cbn [fmap list_fmap foldl apply_op]. rewrite IH.
  repeat case_decide; try done; try set_solver.
  - apply elem_of_cons in H0 as [->|]; [apply lookup_delete_eq|done].
  - rewrite lookup_delete_ne; [done|]. intros ->; set_solver.
Qed.

Lemma apply_batch_app b1 b2 m : apply_batch (b1 ++ b2) m = apply_batch b2 (apply_batch b1 m).
Proof. apply foldl_app. Qed.
