(* ===== verification/Demo.v ===== *)
(** * One concrete implementation of the outside interfaces

    Little-endian serializers, a length-prefixed variable integer and an
    in-memory map as the key-value store.  Nothing in the development depends
    on these choices: they show that the laws of [Ela] can hold, and let the
    witnesses of the theorems compute. *)
From S2P Require Import Ela.

(** [io.ReadFull] of [n] bytes. *)
Definition read_bytes (n : nat) : Reader bytes := λ bs,
  if decide (n ≤ length bs)%nat then (Ok (take n bs), drop n bs) else (Err EOF, []).
Definition write_bytes (bs : bytes) : Writer := λ buf, (Ok (), buf ++ bs).

Lemma read_bytes_reads bs : reads (read_bytes (length bs)) bs bs.
Proof.
  intros rest. unfold read_bytes. rewrite decide_True by (rewrite length_app; lia).
  by rewrite take_app_length, drop_app_length.
Qed.
Lemma write_bytes_writes bs : writes (write_bytes bs) bs.
Proof. by intros buf. Qed.
#[export] Hint Resolve read_bytes_reads write_bytes_writes : codec.

Definition le_codec (n : nat) : codec Z :=
  Codec (λ z, write_bytes (le_bytes n z)) (bs ← read_bytes n; mret (le_value bs)).
Definition le_codec64s : codec Z :=
  Codec (λ z, write_bytes (le_bytes 8 (u64 z))) (bs ← read_bytes 8; mret (i64 (le_value bs))).
Definition array_codec (n : nat) : codec (array n) :=
  Codec (λ a, write_bytes (arr_bytes a)) (bs ← read_bytes n; mret (copy_array n bs)).
Definition read_var (max : Z) : Reader bytes :=
  lb ← read_bytes 8;
  if decide (le_value lb ≤ max) then read_bytes (Z.to_nat (le_value lb))
  else throw (ErrStr "too long").
Definition var_codec (max : Z) : codec bytes :=
  Codec (λ bs, write_bytes (le_bytes 8 (Z.of_nat (length bs)) ++ bs)) (read_var max).

Lemma le_codec_ok n w : w = 8 * Z.of_nat n → codec_ok (le_codec n) (fits w).
Proof.
  intros -> x Hx. exists (le_bytes n x). split; [apply write_bytes_writes|].
  cbn [rd le_codec le_codec64s array_codec]. eapply reads_bind_nil.
  - rewrite <-(le_bytes_length n x) at 1. apply read_bytes_reads.
  - rewrite le_value_bytes. unfold fits in Hx.
    rewrite Z.mod_small; [apply reads_ret|].
    rewrite Z.pow_mul_r in Hx by lia. apply Hx.
Qed.

Lemma le_codec64s_ok : codec_ok le_codec64s fits64s.
Proof.
  intros x Hx. exists (le_bytes 8 (u64 x)). split; [apply write_bytes_writes|].
  cbn [rd le_codec le_codec64s array_codec]. eapply reads_bind_nil.
  - rewrite <-(le_bytes_length 8 (u64 x)) at 1. apply read_bytes_reads.
  - rewrite le_value_bytes. pose proof (u64_fits x) as Hu.
    rewrite Z.mod_small by exact Hu.
    rewrite i64_u64 by exact Hx. apply reads_ret.
Qed.

Lemma array_codec_ok n : codec_ok (array_codec n) (λ _, True).
Proof.
  intros a _. exists (arr_bytes a). split; [apply write_bytes_writes|].
  cbn [rd le_codec le_codec64s array_codec]. eapply reads_bind_nil.
  - rewrite <-(arr_length a) at 1. apply read_bytes_reads.
  - rewrite copy_array_bytes. apply reads_ret.
Qed.

Lemma var_codec_ok max :
  fits 32 max → codec_ok (var_codec max) (λ bs, Z.of_nat (length bs) ≤ max).
Proof.
  unfold fits. intros Hm bs Hbs. exists (le_bytes 8 (Z.of_nat (length bs)) ++ bs).
  split; [apply write_bytes_writes|]. cbn [rd var_codec]. unfold read_var.
  assert (Hv : le_value (le_bytes 8 (Z.of_nat (length bs))) = Z.of_nat (length bs)).
  { rewrite le_value_bytes. apply Z.mod_small. change (256 ^ Z.of_nat 8) with (2 ^ 64). lia. }
  eapply reads_bind.
  - rewrite <-(le_bytes_length 8 (Z.of_nat (length bs))) at 1. apply read_bytes_reads.
  - rewrite Hv, decide_True by done. rewrite Nat2Z.id. apply read_bytes_reads.
Qed.

#[export] Instance demo_common : ElaCommon := {
  Uint8C := le_codec 1;
  Uint16C := le_codec 2;
  Uint32C := le_codec 4;
  Uint64C := le_codec 8;
  WriteVarUint := wr (le_codec 8);
  ReadVarUint := λ _, rd (le_codec 8);
  WriteVarBytes := wr (var_codec 0);
  ReadVarBytes := read_var;
  VarStringC := var_codec (2 ^ 16);
  Hash256C := array_codec 32;
  Hash168C := array_codec 21;
  Fixed64C := le_codec64s;
  ElemHashC := array_codec 32;
  Elem16C := le_codec 2;
  Elem32C := le_codec 4;
  MaxTxPerBlock := 10000;
  MaxBlockContextSize := 8000000;
  MaxVarStringLength := 2 ^ 16;
}.

#[export] Instance demo_common_laws : ElaCommonLaws demo_common.
Proof.
  split.
  1-4, 12-13: by apply le_codec_ok.
  - by apply le_codec_ok.
  - intros max Hmax. apply (var_codec_ok max Hmax).
  - by apply var_codec_ok.
  - apply array_codec_ok.
  - apply array_codec_ok.
  - apply le_codec64s_ok.
  - apply array_codec_ok.
  - done.
Qed.

(** ** An in-memory key-value store *)
#[export] Instance mem_db : LevelDB (gmap bytes bytes) := {
  ldb_Get db k := match db !! k with Some v => Ok v | None => Err ErrNotFound end;
  ldb_Put db k v := Ok (<[k := v]> db);
  ldb_Write db b := Ok (apply_batch b db);
  ldb_Iterate db p := filter (λ kv, p `prefix_of` kv.1) (map_to_list db);
}.

#[export] Program Instance mem_db_laws : LevelDBLaws (gmap bytes bytes) := {
  db_view db := db;
}.
Next Obligation. done. Qed.
Next Obligation. eauto. Qed.
Next Obligation. eauto. Qed.
Next Obligation.
  intros db p. apply (NoDup_fmap_fst (filter _ _)).
  - intros k v1 v2 [_ H1%elem_of_map_to_list]%list_elem_of_filter
      [_ H2%elem_of_map_to_list]%list_elem_of_filter. congruence.
  - apply NoDup_filter, NoDup_map_to_list.
Qed.
Next Obligation.
  intros db p k v. cbn. rewrite list_elem_of_filter, elem_of_map_to_list. naive_solver.
Qed.
