(* ===== verification/Util.v ===== *)
(** * Package [util]: the data the databases store

    [util/interface.go], [util/header.go], [util/outpoint.go], [util/tx.go],
    [util/block.go], and the wrappers of [interface/iutil].  Every stored type
    has a serializer; the theorems are the round trips. *)
From S2P Require Export Ela.

(** ** The interfaces [BlockHeader], [Filter] and [Transaction] *)
Class BlockHeader (H : Type) := {
  Previous : H → Uint256;
  Bits : H → Z;
  MerkleRoot : H → Uint256;
  Hash : H → Uint256;
  PowHash : H → Uint256;
  SerializeHeader : H → Writer;
  DeserializeHeader : Reader H;
}.

(** The serializer of the header implementation round-trips. *)
Class BlockHeaderLaws (H : Type) `{BlockHeader H} : Prop := {
  BlockHeader_ok (h : H) :
    ∃ bs, writes (SerializeHeader h) bs ∧ reads DeserializeHeader bs h;
}.

(** [util.Filter]: the calls read and update the filter [F]. *)
Class FilterI (F : Type) := {
  FilterAdd : bytes → GoM F unit;
  FilterMatches : bytes → GoM F bool;
}.

Class Transaction (T : Type) := {
  TxHash : T → Uint256;
  SerializeTx : T → Writer;
  DeserializeTx : Reader T;
  MatchFilter : ∀ {F} `{FilterI F}, T → GoM F bool;
}.

(** ** [util.Header] *)
Record Header (H : Type) := mkHeader {
  BlockHeaderOf : H;
  Height : Z;
  NumTxs : Z;
  Hashes : list Uint256;
  Flags : bytes;
  TotalWork : Z;
}.
Arguments mkHeader {H}.
Arguments BlockHeaderOf {H}.
Arguments Height {H}.
Arguments NumTxs {H}.
Arguments Hashes {H}.
Arguments Flags {H}.
Arguments TotalWork {H}.

(** [Header] embeds its [BlockHeader]: the accessors are promoted. *)
Section promoted.
Context {H} `{BlockHeader H}.
Definition hdrHash (h : Header H) : Uint256 := Hash (BlockHeaderOf h).
Definition hdrPrevious (h : Header H) : Uint256 := Previous (BlockHeaderOf h).
Definition hdrBits (h : Header H) : Z := Bits (BlockHeaderOf h).
Definition hdrPowHash (h : Header H) : Uint256 := PowHash (BlockHeaderOf h).
End promoted.

(** [util.Block] *)
Record Block (H T : Type) := mkBlock { BlockHdr : Header H; Transactions : list T }.
Arguments mkBlock {H T}.
Arguments BlockHdr {H T}.
Arguments Transactions {H T}.

(** [big.Int.Bytes]: the absolute value, big-endian, without leading zeros. *)
Definition nbytes (z : Z) : nat := Z.to_nat ((Z.log2 z + 8) / 8).
Definition bigBytes (z : Z) : bytes :=
  if decide (z = 0) then [] else be_bytes (nbytes (Z.abs z)) (Z.abs z).
(** [big.Int.SetBytes] *)
Definition SetBytes (bs : bytes) : Z := be_value bs.

Lemma nbytes_bound z : 0 < z → 256 ^ (Z.of_nat (nbytes z) - 1) ≤ z < 256 ^ Z.of_nat (nbytes z).
Proof.
  intros Hz. unfold nbytes. pose proof (Z.log2_nonneg z).
  rewrite Z2Nat.id by (apply Z.div_pos; lia).
  pose proof (Z.log2_spec z Hz) as [H1 H2].
  pose proof (Z.div_mod (Z.log2 z + 8) 8) as Hd.
  pose proof (Z.mod_pos_bound (Z.log2 z + 8) 8).
  change 256 with (2 ^ 8). rewrite <-!Z.pow_mul_r by lia. split.
  - etrans; [|exact H1]. apply Z.pow_le_mono_r; lia.
  - eapply Z.lt_le_trans; [exact H2|]. apply Z.pow_le_mono_r; lia.
Qed.

Lemma nbytes_gt z n : 256 ^ Z.of_nat n ≤ z → (n < nbytes z)%nat.
Proof.
  intros Hz. assert (0 < 256 ^ Z.of_nat n) by (apply Z.pow_pos_nonneg; lia).
  pose proof (nbytes_bound z ltac:(lia)) as [_ H2].
  apply Nat.nle_gt. intros Hn.
  enough (256 ^ Z.of_nat (nbytes z) ≤ 256 ^ Z.of_nat n) by lia.
  apply Z.pow_le_mono_r; lia.
Qed.

Lemma bigBytes_value z : 0 ≤ z → SetBytes (bigBytes z) = z.
Proof.
  intros Hz. unfold SetBytes, bigBytes. case_decide as E; [by subst|].
  rewrite be_value_bytes, Z.abs_eq by lia. apply Z.mod_small.
  pose proof (nbytes_bound z). lia.
Qed.

Lemma bigBytes_length z n : 0 ≤ z < 256 ^ Z.of_nat n → (length (bigBytes z) ≤ n)%nat.
Proof.
  intros Hz. unfold bigBytes. case_decide as E; simpl; [lia|].
  rewrite be_bytes_length, Z.abs_eq by lia.
  destruct (decide (nbytes z ≤ n)%nat) as [|Hn]; [done|].
  pose proof (nbytes_bound z ltac:(lia)) as [H1 _].
  enough (256 ^ Z.of_nat n ≤ 256 ^ (Z.of_nat (nbytes z) - 1)) by lia.
  apply Z.pow_le_mono_r; lia.
Qed.

(** [r.Read(buf)] on a [bytes.Reader]: at most [n] bytes, [io.EOF] only when
    nothing is left; the rest of the buffer keeps its zeros. *)
Definition read_some (n : nat) : Reader bytes := λ bs,
  match bs with
  | [] => if decide (n = 0%nat) then (Ok [], []) else (Err EOF, [])
  | _ => (Ok (resize n x00 (take n bs)), drop n bs)
  end.

Lemma read_some_reads n bs : (0 < n)%nat → length bs = n → reads (read_some n) bs bs.
Proof.
  intros Hn <- rest. unfold read_some.
  destruct bs as [|b bs]; [simpl in Hn; lia|].
  destruct ((b :: bs) ++ rest) as [|c cs] eqn:E; [done|]. rewrite <-E.
  by rewrite take_app_length, drop_app_length, resize_all.
Qed.

Section header.
Context {H} `{BlockHeader H} `{E : ElaCommon}.

(** [make([]byte, 32-len(biBytes))] panics when the number needs more than 32
    bytes. *)
Definition WriteTotalWork (w : Z) : Writer :=
  let biBytes := bigBytes w in
  if decide (32 < length biBytes)%nat then lift Panic
  else λ buf, (Ok (), buf ++ replicate (32 - length biBytes) x00 ++ biBytes).

Definition Header_Serialize (h : Header H) : Writer :=
  SerializeHeader (BlockHeaderOf h) ≫= λ _,
  wr Uint32C (Height h) ≫= λ _,
  wr Uint32C (NumTxs h) ≫= λ _,
  WriteVarUint (Z.of_nat (length (Hashes h))) ≫= λ _,
  forM (Hashes h) (wr Hash256C) ≫= λ _,
  WriteVarBytes (Flags h) ≫= λ _,
  WriteTotalWork (TotalWork h).

(** [Header.Deserialize(data)] *)
Definition Header_Deserialize : Reader (Header H) :=
  bh ← DeserializeHeader;
  height ← rd Uint32C;
  numTxs ← rd Uint32C;
  count ← ReadVarUint 0;
  if decide (count > MaxTxPerBlock)
  then throw (ErrStr "Header.Deserialize: too many transactions to fit into a block")
  else
    hashes ← readN (Z.to_nat count) (rd Hash256C);
    flags ← ReadVarBytes MaxTxPerBlock;
    biBytes ← read_some 32;
    mret (mkHeader bh height numTxs hashes flags (SetBytes biBytes)).

(** The values the Go types and the limits of the reader allow. *)
Definition Header_wf (h : Header H) : Prop :=
  fits 32 (Height h) ∧ fits 32 (NumTxs h) ∧
  Z.of_nat (length (Hashes h)) ≤ MaxTxPerBlock ∧
  Z.of_nat (length (Flags h)) ≤ MaxTxPerBlock ∧
  0 ≤ TotalWork h < 2 ^ 256.

Lemma WriteTotalWork_writes w :
  0 ≤ w < 2 ^ 256 →
  ∃ bs, writes (WriteTotalWork w) bs ∧ length bs = 32%nat ∧ SetBytes bs = w.
Proof.
  intros Hw. unfold WriteTotalWork.
  pose proof (bigBytes_length w 32 Hw).
  exists (replicate (32 - length (bigBytes w)) x00 ++ bigBytes w).
  rewrite decide_False by lia. split; [by intros buf|]. split.
  - rewrite length_app, length_replicate. lia.
  - unfold SetBytes. rewrite be_value_pad. apply bigBytes_value; lia.
Qed.

Lemma count_fits {A} (l : list A) `{!ElaCommonLaws E} :
  Z.of_nat (length l) ≤ MaxTxPerBlock → fits 64 (Z.of_nat (length l)).
Proof. pose proof MaxTxPerBlock_fits as []. unfold fits. lia. Qed.

(** The hashes of a header or of a proof, written one after the other. *)
Lemma hashes_ok `{!ElaCommonLaws E} (c : codec Uint256) (l : list Uint256) :
  codec_ok c (λ _, True) →
  ∃ bs, writes (forM l (wr c)) bs ∧ reads (readN (length l) (rd c)) bs l.
Proof.
  intros Hc. induction l as [|x l (bs & Hw & Hr)].
  - exists []. split; [apply writes_ret|apply reads_ret].
  - destruct (Hc x) as (b & Hwx & Hrx); [done|]. exists (b ++ bs).
    split; [by apply writes_bind|]. simpl. eapply reads_bind; [done|].
    eapply reads_bind_nil; [done|]. apply reads_ret.
Qed.
End header.

(** ** [util.OutPoint] *)
Record OutPoint := NewOutPoint { TxID : Uint256; Index : Z }.

#[global] Instance OutPoint_eq_dec : EqDecision OutPoint.
Proof. solve_decision. Defined.

Definition OutPoint_wf (op : OutPoint) : Prop := fits 16 (Index op).

Section outpoint.
Context `{E : ElaCommon}.

Definition OutPoint_IsEqual (op o : OutPoint) : bool :=
  if negb (bool_decide (TxID op = TxID o)) then false
  else if negb (Index op =? Index o) then false
  else true.

Definition OutPoint_Serialize (op : OutPoint) : Writer :=
  wr ElemHashC (TxID op) ≫= λ _, wr Elem16C (Index op).
Definition OutPoint_Deserialize : Reader OutPoint :=
  id ← rd ElemHashC; index ← rd Elem16C; mret (NewOutPoint id index).

(** [buf.Bytes()]: the error of [Serialize] is dropped. *)
Definition OutPoint_Bytes (op : OutPoint) : bytes := (OutPoint_Serialize op []).2.
Definition OutPointFromBytes (value : bytes) : outcome OutPoint :=
  (OutPoint_Deserialize value).1.
End outpoint.

(** ** [util.Tx] *)
Record Tx := mkTx {
  Tx_Hash : Uint256;
  Tx_Height : Z;
  Timestamp : Z;              (* time.Time, as Unix seconds *)
  RawData : bytes;
}.

#[global] Instance Tx_eq_dec : EqDecision Tx.
Proof. solve_decision. Defined.

Section tx.
Context `{E : ElaCommon}.

(** [now] is the clock; the error of [tx.Serialize] is dropped. *)
Definition NewTx `{Transaction T} (now : Z) (tx : T) (height : Z) : Tx :=
  mkTx (TxHash tx) height now (SerializeTx tx []).2.

Definition Tx_Serialize (t : Tx) : Writer :=
  wr Hash256C (Tx_Hash t) ≫= λ _,
  wr Uint32C (Tx_Height t) ≫= λ _,
  wr Uint64C (u64 (Timestamp t)) ≫= λ _,
  WriteVarBytes (RawData t).

Definition Tx_Deserialize : Reader Tx :=
  hash ← rd Hash256C;
  height ← rd Uint32C;
  timestamp ← rd Uint64C;
  raw ← ReadVarBytes MaxBlockContextSize;
  mret (mkTx hash height (i64 timestamp) raw).

Definition Tx_wf (t : Tx) : Prop :=
  fits 32 (Tx_Height t) ∧ fits64s (Timestamp t) ∧
  Z.of_nat (length (RawData t)) ≤ MaxBlockContextSize.
End tx.

(** ** [interface/iutil]: the Elastos transaction as a [util.Transaction] *)
Section iutil.
Context {F} `{FilterI F} {T} `{ElaTransaction T} `{E : ElaCommon}.

(** The loop over the outputs: every output the filter matches adds its
    outpoint to the filter. *)
Fixpoint match_outputs (tx : T) (i : Z) (outs : list Output) (matched : bool) : GoM F bool :=
  match outs with
  | [] => mret matched
  | txOut :: outs =>
      m ← FilterMatches (arr_bytes (ProgramHash txOut));
      if negb m then match_outputs tx (i + 1) outs matched
      else
        FilterAdd (OutPoint_Bytes (NewOutPoint (etx_Hash tx) (u16 i))) ≫= λ _,
        match_outputs tx (i + 1) outs true
  end.

Fixpoint match_inputs (ins : list (Uint256 * Z)) : GoM F bool :=
  match ins with
  | [] => mret false
  | (txid, index) :: ins =>
      m ← FilterMatches (OutPoint_Bytes (NewOutPoint txid index));
      if (m : bool) then mret true else match_inputs ins
  end.

Definition iutil_MatchFilter (tx : T) : GoM F bool :=
  matched ← FilterMatches (arr_bytes (etx_Hash tx));
  matched ← match_outputs tx 0 (etx_Outputs tx) matched;
  if (matched : bool) then mret true else match_inputs (etx_Inputs tx).
End iutil.

(** [iutil.Tx] embeds the transaction and adds [MatchFilter]. *)
#[export] Instance iutil_Tx {T} `{ElaTransaction T} `{E : ElaCommon} : Transaction T := {
  TxHash := etx_Hash;
  SerializeTx := etx_Serialize;
  DeserializeTx := etx_Deserialize;
  MatchFilter F _ := iutil_MatchFilter;
}.

(** ** The round trips *)

(** Write, then read, the fields of a record one after the other. *)
Ltac write_fields := repeat (apply writes_bind; [eassumption|]).
Ltac read_field := eapply reads_bind; [eassumption|].
Ltac read_last := eapply reads_bind_nil; [eassumption|].

Section roundtrips.
Context {H} `{BlockHeader H} `{E : ElaCommon}.
Context `{!BlockHeaderLaws H} `{!ElaCommonLaws E}.

Lemma Header_ok (h : Header H) :
  Header_wf h → ∃ bs, writes (Header_Serialize h) bs ∧ reads Header_Deserialize bs h.
Proof.
  intros (Hh & Hn & Hc & Hf & Ht). destruct h as [bh height num hashes flags work]; simpl in *.
  destruct (BlockHeader_ok bh) as (b0 & Hw0 & Hr0).
  destruct (Uint32C_ok height Hh) as (b1 & Hw1 & Hr1).
  destruct (Uint32C_ok num Hn) as (b2 & Hw2 & Hr2).
  destruct (VarUint_ok _ (count_fits hashes Hc)) as (b3 & Hw3 & Hr3).
  destruct (hashes_ok Hash256C hashes Hash256C_ok) as (b4 & Hw4 & Hr4).
  destruct (VarBytes_ok MaxTxPerBlock MaxTxPerBlock_fits flags Hf) as (b5 & Hw5 & Hr5).
  destruct (WriteTotalWork_writes work Ht) as (b6 & Hw6 & Hl6 & Hv6).
  exists (b0 ++ b1 ++ b2 ++ b3 ++ b4 ++ b5 ++ b6). split.
  - unfold Header_Serialize; simpl. write_fields. done.
  - unfold Header_Deserialize. do 4 read_field.
    rewrite decide_False by lia. rewrite Nat2Z.id. do 2 read_field.
    eapply reads_bind_nil; [by apply read_some_reads; [lia|]|].
    rewrite Hv6. apply reads_ret.
Qed.

(** [Header.Deserialize] reads back exactly the header that
    [Header.Serialize] wrote, total work included, and leaves whatever follows
    it unread. *)
Theorem Header_roundtrip (h : Header H) :
  Header_wf h → ∃ bs, writes (Header_Serialize h) bs ∧ reads Header_Deserialize bs h.
Proof. apply Header_ok. Qed.

(** A total work that does not fit in 32 bytes makes [Header.Serialize]
    panic after everything before it was written. *)
Theorem Header_Serialize_overflow (h : Header H) :
  Header_wf (mkHeader (BlockHeaderOf h) (Height h) (NumTxs h) (Hashes h) (Flags h) 0) →
  2 ^ 256 ≤ TotalWork h → (Header_Serialize h []).1 = Panic.
Proof.
  intros (Hh & Hn & Hc & Hf & _) Ht. destruct h as [bh height num hashes flags work]; simpl in *.
  destruct (BlockHeader_ok bh) as (b0 & Hw0 & Hr0).
  destruct (Uint32C_ok height Hh) as (b1 & Hw1 & Hr1).
  destruct (Uint32C_ok num Hn) as (b2 & Hw2 & Hr2).
  destruct (VarUint_ok _ (count_fits hashes Hc)) as (b3 & Hw3 & Hr3).
  destruct (hashes_ok Hash256C hashes Hash256C_ok) as (b4 & Hw4 & Hr4).
  destruct (VarBytes_ok MaxTxPerBlock MaxTxPerBlock_fits flags Hf) as (b5 & Hw5 & Hr5).
  simpl in *. unfold Header_Serialize, mbind, GoM_bind; simpl.
  rewrite Hw0, Hw1, Hw2, Hw3, Hw4, Hw5. unfold WriteTotalWork.
  rewrite decide_True; [done|]. unfold bigBytes.
  rewrite decide_False by lia. rewrite be_bytes_length, Z.abs_eq by lia.
  apply nbytes_gt. lia.
Qed.

Lemma OutPoint_ok op :
  OutPoint_wf op → ∃ bs, writes (OutPoint_Serialize op) bs ∧ reads OutPoint_Deserialize bs op.
Proof.
  intros Hop. destruct op as [id index].
  destruct (ElemHashC_ok id I) as (b1 & Hw1 & Hr1).
  destruct (Elem16C_ok index Hop) as (b2 & Hw2 & Hr2).
  exists (b1 ++ b2). split.
  - unfold OutPoint_Serialize. write_fields. done.
  - unfold OutPoint_Deserialize. read_field. read_last. apply reads_ret.
Qed.

(** [OutPointFromBytes] inverts [OutPoint.Bytes], so the byte string keys
    the outpoint tables without collisions. *)
Theorem OutPoint_roundtrip (op : OutPoint) :
  OutPoint_wf op → OutPointFromBytes (OutPoint_Bytes op) = Ok op.
Proof.
  intros Hop. destruct (OutPoint_ok op Hop) as (bs & Hw & Hr).
  unfold OutPointFromBytes, OutPoint_Bytes. rewrite Hw. simpl.
  rewrite <-(app_nil_r bs). by rewrite Hr.
Qed.

Lemma OutPoint_Bytes_inj (op1 op2 : OutPoint) :
  OutPoint_wf op1 → OutPoint_wf op2 → OutPoint_Bytes op1 = OutPoint_Bytes op2 → op1 = op2.
Proof.
  intros (b1 & Hw1 & Hr1)%OutPoint_ok (b2 & Hw2 & Hr2)%OutPoint_ok.
  unfold OutPoint_Bytes. rewrite Hw1, Hw2. simpl. intros ->.
  specialize (Hr1 []); specialize (Hr2 []). congruence.
Qed.

Lemma OutPoint_IsEqual_spec (op1 op2 : OutPoint) : OutPoint_IsEqual op1 op2 = bool_decide (op1 = op2).
Proof.
  unfold OutPoint_IsEqual. destruct op1 as [t1 i1], op2 as [t2 i2]; simpl.
  destruct (bool_decide_reflect (t1 = t2)); simpl.
  - destruct (Z.eqb_spec i1 i2); simpl; symmetry; [apply bool_decide_eq_true|apply bool_decide_eq_false]; congruence.
  - symmetry; apply bool_decide_eq_false; congruence.
Qed.

Lemma Tx_ok t : Tx_wf t → fits 32 MaxBlockContextSize →
  ∃ bs, writes (Tx_Serialize t) bs ∧ reads Tx_Deserialize bs t.
Proof.
  intros (Hh & Ht & Hr) Hmax. destruct t as [hash height ts raw]; simpl in *.
  destruct (Hash256C_ok hash I) as (b0 & Hw0 & Hr0).
  destruct (Uint32C_ok height Hh) as (b1 & Hw1 & Hr1).
  destruct (Uint64C_ok (u64 ts) (u64_fits ts)) as (b2 & Hw2 & Hr2).
  destruct (VarBytes_ok MaxBlockContextSize Hmax raw Hr) as (b3 & Hw3 & Hr3).
  exists (b0 ++ b1 ++ b2 ++ b3). split.
  - unfold Tx_Serialize; simpl. write_fields. done.
  - unfold Tx_Deserialize. do 3 read_field. read_last.
    rewrite i64_u64 by exact Ht. apply reads_ret.
Qed.
End roundtrips.
