(* ===== verification/Samples.v ===== *)
(** * Sample headers and transactions

    A concrete block header, transaction and hash function that satisfy the
    interfaces of [Util] and [Ela], for the witnesses of the theorems, with the
    witnesses of [Util]. *)
From S2P Require Import Ela Demo Util.

(** A small mixing function in the role of the hash functions. *)
Definition sample_hash (bs : bytes) : Uint256 :=
  copy_array 32 (le_bytes 32 (foldl (λ a b, (a * 31 + Z_of_byte b + 1) mod 1048576) 7 bs)).
#[export] Instance sample_sha : Sha := { Sha256D := sample_hash; Sum256 := sample_hash }.

Definition h256 (z : Z) : Uint256 := copy_array 32 (le_bytes 32 z).
Definition h168 (z : Z) : Uint168 := copy_array 21 (le_bytes 21 z).

Record sample_header := mkSH {
  sh_prev : Uint256; sh_root : Uint256; sh_bits : array 4; sh_pow : Uint256;
}.
Definition mksh (prev root : Uint256) (bits pow : Z) : sample_header :=
  mkSH prev root (copy_array 4 (le_bytes 4 bits)) (h256 pow).

#[export] Instance sample_block_header : BlockHeader sample_header := {
  Previous := sh_prev;
  Bits h := le_value (arr_bytes (sh_bits h));
  MerkleRoot := sh_root;
  Hash h := sample_hash (arr_bytes (sh_prev h) ++ arr_bytes (sh_root h) ++ arr_bytes (sh_bits h));
  PowHash := sh_pow;
  SerializeHeader h :=
    wr (array_codec 32) (sh_prev h) ≫= λ _, wr (array_codec 32) (sh_root h) ≫= λ _,
    wr (array_codec 4) (sh_bits h) ≫= λ _, wr (array_codec 32) (sh_pow h);
  DeserializeHeader :=
    prev ← rd (array_codec 32); root ← rd (array_codec 32);
    bits ← rd (array_codec 4); pow ← rd (array_codec 32);
    mret (mkSH prev root bits pow);
}.

#[export] Instance sample_block_header_laws : BlockHeaderLaws sample_header.
Proof.
  split. intros [prev root bits pow].
  destruct (array_codec_ok 32 prev I) as (b0 & ? & ?).
  destruct (array_codec_ok 32 root I) as (b1 & ? & ?).
  destruct (array_codec_ok 4 bits I) as (b2 & ? & ?).
  destruct (array_codec_ok 32 pow I) as (b3 & ? & ?).
  exists (b0 ++ b1 ++ b2 ++ b3). split; simpl.
  - write_fields. done.
  - do 3 read_field. read_last. apply reads_ret.
Qed.

(** A transaction: id, kind, outputs and inputs; only the id is serialized. *)
Record sample_tx := mkST {
  st_id : Uint256; st_type : TxType; st_payload : Payload;
  st_outs : list Output; st_ins : list (Uint256 * Z);
}.
#[export] Instance sample_ela_tx : ElaTransaction sample_tx := {
  etx_Hash := st_id;
  etx_TxType := st_type;
  etx_PayloadVersion _ := 0;
  etx_Payload := st_payload;
  etx_Outputs := st_outs;
  etx_Inputs := st_ins;
  etx_Serialize t := wr (array_codec 32) (st_id t);
  etx_Deserialize := id ← rd (array_codec 32); mret (mkST id (TxTypeOther 2) POther [] []);
  TxTypeCode t := match t with
    | CoinBase => 0 | RevertToPOW => 41 | RevertToDPOS => 42 | NextTurnDPOSInfo => 14
    | ReturnSideChainDepositCoin => 51 | CRCProposal => 37 | ProposalResult => 43
    | TxTypeOther c => c end;
}.
Definition simple_tx (id : Z) (outs : list Z) (ins : list (Z * Z)) : sample_tx :=
  mkST (h256 id) (TxTypeOther 2) POther
    ((λ a, mkOutput (h168 a) 10 0 OTOther OutputPayloadOther) <$> outs)
    ((λ '(t, i), (h256 t, i)) <$> ins).

Lemma Header_roundtrip_witness :
  ∃ bs, writes (Header_Serialize (mkHeader (mksh (h256 1) (h256 2) 5 6) 7 2 [h256 3; h256 4] [x01] 1000)) bs ∧
        reads Header_Deserialize bs (mkHeader (mksh (h256 1) (h256 2) 5 6) 7 2 [h256 3; h256 4] [x01] 1000).
Proof.
  apply Header_roundtrip. split_and!; try apply (bool_decide_unpack _); vm_compute; done.
Defined.

Lemma Header_Serialize_overflow_witness :
  (Header_Serialize (mkHeader (mksh (h256 1) (h256 2) 5 6) 7 2 [h256 3] [x01] (2 ^ 256)) []).1 = Panic.
Proof.
  apply Header_Serialize_overflow; [|simpl; lia].
  split_and!; vm_compute; done.
Defined.

Lemma OutPoint_roundtrip_witness :
  OutPointFromBytes (OutPoint_Bytes (NewOutPoint (h256 9) 3)) = Ok (NewOutPoint (h256 9) 3).
Proof. apply OutPoint_roundtrip. vm_compute; done. Defined.

(** A filter that remembers the exact elements added to it. *)
Definition exact_filter : Type := list bytes.
#[export] Instance exact_FilterI : FilterI exact_filter := {
  FilterAdd b := modify (λ f : exact_filter, b :: f);
  FilterMatches b := λ f, (Ok (bool_decide (b ∈ f)), f);
}.
