(* ===== verification/Merkle.v ===== *)
(** * Package [bloom]: partial Merkle trees

    [bloom/merkleblock.go]: the tree arithmetic ([treeDepth], [inDeadZone]),
    the depth-first construction of a Merkle block ([traverseAndBuild],
    [NewMerkleBlock]) and its stack-machine verifier ([CheckMerkleBlock]).

    [parse] is the specification of the verifier: a recursive descent over the
    same flag bits and hashes.  [CheckMerkleBlock_spec] proves that the machine
    returns, without panicking, exactly what [parse] returns; soundness and
    completeness are proved about [parse]. *)
From S2P Require Import Ela Util.

(** ** Tree arithmetic on [uint32] *)

(** [for ; (1 << e) < n; e++ {}], with at most [fuel] tests; [None] when the
    loop is still running. *)
Fixpoint treeDepth_loop (fuel : nat) (e n : Z) : option Z :=
  match fuel with
  | O => None
  | S fuel => if shl32 1 e <? n then treeDepth_loop fuel (u32 (e + 1)) n else Some e
  end.

(** 32 increments are enough whenever the loop ends ([treeDepth_exact]); above
    [2^31] it never ends ([treeDepth_diverges]). *)
Definition treeDepth (n : Z) : option Z := treeDepth_loop 33 0 n.

Definition nextPowerOfTwo (n : Z) : option Z := e ← treeDepth n; Some (shl32 1 e).

(** [for pos >= h { h = h>>1 | msb; last = last>>1 | msb }; return pos > last] *)
Fixpoint inDeadZone_loop (fuel : nat) (msb pos h last : Z) : option bool :=
  match fuel with
  | O => None
  | S fuel =>
      if h <=? pos
      then inDeadZone_loop fuel msb pos (Z.lor (Z.shiftr h 1) msb) (Z.lor (Z.shiftr last 1) msb)
      else Some (last <? pos)
  end.

Definition inDeadZone (pos size : Z) : option bool :=
  msb ← nextPowerOfTwo size;
  let last := u32 (size - 1) in
  if u32 (shl32 msb 1 - 2) <? pos then Some true
  else inDeadZone_loop 34 msb pos msb last.

(** ** Hashing *)
Section hashing.
Context `{Sha}.

Definition HashMerkleBranches (left right : Uint256) : Uint256 :=
  Sha256D (arr_bytes left ++ arr_bytes right).

Definition MakeMerkleParent (left right : option Uint256) : outcome Uint256 :=
  match left, right with
  | Some l, Some r =>
      if decide (l = r) then Err (ErrStr "DUP HASH CRASH")
      else Ok (Sha256D (arr_bytes l ++ arr_bytes r))
  | None, _ => Err (ErrStr "Left child is nil")
  | Some l, None => Ok (Sha256D (arr_bytes l ++ arr_bytes l))
  end.
End hashing.

(** ** Building a Merkle block *)
Record mBlock := mkMBlock {
  NumTx : Z;
  AllHashes : list Uint256;
  FinalHashes : list Uint256;
  MatchedBits : list Z;
  mBits : list Z;
}.

Definition calcTreeWidth (numTx height : Z) : Z :=
  Z.shiftr (u32 (numTx + shl32 1 height - 1)) height.

(** [var isParent byte; for i := from; i < to && i < NumTx; i++ { isParent |= MatchedBits[i] }] *)
Fixpoint or_range (bits : list Z) (l : list Z) (isParent : Z) : outcome Z :=
  match l with
  | [] => Ok isParent
  | i :: l => b ← or_panic (bits !! Z.to_nat i); or_range bits l (Z.lor isParent b)
  end.

Definition isParentOf (m : mBlock) (height pos : Z) : outcome Z :=
  let from := shl32 pos height in
  let to := Z.min (shl32 (u32 (pos + 1)) height) (NumTx m) in
  or_range (MatchedBits m) (seqZ from (to - from)) 0.

Definition append_bit (b : Z) (m : mBlock) : mBlock :=
  mkMBlock (NumTx m) (AllHashes m) (FinalHashes m) (MatchedBits m) (mBits m ++ [b]).
Definition append_hash (h : Uint256) (m : mBlock) : mBlock :=
  mkMBlock (NumTx m) (AllHashes m) (FinalHashes m ++ [h]) (MatchedBits m) (mBits m).

Section build.
Context `{Sha}.

(** [height] counts down to the leaves. *)
Fixpoint calcHash (m : mBlock) (height : nat) (pos : Z) : outcome Uint256 :=
  match height with
  | O => or_panic (AllHashes m !! Z.to_nat pos)
  | S height' =>
      left ← calcHash m height' (u32 (pos * 2));
      right ← (if u32 (pos * 2 + 1) <? calcTreeWidth (NumTx m) (Z.of_nat height')
               then calcHash m height' (u32 (pos * 2 + 1)) else mret left);
      mret (HashMerkleBranches left right)
  end.

Fixpoint traverseAndBuild (height : nat) (pos : Z) : GoM mBlock unit :=
  m ← getS;
  isParent ← lift (isParentOf m (Z.of_nat height) pos);
  modify (append_bit isParent) ≫= λ _,
  match height with
  | S height' =>
      if negb (isParent =? 0) then
        traverseAndBuild height' (u32 (pos * 2)) ≫= λ _,
        if u32 (pos * 2 + 1) <? calcTreeWidth (NumTx m) (Z.of_nat height')
        then traverseAndBuild height' (u32 (pos * 2 + 1)) else mret ()
      else h ← lift (calcHash m height pos); modify (append_hash h)
  | O => h ← lift (calcHash m height pos); modify (append_hash h)
  end.

(** [height := 0; for calcTreeWidth(height) > 1 { height++ }] *)
Fixpoint treeHeight (fuel : nat) (numTx height : Z) : option Z :=
  match fuel with
  | O => None
  | S fuel =>
      if 1 <? calcTreeWidth numTx height then treeHeight fuel numTx (u32 (height + 1))
      else Some height
  end.

(** [Flags[i/8] |= Bits[i] << (i % 8)]; [Flags] is long enough for every [i]. *)
Fixpoint packBits (i : nat) (bits : list Z) (flags : bytes) : bytes :=
  match bits with
  | [] => flags
  | b :: bits =>
      packBits (S i) bits
        (alter (λ f, byte_of_Z (Z.lor (Z_of_byte f) (u8 (Z.shiftl b (Z.of_nat (i mod 8))))))
               (i / 8)%nat flags)
  end.

(** The loop over the transactions: the filter is asked, and may be updated,
    in order. *)
Fixpoint matchTxs {F T} `{FilterI F} `{Transaction T} (index : Z) (txs : list T) :
    GoM F (list Z * list Uint256 * list Z) :=
  match txs with
  | [] => mret ([], [], [])
  | tx :: txs =>
      matched ← MatchFilter tx;
      rest ← matchTxs (index + 1) txs;
      let '(bits, hashes, indexes) := rest in
      mret (if (matched : bool)
            then (1 :: bits, TxHash tx :: hashes, u32 index :: indexes)
            else (0 :: bits, TxHash tx :: hashes, indexes))
  end.

(** From the matched bits and transaction hashes to the message; [None]: the
    height loop does not end. *)
Definition buildMerkleBlock {H} (header : H) (hashes : list Uint256) (bits : list Z) :
    option (outcome (MerkleBlock H)) :=
  let numTx := u32 (Z.of_nat (length hashes)) in
  height ← treeHeight 33 numTx 0;
  let '(res, m) := traverseAndBuild (Z.to_nat height) 0 (mkMBlock numTx hashes [] bits []) in
  Some (_ ← res;
        Ok (mkMerkleBlock header numTx (FinalHashes m)
              (packBits 0 (mBits m) (replicate ((length (mBits m) + 7) / 8) x00)))).

Definition NewMerkleBlock {H T F} `{FilterI F} `{Transaction T} (block : Block H T) :
    GoM F (option (outcome (MerkleBlock H)) * list Z) :=
  r ← matchTxs 0 (Transactions block);
  let '(bits, hashes, indexes) := r in
  mret (buildMerkleBlock (BlockHeaderOf (BlockHdr block)) hashes bits, indexes).
End build.

(** ** Checking a Merkle block *)
Record merkleNode := mkNode { node_p : Z; node_h : option Uint256 }.

(** The variables of the loop: the stack (its top first), the transactions
    found, the position, the bit within the flag byte, and what is left of the
    message. *)
Record cmState := mkCM {
  cm_s : list merkleNode;
  cm_r : list Uint256;
  cm_pos : Z;
  cm_i : Z;
  cm_hashes : list Uint256;
  cm_flags : bytes;
}.

Section check.
Context `{Sha}.

(** Create a parent from the top of the stack alone (its sibling is past the
    last transaction). *)
Definition cm_dead (st : cmState) : outcome cmState :=
  match cm_s st with
  | [] => Panic
  | t :: s =>
      h ← MakeMerkleParent (node_h t) None;
      match s with
      | [] => Panic
      | q :: s => Ok (mkCM (mkNode (node_p q) (Some h) :: s) (cm_r st) (Z.lor (node_p q) 1)
                        (cm_i st) (cm_hashes st) (cm_flags st))
      end
  end.

(** Combine the two filled nodes [l], [t] on top of [q]. *)
Definition cm_combine (st : cmState) (t l q : merkleNode) (s : list merkleNode) :
    outcome cmState :=
  h ← MakeMerkleParent (node_h l) (node_h t);
  Ok (mkCM (mkNode (node_p q) (Some h) :: s) (cm_r st) (Z.lor (node_p q) 1)
        (cm_i st) (cm_hashes st) (cm_flags st)).

(** Make a new node from the message. *)
Definition cm_push (numTx msb : Z) (st : cmState) : outcome cmState :=
  match cm_hashes st with
  | [] => Err (ErrStr "Ran out of hashes at position %d.")
  | h :: hs =>
    match cm_flags st with
    | [] => Err (ErrStr "Ran out of flag bits.")
    | f :: fs =>
      let pos := cm_pos st in
      let set := negb (Z.land (Z_of_byte f) (Z.shiftl 1 (cm_i st)) =? 0) in
      let i' := if cm_i st + 1 =? 8 then 0 else cm_i st + 1 in
      let flags' := if cm_i st + 1 =? 8 then fs else f :: fs in
      if negb (Z.land pos msb =? 0) then
        if negb set then
          Ok (mkCM (mkNode pos (Some h) :: cm_s st) (cm_r st)
                (if negb (Z.land pos 1 =? 0) then Z.lor (Z.shiftr pos 1) msb else Z.lor pos 1)
                i' hs flags')
        else
          Ok (mkCM (mkNode pos None :: cm_s st) (cm_r st) (shl32 (Z.lxor pos msb) 1)
                i' (h :: hs) flags')
      else if numTx <=? pos then Err (ErrStr "got into an invalid txid node")
      else
        Ok (mkCM (mkNode pos (Some h) :: cm_s st) (if set then cm_r st ++ [h] else cm_r st)
              (if Z.land pos 1 =? 0 then Z.lor pos 1 else pos) i' hs flags')
    end
  end.

(** The body of the main loop; [inr] when it returns. *)
Definition cm_step (root : Uint256) (numTx msb : Z) (st : cmState) :
    option (outcome (cmState + list Uint256)) :=
  match cm_s st with
  | [mkNode _ (Some h)] =>
      Some (if decide (h = root) then Ok (inr (cm_r st))
            else Err (ErrStr "computed root %s but expect %s"))
  | _ =>
      dead ← inDeadZone (cm_pos st) numTx;
      Some (inl <$>
        (if (dead : bool) then cm_dead st
         else match cm_s st with
              | (mkNode _ (Some _) as t) :: (mkNode _ (Some _) as l) :: q :: s =>
                  cm_combine st t l q s
              | _ => cm_push numTx msb st
              end))
  end.

Fixpoint cm_run (fuel : nat) (root : Uint256) (numTx msb : Z) (st : cmState) :
    option (outcome (list Uint256)) :=
  match fuel with
  | O => None
  | S fuel =>
      r ← cm_step root numTx msb st;
      match r with
      | Ok (inl st) => cm_run fuel root numTx msb st
      | Ok (inr res) => Some (Ok res)
      | Err e => Some (Err e)
      | Panic => Some Panic
      end
  end.

(** [None]: the call does not return.  Every new node takes a flag bit and
    every node is combined at most once, so [16 * len(m.Flags) + 2] iterations
    are enough ([CheckMerkleBlock_spec]). *)
Definition CheckMerkleBlock {H} `{BlockHeader H} (m : MerkleBlock H) :
    option (outcome (list Uint256)) :=
  if mb_Transactions m =? 0 then Some (Err (ErrStr "No transactions in merkleblock"))
  else match mb_Flags m with
  | [] => Some (Err (ErrStr "No flag bits"))
  | _ =>
      msb ← nextPowerOfTwo (mb_Transactions m);
      cm_run (16 * length (mb_Flags m) + 2) (MerkleRoot (mb_Header m)) (mb_Transactions m) msb
        (mkCM [] [] (u32 (shl32 msb 1 - 2)) 0 (mb_Hashes m) (mb_Flags m))
  end.
End check.
