(* ===== verification/MerkleSpec.v ===== *)
(** * Partial Merkle trees: specification and proofs

    The positions of the tree as pairs of a row and an index, the recursive
    reference parser [parse], the simulation of the stack machine by it, and
    the theorems about [CheckMerkleBlock]. *)
From S2P Require Import Ela Util Merkle.

(** ** [treeDepth] *)

Lemma treeDepth_loop_exact fuel e d n :
  0 ≤ e ≤ d → d < 32 → n ≤ 2 ^ d → (∀ e', 0 ≤ e' < d → 2 ^ e' < n) →
  (Z.to_nat (d - e) < fuel)%nat → treeDepth_loop fuel e n = Some d.
Proof.
  revert e. induction fuel as [|fuel IH]; intros e He Hd Hn Hlt Hf; [lia|].
  simpl. rewrite shl32_1 by lia. destruct (Z.ltb_spec (2 ^ e) n) as [Hlt'|Hge].
  - assert (e ≠ d) by (intros ->; lia). rewrite u32_small by (unfold fits; lia).
    apply IH; [lia..|exact Hlt|lia].
  - f_equal. destruct (decide (e = d)) as [|]; [done|].
    specialize (Hlt e ltac:(lia)). lia.
Qed.

(** The depth as a number. *)
Definition depth (n : Z) : Z := Z.log2_up n.

Lemma depth_spec n : 1 < n → 2 ^ (depth n - 1) < n ≤ 2 ^ depth n.
Proof. intros. pose proof (Z.log2_up_spec n). unfold depth. rewrite Z.sub_1_r. lia. Qed.
Lemma depth_nonneg n : 0 ≤ depth n.
Proof. apply Z.log2_up_nonneg. Qed.
Lemma depth_le n : 1 ≤ n → n ≤ 2 ^ depth n.
Proof.
  intros. destruct (decide (n = 1)) as [->|]; [done|]. pose proof (depth_spec n). lia.
Qed.
Lemma depth_lt n e : 1 ≤ n → 0 ≤ e < depth n → 2 ^ e < n.
Proof.
  intros Hn He. destruct (decide (n = 1)) as [->|]; [change (depth 1) with 0 in He; lia|].
  pose proof (depth_spec n ltac:(lia)) as [H1 _].
  eapply Z.le_lt_trans; [|exact H1]. apply Z.pow_le_mono_r; lia.
Qed.
Lemma depth_bound n : 1 ≤ n ≤ 2 ^ 31 → depth n ≤ 31.
Proof.
  intros [H1 H2]. unfold depth.
  replace 31 with (Z.log2_up (2 ^ 31)) by apply (Z.log2_up_pow2 31 ltac:(lia)).
  by apply Z.log2_up_le_mono.
Qed.

Lemma treeDepth_depth n : 1 ≤ n ≤ 2 ^ 31 → treeDepth n = Some (depth n).
Proof.
  intros Hn. pose proof (depth_nonneg n). pose proof (depth_bound n Hn).
  apply treeDepth_loop_exact; [lia|lia|apply depth_le; lia| |lia].
  intros e He. by apply depth_lt; [lia|].
Qed.

Lemma treeDepth_loop_diverges n fuel e :
  2 ^ 31 < n < 2 ^ 32 → 0 ≤ e → treeDepth_loop fuel e n = None.
Proof.
  intros Hn. revert e. induction fuel as [|fuel IH]; intros e He; [done|]. simpl.
  assert (shl32 1 e < n).
  { destruct (decide (e < 32)); [|rewrite shl32_1_big by lia; lia].
    rewrite shl32_1 by lia. assert (2 ^ e ≤ 2 ^ 31) by (apply Z.pow_le_mono_r; lia). lia. }
  rewrite (proj2 (Z.ltb_lt _ _)) by lia. apply IH. apply u32_fits.
Qed.

Lemma nextPowerOfTwo_depth n : 1 ≤ n ≤ 2 ^ 31 → nextPowerOfTwo n = Some (2 ^ depth n).
Proof.
  intros Hn. unfold nextPowerOfTwo. rewrite treeDepth_depth by done. simpl.
  pose proof (depth_nonneg n). pose proof (depth_bound n Hn). by rewrite shl32_1 by lia.
Qed.

(** ** Positions: row [k] (0 for the leaves), index [j] *)
Section positions.
Context (D : Z) (HD : 0 ≤ D ≤ 31).

Definition half (k : Z) : Z := 2 ^ D - 2 ^ (D - k).
Definition enc (k j : Z) : Z := 2 * half k + j.

Lemma half_range k : 0 ≤ k ≤ D → 0 ≤ half k ∧ half k + 2 ^ (D - k) = 2 ^ D.
Proof.
  intros. unfold half. assert (2 ^ (D - k) ≤ 2 ^ D) by (apply Z.pow_le_mono_r; lia). lia.
Qed.
Lemma half_S k : 0 ≤ k → k + 1 ≤ D → 2 * half (k + 1) = 2 ^ D + half k.
Proof.
  intros. unfold half. replace (D - k) with (Z.succ (D - (k + 1))) by lia.
  rewrite Z.pow_succ_r by lia. lia.
Qed.
Lemma half_0 : half 0 = 0.
Proof. unfold half. rewrite Z.sub_0_r. lia. Qed.
Lemma half_D : half D = 2 ^ D - 1.
Proof. unfold half. by rewrite Z.sub_diag. Qed.
Lemma pow_D_bound : 1 ≤ 2 ^ D ≤ 2 ^ 31.
Proof. split; [apply (Z.pow_le_mono_r 2 0); lia|apply Z.pow_le_mono_r; lia]. Qed.

Lemma enc_root : enc D 0 = 2 * 2 ^ D - 2.
Proof. unfold enc. rewrite half_D. lia. Qed.

Lemma root_pos : u32 (shl32 (2 ^ D) 1 - 2) = enc D 0.
Proof.
  pose proof pow_D_bound. rewrite enc_root.
  unfold shl32. rewrite Z.shiftl_mul_pow2 by lia. unfold u32.
  rewrite Zminus_mod_idemp_l. change (2 ^ 1) with 2. rewrite Z.mul_comm.
  apply Z.mod_small. change (2 ^ 32) with (2 * 2 ^ 31). lia.
Qed.

Lemma enc_parent k j :
  0 ≤ k → k + 1 ≤ D → 0 ≤ j < 2 ^ (D - k) →
  Z.lor (Z.shiftr (enc k j) 1) (2 ^ D) = enc (k + 1) (j / 2).
Proof.
  intros Hk HkD Hj. pose proof (half_range k ltac:(lia)).
  assert (Hs : Z.shiftr (enc k j) 1 = half k + j / 2).
  { rewrite Z.shiftr_div_pow2 by lia. change (2 ^ 1) with 2. unfold enc.
    rewrite Z.mul_comm, Z.add_comm, Z.div_add by lia. lia. }
  pose proof (Z.div_mod j 2 ltac:(lia)). pose proof (Z.mod_pos_bound j 2 ltac:(lia)).
  rewrite Hs, lor_pow2_small by lia. unfold enc. rewrite half_S by lia. lia.
Qed.

(** Past the root row the same step leads beyond every position. *)
Lemma enc_parent_root j :
  0 ≤ j < 1 → Z.lor (Z.shiftr (enc D j) 1) (2 ^ D) = 2 * 2 ^ D - 1.
Proof.
  intros. assert (j = 0) as -> by lia. rewrite enc_root.
  replace (2 * 2 ^ D - 2) with ((2 ^ D - 1) * 2) by lia.
  rewrite Z.shiftr_div_pow2 by lia. change (2 ^ 1) with 2. rewrite Z.div_mul by lia.
  pose proof pow_D_bound. rewrite lor_pow2_small by lia. lia.
Qed.

Lemma enc_range k j : 0 ≤ k ≤ D → 0 ≤ j < 2 ^ (D - k) → 0 ≤ enc k j < 2 * 2 ^ D - 1.
Proof.
  intros Hk Hj. pose proof (half_range k Hk). unfold enc.
  assert (1 ≤ 2 ^ (D - k)) by (apply (Z.pow_le_mono_r 2 0); lia). lia.
Qed.

Lemma enc_leaf j : enc 0 j = j.
Proof. unfold enc. rewrite half_0. lia. Qed.

Lemma enc_upper k j :
  0 < k ≤ D → 0 ≤ j < 2 ^ (D - k) →
  ∃ x, enc k j = x + 2 ^ D ∧ x = half (k - 1) + j ∧ 0 ≤ x < 2 ^ D.
Proof.
  intros Hk Hj. exists (half (k - 1) + j).
  pose proof (half_range (k - 1) ltac:(lia)) as [? Hh].
  replace (D - (k - 1)) with (Z.succ (D - k)) in Hh by lia.
  rewrite Z.pow_succ_r in Hh by lia.
  pose proof (half_S (k - 1)) as HS. rewrite Z.sub_add in HS.
  unfold enc. rewrite HS by lia. lia.
Qed.

Lemma enc_msb_upper k j :
  0 < k ≤ D → 0 ≤ j < 2 ^ (D - k) → Z.land (enc k j) (2 ^ D) = 2 ^ D.
Proof.
  intros Hk Hj. destruct (enc_upper k j Hk Hj) as (x & -> & _ & Hx).
  by apply land_pow2_add; [lia|].
Qed.
Lemma enc_msb_leaf j : 0 ≤ j < 2 ^ D → Z.land (enc 0 j) (2 ^ D) = 0.
Proof. intros. rewrite enc_leaf. by apply land_pow2_small; [lia|]. Qed.

Lemma enc_child k j :
  0 < k ≤ D → 0 ≤ j < 2 ^ (D - k) → shl32 (Z.lxor (enc k j) (2 ^ D)) 1 = enc (k - 1) (2 * j).
Proof.
  intros Hk Hj. destruct (enc_upper k j Hk Hj) as (x & -> & -> & Hx).
  rewrite lxor_pow2_add by lia. unfold shl32. rewrite Z.shiftl_mul_pow2 by lia.
  pose proof pow_D_bound. rewrite u32_small; [unfold enc; lia|].
  unfold fits. change (2 ^ 32) with (2 * 2 ^ 31). lia.
Qed.

Lemma enc_mod k j : enc k j mod 2 = j mod 2.
Proof. unfold enc. by rewrite Z.add_comm, Z.mul_comm, Z_mod_plus_full. Qed.
Lemma enc_lor_even k j : j mod 2 = 0 → Z.lor (enc k j) 1 = enc k (j + 1).
Proof. intros. rewrite lor_1_even by (by rewrite enc_mod). unfold enc. lia. Qed.
Lemma enc_lor_odd k j : j mod 2 = 1 → Z.lor (enc k j) 1 = enc k j.
Proof. intros. by rewrite lor_1_odd by (by rewrite enc_mod). Qed.
End positions.

(** ** The dead zone *)

(** A node of row [k] is alive when it has a transaction below it. *)
Definition alive (N k j : Z) : bool := j <=? (N - 1) / 2 ^ k.

Section dead.
Context (N : Z) (HN : 1 ≤ N ≤ 2 ^ 31).
Notation D := (depth N).

Lemma D_range : 0 ≤ D ≤ 31.
Proof. split; [apply depth_nonneg|by apply depth_bound]. Qed.
Lemma last_range k : 0 ≤ k ≤ D → 0 ≤ (N - 1) / 2 ^ k < 2 ^ (D - k).
Proof.
  intros Hk. pose proof (depth_le N ltac:(lia)).
  assert (0 < 2 ^ k) by (apply Z.pow_pos_nonneg; lia). split; [apply Z.div_pos; lia|].
  apply Z.div_lt_upper_bound; [lia|]. rewrite <-Z.pow_add_r by lia.
  replace (k + (D - k)) with D by lia. lia.
Qed.

(** After [t] turns of the loop [h] is the first position of row [t+1] and
    [last] the last node of row [t]. *)
Lemma inDeadZone_loop_run fuel t k j :
  0 ≤ t ≤ k → k ≤ D → 0 ≤ j < 2 ^ (D - k) → (Z.to_nat (k - t) < fuel)%nat →
  inDeadZone_loop fuel (2 ^ D) (enc D k j) (2 ^ D + half D t) (enc D t ((N - 1) / 2 ^ t))
    = Some (negb (alive N k j)).
Proof.
  pose proof D_range as HD. intros Ht. revert t Ht.
  induction fuel as [|fuel IH]; intros t Ht Hk Hj Hf; [lia|]. cbn [inDeadZone_loop].
  pose proof (half_range D k ltac:(lia)) as [Hk0 Hk1].
  destruct (decide (t = k)) as [->|Hne].
  - unfold enc at 1. rewrite (proj2 (Z.leb_gt _ _)) by lia.
    f_equal. unfold enc, alive. rewrite <-Z.ltb_antisym.
    destruct (Z.ltb_spec ((N - 1) / 2 ^ k) j); [apply Z.ltb_lt; lia|apply Z.ltb_ge; lia].
  - pose proof (half_S D t ltac:(lia) ltac:(lia)) as HS.
    assert (half D (t + 1) ≤ half D k).
    { unfold half. enough (2 ^ (D - k) ≤ 2 ^ (D - (t + 1))) by lia.
      apply Z.pow_le_mono_r; lia. }
    rewrite (proj2 (Z.leb_le _ _)) by (unfold enc; lia).
    rewrite (enc_parent D HD); [|lia|lia|apply last_range; lia].
    rewrite Z.div_div by (try apply Z.pow_pos_nonneg; lia).
    replace (2 ^ t * 2) with (2 ^ (t + 1)) by (rewrite Z.pow_add_r by lia; lia).
    rewrite <-HS. rewrite <-(Z.add_0_r (2 * half D (t + 1))).
    change (2 * half D (t + 1) + 0) with (enc D (t + 1) 0).
    replace (Z.lor (Z.shiftr (enc D (t + 1) 0) 1) (2 ^ D)) with (2 ^ D + half D (t + 1)).
    + apply IH; lia.
    + unfold enc. rewrite Z.add_0_r, Z.shiftr_div_pow2 by lia. change (2 ^ 1) with 2.
      rewrite Z.mul_comm, Z.div_mul by lia.
      pose proof (half_range D (t + 1) ltac:(lia)).
      assert (1 ≤ 2 ^ (D - (t + 1))) by (apply (Z.pow_le_mono_r 2 0); lia).
      rewrite lor_pow2_small by lia. lia.
Qed.

Lemma inDeadZone_enc k j :
  0 ≤ k ≤ D → 0 ≤ j < 2 ^ (D - k) → inDeadZone (enc D k j) N = Some (negb (alive N k j)).
Proof.
  intros Hk Hj. pose proof D_range as HD. pose proof (pow_D_bound D HD).
  unfold inDeadZone. rewrite nextPowerOfTwo_depth by done. cbn [mbind option_bind].
  pose proof (enc_range D HD k j Hk Hj).
  rewrite root_pos, enc_root, (proj2 (Z.ltb_ge _ _)) by lia.
  rewrite (u32_small (N - 1)) by (unfold fits; lia).
  pose proof (inDeadZone_loop_run 34 0 k j ltac:(lia) ltac:(lia) Hj ltac:(lia)) as Hr.
  rewrite half_0, Z.add_0_r, enc_leaf, Z.div_1_r in Hr by lia. exact Hr.
Qed.
End dead.

(** ** The reference: recursive descent *)

(** The flag bits still unread: bit [i] of the first byte onwards. *)
Definition flag_bit (f : byte) (i : Z) : bool := negb (Z.land (Z_of_byte f) (Z.shiftl 1 i) =? 0).
Definition byte_bits (f : byte) : list bool := flag_bit f <$> [0; 1; 2; 3; 4; 5; 6; 7].
Definition flag_bits (i : Z) (flags : bytes) : list bool :=
  drop (Z.to_nat i) (flags ≫= byte_bits).

Lemma flag_bits_cons f fs i :
  0 ≤ i < 8 →
  flag_bits i (f :: fs) =
    flag_bit f i :: flag_bits (if i + 1 =? 8 then 0 else i + 1)
                              (if i + 1 =? 8 then fs else f :: fs).
Proof.
  intros Hi.
  assert (i = 0 ∨ i = 1 ∨ i = 2 ∨ i = 3 ∨ i = 4 ∨ i = 5 ∨ i = 6 ∨ i = 7) as Hc by lia.
  destruct Hc as [->|[->|[->|[->|[->|[->|[->| ->]]]]]]]; reflexivity.
Qed.
Lemma flag_bits_length i flags :
  (length (flag_bits i flags) ≤ 8 * length flags)%nat.
Proof.
  unfold flag_bits. rewrite length_drop.
  enough (length (flags ≫= byte_bits) = 8 * length flags)%nat by lia.
  induction flags as [|f fs IH]; [done|].
  rewrite bind_cons, length_app, IH. simpl length. lia.
Qed.

Section reference.
Context `{Sha}.

(** The subtree under the node [j] of row [k]: its hash, the transactions of
    interest below it, and what is left of the bits and hashes. *)
Fixpoint parse (N : Z) (k : nat) (j : Z) (bits : list bool) (hs : list Uint256) :
    outcome (Uint256 * list Uint256 * list bool * list Uint256) :=
  match hs, bits with
  | [], _ => Err (ErrStr "Ran out of hashes at position %d.")
  | _, [] => Err (ErrStr "Ran out of flag bits.")
  | h :: hs', b :: bits' =>
    match k with
    | O => Ok (h, if b then [h] else [], bits', hs')
    | S k' =>
      if negb b then Ok (h, [], bits', hs')
      else
        '(l, ml, bits1, hs1) ← parse N k' (2 * j) bits' hs;
        if alive N (Z.of_nat k') (2 * j + 1) then
          '(r, mr, bits2, hs2) ← parse N k' (2 * j + 1) bits1 hs1;
          p ← MakeMerkleParent (Some l) (Some r);
          Ok (p, ml ++ mr, bits2, hs2)
        else
          p ← MakeMerkleParent (Some l) None;
          Ok (p, ml, bits1, hs1)
    end
  end.

(** What [CheckMerkleBlock] should answer on a message with transactions and
    flags. *)
Definition check_spec {H} `{BlockHeader H} (m : MerkleBlock H) : outcome (list Uint256) :=
  '(h, ms, _, _) ← parse (mb_Transactions m) (Z.to_nat (depth (mb_Transactions m))) 0
                      (flag_bits 0 (mb_Flags m)) (mb_Hashes m);
  if decide (h = MerkleRoot (mb_Header m)) then Ok ms
  else Err (ErrStr "computed root %s but expect %s").

Lemma MakeMerkleParent_returns l r : MakeMerkleParent l r ≠ Panic.
Proof. unfold MakeMerkleParent. repeat case_match; done. Qed.

Lemma parse_returns N k j bits hs : parse N k j bits hs ≠ Panic.
Proof.
  revert j bits hs. induction k as [|k IH]; intros j bits hs.
  all: destruct hs as [|h hs], bits as [|b bits]; try done; cbn [parse].
  destruct (negb b); [done|].
  pose proof (IH (2 * j) bits (h :: hs)) as HL.
  destruct (parse N k (2 * j) bits (h :: hs)) as [[[[l ml] bits1] hs1]|e|];
    cbn [mbind outcome_bind]; [|done|done].
  destruct (alive N (Z.of_nat k) (2 * j + 1)); [|done].
  pose proof (IH (2 * j + 1) bits1 hs1) as HR.
  destruct (parse N k (2 * j + 1) bits1 hs1) as [[[[rt mr] bits2] hs2]|e|];
    cbn [mbind outcome_bind]; [|done|done].
  pose proof (MakeMerkleParent_returns (Some l) (Some rt)).
  by destruct (MakeMerkleParent (Some l) (Some rt)).
Qed.
End reference.

(** ** The machine follows the reference *)
Section simulation.
Context `{Sha} (root : Uint256) (N : Z) (HN : 1 ≤ N ≤ 2 ^ 31).
Notation D := (depth N).
Notation msb := (2 ^ depth N).
Let HD : 0 ≤ D ≤ 31 := D_range N HN.

Definition steps (n : nat) (st st' : cmState) : Prop :=
  ∀ fuel, cm_run (n + fuel) root N msb st = cm_run fuel root N msb st'.
Definition stops (n : nat) (st : cmState) (o : outcome (list Uint256)) : Prop :=
  ∀ fuel, cm_run (n + fuel) root N msb st = Some o.

Lemma steps_trans n1 n2 a b c : steps n1 a b → steps n2 b c → steps (n1 + n2) a c.
Proof. intros H1 H2 fuel. by rewrite <-Nat.add_assoc, H1, H2. Qed.
Lemma steps_stops n1 n2 a b o : steps n1 a b → stops n2 b o → stops (n1 + n2) a o.
Proof. intros H1 H2 fuel. by rewrite <-Nat.add_assoc, H1, H2. Qed.
Lemma step_steps a b : cm_step root N msb a = Some (Ok (inl b)) → steps 1 a b.
Proof. intros Hs fuel. simpl. by rewrite Hs. Qed.
Lemma step_stops a e : cm_step root N msb a = Some (Err e) → stops 1 a (Err e).
Proof. intros Hs fuel. simpl. by rewrite Hs. Qed.

(** No stack operation applies: a new node comes next. *)
Definition ready (s : list merkleNode) : Prop :=
  match s with
  | [] => True
  | [t] => node_h t = None
  | t :: l :: _ => node_h t = None ∨ node_h l = None
  end.

Lemma cm_step_ready st :
  ready (cm_s st) → inDeadZone (cm_pos st) N = Some false →
  cm_step root N msb st = Some (inl <$> cm_push N msb st).
Proof.
  intros Hs Hd. unfold cm_step. rewrite Hd. simpl.
  destruct (cm_s st) as [|[pt [ht|]] [|[pl [hl|]] [|q s]]]; simpl in *; try done.
  all: destruct Hs; done.
Qed.

Lemma cm_step_dead st t q s :
  cm_s st = t :: q :: s → inDeadZone (cm_pos st) N = Some true →
  cm_step root N msb st = Some (inl <$> cm_dead st).
Proof.
  intros Hs Hd. unfold cm_step. rewrite Hs, Hd. by destruct t as [? [|]], s.
Qed.

Lemma cm_step_combine st pt ht pl hl q s :
  cm_s st = mkNode pt (Some ht) :: mkNode pl (Some hl) :: q :: s →
  inDeadZone (cm_pos st) N = Some false →
  cm_step root N msb st =
    Some (inl <$> cm_combine st (mkNode pt (Some ht)) (mkNode pl (Some hl)) q s).
Proof. intros Hs Hd. unfold cm_step. by rewrite Hs, Hd. Qed.

Notation next_i i := (if i + 1 =? 8 then 0 else i + 1).
Notation next_flags i f fs := (if i + 1 =? 8 then fs else f :: fs).

Lemma next_i_range i : 0 ≤ i < 8 → 0 ≤ next_i i < 8.
Proof. intros. destruct (Z.eqb_spec (i + 1) 8); lia. Qed.

Lemma even_test k j : (Z.land (enc D k j) 1 =? 0) = (j mod 2 =? 0).
Proof. by rewrite land_1, enc_mod. Qed.

Lemma cm_push_leaf s r j i h hs f fs :
  0 ≤ j < 2 ^ D → alive N 0 j = true →
  cm_push N msb (mkCM s r (enc D 0 j) i (h :: hs) (f :: fs)) =
    Ok (mkCM (mkNode (enc D 0 j) (Some h) :: s) (r ++ if flag_bit f i then [h] else [])
          (if j mod 2 =? 0 then enc D 0 (j + 1) else enc D 0 j) (next_i i) hs (next_flags i f fs)).
Proof.
  intros Hj Ha. unfold cm_push. cbn [cm_hashes cm_flags cm_pos cm_i cm_s cm_r].
  rewrite (enc_msb_leaf D HD) by done. cbn [Z.eqb negb].
  unfold alive in Ha. apply Z.leb_le in Ha. rewrite Z.pow_0_r, Z.div_1_r in Ha.
  rewrite (proj2 (Z.leb_gt _ _)) by (rewrite (enc_leaf D); lia).
  rewrite even_test. fold (flag_bit f i). f_equal. f_equal.
  - destruct (flag_bit f i); [done|by rewrite app_nil_r].
  - destruct (Z.eqb_spec (j mod 2) 0); [by apply enc_lor_even|done].
Qed.

Lemma cm_push_fill s r k j i h hs f fs :
  0 < k ≤ D → 0 ≤ j < 2 ^ (D - k) → flag_bit f i = false →
  cm_push N msb (mkCM s r (enc D k j) i (h :: hs) (f :: fs)) =
    Ok (mkCM (mkNode (enc D k j) (Some h) :: s) r
          (if j mod 2 =? 0 then enc D k (j + 1) else Z.lor (Z.shiftr (enc D k j) 1) msb)
          (next_i i) hs (next_flags i f fs)).
Proof.
  intros Hk Hj Hb. unfold cm_push. cbn [cm_hashes cm_flags cm_pos cm_i cm_s cm_r].
  rewrite (enc_msb_upper D HD) by done.
  pose proof (pow_D_bound D HD). rewrite (proj2 (Z.eqb_neq _ 0)) by lia. cbn [negb].
  fold (flag_bit f i). rewrite Hb. cbn [negb]. rewrite even_test.
  f_equal. f_equal. destruct (Z.eqb_spec (j mod 2) 0); [by apply enc_lor_even|done].
Qed.

Lemma cm_push_descend s r k j i h hs f fs :
  0 < k ≤ D → 0 ≤ j < 2 ^ (D - k) → flag_bit f i = true →
  cm_push N msb (mkCM s r (enc D k j) i (h :: hs) (f :: fs)) =
    Ok (mkCM (mkNode (enc D k j) None :: s) r (enc D (k - 1) (2 * j))
          (next_i i) (h :: hs) (next_flags i f fs)).
Proof.
  intros Hk Hj Hb. unfold cm_push. cbn [cm_hashes cm_flags cm_pos cm_i cm_s cm_r].
  rewrite (enc_msb_upper D HD) by done.
  pose proof (pow_D_bound D HD). rewrite (proj2 (Z.eqb_neq _ 0)) by lia. cbn [negb].
  fold (flag_bit f i). rewrite Hb. cbn [negb]. by rewrite (enc_child D HD) by done.
Qed.

(** Where the machine stands after it filled node [j] of row [k]: at the
    sibling of a left node, at some live node after a right one. *)
Definition after (k j pos : Z) : Prop :=
  if j mod 2 =? 0 then pos = enc D k (j + 1) else inDeadZone pos N = Some false.

(** The result of [parse] on a subtree, as a run of the machine from [st]. *)
Definition simulates (k j : Z) (s : list merkleNode) (r : list Uint256) (bits : list bool)
    (st : cmState) (o : outcome (Uint256 * list Uint256 * list bool * list Uint256)) : Prop :=
  match o with
  | Ok (h, ms, bits', hs') =>
      ∃ n i flags pos,
        (length bits' < length bits)%nat ∧ (n ≤ 2 * (length bits - length bits'))%nat ∧
        bits' = flag_bits i flags ∧ 0 ≤ i < 8 ∧ after k j pos ∧
        steps n st (mkCM (mkNode (enc D k j) (Some h) :: s) (r ++ ms) pos i hs' flags)
  | Err e => ∃ n, (n ≤ 2 * length bits + 1)%nat ∧ stops n st (Err e)
  | Panic => False
  end.

(** Both children of row [k] are within the row when the parent is. *)
Lemma children k j :
  0 ≤ k → k + 1 ≤ D → 0 ≤ j < 2 ^ (D - (k + 1)) → alive N (k + 1) j = true →
  0 ≤ 2 * j ∧ 2 * j + 1 < 2 ^ (D - k) ∧ alive N k (2 * j) = true.
Proof.
  intros Hk HkD Hj Ha. replace (D - k) with (Z.succ (D - (k + 1))) by lia.
  rewrite Z.pow_succ_r by lia. split_and!; [lia|lia|].
  unfold alive in *. apply Z.leb_le in Ha. apply Z.leb_le.
  rewrite Z.pow_add_r, <-Z.div_div in Ha by (try apply Z.pow_nonzero; lia).
  change (2 ^ 1) with 2 in Ha.
  pose proof (Z.mul_div_le ((N - 1) / 2 ^ k) 2 ltac:(lia)). lia.
Qed.

Lemma live_pos k j :
  0 ≤ k ≤ D → 0 ≤ j < 2 ^ (D - k) → alive N k j = true → inDeadZone (enc D k j) N = Some false.
Proof. intros. rewrite (inDeadZone_enc N HN) by done. by rewrite H2. Qed.

(** A node that cannot be made. *)
Lemma sim_error k j s r i hs flags e :
  0 ≤ k ≤ D → 0 ≤ j < 2 ^ (D - k) → alive N k j = true → ready s →
  cm_push N msb (mkCM s r (enc D k j) i hs flags) = Err e →
  stops 1 (mkCM s r (enc D k j) i hs flags) (Err e).
Proof.
  intros. apply step_stops. rewrite cm_step_ready; [by rewrite H4|done|by apply live_pos].
Qed.
Lemma sim_push k j s r i hs flags st :
  0 ≤ k ≤ D → 0 ≤ j < 2 ^ (D - k) → alive N k j = true → ready s →
  cm_push N msb (mkCM s r (enc D k j) i hs flags) = Ok st →
  steps 1 (mkCM s r (enc D k j) i hs flags) st.
Proof.
  intros. apply step_steps. rewrite cm_step_ready; [by rewrite H4|done|by apply live_pos].
Qed.

(** The parent of a left child alone. *)
Lemma sim_single k j s r i hs flags l :
  0 ≤ k → k + 1 ≤ D → 0 ≤ j < 2 ^ (D - (k + 1)) → alive N k (2 * j + 1) = false →
  alive N (k + 1) j = true →
  steps 1
    (mkCM (mkNode (enc D k (2 * j)) (Some l) :: mkNode (enc D (k + 1) j) None :: s) r
       (enc D k (2 * j + 1)) i hs flags)
    (mkCM (mkNode (enc D (k + 1) j) (Some (Sha256D (arr_bytes l ++ arr_bytes l))) :: s) r
       (Z.lor (enc D (k + 1) j) 1) i hs flags).
Proof.
  intros Hk HkD Hj Ha Hp. destruct (children k j Hk HkD Hj Hp) as (? & ? & _).
  apply step_steps. erewrite cm_step_dead; [|done|]; [done|].
  cbn [cm_pos]. rewrite (inDeadZone_enc N HN) by lia. by rewrite Ha.
Qed.

Lemma after_parent k j :
  0 ≤ k ≤ D → 0 ≤ j < 2 ^ (D - k) → alive N k j = true → after k j (Z.lor (enc D k j) 1).
Proof.
  intros Hk Hj Ha. unfold after. destruct (Z.eqb_spec (j mod 2) 0).
  - by apply enc_lor_even.
  - pose proof (Z.mod_pos_bound j 2 ltac:(lia)).
    rewrite enc_lor_odd by lia. by apply live_pos.
Qed.

(** The first node of a subtree: no hash or no flag bit is left. *)
Lemma sim_empty k' j s r i hs flags :
  Z.of_nat k' ≤ D → 0 ≤ j < 2 ^ (D - Z.of_nat k') → alive N (Z.of_nat k') j = true → ready s →
  hs = [] ∨ flags = [] →
  simulates (Z.of_nat k') j s r (flag_bits i flags) (mkCM s r (enc D (Z.of_nat k') j) i hs flags)
    (parse N k' j (flag_bits i flags) hs).
Proof.
  intros Hk Hj Ha Hs He.
  assert (Hp : ∃ e, parse N k' j (flag_bits i flags) hs = Err e ∧
                    cm_push N msb (mkCM s r (enc D (Z.of_nat k') j) i hs flags) = Err e).
  { destruct hs as [|h hs]; [destruct k'; eauto|].
    destruct He as [He|He]; [done|subst flags]. unfold flag_bits. simpl. rewrite drop_nil.
    destruct k'; eauto. }
  destruct Hp as (e & -> & Hp). exists 1%nat. split; [lia|]. by apply sim_error; [lia|..].
Qed.

Lemma sim_leaf j s r i h hs f fs :
  0 ≤ j < 2 ^ D → alive N 0 j = true → ready s → 0 ≤ i < 8 →
  simulates 0 j s r (flag_bits i (f :: fs)) (mkCM s r (enc D 0 j) i (h :: hs) (f :: fs))
    (parse N 0 j (flag_bits i (f :: fs)) (h :: hs)).
Proof.
  intros Hj Ha Hs Hi. rewrite flag_bits_cons by done. cbn [parse simulates length].
  eexists 1%nat, _, _, _. split_and!; [lia|lia|done|by apply next_i_range|by apply next_i_range| |].
  - unfold after. instantiate (1 := if j mod 2 =? 0 then enc D 0 (j + 1) else enc D 0 j).
    destruct (j mod 2 =? 0); [done|]. apply live_pos; [lia| |done]. by rewrite Z.sub_0_r.
  - apply sim_push; [lia| |done|done|by apply cm_push_leaf]. by rewrite Z.sub_0_r.
Qed.

(** The upward step after filling a right node lands on a live node. *)
Lemma after_fill k j :
  0 < k ≤ D → 0 ≤ j < 2 ^ (D - k) → alive N k j = true →
  after k j (if j mod 2 =? 0 then enc D k (j + 1) else Z.lor (Z.shiftr (enc D k j) 1) msb).
Proof.
  intros Hk Hj Ha. unfold after. destruct (Z.eqb_spec (j mod 2) 0) as [|Hodd]; [done|].
  assert (k ≠ D) by (intros ->; rewrite Z.sub_diag in Hj; assert (j = 0) as -> by lia; done).
  rewrite (enc_parent D HD) by lia.
  assert (Hj2 : 0 ≤ j / 2 < 2 ^ (D - (k + 1))).
  { replace (D - k) with (Z.succ (D - (k + 1))) in Hj by lia.
    rewrite Z.pow_succ_r in Hj by lia. split; [apply Z.div_pos; lia|].
    apply Z.div_lt_upper_bound; lia. }
  apply live_pos; [lia|done|].
  unfold alive in *. apply Z.leb_le in Ha. apply Z.leb_le.
  rewrite Z.pow_add_r, <-Z.div_div by (try apply Z.pow_nonzero; lia).
  apply Z.div_le_mono; lia.
Qed.

Lemma sim_fill k j s r i h hs f fs :
  0 < k ≤ D → 0 ≤ j < 2 ^ (D - k) → alive N k j = true → ready s → 0 ≤ i < 8 →
  flag_bit f i = false →
  simulates k j s r (flag_bits i (f :: fs)) (mkCM s r (enc D k j) i (h :: hs) (f :: fs))
    (Ok (h, [], flag_bits (if i + 1 =? 8 then 0 else i + 1)
                          (if i + 1 =? 8 then fs else f :: fs), hs)).
Proof.
  intros Hk Hj Ha Hs Hi Hb. rewrite flag_bits_cons by done. cbn [simulates length].
  eexists 1%nat, _, _, _. split_and!; [lia|lia|done|by apply next_i_range|by apply next_i_range|by apply after_fill|].
  rewrite app_nil_r. apply sim_push; [lia|done..|by apply cm_push_fill].
Qed.

(** Two filled siblings on the parent that waits for them. *)
Lemma sim_combine k j s r pos i hs flags l t pl pt :
  inDeadZone pos N = Some false →
  let st := mkCM (mkNode pt (Some t) :: mkNode pl (Some l) :: mkNode (enc D k j) None :: s)
              r pos i hs flags in
  match MakeMerkleParent (Some l) (Some t) with
  | Ok p => steps 1 st (mkCM (mkNode (enc D k j) (Some p) :: s) r (Z.lor (enc D k j) 1) i hs flags)
  | Err e => stops 1 st (Err e)
  | Panic => False
  end.
Proof.
  intros Hp st. pose proof (cm_step_combine st pt t pl l _ s eq_refl Hp) as Hc.
  unfold cm_combine in Hc. cbn [node_h node_p] in Hc.
  destruct (MakeMerkleParent (Some l) (Some t)) eqn:Hm; [by apply step_steps|by apply step_stops|].
  by apply MakeMerkleParent_returns in Hm.
Qed.

(** An inner node whose bit is set: the two children, then the combination. *)
(** The step that goes down to the left child. *)
Lemma sim_descend k' j s r i h hs f fs :
  0 ≤ Z.of_nat k' → Z.of_nat k' + 1 ≤ D → 0 ≤ j < 2 ^ (D - (Z.of_nat k' + 1)) →
  alive N (Z.of_nat k' + 1) j = true → ready s → 0 ≤ i < 8 → flag_bit f i = true →
  steps 1 (mkCM s r (enc D (Z.of_nat k' + 1) j) i (h :: hs) (f :: fs))
    (mkCM (mkNode (enc D (Z.of_nat k' + 1) j) None :: s) r (enc D (Z.of_nat k') (2 * j))
       (if i + 1 =? 8 then 0 else i + 1) (h :: hs) (if i + 1 =? 8 then fs else f :: fs)).
Proof.
  intros Hk HkD Hj Ha Hs Hi Hb. apply sim_push; [lia|done..|]. rewrite cm_push_descend by (done || lia).
  by replace (Z.of_nat k' + 1 - 1) with (Z.of_nat k') by lia.
Qed.
Lemma sim_inner k' j s r i h hs f fs :
  let k := Z.of_nat k' in
  (∀ j s r i hs flags, 0 ≤ j < 2 ^ (D - k) → alive N k j = true → ready s → 0 ≤ i < 8 →
     simulates k j s r (flag_bits i flags) (mkCM s r (enc D k j) i hs flags)
       (parse N k' j (flag_bits i flags) hs)) →
  k + 1 ≤ D → 0 ≤ j < 2 ^ (D - (k + 1)) → alive N (k + 1) j = true → ready s → 0 ≤ i < 8 →
  flag_bit f i = true →
  simulates (k + 1) j s r (flag_bits i (f :: fs)) (mkCM s r (enc D (k + 1) j) i (h :: hs) (f :: fs))
    (parse N (S k') j (flag_bits i (f :: fs)) (h :: hs)).
Proof.
  intros k IH HkD Hj Ha Hs Hi Hb. subst k.
  destruct (children (Z.of_nat k') j ltac:(lia) HkD Hj Ha) as (Hj0 & Hj1 & Hal).
  rewrite flag_bits_cons by done. cbn [parse]. rewrite Hb. cbn [negb].
  set (i' := if i + 1 =? 8 then 0 else i + 1). set (fl := if i + 1 =? 8 then fs else f :: fs).
  pose proof (sim_descend k' j s r i h hs f fs ltac:(lia) HkD Hj Ha Hs Hi Hb) as H1. fold i' fl in H1.
  assert (Hr1 : ready (mkNode (enc D (Z.of_nat k' + 1) j) None :: s))
    by (destruct s as [|? [|]]; simpl; auto).
  pose proof (IH (2 * j) _ r i' (h :: hs) fl ltac:(lia) Hal Hr1 (next_i_range i Hi)) as HL.
  destruct (parse N k' (2 * j) (flag_bits i' fl) (h :: hs)) as [[[[l ml] bits1] hs1]|e|];
    cbn [mbind outcome_bind simulates] in *; [|destruct HL as (n & Hn & HL); exists (1 + n)%nat;
      split; [simpl length; lia|by eapply steps_stops]|done].
  destruct HL as (n1 & i1 & fl1 & pos1 & Hlt1 & Hn1 & -> & Hi1 & Haf1 & HL).
  unfold after in Haf1. rewrite Z.mul_comm, Z_mod_mult in Haf1. cbn in Haf1.
  rewrite (Z.mul_comm j 2) in Haf1. subst pos1.
  pose proof (steps_trans _ _ _ _ _ H1 HL) as H12.
  destruct (alive N (Z.of_nat k') (2 * j + 1)) eqn:Hal2.
  - pose proof (IH (2 * j + 1) (mkNode (enc D (Z.of_nat k') (2 * j)) (Some l) ::
                    mkNode (enc D (Z.of_nat k' + 1) j) None :: s)
                  (r ++ ml) i1 hs1 fl1 ltac:(lia) Hal2 (or_intror eq_refl) Hi1) as HR.
    destruct (parse N k' (2 * j + 1) (flag_bits i1 fl1) hs1) as [[[[rt mr] bits2] hs2]|e|];
      cbn [mbind outcome_bind simulates] in *; [|destruct HR as (n & Hn & HR);
        exists (1 + n1 + n)%nat; split; [simpl length; lia|by eapply steps_stops]|done].
    destruct HR as (n2 & i2 & fl2 & pos2 & Hlt2 & Hn2 & -> & Hi2 & Haf2 & HR).
    unfold after in Haf2. rewrite <-Zplus_mod_idemp_l, (Z.mul_comm 2 j), Z_mod_mult in Haf2.
    cbn in Haf2.
    pose proof (steps_trans _ _ _ _ _ H12 HR) as H123.
    pose proof (sim_combine (Z.of_nat k' + 1) j s (r ++ (ml ++ mr)) pos2 i2 hs2 fl2 l rt
      (enc D (Z.of_nat k') (2 * j)) (enc D (Z.of_nat k') (2 * j + 1)) Haf2) as Hc.
    rewrite app_assoc in Hc.
    destruct (MakeMerkleParent (Some l) (Some rt)) as [p|e|] eqn:Hm.
    + cbn [mbind outcome_bind simulates].
      exists (1 + n1 + n2 + 1)%nat, i2, fl2. eexists.
      split_and!; [simpl length; lia|simpl length; lia|done|lia|lia|by apply after_parent; [lia|..]|].
      eapply steps_trans; [exact H123|]. by rewrite app_assoc.
    + cbn [mbind outcome_bind simulates]. exists (1 + n1 + n2 + 1)%nat.
      split; [simpl length; lia|]. by eapply steps_stops.
    + by apply MakeMerkleParent_returns in Hm.
  - cbn [MakeMerkleParent mbind outcome_bind simulates].
    exists (1 + n1 + 1)%nat, i1, fl1. eexists.
    split_and!; [simpl length; lia|simpl length; lia|done|lia|lia|by apply after_parent; [lia|..]|].
    eapply steps_trans; [exact H12|]. by apply sim_single; [lia|..].
Qed.

Lemma parse_sim k' j s r i hs flags :
  Z.of_nat k' ≤ D → 0 ≤ j < 2 ^ (D - Z.of_nat k') → alive N (Z.of_nat k') j = true →
  ready s → 0 ≤ i < 8 →
  simulates (Z.of_nat k') j s r (flag_bits i flags) (mkCM s r (enc D (Z.of_nat k') j) i hs flags)
    (parse N k' j (flag_bits i flags) hs).
Proof.
  revert j s r i hs flags. induction k' as [|k' IH]; intros j s r i hs flags Hk Hj Ha Hs Hi.
  all: destruct hs as [|h hs]; [refine (sim_empty _ _ _ _ _ _ _ _ _ _ _ _); auto|].
  all: destruct flags as [|f fs]; [refine (sim_empty _ _ _ _ _ _ _ _ _ _ _ _); auto|].
  - apply sim_leaf; [by rewrite Z.sub_0_r in Hj|done..].
  - rewrite Nat2Z.inj_succ in *. destruct (flag_bit f i) eqn:Hb.
    + apply sim_inner; try done. intros. apply IH; try done. lia.
    + pose proof (sim_fill (Z.succ (Z.of_nat k')) j s r i h hs f fs) as Hf.
      rewrite (flag_bits_cons f) in * by done. cbn [parse]. rewrite Hb. apply Hf; auto; lia.
Qed.

Lemma cm_run_root n fuel h r i flags hs pos st :
  (n < fuel)%nat → steps n st (mkCM [mkNode (enc D D 0) (Some h)] r pos i hs flags) →
  cm_run fuel root N msb st =
    Some (if decide (h = root) then Ok r else Err (ErrStr "computed root %s but expect %s")).
Proof.
  intros Hn Hst. replace fuel with (n + S (fuel - n - 1))%nat by lia. rewrite Hst. simpl.
  by destruct (decide (h = root)).
Qed.

Lemma cm_run_parse hs flags :
  cm_run (16 * length flags + 2) root N msb (mkCM [] [] (enc D D 0) 0 hs flags) =
    Some ('(h, ms, _, _) ← parse N (Z.to_nat D) 0 (flag_bits 0 flags) hs;
          if decide (h = root) then Ok ms
          else Err (ErrStr "computed root %s but expect %s")).
Proof.
  pose proof (flag_bits_length 0 flags) as Hlen.
  pose proof (last_range N HN D ltac:(lia)) as Hl. rewrite Z.sub_diag in Hl.
  pose proof (parse_sim (Z.to_nat D) 0 [] [] 0 hs flags) as Hp.
  rewrite Z2Nat.id, Z.sub_diag in Hp by lia.
  specialize (Hp ltac:(lia) ltac:(lia) (proj2 (Z.leb_le _ _) (proj1 Hl)) I ltac:(lia)).
  destruct (parse _ _ _ _ _) as [[[[h ms] bits] hs']|e|]; cbn [simulates] in Hp; [| |done].
  - destruct Hp as (n & i & fl & pos & _ & Hn & _ & _ & _ & Hst).
    by eapply (cm_run_root n); [lia|].
  - destruct Hp as (n & Hn & Hst).
    replace (16 * length flags + 2)%nat with (n + (16 * length flags + 2 - n))%nat by lia.
    apply Hst.
Qed.
End simulation.

Lemma CheckMerkleBlock_spec_helper `{!Sha} {Hd} `{!BlockHeader Hd} (m : MerkleBlock Hd) :
  1 ≤ mb_Transactions m ≤ 2 ^ 31 → mb_Flags m ≠ [] →
  CheckMerkleBlock m = Some (check_spec m) ∧ returns (check_spec m).
Proof.
  intros HN Hf.
  assert (HC : CheckMerkleBlock m = Some (check_spec m)).
  { unfold CheckMerkleBlock, check_spec. rewrite (proj2 (Z.eqb_neq _ 0)) by lia.
    destruct (mb_Flags m) as [|f fs] eqn:Hfl; [done|]. rewrite <-Hfl.
    rewrite nextPowerOfTwo_depth by done. cbn [mbind option_bind].
    rewrite root_pos by (by apply D_range). by apply cm_run_parse. }
  split; [done|].
  unfold check_spec. pose proof (parse_returns (mb_Transactions m)
    (Z.to_nat (depth (mb_Transactions m))) 0 (flag_bits 0 (mb_Flags m)) (mb_Hashes m)) as Hp.
  destruct (parse _ _ _ _ _) as [[[[h ms] bits] hs]|e|]; simpl; [|done|done].
  by destruct (decide _).
Qed.

(** C35: on a message with between 1 and 2^31 transactions and some flag bytes
    [CheckMerkleBlock] returns, never panics, and answers what the recursive
    descent [check_spec] over the same flag bits and hashes answers, errors
    included. *)
Theorem CheckMerkleBlock_spec `{!Sha} {Hd} `{!BlockHeader Hd} (m : MerkleBlock Hd) :
  1 ≤ mb_Transactions m ≤ 2 ^ 31 → mb_Flags m ≠ [] →
  CheckMerkleBlock m = Some (check_spec m) ∧ returns (check_spec m).
Proof. exact (CheckMerkleBlock_spec_helper m). Qed.

(** a message that claims more than 2^31 transactions makes
    [CheckMerkleBlock] loop in [treeDepth]: no amount of work returns. *)
Theorem treeDepth_diverges n :
  2 ^ 31 < n < 2 ^ 32 → ∀ fuel, treeDepth_loop fuel 0 n = None.
Proof. intros Hn fuel. by apply treeDepth_loop_diverges. Qed.
