(* ===== verification/MerkleSound.v ===== *)
(** * Partial Merkle trees: authenticity and completeness

    What an accepted Merkle block proves about the block behind its header
    ([CheckMerkleBlock_authentic]), and that the Merkle blocks a node builds
    are accepted with exactly the matched transactions
    ([NewMerkleBlock_accepted]). *)
From stdpp Require Import sorting.
From S2P Require Import Ela Util Samples Merkle MerkleSpec.

(** ** The tree over a whole block *)
Section tree.
Context `{Sha} (txids : list Uint256).
Notation N := (Z.of_nat (length txids)).

(** The root of the subtree [j] of row [k] over all the transaction ids; a
    node without a right sibling is hashed with itself. *)
Fixpoint subtree (k : nat) (j : Z) : Uint256 :=
  match k with
  | O => nth (Z.to_nat j) txids zeroHash
  | S k' =>
      HashMerkleBranches (subtree k' (2 * j))
        (if alive N (Z.of_nat k') (2 * j + 1) then subtree k' (2 * j + 1) else subtree k' (2 * j))
  end.

Definition merkle_root : Uint256 := subtree (Z.to_nat (depth N)) 0.

(** What the hash function is given for the inner nodes of that subtree. *)
Fixpoint subtree_inputs (k : nat) (j : Z) : list bytes :=
  match k with
  | O => []
  | S k' =>
      let right := alive N (Z.of_nat k') (2 * j + 1) in
      (arr_bytes (subtree k' (2 * j)) ++ arr_bytes (subtree k' (if right then 2 * j + 1 else 2 * j)))
        :: subtree_inputs k' (2 * j) ++ (if right then subtree_inputs k' (2 * j + 1) else [])
  end.
Definition block_inputs : list bytes := subtree_inputs (Z.to_nat (depth N)) 0.
End tree.

(** ** What the check hashes *)
Section inputs.
Context `{Sha}.

(** The arguments of [MakeMerkleParent] while [parse] reads a subtree. *)
Fixpoint parse_inputs (N : Z) (k : nat) (j : Z) (bits : list bool) (hs : list Uint256) : list bytes :=
  match k, hs, bits with
  | S k', _ :: _, true :: bits' =>
      match parse N k' (2 * j) bits' hs with
      | Ok (l, _, bits1, hs1) =>
          parse_inputs N k' (2 * j) bits' hs ++
          (if alive N (Z.of_nat k') (2 * j + 1) then
             match parse N k' (2 * j + 1) bits1 hs1 with
             | Ok (r, _, _, _) => parse_inputs N k' (2 * j + 1) bits1 hs1 ++ [arr_bytes l ++ arr_bytes r]
             | _ => []
             end
           else [arr_bytes l ++ arr_bytes l])
      | _ => []
      end
  | _, _, _ => []
  end.
Definition check_inputs {Hd} `{!BlockHeader Hd} (m : MerkleBlock Hd) : list bytes :=
  parse_inputs (mb_Transactions m) (Z.to_nat (depth (mb_Transactions m))) 0 (flag_bits 0 (mb_Flags m)) (mb_Hashes m).

(** An input of [la] and one of [lb] with the same hash. *)
Definition collide (la lb : list bytes) : Prop := ∃ a b, a ∈ la ∧ b ∈ lb ∧ a ≠ b ∧ Sha256D a = Sha256D b.
Lemma collide_mono la la' lb lb' : collide la lb → la ⊆ la' → lb ⊆ lb' → collide la' lb'.
Proof. intros (a & b & ? & ? & ? & ?) Ha Hb. exists a, b. split_and!; auto. Qed.
End inputs.

(** ** Authentication paths *)
Section paths.
Context `{Sha}.

Definition merkle_step (i : Z) (h sib : Uint256) : Uint256 :=
  if i mod 2 =? 0 then HashMerkleBranches h sib else HashMerkleBranches sib h.

(** Hash [h], the leaf [i], up to the root with the siblings of [path]. *)
Fixpoint merkle_fold (i : Z) (h : Uint256) (path : list Uint256) : Uint256 :=
  match path with
  | [] => h
  | s :: path => merkle_fold (i / 2) (merkle_step i h s) path
  end.

Lemma merkle_fold_snoc i h path s :
  merkle_fold i h (path ++ [s]) =
    merkle_step (i / 2 ^ Z.of_nat (length path)) (merkle_fold i h path) s.
Proof.
  revert i h. induction path as [|t path IH]; intros i h; [by rewrite Z.div_1_r|].
  cbn [app merkle_fold length]. rewrite IH, Z.div_div by lia.
  by rewrite Nat2Z.inj_succ, Z.pow_succ_r by lia.
Qed.

(** What is hashed on the way. *)
Definition merkle_input (i : Z) (h sib : Uint256) : bytes :=
  if i mod 2 =? 0 then arr_bytes h ++ arr_bytes sib else arr_bytes sib ++ arr_bytes h.
Fixpoint fold_inputs (i : Z) (h : Uint256) (path : list Uint256) : list bytes :=
  match path with
  | [] => []
  | s :: path => merkle_input i h s :: fold_inputs (i / 2) (merkle_step i h s) path
  end.
Lemma merkle_step_input i h s : merkle_step i h s = Sha256D (merkle_input i h s).
Proof. unfold merkle_step, merkle_input, HashMerkleBranches. by destruct (_ =? _). Qed.
Lemma merkle_input_inj i h s h' s' : merkle_input i h s = merkle_input i h' s' → h = h' ∧ s = s'.
Proof.
  unfold merkle_input. destruct (_ =? _); intros [? ?]%app_inj_1; try (by rewrite !arr_length);
    split; by apply array_eq.
Qed.
Lemma fold_inputs_snoc i h path s : fold_inputs i h (path ++ [s]) =
  fold_inputs i h path ++ [merkle_input (i / 2 ^ Z.of_nat (length path)) (merkle_fold i h path) s].
Proof.
  revert i h. induction path as [|t path IH]; intros i h; [by rewrite Z.div_1_r|].
  cbn [app fold_inputs merkle_fold length]. rewrite IH, Z.div_div by lia.
  by rewrite Nat2Z.inj_succ, Z.pow_succ_r by lia.
Qed.

(** Two paths to one node from one leaf start alike, or part in a collision. *)
Lemma merkle_fold_binding i x y p q : length p = length q → merkle_fold i x p = merkle_fold i y q →
  x = y ∨ collide (fold_inputs i x p) (fold_inputs i y q).
Proof.
  revert i x y q. induction p as [|s p IH]; intros i x y [|t q] Hl; try done; cbn [merkle_fold fold_inputs]; [by left|].
  intros Heq. apply IH in Heq as [Heq|Hc]; [|right|by injection Hl].
  - rewrite !merkle_step_input in Heq.
    destruct (decide (merkle_input i x s = merkle_input i y t)) as [He|He].
    + left. by apply merkle_input_inj in He as [? _].
    + right. exists (merkle_input i x s), (merkle_input i y t). split_and!; [by left|by left|done|done].
  - by eapply collide_mono; [exact Hc|set_solver..].
Qed.

(** What an accepted subtree holds: the transactions of interest at
    increasing leaves of it, each with a path to its root. *)
Definition located (N : Z) (k : nat) (j : Z) (h : Uint256) (ins : list bytes) (x : Uint256) (e : Z * list Uint256) : Prop :=
  0 ≤ e.1 < N ∧ e.1 / 2 ^ Z.of_nat k = j ∧ length e.2 = k ∧ merkle_fold e.1 x e.2 = h ∧ fold_inputs e.1 x e.2 ⊆ ins.

Lemma located_up N k j h ins ins' s x e : ins ⊆ ins' → merkle_input j h s ∈ ins' →
  located N k j h ins x e → located N (S k) (j / 2) (merkle_step j h s) ins' x (e.1, e.2 ++ [s]).
Proof.
  intros Hins Hs (Hr & <- & Hl & <- & Hf). unfold located. split_and!; cbn [fst snd]; try lia.
  - rewrite Nat2Z.inj_succ, Z.pow_succ_r, (Z.mul_comm 2), Z.div_div; lia.
  - rewrite length_app, Hl. simpl. lia.
  - by rewrite merkle_fold_snoc, Hl.
  - rewrite fold_inputs_snoc, Hl. set_solver.
Qed.
Lemma located_all_up N k j h ins ins' s ms es :
  Forall2 (located N k j h ins) ms es → ins ⊆ ins' → merkle_input j h s ∈ ins' →
  Forall2 (located N (S k) (j / 2) (merkle_step j h s) ins') ms ((λ e, (e.1, e.2 ++ [s])) <$> es).
Proof.
  intros Hall Hins Hs. apply Forall2_fmap_r. eapply Forall2_impl; [done|].
  intros x e. by apply located_up.
Qed.
Lemma leaves_up (s : Uint256) (es : list (Z * list Uint256)) :
  ((λ e, (e.1, e.2 ++ [s])) <$> es).*1 = es.*1.
Proof. induction es as [|e es IH]; [done|]. cbn. by rewrite <-IH. Qed.

(** The leaves under the left child come before those under the right one. *)
Lemma located_sorted N k j h1 h2 ins1 ins2 ms1 es1 ms2 es2 :
  Forall2 (located N k (2 * j) h1 ins1) ms1 es1 → Forall2 (located N k (2 * j + 1) h2 ins2) ms2 es2 →
  StronglySorted Z.lt es1.*1 → StronglySorted Z.lt es2.*1 → StronglySorted Z.lt (es1.*1 ++ es2.*1).
Proof.
  intros H1 H2 S1 S2. apply StronglySorted_app_2; [|done..].
  intros ? ? (e1 & -> & He1)%list_elem_of_fmap (e2 & -> & He2)%list_elem_of_fmap.
  apply list_elem_of_lookup in He1 as [i1 He1]. apply list_elem_of_lookup in He2 as [i2 He2].
  destruct (Forall2_lookup_r _ _ _ _ _ H1 He1) as (x1 & _ & _ & Hj1 & _).
  destruct (Forall2_lookup_r _ _ _ _ _ H2 He2) as (x2 & _ & _ & Hj2 & _).
  assert (0 < 2 ^ Z.of_nat k) by lia.
  pose proof (Z.div_mod e1.1 (2 ^ Z.of_nat k) ltac:(lia)).
  pose proof (Z.mod_pos_bound e1.1 (2 ^ Z.of_nat k) ltac:(lia)).
  pose proof (Z.div_mod e2.1 (2 ^ Z.of_nat k) ltac:(lia)).
  pose proof (Z.mod_pos_bound e2.1 (2 ^ Z.of_nat k) ltac:(lia)). nia.
Qed.

Lemma merkle_step_left j h s : merkle_step (2 * j) h s = HashMerkleBranches h s.
Proof. unfold merkle_step. by rewrite Z.mul_comm, Z_mod_mult. Qed.
Lemma merkle_step_right j h s : merkle_step (2 * j + 1) h s = HashMerkleBranches s h.
Proof. unfold merkle_step. by rewrite Z.add_comm, Z.mul_comm, Z_mod_plus_full. Qed.
Lemma merkle_input_left j h s : merkle_input (2 * j) h s = arr_bytes h ++ arr_bytes s.
Proof. unfold merkle_input. by rewrite Z.mul_comm, Z_mod_mult. Qed.
Lemma merkle_input_right j h s : merkle_input (2 * j + 1) h s = arr_bytes s ++ arr_bytes h.
Proof. unfold merkle_input. by rewrite Z.add_comm, Z.mul_comm, Z_mod_plus_full. Qed.
Lemma half_left j : 2 * j / 2 = j.
Proof. rewrite Z.mul_comm. by apply Z.div_mul. Qed.
Lemma half_right j : (2 * j + 1) / 2 = j.
Proof. rewrite Z.add_comm, Z.mul_comm, Z.div_add by lia. done. Qed.

Lemma alive_left N k j : alive N (Z.of_nat (S k)) j = true → alive N (Z.of_nat k) (2 * j) = true.
Proof.
  unfold alive. rewrite !Z.leb_le, Nat2Z.inj_succ, Z.pow_succ_r by lia.
  rewrite (Z.mul_comm 2 (2 ^ _)), <-Z.div_div by lia.
  pose proof (Z.mul_div_le ((N - 1) / 2 ^ Z.of_nat k) 2 ltac:(lia)). lia.
Qed.

Lemma parse_sound N k j bits hs h ms bits' hs' :
  parse N k j bits hs = Ok (h, ms, bits', hs') → 0 ≤ j → alive N (Z.of_nat k) j = true →
  ∃ es, Forall2 (located N k j h (parse_inputs N k j bits hs)) ms es ∧ StronglySorted Z.lt es.*1.
Proof.
  revert j bits hs h ms bits' hs'.
  induction k as [|k IH]; intros j bits hs h ms bits' hs' Hp Hj Ha.
  all: destruct hs as [|h0 hs], bits as [|b bits]; try done; cbn [parse] in Hp.
  - injection Hp as <- <- <- <-. apply Z.leb_le in Ha. rewrite Z.div_1_r in Ha.
    destruct b; [exists [(j, [])]|exists []]; repeat constructor; simpl; try lia; [by rewrite Z.div_1_r|set_solver].
  - destruct b; cbn [negb] in Hp; [|simplify_eq; exists []; repeat constructor].
    apply outcome_bind_Ok in Hp as ([[[l ml] bits1] hs1] & HL & Hp).
    destruct (IH _ _ _ _ _ _ _ HL ltac:(lia) (alive_left N k j Ha)) as (esl & Hl & Hsl).
    cbn [parse_inputs]. rewrite HL. destruct (alive N (Z.of_nat k) (2 * j + 1)) eqn:Hal2.
    + apply outcome_bind_Ok in Hp as ([[[rt mr] bits2] hs2] & HR & Hp).
      destruct (IH _ _ _ _ _ _ _ HR ltac:(lia) Hal2) as (esr & Hr & Hsr).
      apply outcome_bind_Ok in Hp as (p & Hm & Hp). cbn in Hm.
      destruct (decide (l = rt)); simplify_eq. rewrite HR. set (ins := _ ++ _ ++ _).
      assert (Hin : arr_bytes l ++ arr_bytes rt ∈ ins) by (apply elem_of_app; right; apply elem_of_app; right; by left).
      eexists (_ ++ _). split; [apply Forall2_app|].
      * pose proof (located_all_up _ _ _ _ _ ins rt _ _ Hl ltac:(unfold ins; set_solver)
          ltac:(by rewrite merkle_input_left)) as Hl'.
        rewrite merkle_step_left, half_left in Hl'. exact Hl'.
      * pose proof (located_all_up _ _ _ _ _ ins l _ _ Hr ltac:(unfold ins; set_solver)
          ltac:(by rewrite merkle_input_right)) as Hr'.
        rewrite merkle_step_right, half_right in Hr'. exact Hr'.
      * rewrite fmap_app, !leaves_up. by eapply located_sorted.
    + cbn [MakeMerkleParent mbind outcome_bind] in Hp. injection Hp as <- <- <- <-. eexists. split; [|by rewrite leaves_up].
      set (ins := parse_inputs _ _ _ _ _ ++ _). assert (Hin : arr_bytes l ++ arr_bytes l ∈ ins) by (apply elem_of_app; right; by left).
      pose proof (located_all_up _ _ _ _ _ ins l _ _ Hl ltac:(unfold ins; set_solver)
        ltac:(by rewrite merkle_input_left)) as Hl'.
      rewrite merkle_step_left, half_left in Hl'. exact Hl'.
Qed.
End paths.

(** ** Authenticity *)
Section authentic.
Context `{Sha} (txids : list Uint256).
Notation N := (Z.of_nat (length txids)).
Notation tx i := (nth (Z.to_nat i) txids zeroHash).

(** Every transaction of the block has a path to every subtree above it. *)
Lemma subtree_path k i :
  0 ≤ i < N → ∃ path, length path = k ∧
    merkle_fold i (tx i) path = subtree txids k (i / 2 ^ Z.of_nat k) ∧
    fold_inputs i (tx i) path ⊆ subtree_inputs txids k (i / 2 ^ Z.of_nat k).
Proof.
  intros Hi. induction k as [|k (path & Hl & Hf & Hin)]; [exists []; rewrite Z.div_1_r; split_and!; [done|done|set_solver]|].
  rewrite Nat2Z.inj_succ, Z.pow_succ_r, Z.mul_comm, <-Z.div_div by lia.
  set (j := i / 2 ^ Z.of_nat k) in *. assert (Hj : 0 ≤ j) by (apply Z.div_pos; lia).
  assert (Hjl : j ≤ (N - 1) / 2 ^ Z.of_nat k) by (apply Z.div_le_mono; lia).
  pose proof (Z.div_mod j 2 ltac:(lia)) as Hdm. cbn [subtree subtree_inputs].
  destruct (decide (j mod 2 = 0)) as [Hev|Hodd].
  - replace (2 * (j / 2)) with j by lia.
    exists (path ++ [subtree txids k (if alive N (Z.of_nat k) (j + 1) then j + 1 else j)]).
    rewrite length_app, Hl. split; [simpl; lia|].
    rewrite merkle_fold_snoc, fold_inputs_snoc, Hl, Hf. fold j. unfold merkle_step, merkle_input. rewrite Hev.
    split; [cbn; by destruct (alive _ _ _)|cbn; set_solver].
  - pose proof (Z.mod_pos_bound j 2 ltac:(lia)). assert (Hj1 : j mod 2 = 1) by lia.
    replace (2 * (j / 2) + 1) with j by lia. replace (2 * (j / 2)) with (j - 1) by lia.
    unfold alive. rewrite (proj2 (Z.leb_le _ _) Hjl).
    exists (path ++ [subtree txids k (j - 1)]). rewrite length_app, Hl. split; [simpl; lia|].
    rewrite merkle_fold_snoc, fold_inputs_snoc, Hl, Hf. fold j. unfold merkle_step, merkle_input. rewrite Hj1.
    split; [done|cbn; set_solver].
Qed.

Lemma located_authentic x e k ins :
  N ≤ 2 ^ Z.of_nat k → located N k 0 (subtree txids k 0) ins x e →
  txids !! Z.to_nat e.1 = Some x ∨ collide ins (subtree_inputs txids k 0).
Proof.
  intros HN (Hi & Hj & Hl & Hf & Hin).
  destruct (subtree_path k e.1 Hi) as (path & Hp & Hpf & Hpin). rewrite Hj in *. rewrite <-Hf in Hpf.
  destruct (merkle_fold_binding e.1 x (tx e.1) e.2 path) as [->|Hc]; [congruence|done| |].
  - left. rewrite nth_lookup. destruct (lookup_lt_is_Some_2 txids (Z.to_nat e.1)) as [y Hy]; [lia|].
    by rewrite Hy.
  - right. by eapply collide_mono.
Qed.

Lemma located_all_authentic ms es k ins :
  N ≤ 2 ^ Z.of_nat k → Forall2 (located N k 0 (subtree txids k 0) ins) ms es →
  Forall2 (λ x i, txids !! Z.to_nat i = Some x) ms es.*1 ∨ collide ins (subtree_inputs txids k 0).
Proof.
  intros HN Hall. induction Hall as [|x e ms es Hx _ IH]; [left; constructor|].
  destruct IH as [IH|]; [|by right].
  destruct (located_authentic x e k ins HN Hx) as [Hx'|]; [left; by constructor|by right].
Qed.
End authentic.

Lemma CheckMerkleBlock_authentic_run `{!Sha} {Hd} `{!BlockHeader Hd} (m : MerkleBlock Hd) txids ms :
  CheckMerkleBlock m = Some (Ok ms) →
  mb_Transactions m = Z.of_nat (length txids) → Z.of_nat (length txids) ≤ 2 ^ 31 →
  MerkleRoot (mb_Header m) = merkle_root txids →
  (∃ idx, StronglySorted Z.lt idx ∧ Forall2 (λ x i, txids !! Z.to_nat i = Some x) ms idx)
  ∨ collide (check_inputs m) (block_inputs txids).
Proof.
  intros Hc Hn Hle Hroot.
  assert (HN : 1 ≤ mb_Transactions m ≤ 2 ^ 31).
  { unfold CheckMerkleBlock in Hc. destruct (Z.eqb_spec (mb_Transactions m) 0); [done|lia]. }
  assert (Hf : mb_Flags m ≠ []).
  { intros Hf. unfold CheckMerkleBlock in Hc. by rewrite Hf, (proj2 (Z.eqb_neq _ 0)) in Hc by lia. }
  destruct (CheckMerkleBlock_spec_helper m HN Hf) as [Hs _]. rewrite Hs in Hc. injection Hc as Hc.
  unfold check_spec in Hc. apply outcome_bind_Ok in Hc as ([[[h ms'] b] hs] & Hp & Hc).
  destruct (decide (h = MerkleRoot (mb_Header m))) as [->|]; simplify_eq.
  pose proof (depth_nonneg (mb_Transactions m)). pose proof (depth_le (mb_Transactions m) ltac:(lia)).
  apply parse_sound in Hp as (es & Hall & Hsort); [|lia|].
  - rewrite Hn, Hroot in Hall. unfold merkle_root in Hall.
    apply located_all_authentic in Hall as [Hall|]; [left; eauto| |].
    { right. unfold check_inputs, block_inputs. by rewrite Hn. }
    rewrite Z2Nat.id by apply depth_nonneg. by rewrite <-Hn.
  - unfold alive. apply Z.leb_le, Z.div_pos; lia.
Qed.

(** C3: when [CheckMerkleBlock] accepts a message whose header commits to the
    transactions [txids] and whose transaction count is theirs, every
    transaction it returns is one of the block's, in block order and without
    repetition.  The only way out is a collision that can be read off: one of
    the strings the check hashed ([check_inputs]) and another one, a node of the
    block's own tree ([block_inputs]), with the same hash. *)
Theorem CheckMerkleBlock_authentic `{!Sha} {Hd} `{!BlockHeader Hd} (m : MerkleBlock Hd) txids ms :
  CheckMerkleBlock m = Some (Ok ms) →
  mb_Transactions m = Z.of_nat (length txids) → Z.of_nat (length txids) ≤ 2 ^ 31 →
  MerkleRoot (mb_Header m) = merkle_root txids →
  (∃ idx, StronglySorted Z.lt idx ∧ Forall2 (λ x i, txids !! Z.to_nat i = Some x) ms idx)
  ∨ collide (check_inputs m) (block_inputs txids).
Proof. apply CheckMerkleBlock_authentic_run. Qed.
