(* ===== verification/MerkleBuild.v ===== *)
(** * Partial Merkle trees: what is built is accepted

    The construction of a Merkle block in closed form and its agreement with
    the reference parser: the message [NewMerkleBlock] makes is accepted by
    [CheckMerkleBlock] with exactly the matched transactions. *)
From stdpp Require Import sorting.
From S2P Require Import Ela Demo Util Samples Merkle MerkleSpec MerkleSound.

(** ** Packing the bits into flag bytes *)
Definition nonzero (b : Z) : bool := negb (b =? 0).
Definition is_bit (b : Z) : Prop := b = 0 ∨ b = 1.

Lemma set_bit_bits f t b :
  (t < 8)%nat → is_bit b →
  byte_bits (byte_of_Z (Z.lor (Z_of_byte f) (u8 (Z.shiftl b (Z.of_nat t))))) =
    <[t := flag_bit f (Z.of_nat t) || nonzero b]> (byte_bits f).
Proof.
  intros Ht [->| ->].
  - rewrite Z.shiftl_0_l. change (u8 0) with 0. rewrite Z.lor_0_r, byte_of_Z_of_byte.
    rewrite orb_false_r. symmetry. apply list_insert_id. unfold byte_bits.
    do 8 (destruct t as [|t]; [done|]). lia.
  - do 8 (destruct t as [|t]; [destruct f; reflexivity|]). lia.
Qed.

Lemma set_flag_bits q t b (flags : bytes) :
  (t < 8)%nat → (q < length flags)%nat → is_bit b →
  ∃ old, (flags ≫= byte_bits) !! (8 * q + t)%nat = Some old ∧
    alter (λ f, byte_of_Z (Z.lor (Z_of_byte f) (u8 (Z.shiftl b (Z.of_nat t))))) q flags
      ≫= byte_bits = <[(8 * q + t)%nat := old || nonzero b]> (flags ≫= byte_bits).
Proof.
  intros Ht Hq Hb. revert q Hq. induction flags as [|f flags IH]; intros q Hq; [simpl in Hq; lia|].
  assert (Hlen : length (byte_bits f) = 8%nat) by done. rewrite bind_cons.
  destruct q as [|q].
  - exists (flag_bit f (Z.of_nat t)). rewrite Nat.mul_0_r, Nat.add_0_l. split.
    + rewrite lookup_app_l by lia. do 8 (destruct t as [|t]; [done|]). lia.
    + change (alter ?g 0%nat (f :: flags)) with (g f :: flags). rewrite bind_cons.
      rewrite insert_app_l by lia. by rewrite set_bit_bits.
  - simpl in Hq. destruct (IH q ltac:(lia)) as (old & Ho & Ha). exists old.
    replace (8 * S q + t)%nat with (length (byte_bits f) + (8 * q + t))%nat by lia. split.
    + rewrite lookup_app_r by lia. by rewrite Nat.add_comm, Nat.add_sub.
    + change (alter ?g (S q) (f :: flags)) with (f :: alter g q flags). rewrite bind_cons, Ha.
      by rewrite insert_app_r.
Qed.

Lemma packBits_bits bits i flags done pad :
  Forall is_bit bits → length done = i →
  flags ≫= byte_bits = done ++ replicate (length bits + pad) false →
  packBits i bits flags ≫= byte_bits = done ++ (nonzero <$> bits) ++ replicate pad false.
Proof.
  intros Hb. revert i flags done. induction Hb as [|b bits Hb _ IH]; intros i flags dn Hl Hf; [done|].
  cbn [packBits length fmap list_fmap].
  assert (Hi : (8 * (i / 8) + i mod 8 = i)%nat) by (symmetry; apply Nat.div_mod_eq).
  assert (Hlen : length (flags ≫= byte_bits) = (8 * length flags)%nat).
  { clear. induction flags as [|f fs IH]; [done|].
    rewrite bind_cons, length_app, IH. simpl length. lia. }
  destruct (set_flag_bits (i / 8) (i mod 8) b flags) as (old & Ho & Ha);
    [by apply Nat.mod_upper_bound| |done|].
  { rewrite Hf, length_app, length_replicate in Hlen. simpl in Hlen.
    apply Nat.Div0.div_lt_upper_bound. lia. }
  rewrite Hi in Ho, Ha. rewrite Hf in Ho, Ha.
  rewrite lookup_app_r, <-Hl, Nat.sub_diag in Ho by lia. simplify_eq/=.
  rewrite (IH (S (length dn)) _ (dn ++ [nonzero b])).
  - by rewrite <-app_assoc.
  - rewrite length_app. simpl. lia.
  - rewrite Ha. rewrite <-(Nat.add_0_r (length dn)) at 1. rewrite insert_app_r. simpl.
    by rewrite <-app_assoc.
Qed.

(** ** The widths of the rows *)
Section widths.
Context (N : Z) (HN : 1 ≤ N ≤ 2 ^ 31).

Lemma calcTreeWidth_alive k : 0 ≤ k ≤ 31 → calcTreeWidth N k = (N - 1) / 2 ^ k + 1.
Proof.
  intros Hk. unfold calcTreeWidth. rewrite shl32_1 by lia.
  assert (1 ≤ 2 ^ k ≤ 2 ^ 31).
  { split; [apply (Z.pow_le_mono_r 2 0); lia|apply Z.pow_le_mono_r; lia]. }
  rewrite u32_small by (unfold fits; change (2 ^ 32) with (2 * 2 ^ 31); lia).
  rewrite Z.shiftr_div_pow2 by lia.
  replace (N + 2 ^ k - 1) with (N - 1 + 1 * 2 ^ k) by lia. by rewrite Z.div_add by lia.
Qed.

Lemma sibling_alive k j : 0 ≤ k ≤ 31 → (j <? calcTreeWidth N k) = alive N k j.
Proof.
  intros Hk. rewrite calcTreeWidth_alive by done. unfold alive.
  destruct (Z.leb_spec j ((N - 1) / 2 ^ k)); [apply Z.ltb_lt|apply Z.ltb_ge]; lia.
Qed.

Lemma treeHeight_exact fuel h :
  0 ≤ h ≤ depth N → (Z.to_nat (depth N - h) < fuel)%nat → treeHeight fuel N h = Some (depth N).
Proof.
  pose proof (D_range N HN) as HD. revert h. induction fuel as [|fuel IH]; intros h Hh Hf; [lia|].
  cbn [treeHeight]. rewrite calcTreeWidth_alive by lia.
  assert (0 < 2 ^ h) by (apply Z.pow_pos_nonneg; lia).
  destruct (decide (h = depth N)) as [->|].
  - pose proof (depth_le N ltac:(lia)). by rewrite Z.div_small by lia.
  - pose proof (depth_lt N h ltac:(lia) ltac:(lia)).
    assert (1 ≤ (N - 1) / 2 ^ h) by (apply Z.div_le_lower_bound; lia).
    rewrite (proj2 (Z.ltb_lt _ _)) by lia.
    rewrite u32_small by (unfold fits; lia). apply IH; lia.
Qed.
End widths.

(** ** The construction in closed form *)
Section construction.
Context `{Sha} (txids : list Uint256) (mbits : list Z).
Notation N := (Z.of_nat (length txids)).
Context (HN : 1 ≤ N ≤ 2 ^ 31) (Hlen : length mbits = length txids) (Hbits : Forall is_bit mbits).

(** The part of a list below the node [j] of row [k]. *)
Definition under {A} (k : nat) (j : Z) (l : list A) : list A :=
  take (2 ^ k) (drop (Z.to_nat j * 2 ^ k) l).

Definition interesting (k : nat) (j : Z) : bool := existsb nonzero (under k j mbits).

(** The matched transactions below a node. *)
Definition selected (l : list (Uint256 * Z)) : list Uint256 :=
  omap (λ p, if nonzero p.2 then Some p.1 else None) l.
Definition matched (k : nat) (j : Z) : list Uint256 := selected (under k j (zip txids mbits)).

(** Flag bits and hashes of the subtree. *)
Fixpoint built (k : nat) (j : Z) : list bool * list Uint256 :=
  let h := subtree txids k j in
  match k with
  | O => ([interesting 0 j], [h])
  | S k' =>
      if interesting k j then
        let '(bl, hl) := built k' (2 * j) in
        if alive N (Z.of_nat k') (2 * j + 1) then
          let '(br, hr) := built k' (2 * j + 1) in (true :: bl ++ br, hl ++ hr)
        else (true :: bl, hl)
      else ([false], [h])
  end.

Lemma under_split {A} k j (l : list A) :
  0 ≤ j → under (S k) j l = under k (2 * j) l ++ under k (2 * j + 1) l.
Proof.
  intros Hj. unfold under. rewrite Nat.pow_succ_r'.
  replace (Z.to_nat (2 * j) * 2 ^ k)%nat with (Z.to_nat j * (2 * 2 ^ k))%nat by lia.
  replace (Z.to_nat (2 * j + 1) * 2 ^ k)%nat with (Z.to_nat j * (2 * 2 ^ k) + 2 ^ k)%nat by lia.
  rewrite <-drop_drop. generalize (drop (Z.to_nat j * (2 * 2 ^ k)) l) as m. intros m.
  replace (2 * 2 ^ k)%nat with (2 ^ k + 2 ^ k)%nat by lia.
  symmetry. apply take_take_drop.
Qed.
Lemma under_dead {A} k j (l : list A) :
  0 ≤ j → Z.of_nat (length l) = N → alive N (Z.of_nat k) j = false → under k j l = [].
Proof.
  intros Hj Hl Ha. unfold alive in Ha. apply Z.leb_gt in Ha.
  unfold under. rewrite drop_ge; [apply take_nil|].
  assert (Hp : Z.of_nat (2 ^ k) = 2 ^ Z.of_nat k) by apply Nat2Z.inj_pow.
  assert (0 < 2 ^ Z.of_nat k) by lia.
  pose proof (Z.mod_pos_bound (N - 1) (2 ^ Z.of_nat k) ltac:(lia)).
  pose proof (Z.div_mod (N - 1) (2 ^ Z.of_nat k) ltac:(lia)). nia.
Qed.
Lemma matched_none k j : interesting k j = false → matched k j = [].
Proof.
  unfold interesting, matched, selected, under. intros Hi.
  replace mbits with ((zip txids mbits).*2) in Hi by (rewrite snd_zip; [done|lia]).
  rewrite <-fmap_drop, <-fmap_take in Hi. revert Hi.
  generalize (take (2 ^ k) (drop (Z.to_nat j * 2 ^ k) (zip txids mbits))).
  induction l as [|[x b] l IH]; [done|]. cbn. destruct (nonzero b); [done|]. apply IH.
Qed.

(** No two siblings have the same hash ([MakeMerkleParent] refuses them). *)
Definition siblings_differ : Prop :=
  ∀ k j, 0 ≤ j → alive N (Z.of_nat k) (2 * j + 1) = true →
    subtree txids k (2 * j) ≠ subtree txids k (2 * j + 1).

Lemma built_hash k j : ∃ h hs, (built k j).2 = h :: hs.
Proof.
  revert j. induction k as [|k IH]; intros j; [by eexists _, _|]. cbn [built].
  destruct (interesting (S k) j); [|by eexists _, _].
  destruct (IH (2 * j)) as (h & hs & Hh). destruct (built k (2 * j)) as [bl hl]. simpl in Hh.
  subst hl. destruct (alive _ _ _); [|by eexists _, _].
  destruct (built k (2 * j + 1)). by eexists _, _.
Qed.

Lemma matched_leaf j :
  0 ≤ j < N → matched 0 j = if interesting 0 j then [nth (Z.to_nat j) txids zeroHash] else [].
Proof.
  intros Hj. unfold matched, interesting, under. rewrite Nat.pow_0_r, Nat.mul_1_r.
  destruct (lookup_lt_is_Some_2 txids (Z.to_nat j)) as [x Hx]; [lia|].
  destruct (lookup_lt_is_Some_2 mbits (Z.to_nat j)) as [b Hb]; [lia|].
  rewrite (drop_S mbits b) by done.
  rewrite (drop_S (zip txids mbits) (x, b)) by (by rewrite lookup_zip_with, Hx; simpl; rewrite Hb).
  rewrite nth_lookup, Hx. cbn. rewrite orb_false_r. by destruct (nonzero b).
Qed.

Lemma parse_built k j rest hrest :
  siblings_differ → 0 ≤ j → alive N (Z.of_nat k) j = true →
  parse N k j ((built k j).1 ++ rest) ((built k j).2 ++ hrest) =
    Ok (subtree txids k j, matched k j, rest, hrest).
Proof.
  intros Hd. revert j rest hrest. induction k as [|k IH]; intros j rest hrest Hj Ha.
  - cbn [built fst snd app parse]. rewrite matched_leaf; [done|].
    apply Z.leb_le in Ha. rewrite Z.div_1_r in Ha. lia.
  - destruct (interesting (S k) j) eqn:Hi.
    2: { cbn [built]. rewrite Hi. cbn [fst snd app parse negb]. by rewrite matched_none. }
    pose proof (alive_left N k j Ha) as Hal.
    unfold matched. rewrite under_split by done. unfold selected. rewrite omap_app.
    fold (selected (under k (2 * j) (zip txids mbits))).
    fold (selected (under k (2 * j + 1) (zip txids mbits))). fold (matched k (2 * j)).
    fold (matched k (2 * j + 1)).
    destruct (built_hash k (2 * j)) as (h & hs & Hh).
    pose proof (λ r1 r2, IH (2 * j) r1 r2 ltac:(lia) Hal) as HL.
    pose proof (λ r1 r2, IH (2 * j + 1) r1 r2 ltac:(lia)) as HR.
    cbn [built]. rewrite Hi.
    destruct (built k (2 * j)) as [bl hl], (built k (2 * j + 1)) as [br hr].
    cbn [fst snd] in *. subst hl. cbn [subtree].
    destruct (alive N (Z.of_nat k) (2 * j + 1)) eqn:Hal2; cbn [fst snd app parse negb].
    + rewrite <-!app_assoc, !app_comm_cons, HL. cbn [mbind outcome_bind].
      rewrite Hal2, HR by done. cbn [mbind outcome_bind MakeMerkleParent].
      by destruct (decide (subtree txids k (2 * j) = _)) as [e|]; [apply Hd in e|].
    + rewrite app_comm_cons, HL. cbn [mbind outcome_bind]. rewrite Hal2.
      assert (matched k (2 * j + 1) = []) as ->.
      { unfold matched. by rewrite under_dead by (rewrite ?length_zip_with; lia || done). }
      cbn. by rewrite app_nil_r.
Qed.

Lemma or_range_existsb n from acc :
  0 ≤ from → from + Z.of_nat n ≤ N → is_bit acc →
  or_range mbits (seqZ from (Z.of_nat n)) acc =
    Ok (Z.b2z (nonzero acc || existsb nonzero (take n (drop (Z.to_nat from) mbits)))).
Proof.
  revert from acc. induction n as [|n IH]; intros from acc Hf Hn Ha.
  - rewrite take_0, orb_false_r. by destruct Ha as [->| ->].
  - rewrite seqZ_cons by lia. replace (Z.pred (Z.of_nat (S n))) with (Z.of_nat n) by lia.
    destruct (lookup_lt_is_Some_2 mbits (Z.to_nat from)) as [b Hb]; [lia|].
    pose proof (proj1 (Forall_lookup _ _) Hbits _ _ Hb) as Hbit.
    rewrite (drop_S _ _ _ Hb). cbn [or_range take existsb]. rewrite Hb. cbn [or_panic mbind outcome_bind].
    rewrite IH; [|lia|lia|by destruct Ha as [->| ->], Hbit as [->| ->]; [left|right..]].
    replace (Z.to_nat (Z.succ from)) with (S (Z.to_nat from)) by lia.
    rewrite orb_assoc. by destruct Ha as [->| ->], Hbit as [->| ->].
Qed.

(** [j] is a live node of row [k]: the positions below it, on [uint32]. *)
Lemma live_range k j :
  (k ≤ 31)%nat → 0 ≤ j → alive N (Z.of_nat k) j = true →
  0 ≤ j * 2 ^ Z.of_nat k ≤ N - 1 ∧ 1 ≤ 2 ^ Z.of_nat k ≤ 2 ^ 31 ∧ j < N.
Proof.
  intros Hk Hj Ha. apply Z.leb_le in Ha.
  assert (1 ≤ 2 ^ Z.of_nat k ≤ 2 ^ 31).
  { split; [apply (Z.pow_le_mono_r 2 0); lia|apply Z.pow_le_mono_r; lia]. }
  pose proof (Z.mul_div_le (N - 1) (2 ^ Z.of_nat k) ltac:(lia)). nia.
Qed.

Lemma isParentOf_interesting m k j :
  NumTx m = N → MatchedBits m = mbits → (k ≤ 31)%nat → 0 ≤ j → alive N (Z.of_nat k) j = true →
  isParentOf m (Z.of_nat k) j = Ok (Z.b2z (interesting k j)).
Proof.
  intros HnumTx Hm Hk Hj Ha. destruct (live_range k j Hk Hj Ha) as (Hr & Hp & HjN).
  unfold isParentOf, shl32. rewrite HnumTx, Hm, !Z.shiftl_mul_pow2 by lia.
  rewrite (u32_small (j + 1)) by (unfold fits; lia).
  rewrite !u32_small by (unfold fits; change (2 ^ 32) with (2 * 2 ^ 31); lia).
  set (from := j * 2 ^ Z.of_nat k) in *.
  replace ((j + 1) * 2 ^ Z.of_nat k) with (from + 2 ^ Z.of_nat k) by (unfold from; lia).
  set (len := Z.min (from + 2 ^ Z.of_nat k) N - from).
  replace len with (Z.of_nat (Z.to_nat len)) by lia.
  rewrite or_range_existsb; [|lia|lia|by left]. unfold interesting, under. cbn [orb nonzero].
  assert (Hpn : Z.of_nat (2 ^ k) = 2 ^ Z.of_nat k) by apply Nat2Z.inj_pow.
  assert (Hfrom : Z.of_nat (Z.to_nat j * 2 ^ k) = from) by (rewrite Nat2Z.inj_mul, Hpn; lia).
  replace (Z.to_nat from) with (Z.to_nat j * 2 ^ k)%nat by lia.
  change (nonzero 0) with false. cbn [orb]. do 3 f_equal.
  destruct (decide (from + 2 ^ Z.of_nat k ≤ N)).
  - f_equal. lia.
  - rewrite !take_ge; [done|..]; rewrite length_drop; lia.
Qed.

Lemma calcHash_subtree m k j :
  NumTx m = N → AllHashes m = txids → (k ≤ 31)%nat → 0 ≤ j → alive N (Z.of_nat k) j = true →
  calcHash m k j = Ok (subtree txids k j).
Proof.
  intros HnumTx Hm. revert j. induction k as [|k IH]; intros j Hk Hj Ha.
  - cbn [calcHash subtree]. destruct (live_range 0 j Hk Hj Ha) as (_ & _ & Hr).
    rewrite Hm, nth_lookup. destruct (lookup_lt_is_Some_2 txids (Z.to_nat j)) as [x Hx]; [lia|].
    by rewrite Hx.
  - pose proof (alive_left N k j Ha) as Hal.
    destruct (live_range k (2 * j) ltac:(lia) ltac:(lia) Hal) as (_ & _ & Hr).
    cbn [calcHash subtree]. rewrite (u32_small (j * 2)), (u32_small (j * 2 + 1)) by (unfold fits; lia).
    rewrite (Z.mul_comm j 2), HnumTx, sibling_alive by lia.
    rewrite (IH (2 * j)) by (done || lia). cbn [mbind outcome_bind].
    destruct (alive N (Z.of_nat k) (2 * j + 1)) eqn:Hal2; [|done].
    by rewrite (IH (2 * j + 1)) by (done || lia).
Qed.

Lemma traverse_built m k j :
  NumTx m = N → AllHashes m = txids → MatchedBits m = mbits →
  (k ≤ 31)%nat → 0 ≤ j → alive N (Z.of_nat k) j = true →
  traverseAndBuild k j m =
    (Ok (), mkMBlock N txids (FinalHashes m ++ (built k j).2) mbits
              (mBits m ++ (Z.b2z <$> (built k j).1))).
Proof.
  intros HnumTx Hall Hm. revert j m HnumTx Hall Hm.
  induction k as [|k IH]; intros j m HnumTx Hall Hm Hk Hj Ha.
  all: pose proof (isParentOf_interesting m _ j HnumTx Hm Hk Hj Ha) as Hp.
  all: pose proof (λ m' h1 h2, calcHash_subtree m' _ j h1 h2 Hk Hj Ha) as Hc.
  all: cbn [traverseAndBuild]; unfold mbind, GoM_bind, getS, lift, modify; rewrite Hp.
  - cbn beta iota. rewrite Hc by done. cbn. unfold append_hash, append_bit. simpl. by rewrite HnumTx, Hall, Hm.
  - cbn beta iota. cbn [built]. destruct (interesting (S k) j); cbn [Z.b2z Z.eqb negb].
    2: { rewrite Hc by done. cbn. unfold append_hash, append_bit. simpl. by rewrite HnumTx, Hall, Hm. }
    pose proof (alive_left N k j Ha) as Hal.
    destruct (live_range k (2 * j) ltac:(lia) ltac:(lia) Hal) as (_ & _ & Hr).
    rewrite (u32_small (j * 2)), (u32_small (j * 2 + 1)) by (unfold fits; lia).
    rewrite (Z.mul_comm j 2), HnumTx, sibling_alive by lia.
    rewrite (IH (2 * j)) by (done || lia). destruct (built k (2 * j)) as [bl hl]. cbn [FinalHashes mBits append_bit fst snd].
    destruct (alive N (Z.of_nat k) (2 * j + 1)) eqn:Hal2.
    + rewrite (IH (2 * j + 1)) by (done || lia). destruct (built k (2 * j + 1)) as [br hr]. cbn [FinalHashes mBits fst snd].
      by rewrite <-!app_assoc, fmap_cons, fmap_app.
    + cbn. by rewrite <-!app_assoc.
Qed.
End construction.

(** ** The message *)
Lemma zero_flags_bits q : replicate q x00 ≫= byte_bits = replicate (8 * q) false.
Proof.
  induction q as [|q IH]; [done|]. cbn [replicate]. rewrite bind_cons, IH.
  replace (8 * S q)%nat with (8 + 8 * q)%nat by lia. by rewrite replicate_add.
Qed.
Lemma nonzero_b2z (l : list bool) : nonzero <$> (Z.b2z <$> l) = l.
Proof. induction l as [|[] l IH]; [done|..]; cbn; by f_equal. Qed.
Lemma b2z_bits (l : list bool) : Forall is_bit (Z.b2z <$> l).
Proof. induction l as [|[] l IH]; constructor; try done; [by right|by left]. Qed.

Lemma packed_flags (bits : list bool) :
  let q := ((length bits + 7) / 8)%nat in
  packBits 0 (Z.b2z <$> bits) (replicate q x00) ≫= byte_bits =
    bits ++ replicate (8 * q - length bits) false.
Proof.
  intros q. assert (length bits ≤ 8 * q)%nat.
  { pose proof (Nat.div_mod_eq (length bits + 7) 8).
    pose proof (Nat.mod_upper_bound (length bits + 7) 8 ltac:(lia)). unfold q. lia. }
  rewrite (packBits_bits _ 0 _ [] (8 * q - length bits)); [by rewrite nonzero_b2z|apply b2z_bits|done|].
  rewrite zero_flags_bits, length_fmap. simpl. f_equal. lia.
Qed.

Lemma buildMerkleBlock_accepted `{!Sha} {Hd} `{!BlockHeader Hd} (header : Hd) txids mbits :
  1 ≤ Z.of_nat (length txids) ≤ 2 ^ 31 → length mbits = length txids → Forall is_bit mbits →
  siblings_differ txids → MerkleRoot header = merkle_root txids →
  ∃ m, buildMerkleBlock header txids mbits = Some (Ok m) ∧ mb_Header m = header ∧
       mb_Transactions m = Z.of_nat (length txids) ∧
       CheckMerkleBlock m = Some (Ok (selected (zip txids mbits))).
Proof.
  intros HN Hlen Hb Hd' Hroot. set (N := Z.of_nat (length txids)) in *.
  pose proof (D_range N HN) as HD. pose proof (depth_le N ltac:(lia)) as HdN.
  set (k := Z.to_nat (depth N)). assert (Hk : Z.of_nat k = depth N) by (unfold k; lia).
  assert (Ha : alive N (Z.of_nat k) 0 = true) by (apply Z.leb_le, Z.div_pos; lia).
  unfold buildMerkleBlock. fold N. rewrite u32_small by (unfold fits; lia).
  rewrite treeHeight_exact by (done || lia). cbn [mbind option_bind]. fold k.
  rewrite (traverse_built txids mbits) by (done || lia).
  cbn [mbind outcome_bind FinalHashes mBits app]. eexists. split; [reflexivity|].
  split; [done|]. split; [done|]. rewrite length_fmap.
  pose proof (parse_built txids mbits HN Hlen k 0) as Hparse.
  pose proof (packed_flags (built txids mbits k 0).1) as Hflags.
  cbv zeta in Hflags. set (flags := packBits _ _ _) in *.
  assert (Hm : matched txids mbits k 0 = selected (zip txids mbits)).
  { unfold matched, under. rewrite drop_0, take_ge; [done|].
    rewrite length_zip_with, Hlen. assert (Z.of_nat (2 ^ k) = 2 ^ Z.of_nat k) as Hp by apply Nat2Z.inj_pow.
    rewrite Hk in Hp. lia. }
  destruct (CheckMerkleBlock_spec_helper
    (mkMerkleBlock header N (built txids mbits k 0).2 flags)) as [-> _]; [done| |].
  - intros Hfl. cbn [mb_Flags] in Hfl. rewrite Hfl in Hflags. cbn in Hflags.
    symmetry in Hflags. apply app_eq_nil in Hflags as [Hn _].
    destruct k; cbn [built] in Hn; [done|]. destruct (interesting _ _ _); [|done].
    repeat case_match; done.
  - f_equal. unfold check_spec. cbn [mb_Transactions mb_Flags mb_Hashes mb_Header].
    change (flag_bits 0 flags) with (flags ≫= byte_bits). rewrite Hflags.
    specialize (Hparse (replicate (8 * ((length (built txids mbits k 0).1 + 7) / 8)
                          - length (built txids mbits k 0).1) false) [] Hd' ltac:(lia) Ha).
    rewrite app_nil_r in Hparse. fold N k in Hparse. fold k. rewrite Hparse.
    cbn [mbind outcome_bind]. unfold merkle_root in Hroot. fold N k in Hroot.
    by rewrite decide_True, Hm.
Qed.

(** ** The transactions a filter matches *)
Section matching.
Context {F T} `{FilterI F} `{Transaction T}.

Lemma matchTxs_spec index (txs : list T) (f : F) bits hashes idx f' :
  matchTxs index txs f = (Ok (bits, hashes, idx), f') →
  0 ≤ index → index + Z.of_nat (length txs) ≤ 2 ^ 32 →
  hashes = TxHash <$> txs ∧ length bits = length txs ∧ Forall is_bit bits ∧
  Forall2 (λ x i, index ≤ i ∧ hashes !! Z.to_nat (i - index) = Some x)
    (selected (zip hashes bits)) idx.
Proof.
  revert index f bits hashes idx. induction txs as [|tx txs IH]; intros index f bits hashes idx Hm Hi Hl.
  - injection Hm as <- <- <- <-. repeat constructor.
  - cbn [matchTxs] in Hm. apply GoM_bind_Ok in Hm as (b & f1 & _ & Hm).
    apply GoM_bind_Ok in Hm as ([[bits1 hashes1] idx1] & f2 & Hr & Hm).
    cbn [length] in Hl.
    destruct (IH (index + 1) f1 bits1 hashes1 idx1 ltac:(rewrite Hr; by destruct b; injection Hm as _ _ _ <-)
                ltac:(lia) ltac:(lia)) as (Hh & Hb & Hbits & Hsel).
    assert (Hsel' : Forall2 (λ x i, index ≤ i ∧ (TxHash tx :: hashes1) !! Z.to_nat (i - index) = Some x)
                      (selected (zip hashes1 bits1)) idx1).
    { eapply Forall2_impl; [exact Hsel|]. intros x i [Hge Hx]. split; [lia|].
      replace (Z.to_nat (i - index)) with (S (Z.to_nat (i - (index + 1)))) by lia. done. }
    destruct b; injection Hm as <- <- <- _; (split; [by rewrite Hh|]); (split; [simpl; lia|]).
    + split; [constructor; [by right|done]|]. cbn. constructor; [|done].
      rewrite u32_small by (unfold fits; lia). by rewrite Z.sub_diag.
    + split; [constructor; [by left|done]|]. done.
Qed.
End matching.

(** C34: when [NewMerkleBlock] goes through a block of at most 2^31 transactions
    whose header commits to them, and no two siblings of its tree collide, the
    message it makes is accepted by [CheckMerkleBlock], which returns exactly
    the ids of the transactions the filter matched, at the returned indexes. *)
Theorem NewMerkleBlock_accepted `{!Sha} {Hd F T} `{!BlockHeader Hd} `{!FilterI F} `{!Transaction T}
    (block : Block Hd T) (f f' : F) r idx :
  NewMerkleBlock block f = (Ok (r, idx), f') →
  1 ≤ Z.of_nat (length (Transactions block)) ≤ 2 ^ 31 →
  siblings_differ (TxHash <$> Transactions block) →
  MerkleRoot (BlockHeaderOf (BlockHdr block)) = merkle_root (TxHash <$> Transactions block) →
  ∃ m ms, r = Some (Ok m) ∧ mb_Header m = BlockHeaderOf (BlockHdr block) ∧
    CheckMerkleBlock m = Some (Ok ms) ∧
    Forall2 (λ x i, (TxHash <$> Transactions block) !! Z.to_nat i = Some x) ms idx.
Proof.
  intros Hn HN Hd' Hroot. unfold NewMerkleBlock in Hn.
  apply GoM_bind_Ok in Hn as ([[bits hashes] idx'] & f1 & Hm & Hr). injection Hr as <- <- _.
  apply matchTxs_spec in Hm as (-> & Hl & Hb & Hsel); [|lia|lia].
  destruct (buildMerkleBlock_accepted (BlockHeaderOf (BlockHdr block))
    (TxHash <$> Transactions block) bits) as (m & Hm & Hh & _ & Hc); rewrite ?length_fmap; try done.
  exists m. eexists. split_and!; [done|done|done|]. eapply Forall2_impl; [exact Hsel|].
  intros x i [_ Hx]. by rewrite Z.sub_0_r in Hx.
Qed.

(** ** Witnesses *)
Definition sample_txs : list sample_tx := [simple_tx 1 [] []; simple_tx 2 [] []; simple_tx 3 [] []].
Definition sample_block : Block sample_header sample_tx :=
  mkBlock (mkHeader (mksh (h256 0) (merkle_root (TxHash <$> sample_txs)) 5 6) 1 3 [] [] 0) sample_txs.
Definition sample_message : MerkleBlock sample_header :=
  match NewMerkleBlock (F := exact_filter) sample_block [arr_bytes (h256 2)] with
  | (Ok (Some (Ok m), _), _) => m
  | _ => mkMerkleBlock (mksh (h256 0) (h256 0) 0 0) 0 [] []
  end.

Lemma CheckMerkleBlock_spec_witness :
  CheckMerkleBlock sample_message = Some (check_spec sample_message) ∧ returns (check_spec sample_message).
Proof. apply CheckMerkleBlock_spec; vm_compute; [split|]; congruence. Defined.

Lemma treeDepth_diverges_witness : treeDepth_loop 1000 0 (2 ^ 32 - 1) = None.
Proof. apply treeDepth_diverges. lia. Defined.

Lemma CheckMerkleBlock_authentic_witness :
  (∃ idx, StronglySorted Z.lt idx ∧
    Forall2 (λ x i, (TxHash <$> sample_txs) !! Z.to_nat i = Some x) [h256 2] idx) ∨
  collide (check_inputs sample_message) (block_inputs (TxHash <$> sample_txs)).
Proof.
  apply (CheckMerkleBlock_authentic sample_message).
  - vm_compute. reflexivity.
  - vm_compute. reflexivity.
  - vm_compute. congruence.
  - vm_compute. reflexivity.
Defined.

Lemma sample_siblings_differ : siblings_differ (TxHash <$> sample_txs).
Proof.
  intros k j Hj Ha. unfold alive in Ha. apply Z.leb_le in Ha. cbn [length fmap list_fmap sample_txs] in Ha.
  destruct k as [|[|k]].
  - assert (j = 0) as -> by (rewrite Z.div_1_r in Ha; lia). intros Heq. vm_compute in Heq. congruence.
  - assert (j = 0) as -> by (change ((Z.of_nat 3 - 1) / 2 ^ Z.of_nat 1) with 1 in Ha; lia).
    intros Heq. vm_compute in Heq. congruence.
  - exfalso. rewrite Z.div_small in Ha; [lia|]. rewrite !Nat2Z.inj_succ, !Z.pow_succ_r by lia. lia.
Qed.

Lemma NewMerkleBlock_accepted_witness :
  ∃ m ms, (NewMerkleBlock (F := exact_filter) sample_block [arr_bytes (h256 2)]).1
            = Ok (Some (Ok m), [1]) ∧
    mb_Header m = BlockHeaderOf (BlockHdr sample_block) ∧
    CheckMerkleBlock m = Some (Ok ms) ∧
    Forall2 (λ x i, (TxHash <$> sample_txs) !! Z.to_nat i = Some x) ms [1].
Proof.
  destruct (NewMerkleBlock_accepted sample_block [arr_bytes (h256 2)] [arr_bytes (h256 2)]
              (Some (Ok sample_message)) [1]) as (m & ms & Hr & Hh & Hc & Hf).
  - vm_compute. reflexivity.
  - vm_compute. split; congruence.
  - apply sample_siblings_differ.
  - reflexivity.
  - exists m, ms. split; [|done]. injection Hr as <-. vm_compute. reflexivity.
Defined.
