(* ===== verification/Buckets.v ===== *)
(** * Buckets of a key-value store

    [interface/store/prefix.go] and [toKey]/[subKey]: a table is the set of
    keys with a common prefix.  [bucket_view] is the table a bucket stands for;
    the lemmas say how puts, deletes and iterations act on it.  The ordered map
    of the caches is an interface too. *)
From S2P Require Export Ela.

(** The bytes of a Go string literal. *)
Definition lit (s : string) : bytes := String.list_byte_of_string s.

Definition BKTAddrs : bytes := lit "addrs".
Definition BKTTxTypes : bytes := lit "txtypes".
Definition BKTHeaders : bytes := lit "headers".
Definition BKTIndexes : bytes := lit "indexes".
Definition BKTChainTip : bytes := lit "chaintip".
Definition BKTOps : bytes := lit "ops".
Definition BKTQue : bytes := lit "que".
Definition BKTQueIdx : bytes := lit "qindex".
Definition BKTTxs : bytes := lit "transactions".
Definition BKTHeightTxs : bytes := lit "heighttxs".
Definition BKTForkTxs : bytes := lit "forktxs".
Definition BKTArbiters : bytes := lit "arbiters".
Definition BKTArbPosition : bytes := lit "arbptn".
Definition BKTArbPositions : bytes := lit "arbpts".
Definition BKTArbitersData : bytes := lit "arbdata".
Definition BKTTransactionHeight : bytes := lit "txheight".
Definition BKTRevertPosition : bytes := lit "revertp".
Definition BKTRevertPositions : bytes := lit "revertps".
Definition BKTReturnSideChainDepositCoin : bytes := lit "retschdepositcoin".
Definition BKTReservedCustomID : bytes := lit "rscid".
Definition BKTReceivedCustomID : bytes := lit "rccid".
Definition BKTChangeCustomIDFee : bytes := lit "ccidf".
Definition BKTCustomIDFeePositions : bytes := lit "cidfps".

Definition toKey (bucket index : bytes) : bytes := bucket ++ index.

(** [key[len(bucket):]] *)
Definition subKey (bucket key : bytes) : outcome bytes :=
  if decide (length bucket ≤ length key)%nat then Ok (drop (length bucket) key) else Panic.

Lemma subKey_toKey bucket index : subKey bucket (toKey bucket index) = Ok index.
Proof.
  unfold subKey, toKey. rewrite decide_True by (rewrite length_app; lia).
  by rewrite drop_app_length.
Qed.

(** ** The table of a bucket *)
Section bucket_view.
Context {K V : Type} `{Countable K} (ek : K → bytes) (dk : bytes → option K) (dv : bytes → option V).

Definition bucket_entry (kv : bytes * bytes) : option (K * V) :=
  k ← dk kv.1; v ← dv kv.2; Some (k, v).
Definition bucket_view (m : gmap bytes bytes) : gmap K V :=
  list_to_map (omap bucket_entry (map_to_list m)).

Context (dk_ek : ∀ x, dk (ek x) = Some x) (dk_inj : ∀ k x, dk k = Some x → k = ek x).

Lemma bucket_entries_keys (l : list (bytes * bytes)) :
  NoDup l.*1 → NoDup (omap bucket_entry l).*1.
Proof.
  induction l as [|[k v] l IH]; intros Hnd; [constructor|].
  cbn [fmap list_fmap fst] in Hnd. apply NoDup_cons in Hnd as [Hk Hnd]. specialize (IH Hnd).
  cbn [omap list_omap]. destruct (bucket_entry (k, v)) as [[x y]|] eqn:He; [|done].
  cbn. constructor; [|done]. intros ([x' y'] & Hx & Hin)%list_elem_of_fmap. cbn in Hx. subst x'.
  apply list_elem_of_omap in Hin as ([k' v'] & Hin & He'). unfold bucket_entry in He, He'. cbn in He, He'.
  destruct (dk k) as [x1|] eqn:E1; [|done]. destruct (dk k') as [x2|] eqn:E2; [|done].
  destruct (dv v), (dv v'); simplify_eq/=. apply dk_inj in E1, E2. subst.
  apply Hk. by apply (list_elem_of_fmap_2 fst l (ek x, v')).
Qed.

Lemma bucket_view_lookup m x : bucket_view m !! x = (v ← m !! ek x; dv v).
Proof.
  unfold bucket_view. apply option_eq. intros y.
  rewrite <-elem_of_list_to_map by (apply bucket_entries_keys, NoDup_fst_map_to_list).
  rewrite list_elem_of_omap. split.
  - intros ([k v] & Hin%elem_of_map_to_list & He). unfold bucket_entry in He. cbn in He.
    destruct (dk k) as [x'|] eqn:E; [|done]. destruct (dv v) eqn:Ev; simplify_eq/=.
    apply dk_inj in E. subst k. rewrite Hin. done.
  - intros Hm. destruct (m !! ek x) as [v|] eqn:E; [|done]. cbn in Hm.
    exists (ek x, v). split; [by apply elem_of_map_to_list|].
    unfold bucket_entry. cbn. by rewrite dk_ek, Hm.
Qed.

Lemma bucket_view_put m x v y : dv v = Some y → bucket_view (<[ek x := v]> m) = <[x := y]> (bucket_view m).
Proof.
  intros Hv. apply map_eq. intros z. rewrite bucket_view_lookup.
  destruct (decide (x = z)) as [->|Hne].
  - by rewrite !lookup_insert_eq.
  - rewrite !lookup_insert_ne, bucket_view_lookup; [done|done|].
    intros E. apply Hne. pose proof (dk_ek x) as E1. rewrite E, dk_ek in E1. congruence.
Qed.
Lemma bucket_view_delete m x : bucket_view (delete (ek x) m) = delete x (bucket_view m).
Proof.
  apply map_eq. intros z. rewrite bucket_view_lookup.
  destruct (decide (x = z)) as [->|Hne].
  - by rewrite !lookup_delete_eq.
  - rewrite !lookup_delete_ne, bucket_view_lookup; [done|done|].
    intros E. apply Hne. pose proof (dk_ek x) as E1. rewrite E, dk_ek in E1. congruence.
Qed.
Lemma bucket_view_other m k v : (∀ x, k ≠ ek x) → bucket_view (<[k := v]> m) = bucket_view m.
Proof.
  intros Hk. apply map_eq. intros z. rewrite !bucket_view_lookup, lookup_insert_ne; [done|]. apply Hk.
Qed.
End bucket_view.

(** Keys made of a prefix and a fixed-size array. *)
Section array_keys.
Context (p : bytes) {n : nat}.
Definition array_key (x : array n) : bytes := p ++ arr_bytes x.
Definition array_unkey (k : bytes) : option (array n) :=
  if decide (p = take (length p) k ∧ length k = length p + n)%nat
  then Some (copy_array n (drop (length p) k)) else None.

Lemma array_unkey_key x : array_unkey (array_key x) = Some x.
Proof.
  unfold array_unkey, array_key. rewrite decide_True.
  - by rewrite drop_app_length, copy_array_bytes.
  - by rewrite take_app_length, length_app, arr_length.
Qed.
Lemma array_unkey_inj k x : array_unkey k = Some x → k = array_key x.
Proof.
  unfold array_unkey, array_key. intros Hk. case_decide as Hd; [|done]. destruct Hd as [Hp Hl].
  injection Hk as <-. rewrite arr_copy_array by (rewrite length_drop; lia).
  rewrite Hp at 1. by rewrite take_drop.
Qed.
Lemma array_key_length x : length (array_key x) = (length p + n)%nat.
Proof. unfold array_key. by rewrite length_app, arr_length. Qed.
Lemma array_key_inj x y : array_key x = array_key y → x = y.
Proof. intros E%app_inv_head. by apply array_eq. Qed.
End array_keys.

(** ** [ordered_map.OrderedMap]: iteration in insertion order *)
Class OrderedMap (OM K V : Type) := {
  om_New : OM;
  om_Len : OM → Z;
  om_First : OM → option K;         (* the first key IterFunc yields *)
  om_Get : K → OM → option V;
  om_Set : K → V → OM → OM;
  om_Delete : K → OM → OM;
}.
Class OrderedMapLaws (OM K V : Type) `{Countable K, !OrderedMap OM K V} := {
  om_view : OM → gmap K V;
  om_New_view : om_view om_New = ∅;
  om_Get_view k m : om_Get k m = om_view m !! k;
  om_Set_view k v m : om_view (om_Set k v m) = <[k := v]> (om_view m);
  om_Delete_view k m : om_view (om_Delete k m) = delete k (om_view m);
}.
