(* ===== verification/Txs.v ===== *)
(** * The transaction table

    [interface/store/txs.go] and [interface/store/txsbatch.go]: transactions by
    hash, the list of transaction ids of every height, and the transactions of
    fork blocks.  The list is a big-endian count followed by the ids; the
    offsets into it are computed on [uint16]. *)
From S2P Require Export Buckets Util.

(** Iterating over a Go map visits its entries in some order. *)
Class MapOrder := {
  range {K V : Type} `{Countable K} : gmap K V → list (K * V);
  range_perm {K V : Type} `{Countable K} (m : gmap K V) : range m ≡ₚ map_to_list m;
}.

Lemma range_keys_NoDup `{!MapOrder} {K V} `{Countable K} (m : gmap K V) : NoDup (range m).*1.
Proof. rewrite range_perm. apply NoDup_fst_map_to_list. Qed.
Lemma range_lookup `{!MapOrder} {K V} `{Countable K} (m : gmap K V) :
  list_to_map (range m) = m.
Proof.
  rewrite (list_to_map_proper (range m) (map_to_list m)); [apply list_to_map_to_list| |apply range_perm].
  apply range_keys_NoDup.
Qed.
Lemma range_elem `{!MapOrder} {K V} `{Countable K} (m : gmap K V) k v : (k, v) ∈ range m ↔ m !! k = Some v.
Proof. rewrite range_perm. apply elem_of_map_to_list. Qed.

(** [data[lo:hi]] on a slice without spare capacity. *)
Definition slice (data : bytes) (lo hi : Z) : outcome bytes :=
  if decide (0 ≤ lo ≤ hi ∧ hi ≤ Z.of_nat (length data))
  then Ok (take (Z.to_nat (hi - lo)) (drop (Z.to_nat lo) data)) else Panic.

(** ** The id list of a height *)
Definition putTxId (data : bytes) (txId : Uint256) : outcome bytes :=
  '(count, data) ← (match data with
                    | [] => Ok (0, data ++ [x00; x00])
                    | _ => c ← slice data 0 2; Ok (be_value c, data)
                    end);
  let data := data ++ arr_bytes txId in
  Ok (be_bytes 2 (u16 (count + 1)) ++ drop 2 data).

(** [for i := uint16(0); i < count; i++]: [i*32] and [(i+1)*32] wrap. *)
Fixpoint ids_loop (n : nat) (i : Z) (data : bytes) : outcome (list Uint256) :=
  match n with
  | O => Ok []
  | S n =>
      id ← slice data (u16 (i * 32)) (u16 (u16 (i + 1) * 32));
      rest ← ids_loop n (u16 (i + 1)) data;
      Ok (copy_array 32 id :: rest)
  end.

Definition getTxIds (data : bytes) : outcome (list Uint256) :=
  match data with
  | [] => Ok []
  | _ =>
      c ← slice data 0 2;
      ids_loop (Z.to_nat (be_value c)) 0 (drop 2 data)
  end.

(** The loop of [delTxId]: cut the first equal id out. *)
Fixpoint del_loop (n : nat) (i : Z) (hash : Uint256) (data : bytes) : outcome bytes :=
  match n with
  | O => Ok data
  | S n =>
      id ← slice data (u16 (i * 32)) (u16 (u16 (i + 1) * 32));
      if decide (copy_array 32 id = hash) then
        front ← slice data 0 (u16 (i * 32));
        back ← slice data (u16 (u16 (i + 1) * 32)) (Z.of_nat (length data));
        Ok (front ++ back)
      else del_loop n (u16 (i + 1)) hash data
  end.

Definition delTxId (data : bytes) (hash : Uint256) : outcome bytes :=
  match data with
  | [] => Ok []
  | _ =>
      c ← slice data 0 2;
      data ← del_loop (Z.to_nat (be_value c)) 0 hash (drop 2 data);
      Ok (be_bytes 2 (u16 (be_value c - 1)) ++ data)
  end.

Definition heightKey (height : Z) : bytes := toKey BKTHeightTxs (be_bytes 4 height).
Definition txKey (hash : Uint256) : bytes := toKey BKTTxs (arr_bytes hash).
Definition forkKey (hash : Uint256) : bytes := toKey BKTForkTxs (arr_bytes hash).

(** ** [txs] *)
Section txs.
Context {DB} `{!LevelDB DB} `{E : ElaCommon}.

(** [data, _ := db.Get(key, nil)]: nil when the key is absent. *)
Definition getOrNil (key : bytes) : GoM DB bytes :=
  r ← try (dbGet key);
  mret (match r with inl _ => [] | inr data => data end).

Definition serializeTx (tx : Tx) : outcome bytes :=
  let '(o, buf) := Tx_Serialize tx [] in (λ _, buf) <$> o.

Definition txs_Put (txn : Tx) : GoM DB unit :=
  buf ← lift (serializeTx txn);
  data ← getOrNil (heightKey (Tx_Height txn));
  ids ← lift (putTxId data (Tx_Hash txn));
  dbWrite [BPut (txKey (Tx_Hash txn)) buf; BPut (heightKey (Tx_Height txn)) ids].

Definition txs_Get (hash : Uint256) : GoM DB Tx :=
  data ← dbGet (txKey hash);
  lift (Tx_Deserialize data).1.

Definition txs_GetIds (height : Z) : GoM DB (list Uint256) :=
  data ← getOrNil (heightKey height);
  lift (getTxIds data).

Fixpoint serializeTxs (txs : list Tx) : Writer :=
  match txs with
  | [] => mret ()
  | tx :: txs => Tx_Serialize tx ≫= λ _, serializeTxs txs
  end.

Definition txs_PutForkTxs (txs : list Tx) (hash : Uint256) : GoM DB unit :=
  let '(o, buf) := (wr Uint16C (u16 (Z.of_nat (length txs))) ≫= λ _, serializeTxs txs) [] in
  lift o ≫= λ _,
  dbPut (forkKey hash) buf.

Definition txs_GetForkTxs (hash : Uint256) : GoM DB (list Tx) :=
  data ← dbGet (forkKey hash);
  lift ((count ← rd Uint16C; readN (Z.to_nat count) Tx_Deserialize) data).1.

Fixpoint readAll (entries : list (bytes * bytes)) : outcome (list Tx) :=
  match entries with
  | [] => Ok []
  | (_, v) :: entries =>
      tx ← (Tx_Deserialize v).1;
      rest ← readAll entries;
      Ok (tx :: rest)
  end.
Definition txs_GetAll : GoM DB (list Tx) :=
  entries ← dbIterate BKTTxs;
  lift (readAll entries).

Definition txs_Del (txId : Uint256) : GoM DB unit :=
  data ← dbGet (txKey txId);
  txn ← lift (Tx_Deserialize data).1;
  data ← getOrNil (heightKey (Tx_Height txn));
  ids ← lift (delTxId data (Tx_Hash txn));
  dbWrite [BDelete (txKey txId); BPut (heightKey (Tx_Height txn)) ids].

Definition txs_Clear : GoM DB unit :=
  e1 ← dbIterate BKTTxs;
  e2 ← dbIterate BKTHeightTxs;
  dbWrite ((λ kv, BDelete kv.1) <$> (e1 ++ e2)).
End txs.

(** ** [txsBatch]

    The LevelDB batch is shared with the other batches of a [dataBatch]. *)
Record txsBatch := mkTxsBatch { tb_Batch : batch; tb_addTxs : list Tx; tb_delTxs : list Tx }.

(** A group takes only the first transaction of its height: the [append] of the
    second branch goes to a local variable. *)
Definition groupStep (groups : gmap Z (list Tx)) (tx : Tx) : gmap Z (list Tx) :=
  match groups !! Tx_Height tx with
  | None => <[Tx_Height tx := [tx]]> groups
  | Some group => groups
  end.
Definition groupByHeight (txs : list Tx) : gmap Z (list Tx) := foldl groupStep ∅ txs.

Section txsbatch.
Context {DB} `{!LevelDB DB} `{E : ElaCommon} `{!MapOrder}.
Notation St := (DB * txsBatch)%type.

Definition onBatchDB {A} (m : GoM DB A) : GoM St A := zoom fst (λ db s, (db, s.2)) m.
Definition addOps (ops : batch) : GoM St unit :=
  modify (λ s, (s.1, mkTxsBatch (tb_Batch s.2 ++ ops) (tb_addTxs s.2) (tb_delTxs s.2))).

Definition txsBatch_Put (tx : Tx) : GoM St unit :=
  buf ← lift (serializeTx tx);
  addOps [BPut (txKey (Tx_Hash tx)) buf] ≫= λ _,
  modify (λ s, (s.1, mkTxsBatch (tb_Batch s.2) (tb_addTxs s.2 ++ [tx]) (tb_delTxs s.2))).

Definition txsBatch_Del (txId : Uint256) : GoM St unit :=
  data ← onBatchDB (dbGet (txKey txId));
  tx ← lift (Tx_Deserialize data).1;
  addOps [BDelete (txKey txId)] ≫= λ _,
  modify (λ s, (s.1, mkTxsBatch (tb_Batch s.2) (tb_addTxs s.2) (tb_delTxs s.2 ++ [tx]))).

Definition txsBatch_DelAll (height : Z) : GoM St unit :=
  data ← onBatchDB (getOrNil (heightKey height));
  ids ← lift (getTxIds data);
  addOps ((λ id, BDelete (txKey id)) <$> ids) ≫= λ _,
  addOps [BDelete (heightKey height)].

Definition txsBatch_Rollback : GoM St unit :=
  modify (λ s, (s.1, mkTxsBatch [] (tb_addTxs s.2) (tb_delTxs s.2))).

Fixpoint putIds (data : bytes) (txs : list Tx) : outcome bytes :=
  match txs with
  | [] => Ok data
  | tx :: txs => data ← putTxId data (Tx_Hash tx); putIds data txs
  end.
Fixpoint delIds (data : bytes) (txs : list Tx) : outcome bytes :=
  match txs with
  | [] => Ok data
  | tx :: txs => data ← delTxId data (Tx_Hash tx); delIds data txs
  end.

(** The second loop computes the remaining ids and then deletes the whole list. *)
Definition txsBatch_Commit : GoM St unit :=
  s ← getS;
  forM (range (groupByHeight (tb_addTxs s.2))) (λ '(height, txs),
    data ← onBatchDB (getOrNil (heightKey height));
    data ← lift (putIds data txs);
    addOps [BPut (heightKey height) data]) ≫= λ _,
  forM (range (groupByHeight (tb_delTxs s.2))) (λ '(height, txs),
    data ← onBatchDB (getOrNil (heightKey height));
    _ ← lift (delIds data txs);
    addOps [BDelete (heightKey height)]) ≫= λ _,
  s ← getS;
  onBatchDB (dbWrite (tb_Batch s.2)).
End txsbatch.

(** ** The id list as data *)
Definition encodeIds (ids : list Uint256) : bytes :=
  be_bytes 2 (Z.of_nat (length ids)) ++ (ids ≫= arr_bytes).

Lemma ids_bytes_length (ids : list Uint256) : length (ids ≫= arr_bytes) = (32 * length ids)%nat.
Proof.
  induction ids as [|id ids IH]; [done|]. rewrite bind_cons, length_app, arr_length, IH. simpl. lia.
Qed.
Lemma encodeIds_ne ids : encodeIds ids ≠ [].
Proof.
  unfold encodeIds. intros E%(f_equal length). by rewrite length_app, be_bytes_length in E.
Qed.
Lemma putTxId_cons data id :
  data ≠ [] → putTxId data id =
    (c ← slice data 0 2; Ok (be_bytes 2 (u16 (be_value c + 1)) ++ drop 2 (data ++ arr_bytes id))).
Proof. unfold putTxId. destruct data; [done|]. by destruct (slice _ 0 2). Qed.
Lemma getTxIds_cons data :
  data ≠ [] → getTxIds data = (c ← slice data 0 2; ids_loop (Z.to_nat (be_value c)) 0 (drop 2 data)).
Proof. by destruct data. Qed.
Lemma delTxId_cons data hash :
  data ≠ [] → delTxId data hash =
    (c ← slice data 0 2; data ← del_loop (Z.to_nat (be_value c)) 0 hash (drop 2 data);
     Ok (be_bytes 2 (u16 (be_value c - 1)) ++ data)).
Proof. by destruct data. Qed.
Lemma slice_head z (data : bytes) : slice (be_bytes 2 z ++ data) 0 2 = Ok (be_bytes 2 z).
Proof.
  unfold slice.
  rewrite decide_True by (rewrite length_app, be_bytes_length; lia).
  reflexivity.
Qed.
Lemma be_value_fits16 z : fits 16 z → be_value (be_bytes 2 z) = z.
Proof. intros. rewrite be_value_bytes. by apply Z.mod_small. Qed.
Lemma drop_be_bytes_2 z (data : bytes) : drop 2 (be_bytes 2 z ++ data) = data.
Proof. rewrite drop_app_ge; rewrite be_bytes_length; [|lia]. done. Qed.

Lemma putTxId_nil id : putTxId [] id = Ok (encodeIds [id]).
Proof. unfold putTxId, encodeIds. cbn. by rewrite app_nil_r. Qed.
Lemma putTxId_encode ids id :
  Z.of_nat (length ids) < 2 ^ 16 - 1 → putTxId (encodeIds ids) id = Ok (encodeIds (ids ++ [id])).
Proof.
  intros Hl. rewrite putTxId_cons by apply encodeIds_ne. unfold encodeIds at 1 2.
  rewrite slice_head. cbn [mbind outcome_bind].
  rewrite be_value_fits16 by (unfold fits; lia). f_equal.
  rewrite <-app_assoc, drop_be_bytes_2. unfold encodeIds. rewrite length_app. cbn [length].
  rewrite bind_app. cbn [mbind list_bind]. rewrite app_nil_r.
  f_equal. f_equal. rewrite u16_small by (unfold fits; lia). lia.
Qed.

(** The [i]-th id of an encoded list. *)
Lemma slice_id (front ids : list Uint256) id i :
  i = Z.of_nat (length front) →
  slice ((front ++ id :: ids) ≫= arr_bytes) (i * 32) ((i + 1) * 32) = Ok (arr_bytes id).
Proof.
  intros Hi. unfold slice. rewrite decide_True.
  2: { rewrite ids_bytes_length, length_app. cbn [length]. lia. }
  f_equal. rewrite bind_app, bind_cons. subst i.
  replace (Z.to_nat (Z.of_nat (length front) * 32)) with (length (front ≫= arr_bytes))
    by (rewrite ids_bytes_length; lia).
  rewrite drop_app_length.
  replace (Z.to_nat ((Z.of_nat (length front) + 1) * 32 - Z.of_nat (length front) * 32))
    with (length (arr_bytes id)) by (rewrite arr_length; lia).
  apply take_app_length.
Qed.

(** The ids from [i] on are read one after the other as long as the offsets do
    not wrap. *)
Lemma ids_loop_encode n i (front ids : list Uint256) :
  n = length ids → i = Z.of_nat (length front) → i + Z.of_nat n < 2048 →
  ids_loop n i ((front ++ ids) ≫= arr_bytes) = Ok ids.
Proof.
  revert i front n. induction ids as [|id ids IH]; intros i front n Hn Hi Hb; subst n; [done|].
  cbn [length] in Hb. cbn [ids_loop length].
  rewrite !u16_small by (unfold fits; rewrite ?u16_small by (unfold fits; lia); lia).
  rewrite slice_id by done. cbn [mbind outcome_bind]. rewrite copy_array_bytes.
  replace (front ++ id :: ids) with ((front ++ [id]) ++ ids) by (by rewrite <-app_assoc).
  rewrite IH; [done|done|rewrite length_app; simpl; lia|lia].
Qed.

(** The list without the first occurrence of [hash]. *)
Fixpoint del_first (hash : Uint256) (ids : list Uint256) : list Uint256 :=
  match ids with
  | [] => []
  | id :: ids => if decide (id = hash) then ids else id :: del_first hash ids
  end.
Lemma del_first_length hash ids :
  length (del_first hash ids) = (if decide (hash ∈ ids) then pred (length ids) else length ids).
Proof.
  induction ids as [|id ids IH]; [done|]. cbn [del_first length].
  destruct (decide (id = hash)) as [->|Hne]; [by rewrite decide_True by set_solver|].
  cbn [length]. rewrite IH. repeat case_decide; try set_solver.
  destruct ids; [set_solver|done].
Qed.

Lemma del_loop_encode hash n i (front ids : list Uint256) :
  n = length ids → i = Z.of_nat (length front) → i + Z.of_nat n < 2048 →
  del_loop n i hash ((front ++ ids) ≫= arr_bytes) = Ok ((front ++ del_first hash ids) ≫= arr_bytes).
Proof.
  revert i front n. induction ids as [|id ids IH]; intros i front n Hn Hi Hb; subst n; [done|].
  cbn [length] in Hb. cbn [del_loop length del_first].
  rewrite !u16_small by (unfold fits; rewrite ?u16_small by (unfold fits; lia); lia).
  rewrite slice_id by done. cbn [mbind outcome_bind]. rewrite copy_array_bytes.
  case_decide as Hid.
  - rewrite !bind_app, bind_cons.
    set (F := front ≫= arr_bytes). set (R := ids ≫= arr_bytes).
    assert (HF : length F = (32 * length front)%nat) by apply ids_bytes_length.
    assert (HR : length R = (32 * length ids)%nat) by apply ids_bytes_length.
    pose proof (arr_length id) as Hidl. unfold slice.
    rewrite decide_True by (rewrite !length_app; lia). cbn [mbind outcome_bind].
    rewrite decide_True by (rewrite !length_app; lia). cbn [mbind outcome_bind]. f_equal. f_equal.
    + rewrite drop_0. apply take_app_length'. lia.
    + rewrite app_assoc, drop_app_length' by (rewrite length_app; lia).
      apply take_ge. rewrite !length_app. lia.
  - replace (front ++ id :: ids) with ((front ++ [id]) ++ ids) by (by rewrite <-app_assoc).
    rewrite IH; [by rewrite <-app_assoc|done|rewrite length_app; simpl; lia|lia].
Qed.

(** The count is decremented even when the id is not in the list. *)
Lemma delTxId_encode ids hash :
  Z.of_nat (length ids) < 2048 → hash ∈ ids → delTxId (encodeIds ids) hash = Ok (encodeIds (del_first hash ids)).
Proof.
  intros Hl Hin. rewrite delTxId_cons by apply encodeIds_ne. unfold encodeIds at 1 2.
  rewrite slice_head. cbn [mbind outcome_bind].
  rewrite be_value_fits16 by (unfold fits; lia). rewrite drop_be_bytes_2, Nat2Z.id.
  rewrite (del_loop_encode hash _ 0 [] ids) by done. cbn [mbind outcome_bind app]. f_equal.
  unfold encodeIds. rewrite del_first_length, decide_True by done. f_equal. f_equal.
  assert (length ids ≠ 0%nat) by (destruct ids; [set_solver|done]).
  rewrite u16_small by (unfold fits; lia). lia.
Qed.

Lemma getTxIds_encode ids : Z.of_nat (length ids) < 2048 → getTxIds (encodeIds ids) = Ok ids.
Proof.
  intros Hl. rewrite getTxIds_cons by apply encodeIds_ne. unfold encodeIds.
  rewrite slice_head. cbn [mbind outcome_bind].
  rewrite be_value_fits16 by (unfold fits; lia). rewrite drop_be_bytes_2, Nat2Z.id.
  by apply (ids_loop_encode _ _ []).
Qed.

(** From 2048 ids on the upper offset wraps to 0 and the slice is refused. *)
Lemma ids_loop_wraps n i data :
  0 ≤ i ≤ 2047 → (Z.to_nat (2047 - i) < n)%nat → ids_loop n i data = Panic.
Proof.
  revert i. induction n as [|n IH]; intros i Hi Hn; [lia|]. cbn [ids_loop].
  rewrite (u16_small (i + 1)) by (unfold fits; lia). rewrite (u16_small (i * 32)) by (unfold fits; lia).
  destruct (decide (i = 2047)) as [->|Hne].
  - unfold slice. rewrite decide_False; [done|]. change (u16 ((2047 + 1) * 32)) with 0. lia.
  - rewrite u16_small by (unfold fits; lia). unfold slice. case_decide; [|done].
    cbn [mbind outcome_bind]. rewrite IH by lia. done.
Qed.
