(* ===== verification/TxsSpec.v ===== *)
(** * What the transaction table keeps

    The two views of a database: the transactions by hash and the ids of every
    height.  [Put] and [Del] act on both views as on finite maps of
    transactions and lists of ids, as long as a height has fewer than 2048
    transactions; from there on the offsets of the list wrap. *)
From S2P Require Export Txs.

Lemma txKey_array (k : Uint256) : txKey k = array_key BKTTxs k.
Proof. done. Qed.
Lemma txKey_length k : length (txKey k) = 44%nat.
Proof. unfold txKey, toKey. by rewrite length_app, arr_length. Qed.
Lemma heightKey_length z : length (heightKey z) = 13%nat.
Proof. unfold heightKey, toKey. by rewrite length_app, be_bytes_length. Qed.
Lemma forkKey_length k : length (forkKey k) = 39%nat.
Proof. unfold forkKey, toKey. by rewrite length_app, arr_length. Qed.
Lemma txKey_heightKey k z : txKey k ≠ heightKey z.
Proof. intros Hk%(f_equal length). by rewrite txKey_length, heightKey_length in Hk. Qed.
Lemma txKey_inj k1 k2 : txKey k1 = txKey k2 → k1 = k2.
Proof. intros Hk%app_inv_head. by apply array_eq. Qed.
Lemma heightKey_inj z1 z2 : fits 32 z1 → fits 32 z2 → heightKey z1 = heightKey z2 → z1 = z2.
Proof. intros H1 H2 Hk%app_inv_head. by apply be_bytes_inj in Hk. Qed.

Section spec.
Context {DB} `{!LevelDB DB} `{!LevelDBLaws DB} `{E : ElaCommon} `{!ElaCommonLaws E}.
Context (Hmax : fits 32 MaxBlockContextSize).

(** [v] is what is written for [t]. *)
Definition tx_stored (v : bytes) (t : Tx) : Prop := Tx_wf t ∧ writes (Tx_Serialize t) v.

Definition decodeTx (v : bytes) : option Tx :=
  match (Tx_Deserialize v).1 with Ok t => Some t | _ => None end.

Lemma serializeTx_stored t : Tx_wf t → ∃ v, serializeTx t = Ok v ∧ tx_stored v t.
Proof.
  intros Hwf. destruct (Tx_ok t Hwf Hmax) as (v & Hw & _). exists v. split; [|done].
  unfold serializeTx. by rewrite Hw.
Qed.
Lemma tx_stored_decode v t : tx_stored v t → (Tx_Deserialize v).1 = Ok t.
Proof.
  intros [Hwf Hw]. destruct (Tx_ok t Hwf Hmax) as (v' & Hw' & Hr).
  assert (v = v') as ->.
  { specialize (Hw []). specialize (Hw' []). simpl in *. congruence. }
  specialize (Hr []). rewrite app_nil_r in Hr. by rewrite Hr.
Qed.
Lemma tx_stored_decodeTx v t : tx_stored v t → decodeTx v = Some t.
Proof. intros Hs. unfold decodeTx. by rewrite (tx_stored_decode v t Hs). Qed.

(** Every entry of the transaction bucket is a transaction under its hash, every
    entry of the height bucket a list the loops can walk. *)
Record txs_ok (db : DB) : Prop := {
  txs_bucket : ∀ k v, db_view db !! txKey k = Some v → ∃ t, tx_stored v t ∧ Tx_Hash t = k;
  txs_ids : ∀ height v, fits 32 height → db_view db !! heightKey height = Some v →
    ∃ ids, v = encodeIds ids ∧ Z.of_nat (length ids) < 2048;
}.

Definition txs_view (db : DB) : gmap Uint256 Tx := bucket_view (array_unkey BKTTxs) decodeTx (db_view db).
Definition ids_view (db : DB) (height : Z) : list Uint256 :=
  match db_view db !! heightKey height with
  | Some v => match getTxIds v with Ok ids => ids | _ => [] end
  | None => []
  end.

Lemma txs_view_lookup db k : txs_view db !! k = (v ← db_view db !! txKey k; decodeTx v).
Proof.
  unfold txs_view. apply (bucket_view_lookup (array_key BKTTxs) (array_unkey BKTTxs) decodeTx).
  - apply array_unkey_key.
  - apply array_unkey_inj.
Qed.

Lemma getOrNil_view db k : getOrNil k db = (Ok (default [] (db_view db !! k)), db).
Proof.
  unfold getOrNil, mbind, GoM_bind, try. rewrite dbGet_view. by destruct (db_view db !! k).
Qed.

(** The entry of a height: absent, or the encoding of its ids. *)
Lemma height_entry db height : txs_ok db → fits 32 height →
  (db_view db !! heightKey height = None ∧ ids_view db height = []) ∨
  (db_view db !! heightKey height = Some (encodeIds (ids_view db height)) ∧
   Z.of_nat (length (ids_view db height)) < 2048).
Proof.
  intros Hok Hh. unfold ids_view. destruct (db_view db !! heightKey height) as [v|] eqn:Hv; [right|by left].
  destruct (txs_ids db Hok height v Hh Hv) as (ids & -> & Hl). by rewrite getTxIds_encode.
Qed.
Lemma putTxId_view db height id : txs_ok db → fits 32 height →
  putTxId (default [] (db_view db !! heightKey height)) id = Ok (encodeIds (ids_view db height ++ [id])).
Proof.
  intros Hok Hh. destruct (height_entry db height Hok Hh) as [[-> ->]|[-> Hl]]; cbn [default from_option].
  - apply putTxId_nil.
  - apply putTxId_encode. lia.
Qed.

Lemma txs_Get_view db k : txs_ok db →
  match txs_view db !! k with
  | Some t => txs_Get k db = (Ok t, db)
  | None => txs_Get k db = (Err ErrNotFound, db)
  end.
Proof.
  intros Hok. rewrite txs_view_lookup. pose proof (dbGet_view db (txKey k)) as Hg.
  destruct (db_view db !! txKey k) as [v|] eqn:Hv; cbn [mbind option_bind].
  - destruct (txs_bucket db Hok k v Hv) as (t & Hs & _). rewrite (tx_stored_decodeTx v t Hs).
    unfold txs_Get. rewrite (bind_run _ _ _ _ _ Hg). unfold lift. by rewrite (tx_stored_decode v t Hs).
  - apply (bind_run_err _ _ _ _ _ Hg).
Qed.
Lemma txs_GetIds_view db height : txs_ok db → fits 32 height →
  txs_GetIds height db = (Ok (ids_view db height), db).
Proof.
  intros Hok Hh. unfold txs_GetIds. rewrite (bind_run _ _ _ _ _ (getOrNil_view db _)).
  unfold lift. destruct (height_entry db height Hok Hh) as [[-> ->]|[-> Hl]]; [done|].
  change (default [] (Some ?x)) with x. by rewrite getTxIds_encode.
Qed.

(** Two databases that agree on both buckets except for one transaction entry
    and one height's list. *)
Lemma txs_update db db' k ot height ids :
  txs_ok db → fits 32 height → Z.of_nat (length ids) < 2048 →
  (∀ k', db_view db' !! txKey k' = if decide (k' = k) then ot else db_view db !! txKey k') →
  (∀ z, fits 32 z → db_view db' !! heightKey z =
     if decide (z = height) then Some (encodeIds ids) else db_view db !! heightKey z) →
  (∀ v, ot = Some v → ∃ t, tx_stored v t ∧ Tx_Hash t = k) →
  txs_ok db' ∧
  (∀ k', txs_view db' !! k' = if decide (k' = k) then (v ← ot; decodeTx v) else txs_view db !! k') ∧
  (∀ z, fits 32 z → ids_view db' z = if decide (z = height) then ids else ids_view db z).
Proof.
  intros Hok Hh Hl Htx Hid Hot. split_and!.
  - split.
    + intros k' v. rewrite Htx. case_decide; [subst; apply Hot|apply (txs_bucket db Hok)].
    + intros z v Hz. rewrite Hid by done. case_decide; [|by apply (txs_ids db Hok)].
      intros [= <-]. by exists ids.
  - intros k'. rewrite !txs_view_lookup, Htx. by case_decide.
  - intros z Hz. unfold ids_view. rewrite Hid by done. case_decide; [|done]. by rewrite getTxIds_encode.
Qed.

(** [Put] files a transaction under its hash and appends its id to the list
    of its height; every other transaction and every other height stays as it
    was, and [Get] and [GetIds] answer the two views. *)
Theorem txs_Put_spec db t : txs_ok db → Tx_wf t → Z.of_nat (length (ids_view db (Tx_Height t))) < 2047 →
  ∃ db', txs_Put t db = (Ok (), db') ∧ txs_ok db' ∧
    (∀ k, txs_Get k db' = (match (<[Tx_Hash t := t]> (txs_view db)) !! k with
                           | Some t' => Ok t' | None => Err ErrNotFound end, db')) ∧
    (∀ z, fits 32 z → txs_GetIds z db' =
      (Ok (if decide (z = Tx_Height t) then ids_view db z ++ [Tx_Hash t] else ids_view db z), db')).
Proof.
  intros Hok Hwf Hl. pose proof (proj1 Hwf) as Hh.
  destruct (serializeTx_stored t Hwf) as (v & Hser & Hst).
  set (ids := ids_view db (Tx_Height t) ++ [Tx_Hash t]).
  destruct (dbWrite_view db [BPut (txKey (Tx_Hash t)) v; BPut (heightKey (Tx_Height t)) (encodeIds ids)])
    as (db' & Hw & Hv).
  destruct (txs_update db db' (Tx_Hash t) (Some v) (Tx_Height t) ids) as (Hok' & Htx & Hids); try done.
  { unfold ids. rewrite length_app. simpl. lia. }
  { intros k. rewrite Hv. cbn. rewrite lookup_insert_ne by (apply not_eq_sym, txKey_heightKey).
    case_decide as Hk; [subst; apply lookup_insert_eq|]. apply lookup_insert_ne. intros Heq%txKey_inj. congruence. }
  { intros z Hz. rewrite Hv. cbn. case_decide as Hk; [subst; apply lookup_insert_eq|].
    rewrite !lookup_insert_ne; [done|apply txKey_heightKey|]. intros Heq%heightKey_inj; congruence. }
  { intros v' [= <-]. by exists t. }
  exists db'. split_and!; [|done| |].
  - unfold txs_Put. rewrite Hser. rewrite (bind_run (lift _) _ db v db eq_refl).
    rewrite (bind_run _ _ _ _ _ (getOrNil_view db _)). rewrite putTxId_view by done.
    exact Hw.
  - intros k. pose proof (txs_Get_view db' k Hok') as Hg. rewrite Htx in Hg.
    destruct (decide (k = Tx_Hash t)) as [->|Hne].
    + rewrite lookup_insert_eq. cbn [mbind option_bind] in Hg. by rewrite (tx_stored_decodeTx v t Hst) in Hg.
    + rewrite lookup_insert_ne by done. by destruct (txs_view db !! k).
  - intros z Hz. rewrite txs_GetIds_view, Hids by done. case_decide; [by subst|done].
Qed.

(** [Del] removes a stored transaction whose id is listed at its height, and
    the first occurrence of the id; the rest stays. *)
Theorem txs_Del_spec db k t : txs_ok db → txs_view db !! k = Some t → k ∈ ids_view db (Tx_Height t) →
  ∃ db', txs_Del k db = (Ok (), db') ∧ txs_ok db' ∧ txs_view db' = delete k (txs_view db) ∧
    (∀ z, fits 32 z → ids_view db' z =
      if decide (z = Tx_Height t) then del_first k (ids_view db z) else ids_view db z).
Proof.
  intros Hok Hk Hin. rewrite txs_view_lookup in Hk.
  destruct (db_view db !! txKey k) as [v|] eqn:Hv; [|done]. cbn in Hk.
  destruct (txs_bucket db Hok k v Hv) as (t' & Hst & Hhash).
  rewrite (tx_stored_decodeTx v t' Hst) in Hk. injection Hk as ->.
  pose proof (proj1 (proj1 Hst)) as Hh. set (ids := del_first k (ids_view db (Tx_Height t))).
  destruct (height_entry db (Tx_Height t) Hok Hh) as [[_ Hn]|[He Hl]].
  { rewrite Hn in Hin. by apply not_elem_of_nil in Hin. }
  destruct (dbWrite_view db [BDelete (txKey k); BPut (heightKey (Tx_Height t)) (encodeIds ids)])
    as (db' & Hw & Hv').
  destruct (txs_update db db' k None (Tx_Height t) ids) as (Hok' & Htx & Hids); try done.
  { unfold ids. rewrite del_first_length, decide_True by done. lia. }
  { intros k'. rewrite Hv'. cbn. rewrite lookup_insert_ne by (apply not_eq_sym, txKey_heightKey).
    case_decide as Hd; [subst; apply lookup_delete_eq|]. apply lookup_delete_ne. intros Heq%txKey_inj. congruence. }
  { intros z Hz. rewrite Hv'. cbn. case_decide as Hd; [subst; apply lookup_insert_eq|].
    rewrite lookup_insert_ne by (intros Heq%heightKey_inj; congruence).
    apply lookup_delete_ne, txKey_heightKey. }
  exists db'. split_and!; [|done| |].
  - unfold txs_Del. rewrite (bind_run (dbGet _) _ db v db) by (by rewrite dbGet_view, Hv).
    rewrite (tx_stored_decode v t Hst). rewrite (bind_run (lift _) _ db t db eq_refl).
    rewrite (bind_run _ _ _ _ _ (getOrNil_view db _)). rewrite He, Hhash.
    change (default [] (Some ?x)) with x. rewrite delTxId_encode by done. exact Hw.
  - apply map_eq. intros k'. rewrite Htx. case_decide; [subst; by rewrite lookup_delete_eq|].
    by rewrite lookup_delete_ne.
  - intros z Hz. rewrite Hids by done. case_decide; [by subst|done].
Qed.

(** Reading a height that lists 2048 ids or more panics: the offset of the
    upper end of the 2048th id wraps to 0. *)
Theorem getTxIds_wraps ids :
  2048 ≤ Z.of_nat (length ids) < 2 ^ 16 → getTxIds (encodeIds ids) = Panic.
Proof.
  intros Hl. rewrite getTxIds_cons by apply encodeIds_ne. unfold encodeIds.
  rewrite slice_head. cbn [mbind outcome_bind].
  rewrite be_value_fits16 by (unfold fits; lia). rewrite Nat2Z.id.
  apply ids_loop_wraps; lia.
Qed.

(** The transactions of a fork block read back as they were put. *)
Theorem GetForkTxs_roundtrip db txs hash : Forall Tx_wf txs → Z.of_nat (length txs) < 2 ^ 16 →
  ∃ db', txs_PutForkTxs txs hash db = (Ok (), db') ∧ txs_GetForkTxs hash db' = (Ok txs, db').
Proof.
  intros Hwf Hl.
  assert (∃ e : bytes, writes (serializeTxs txs) e ∧ reads (readN (length txs) Tx_Deserialize) e txs) as (e & Hwe & Hre).
  { clear Hl. induction Hwf as [|t txs Ht _ (e & Hw & Hr)].
    - exists []. split; [apply writes_ret|apply reads_ret].
    - destruct (Tx_ok t Ht Hmax) as (b & Hwb & Hrb). exists (b ++ e). split.
      + cbn [serializeTxs]. by apply writes_bind.
      + cbn [length readN]. eapply reads_bind; [exact Hrb|]. eapply reads_bind_nil; [exact Hr|apply reads_ret]. }
  assert (Hc : u16 (Z.of_nat (length txs)) = Z.of_nat (length txs)) by (apply u16_small; unfold fits; lia).
  destruct (Uint16C_ok (Z.of_nat (length txs))) as (bc & Hwc & Hrc); [unfold fits; lia|].
  destruct (dbPut_view db (forkKey hash) (bc ++ e)) as (db' & Hp & Hv). exists db'. split.
  - unfold txs_PutForkTxs. rewrite Hc.
    rewrite (writes_bind _ (λ _, serializeTxs txs) bc e Hwc Hwe []).
    by rewrite (bind_run (lift (Ok ())) _ db () db eq_refl).
  - unfold txs_GetForkTxs. rewrite (bind_run (dbGet _) _ db' (bc ++ e) db').
    2: { by rewrite dbGet_view, Hv, lookup_insert_eq. }
    assert (Hr : reads (count ← rd Uint16C; readN (Z.to_nat count) Tx_Deserialize) (bc ++ e) txs).
    { eapply reads_bind; [exact Hrc|]. by rewrite Nat2Z.id. }
    specialize (Hr []). rewrite app_nil_r in Hr. by rewrite Hr.
Qed.
End spec.
