(* ===== verification/TxsBatch.v ===== *)
(** * What a batch of transactions leaves behind

    [txsbatch.go]: the transactions put in one batch and the height lists
    [Commit] writes for them. *)
From S2P Require Export TxsSpec.

(** The first transaction of a height. *)
Definition first_at (z : Z) (txs : list Tx) : option Tx := head (filter (λ t, Tx_Height t = z) txs).

Lemma groupByHeight_lookup txs z : groupByHeight txs !! z = (λ t, [t]) <$> first_at z txs.
Proof.
  unfold groupByHeight.
  assert (Hgen : ∀ m : gmap Z (list Tx), foldl groupStep m txs !! z =
    match m !! z with Some g => Some g | None => fmap (M := option) (λ t, [t]) (first_at z txs) end).
  { induction txs as [|t txs IH]; intros m; [cbn; by destruct (m !! z) as [g|]|].
    cbn [foldl]. rewrite IH. unfold first_at, groupStep. rewrite filter_cons.
    destruct (decide (Tx_Height t = z)) as [<-|Hne].
    - destruct (m !! Tx_Height t) as [g|] eqn:Hm; [by rewrite Hm|]. by rewrite lookup_insert_eq.
    - destruct (m !! Tx_Height t) as [g|] eqn:Hm; [done|]. by rewrite lookup_insert_ne. }
  rewrite Hgen. by rewrite lookup_empty.
Qed.

Section batch.
Context {DB} `{!LevelDB DB} `{!LevelDBLaws DB} `{E : ElaCommon} `{!ElaCommonLaws E} `{!MapOrder}.
Context (Hmax : fits 32 MaxBlockContextSize).

(** What [Put] adds to the batch. *)
Definition tx_op (t : Tx) (o : batch_op) : Prop := ∃ v, o = BPut (txKey (Tx_Hash t)) v ∧ tx_stored v t.

Lemma txsBatch_Put_run db b t : Tx_wf t →
  ∃ o, tx_op t o ∧ txsBatch_Put (DB := DB) t (db, b) =
    (Ok (), (db, mkTxsBatch (tb_Batch b ++ [o]) (tb_addTxs b ++ [t]) (tb_delTxs b))).
Proof.
  intros Hwf. destruct (serializeTx_stored Hmax t Hwf) as (v & Hser & Hst).
  exists (BPut (txKey (Tx_Hash t)) v). split; [by exists v|].
  unfold txsBatch_Put. rewrite Hser. by rewrite (bind_run (lift _) _ (db, b) v (db, b) eq_refl).
Qed.
Lemma txsBatch_Puts_run db b txs : Forall Tx_wf txs →
  ∃ ops, Forall2 tx_op txs ops ∧ forM txs (txsBatch_Put (DB := DB)) (db, b) =
    (Ok (), (db, mkTxsBatch (tb_Batch b ++ ops) (tb_addTxs b ++ txs) (tb_delTxs b))).
Proof.
  intros Hwf. revert b. induction Hwf as [|t txs Ht _ IH]; intros b.
  - exists []. split; [constructor|]. cbn. rewrite !app_nil_r. by destruct b.
  - destruct (txsBatch_Put_run db b t Ht) as (o & Ho & Hr).
    destruct (IH (mkTxsBatch (tb_Batch b ++ [o]) (tb_addTxs b ++ [t]) (tb_delTxs b))) as (ops & Hops & Hr').
    exists (o :: ops). split; [by constructor|]. cbn [forM].
    rewrite (bind_run _ _ _ _ _ Hr), Hr'. cbn. by rewrite <-!app_assoc.
Qed.

(** What the loop of [Commit] adds for a group. *)
Definition height_op (db : DB) (g : Z * list Tx) : batch_op :=
  BPut (heightKey g.1) (encodeIds (ids_view db g.1 ++ (Tx_Hash <$> g.2))).

Lemma Commit_loop_run db b (l : list (Z * list Tx)) :
  txs_ok db → Forall (λ g, fits 32 g.1 ∧ ∃ t, g.2 = [t]) l →
  forM l (λ '(height, txs),
    data ← onBatchDB (getOrNil (heightKey height));
    data ← lift (putIds data txs);
    addOps [BPut (heightKey height) data]) (db, b) =
  (Ok (), (db, mkTxsBatch (tb_Batch b ++ (height_op db <$> l)) (tb_addTxs b) (tb_delTxs b))).
Proof.
  intros Hok Hl. revert b. induction Hl as [|[z ts] l [Hz (t & Ht)] _ IH]; intros b.
  - cbn. rewrite app_nil_r. by destruct b.
  - cbn [fst snd] in Hz, Ht. subst ts. cbn [forM].
    rewrite (bind_run _ _ (db, b) ()
      (db, mkTxsBatch (tb_Batch b ++ [height_op db (z, [t])]) (tb_addTxs b) (tb_delTxs b))).
    + rewrite IH. cbn. by rewrite <-app_assoc.
    + rewrite (bind_run (onBatchDB _) _ (db, b) (default [] (db_view db !! heightKey z)) (db, b)).
      2: { unfold onBatchDB, zoom. cbn [fst]. by rewrite getOrNil_view. }
      cbn [putIds]. rewrite putTxId_view by done. cbn [mbind outcome_bind].
      by rewrite (bind_run (lift _) _ (db, b) _ (db, b) eq_refl).
Qed.

Lemma height_ops_tx db (l : list (Z * list Tx)) m k :
  apply_batch (height_op db <$> l) m !! txKey k = m !! txKey k.
Proof.
  revert m. induction l as [|g l IH]; intros m; [done|]. unfold apply_batch in *.
  cbn [fmap list_fmap foldl apply_op height_op]. rewrite IH.
  apply lookup_insert_ne, not_eq_sym, txKey_heightKey.
Qed.
Lemma height_ops_height db (l : list (Z * list Tx)) m z :
  NoDup l.*1 → Forall (λ g, fits 32 g.1) l → fits 32 z →
  apply_batch (height_op db <$> l) m !! heightKey z =
    match list_to_map (M := gmap Z (list Tx)) l !! z with
    | Some ts => Some (encodeIds (ids_view db z ++ (Tx_Hash <$> ts)))
    | None => m !! heightKey z
    end.
Proof.
  revert m. induction l as [|[z' ts] l IH]; intros m Hnd Hl Hz; [done|].
  apply NoDup_cons in Hnd as [Hni Hnd]. apply Forall_cons in Hl as [Hz' Hl]. cbn [fst] in *.
  unfold apply_batch in *. cbn [fmap list_fmap foldl apply_op height_op list_to_map foldr fst snd uncurry].
  rewrite IH by done. destruct (decide (z' = z)) as [->|Hne].
  - rewrite lookup_insert_eq. rewrite (not_elem_of_list_to_map_1 (M := gmap Z) l z Hni).
    by rewrite lookup_insert_eq.
  - rewrite (lookup_insert_ne (M := gmap Z)) by done.
    rewrite lookup_insert_ne; [done|]. intros Heq%heightKey_inj; congruence.
Qed.

Lemma tx_ops_height txs ops m z : Forall2 tx_op txs ops →
  apply_batch ops m !! heightKey z = m !! heightKey z.
Proof.
  intros Hops. revert m. induction Hops as [|t o txs ops (v & -> & _) _ IH]; intros m; [done|].
  unfold apply_batch in *. cbn [foldl apply_op]. rewrite IH. apply lookup_insert_ne, txKey_heightKey.
Qed.
Lemma tx_ops_tx txs ops m k : Forall2 tx_op txs ops →
  (k ∉ Tx_Hash <$> txs ∧ apply_batch ops m !! txKey k = m !! txKey k) ∨
  (∃ t v, t ∈ txs ∧ Tx_Hash t = k ∧ apply_batch ops m !! txKey k = Some v ∧ tx_stored v t).
Proof.
  intros Hops. revert m. induction Hops as [|t o txs ops (v & -> & Hst) _ IH]; intros m.
  - left. split; [set_solver|done].
  - unfold apply_batch in *. cbn [foldl apply_op].
    destruct (IH (<[txKey (Tx_Hash t) := v]> m)) as [[Hni Hm]|(t' & v' & Ht' & Hk & Hm & Hst')].
    + destruct (decide (k = Tx_Hash t)) as [->|Hne].
      * right. exists t, v. split_and!; [set_solver|done| |done]. rewrite Hm. apply lookup_insert_eq.
      * left. split; [set_solver|]. rewrite Hm. apply lookup_insert_ne.
        intros Heq%txKey_inj. congruence.
    + right. exists t', v'. split_and!; [set_solver|done..].
Qed.

(** The groups of a commit are single transactions. *)
Lemma groups_first txs : Forall Tx_wf txs →
  Forall (λ g, fits 32 g.1 ∧ ∃ t, g.2 = [t]) (range (groupByHeight txs)).
Proof.
  intros Hwf. apply Forall_forall. intros [z ts] Hin%range_elem. rewrite groupByHeight_lookup in Hin.
  destruct (first_at z txs) as [t|] eqn:Hf; simplify_eq/=. split; [|by exists t].
  unfold first_at in Hf. apply head_Some_elem_of in Hf. apply list_elem_of_filter in Hf as [<- Ht].
  rewrite Forall_forall in Hwf. apply (Hwf t Ht).
Qed.

(** What a commit writes, on the tables: the transactions, and for each height
    the list with the first of its transactions. *)
Definition committed (db : DB) (txs : list Tx) (ops : list batch_op) (db' : DB) : Prop :=
  (∀ k, db_view db' !! txKey k = apply_batch ops (db_view db) !! txKey k) ∧
  (∀ z, fits 32 z → db_view db' !! heightKey z =
    match first_at z txs with
    | Some t => Some (encodeIds (ids_view db z ++ [Tx_Hash t]))
    | None => db_view db !! heightKey z
    end).
Lemma Commit_run db txs ops : txs_ok db → Forall Tx_wf txs → Forall2 tx_op txs ops →
  ∃ db' b', txsBatch_Commit (db, mkTxsBatch ops txs []) = (Ok (), (db', b')) ∧ committed db txs ops db'.
Proof.
  intros Hok Hwf Hops. set (l := range (groupByHeight txs)).
  pose proof (groups_first txs Hwf) as HG. fold l in HG.
  pose proof (Commit_loop_run db (mkTxsBatch ops txs []) l Hok HG) as Hloop. cbn [tb_Batch tb_addTxs tb_delTxs] in Hloop.
  destruct (dbWrite_view db (ops ++ (height_op db <$> l))) as (db' & Hw & Hv). rewrite apply_batch_app in Hv.
  exists db', (mkTxsBatch (ops ++ (height_op db <$> l)) txs []). split; [|split].
  - unfold txsBatch_Commit. rewrite (bind_run getS _ _ _ _ eq_refl). cbn [snd tb_addTxs tb_delTxs app tb_Batch].
    rewrite (bind_run _ _ _ _ _ Hloop). unfold groupByHeight at 1. cbn [foldl].
    assert (Hr : range (∅ : gmap Z (list Tx)) = []).
    { apply Permutation_nil_r. rewrite range_perm. by rewrite map_to_list_empty. }
    rewrite Hr. rewrite (bind_run (forM [] _) _ _ _ _ eq_refl). rewrite (bind_run getS _ _ _ _ eq_refl).
    unfold onBatchDB, zoom. cbn [fst snd tb_Batch]. by rewrite Hw.
  - intros k. rewrite Hv. apply height_ops_tx.
  - intros z Hz. rewrite Hv, height_ops_height; [|apply range_keys_NoDup|by eapply Forall_impl; [exact HG|intros ? []]|done].
    unfold l. rewrite range_lookup, groupByHeight_lookup, (tx_ops_height txs) by done.
    by destruct (first_at z txs).
Qed.
Lemma committed_ok db txs ops db' : txs_ok db → Forall2 tx_op txs ops →
  (∀ z, Z.of_nat (length (ids_view db z)) < 2047) → committed db txs ops db' → txs_ok db'.
Proof.
  intros Hok Hops Hl [Htx Hid]. split.
  - intros k v. rewrite Htx. destruct (tx_ops_tx txs ops (db_view db) k Hops) as [[_ ->]|(t & v' & _ & Hk & -> & Hst)].
    + apply (txs_bucket db Hok).
    + intros [= <-]. by exists t.
  - intros z v Hz. rewrite Hid by done. destruct (first_at z txs) as [t|]; [|by apply (txs_ids db Hok)].
    intros [= <-]. eexists. split; [done|]. rewrite length_app. simpl. specialize (Hl z). lia.
Qed.
Lemma committed_Get db txs ops db' t : txs_ok db' → Forall2 tx_op txs ops → NoDup (Tx_Hash <$> txs) →
  committed db txs ops db' → t ∈ txs → txs_Get (Tx_Hash t) db' = (Ok t, db').
Proof.
  intros Hok Hops Hnd [Htx _] Ht. pose proof (txs_Get_view Hmax db' (Tx_Hash t) Hok) as Hg.
  rewrite txs_view_lookup, Htx in Hg.
  destruct (tx_ops_tx txs ops (db_view db) (Tx_Hash t) Hops) as [[Hni _]|(t' & v & Ht' & Hk & Hm & Hst)].
  { destruct Hni. by apply list_elem_of_fmap_2. }
  rewrite Hm in Hg. cbn [mbind option_bind] in Hg. rewrite (tx_stored_decodeTx Hmax v t' Hst) in Hg.
  assert (t' = t) as ->; [|done].
  apply list_elem_of_lookup in Ht as (i & Hi), Ht' as (j & Hj).
  assert (i = j) as ->; [|congruence].
  eapply (NoDup_lookup _ _ _ (Tx_Hash t) Hnd); rewrite list_lookup_fmap; [by rewrite Hi|rewrite Hj; cbn; congruence].
Qed.

(** a fresh batch that puts transactions of different hashes and commits
    stores all of them; the list of a height gets the id of the first of its
    transactions only. *)
Theorem txsBatch_Commit_first db txs :
  txs_ok db → Forall Tx_wf txs → NoDup (Tx_Hash <$> txs) →
  (∀ z, Z.of_nat (length (ids_view db z)) < 2047) →
  ∃ db' b', (forM txs txsBatch_Put ≫= λ _, txsBatch_Commit) (db, mkTxsBatch [] [] []) = (Ok (), (db', b')) ∧
    txs_ok db' ∧ (∀ t, t ∈ txs → txs_Get (Tx_Hash t) db' = (Ok t, db')) ∧
    (∀ z, fits 32 z → txs_GetIds z db' =
      (Ok (ids_view db z ++ match first_at z txs with Some t => [Tx_Hash t] | None => [] end), db')).
Proof.
  intros Hok Hwf Hnd Hl. destruct (txsBatch_Puts_run db (mkTxsBatch [] [] []) txs Hwf) as (ops & Hops & Hputs).
  destruct (Commit_run db txs ops Hok Hwf Hops) as (db' & b' & Hr & Hc).
  pose proof (committed_ok _ _ _ _ Hok Hops Hl Hc) as Hok'. exists db', b'. split_and!; [|done| |].
  - by rewrite (bind_run _ _ _ _ _ Hputs).
  - intros t Ht. by eapply committed_Get.
  - intros z Hz. destruct Hc as [_ Hid]. rewrite txs_GetIds_view by done. f_equal. f_equal.
    unfold ids_view at 1. rewrite Hid by done. destruct (first_at z txs) as [t|].
    + rewrite getTxIds_encode; [done|]. rewrite length_app. simpl. specialize (Hl z). lia.
    + by rewrite app_nil_r.
Qed.
End batch.
