(* ===== verification/Filters.v ===== *)
(** * Watched addresses and transaction types

    The in-memory sets of [sdk/addrfilter.go] and [sdk/txtypesfilter.go], and
    the tables [interface/store/addrs.go] and [interface/store/txtypes.go] that
    keep them on disk.  The theorems: a table and its set agree after every
    operation but [Clear], and a table opened again has the same set. *)
From S2P Require Export Txs.

(** [common.Uint168FromBytes] *)
Class Uint168Bytes := {
  Uint168FromBytes : bytes → outcome Uint168;
}.
Class Uint168BytesLaws `{!Uint168Bytes} : Prop := {
  Uint168FromBytes_Bytes (a : Uint168) : Uint168FromBytes (arr_bytes a) = Ok a;
}.

(** ** [sdk.AddrFilter] *)
Notation AddrFilter := (gmap Uint168 Uint168).
Definition AddrFilter_clear : AddrFilter := ∅.
Definition AddrFilter_AddAddr (addr : Uint168) (filter : AddrFilter) : AddrFilter := <[addr := addr]> filter.
Definition LoadAddrs (addrs : list Uint168) : AddrFilter :=
  foldl (λ filter addr, <[addr := addr]> filter) AddrFilter_clear addrs.
Definition NewAddrFilter (addrs : list Uint168) : AddrFilter := LoadAddrs addrs.
Definition AddrFilter_IsLoaded (filter : AddrFilter) : bool := (0 <? Z.of_nat (size filter)).
Definition AddrFilter_DeleteAddr (hash : Uint168) (filter : AddrFilter) : AddrFilter := delete hash filter.
Definition AddrFilter_GetAddrs `{!MapOrder} (filter : AddrFilter) : list Uint168 := snd <$> range filter.
Definition AddrFilter_ContainAddr (hash : Uint168) (filter : AddrFilter) : bool :=
  bool_decide (is_Some (filter !! hash)).

(** ** [sdk.TxTypesFilter] *)
Notation TxTypesFilter := (gmap byte unit).
Definition TxTypesFilter_clear : TxTypesFilter := ∅.
Definition TxTypesFilter_AddTxType (txType : byte) (filter : TxTypesFilter) : TxTypesFilter :=
  <[txType := ()]> filter.
Definition LoadTxTypes (txTypes : list byte) : TxTypesFilter :=
  foldl (λ filter txType, <[txType := ()]> filter) TxTypesFilter_clear txTypes.
Definition NewTxTypesFilter (txTypes : list byte) : TxTypesFilter := LoadTxTypes txTypes.
Definition TxTypesFilter_IsLoaded (filter : TxTypesFilter) : bool := (0 <? Z.of_nat (size filter)).
Definition TxTypesFilter_DeleteTxType (txType : byte) (filter : TxTypesFilter) : TxTypesFilter :=
  delete txType filter.
Definition TxTypesFilter_GetTxTypes `{!MapOrder} (filter : TxTypesFilter) : list byte := fst <$> range filter.
Definition TxTypesFilter_ContainTxType (txType : byte) (filter : TxTypesFilter) : bool :=
  bool_decide (is_Some (filter !! txType)).

(** ** The tables *)
Record addrs (DB : Type) := mkAddrs { a_db : DB; a_filter : AddrFilter }.
Arguments mkAddrs {DB}.
Arguments a_db {DB}.
Arguments a_filter {DB}.
Record txTypes (DB : Type) := mkTxTypes { tt_db : DB; tt_filter : TxTypesFilter }.
Arguments mkTxTypes {DB}.
Arguments tt_db {DB}.
Arguments tt_filter {DB}.

Section tables.
Context {DB} `{!LevelDB DB} `{!Uint168Bytes} `{!MapOrder}.

Fixpoint addrs_values (entries : list (bytes * bytes)) : outcome (list Uint168) :=
  match entries with
  | [] => Ok []
  | (_, value) :: entries =>
      addr ← Uint168FromBytes value;
      rest ← addrs_values entries;
      Ok (addr :: rest)
  end.
Definition addrs_getAll (db : DB) : outcome (list Uint168) := addrs_values (ldb_Iterate db BKTAddrs).
Definition NewAddrs (db : DB) : outcome (addrs DB) :=
  l ← addrs_getAll db;
  Ok (mkAddrs db (NewAddrFilter l)).
Definition addrs_onDB {A} (m : GoM DB A) : GoM (addrs DB) A :=
  zoom a_db (λ db s, mkAddrs db (a_filter s)) m.
Definition addrs_GetFilter : GoM (addrs DB) AddrFilter := s ← getS; mret (a_filter s).
Definition addrs_Put (addr : Uint168) : GoM (addrs DB) unit :=
  s ← getS;
  if AddrFilter_ContainAddr addr (a_filter s) then mret ()
  else
    modify (λ s, mkAddrs (a_db s) (AddrFilter_AddAddr addr (a_filter s))) ≫= λ _,
    addrs_onDB (dbPut (toKey BKTAddrs (arr_bytes addr)) (arr_bytes addr)).
Definition addrs_GetAll : GoM (addrs DB) (list Uint168) :=
  s ← getS; mret (AddrFilter_GetAddrs (a_filter s)).
Definition addrs_Clear : GoM (addrs DB) unit :=
  entries ← addrs_onDB (dbIterate BKTAddrs);
  addrs_onDB (dbWrite ((λ kv, BDelete kv.1) <$> entries)).

Fixpoint txTypes_values (entries : list (bytes * bytes)) : outcome (list byte) :=
  match entries with
  | [] => Ok []
  | (_, value) :: entries =>
      match value with
      | [txType] => rest ← txTypes_values entries; Ok (txType :: rest)
      | _ => Err (ErrStr "invalid tx types")
      end
  end.
Definition txTypes_getAll (db : DB) : outcome (list byte) := txTypes_values (ldb_Iterate db BKTTxTypes).
Definition NewTxTypes (db : DB) : outcome (txTypes DB) :=
  l ← txTypes_getAll db;
  Ok (mkTxTypes db (NewTxTypesFilter l)).
Definition txTypes_onDB {A} (m : GoM DB A) : GoM (txTypes DB) A :=
  zoom tt_db (λ db s, mkTxTypes db (tt_filter s)) m.
Definition txTypes_GetFilter : GoM (txTypes DB) TxTypesFilter := s ← getS; mret (tt_filter s).
Definition txTypes_Put (txType : byte) : GoM (txTypes DB) unit :=
  s ← getS;
  if TxTypesFilter_ContainTxType txType (tt_filter s) then mret ()
  else
    modify (λ s, mkTxTypes (tt_db s) (TxTypesFilter_AddTxType txType (tt_filter s))) ≫= λ _,
    txTypes_onDB (dbPut (toKey BKTTxTypes [txType]) [txType]).
Definition txTypes_GetAll : GoM (txTypes DB) (list byte) :=
  s ← getS; mret (TxTypesFilter_GetTxTypes (tt_filter s)).
Definition txTypes_Clear : GoM (txTypes DB) unit :=
  entries ← txTypes_onDB (dbIterate BKTTxTypes);
  txTypes_onDB (dbWrite ((λ kv, BDelete kv.1) <$> entries)).
End tables.

(** ** A table and its set *)
Lemma LoadAddrs_lookup (l : list Uint168) a :
  LoadAddrs l !! a = if decide (a ∈ l) then Some a else None.
Proof.
  unfold LoadAddrs, AddrFilter_clear.
  assert (Hgen : ∀ m : AddrFilter, foldl (λ f x, <[x := x]> f) m l !! a = if decide (a ∈ l) then Some a else m !! a).
  { induction l as [|x l IH]; intros m; [done|]. cbn [foldl]. rewrite IH.
    destruct (decide (a ∈ l)); [by rewrite decide_True by set_solver|].
    destruct (decide (x = a)) as [->|Hne].
    - rewrite decide_True by set_solver. apply lookup_insert_eq.
    - rewrite decide_False by set_solver. by apply lookup_insert_ne. }
  rewrite Hgen. case_decide; [done|]. apply lookup_empty.
Qed.
Lemma LoadTxTypes_lookup (l : list byte) a :
  LoadTxTypes l !! a = if decide (a ∈ l) then Some () else None.
Proof.
  unfold LoadTxTypes, TxTypesFilter_clear.
  assert (Hgen : ∀ m : TxTypesFilter, foldl (λ f x, <[x := ()]> f) m l !! a = if decide (a ∈ l) then Some () else m !! a).
  { induction l as [|x l IH]; intros m; [done|]. cbn [foldl]. rewrite IH.
    destruct (decide (a ∈ l)); [by rewrite decide_True by set_solver|].
    destruct (decide (x = a)) as [->|Hne].
    - rewrite decide_True by set_solver. apply lookup_insert_eq.
    - rewrite decide_False by set_solver. by apply lookup_insert_ne. }
  rewrite Hgen. case_decide; [done|]. apply lookup_empty.
Qed.

Section spec.
Context {DB} `{!LevelDB DB} `{!LevelDBLaws DB} `{!Uint168Bytes} `{!Uint168BytesLaws} `{!MapOrder}.

(** The bucket holds one entry per element of [X], under the element's key and
    with the element as its value. *)
Definition bucket_is {A} (p : bytes) (enc : A → bytes) (m : gmap bytes bytes) (X : A → Prop) : Prop :=
  (∀ k v, m !! k = Some v → p `prefix_of` k → ∃ a, k = toKey p (enc a) ∧ v = enc a ∧ X a) ∧
  (∀ a, X a → m !! toKey p (enc a) = Some (enc a)).

Lemma bucket_is_put {A} p (enc : A → bytes) `{!Inj (=) (=) enc} m (X : A → Prop) a :
  bucket_is p enc m X → bucket_is p enc (<[toKey p (enc a) := enc a]> m) (λ b, b = a ∨ X b).
Proof.
  intros [Hb1 Hb2]. split.
  - intros k v [[<- <-]|[Hne Hk]]%lookup_insert_Some Hp; [exists a; auto|].
    destruct (Hb1 k v Hk Hp) as (b & ? & ? & ?). exists b. auto.
  - intros b Hb. destruct (decide (toKey p (enc a) = toKey p (enc b))) as [He|Hne].
    + rewrite <-He, lookup_insert_eq. apply app_inv_head in He. by rewrite He.
    + rewrite lookup_insert_ne by done. destruct Hb as [->|Hb]; [done|by apply Hb2].
Qed.

Record addrs_ok (s : addrs DB) : Prop := {
  ao_bucket : bucket_is BKTAddrs arr_bytes (db_view (a_db s)) (λ a, is_Some (a_filter s !! a));
  ao_values : ∀ a b, a_filter s !! a = Some b → b = a;
}.
Record txTypes_ok (s : txTypes DB) : Prop := {
  to_bucket : bucket_is BKTTxTypes (λ b, [b]) (db_view (tt_db s)) (λ a, is_Some (tt_filter s !! a));
}.

Lemma addrs_values_spec (l : list (bytes * bytes)) (X : Uint168 → Prop) :
  (∀ k v, (k, v) ∈ l → ∃ a, k = toKey BKTAddrs (arr_bytes a) ∧ v = arr_bytes a ∧ X a) →
  ∃ as_, addrs_values l = Ok as_ ∧ ∀ a, a ∈ as_ ↔ (toKey BKTAddrs (arr_bytes a), arr_bytes a) ∈ l.
Proof.
  induction l as [|[k v] l IH]; intros Hl; [exists []; set_solver|].
  destruct (Hl k v) as (a & -> & -> & _); [set_solver|].
  destruct IH as (as_ & He & Has); [set_solver|]. exists (a :: as_). cbn [addrs_values].
  rewrite Uint168FromBytes_Bytes. cbn [mbind outcome_bind]. rewrite He. split; [done|].
  intros b. rewrite !elem_of_cons, Has. split; [intros [->|]; auto|]. intros [[= _ Hb]|]; auto.
  left. by apply array_eq.
Qed.

Lemma NewAddrs_run (s : addrs DB) : addrs_ok s → NewAddrs (a_db s) = Ok s.
Proof.
  intros [[Hb1 Hb2] Hv]. unfold NewAddrs, addrs_getAll.
  destruct (addrs_values_spec (ldb_Iterate (a_db s) BKTAddrs) (λ a, is_Some (a_filter s !! a))) as (l & -> & Hl).
  { intros k v [Hk Hp]%ldb_Iterate_elem. by apply Hb1. }
  cbn [mbind outcome_bind]. f_equal. destruct s as [db f]. cbn [a_db a_filter] in *. f_equal.
  apply map_eq. intros a. unfold NewAddrFilter. rewrite LoadAddrs_lookup.
  assert (Ha : a ∈ l ↔ is_Some (f !! a)).
  { rewrite Hl, ldb_Iterate_elem. split.
    - intros [Hk Hp]. destruct (Hb1 _ _ Hk Hp) as (b & Hb & _ & Hf). apply app_inv_head, array_eq in Hb.
      by rewrite Hb.
    - intros Hf. split; [by apply Hb2|]. by apply prefix_app_r. }
  case_decide as Hd.
  - apply Ha in Hd as [b Hb]. etrans; [|symmetry; exact Hb]. by rewrite (Hv a b Hb).
  - symmetry. apply eq_None_not_Some. intros Hs. by apply Hd, Ha.
Qed.

#[local] Instance singleton_inj : Inj (=) (=) (λ b : byte, [b]).
Proof. by intros a b [= ->]. Qed.

Lemma txTypes_values_spec (l : list (bytes * bytes)) (X : byte → Prop) :
  (∀ k v, (k, v) ∈ l → ∃ a, k = toKey BKTTxTypes [a] ∧ v = [a] ∧ X a) →
  ∃ as_, txTypes_values l = Ok as_ ∧ ∀ a, a ∈ as_ ↔ (toKey BKTTxTypes [a], [a]) ∈ l.
Proof.
  induction l as [|[k v] l IH]; intros Hl; [exists []; set_solver|].
  destruct (Hl k v) as (a & -> & -> & _); [set_solver|].
  destruct IH as (as_ & He & Has); [set_solver|]. exists (a :: as_). cbn [txTypes_values].
  rewrite He. split; [done|]. intros b. rewrite !elem_of_cons, Has.
  split; [intros [->|]; auto|]. intros [[= Hb]|]; auto.
Qed.
Lemma NewTxTypes_run (s : txTypes DB) : txTypes_ok s → NewTxTypes (tt_db s) = Ok s.
Proof.
  intros [[Hb1 Hb2]]. unfold NewTxTypes, txTypes_getAll.
  destruct (txTypes_values_spec (ldb_Iterate (tt_db s) BKTTxTypes) (λ a, is_Some (tt_filter s !! a))) as (l & -> & Hl).
  { intros k v [Hk Hp]%ldb_Iterate_elem. by apply Hb1. }
  cbn [mbind outcome_bind]. f_equal. destruct s as [db f]. cbn [tt_db tt_filter] in *. f_equal.
  apply map_eq. intros a. unfold NewTxTypesFilter. rewrite LoadTxTypes_lookup.
  assert (Ha : a ∈ l ↔ is_Some (f !! a)).
  { rewrite Hl, ldb_Iterate_elem. split.
    - intros [Hk Hp]. destruct (Hb1 _ _ Hk Hp) as (b & Hb & _ & Hf). apply app_inv_head in Hb.
      by injection Hb as ->.
    - intros Hf. split; [by apply Hb2|]. by apply prefix_app_r. }
  case_decide as Hd.
  - apply Ha in Hd as [[] Hb]. by rewrite Hb.
  - symmetry. apply eq_None_not_Some. intros Hs. by apply Hd, Ha.
Qed.

(** [Put] on the address table keeps the table and its set in agreement,
    [GetAll] lists exactly the old addresses and the new one, once each, and
    opening the database again gives the same table. *)
Theorem addrs_Put_spec (s : addrs DB) addr : addrs_ok s →
  ∃ s', addrs_Put addr s = (Ok (), s') ∧ addrs_ok s' ∧ NewAddrs (a_db s') = Ok s' ∧
    ∃ l, addrs_GetAll s' = (Ok l, s') ∧ NoDup l ∧
      ∀ a, a ∈ l ↔ a = addr ∨ AddrFilter_ContainAddr a (a_filter s) = true.
Proof.
  intros Hok. assert (Hs' : ∃ s', addrs_Put addr s = (Ok (), s') ∧ addrs_ok s' ∧
    ∀ a, is_Some (a_filter s' !! a) ↔ a = addr ∨ is_Some (a_filter s !! a)).
  { unfold addrs_Put. change ((getS ≫= ?f) s) with (f s s). cbv beta. unfold AddrFilter_ContainAddr.
    case_bool_decide as Hin; [exists s; naive_solver|].
    destruct (dbPut_view (a_db s) (toKey BKTAddrs (arr_bytes addr)) (arr_bytes addr)) as (db' & Hp & Hv).
    assert (Hf : ∀ a, is_Some (AddrFilter_AddAddr addr (a_filter s) !! a) ↔ a = addr ∨ is_Some (a_filter s !! a)).
    { intros a. unfold AddrFilter_AddAddr. rewrite lookup_insert_is_Some'. naive_solver. }
    eexists (mkAddrs db' (AddrFilter_AddAddr addr (a_filter s))). split_and!; [|split|exact Hf].
    - rewrite (bind_run (modify _) _ s () _ eq_refl). unfold addrs_onDB, zoom. cbn [a_db]. by rewrite Hp.
    - cbn [a_db a_filter]. rewrite Hv.
      destruct (bucket_is_put BKTAddrs arr_bytes _ _ addr (ao_bucket s Hok)) as [Hb1 Hb2].
      split; [|intros a Ha%Hf; by apply Hb2]. intros k v Hk Hpr.
      destruct (Hb1 k v Hk Hpr) as (a & ? & ? & ?). exists a. by rewrite Hf.
    - cbn [a_filter]. intros a b. unfold AddrFilter_AddAddr. rewrite lookup_insert_Some.
      intros [[-> ->]|[_ Hb]]; [done|]. by apply (ao_values s Hok). }
  destruct Hs' as (s' & Hr & Hok' & Hf). exists s'. split_and!; [done|done|by apply NewAddrs_run|].
  exists (AddrFilter_GetAddrs (a_filter s')).
  assert (Hfst : AddrFilter_GetAddrs (a_filter s') = fst <$> range (a_filter s')).
  { unfold AddrFilter_GetAddrs. apply list_fmap_ext. intros i [a b] Hi%list_elem_of_lookup_2.
    rewrite range_perm in Hi. apply elem_of_map_to_list in Hi. cbn. by apply (ao_values s' Hok'). }
  rewrite Hfst. split_and!; [by rewrite <-Hfst|rewrite range_perm; apply NoDup_fst_map_to_list|].
  intros a. rewrite range_perm. unfold AddrFilter_ContainAddr. rewrite bool_decide_eq_true, <-Hf.
  rewrite list_elem_of_fmap. split.
  - intros ([x y] & -> & Hxy%elem_of_map_to_list). by exists y.
  - intros [y Hy]. exists (a, y). split; [done|]. by apply elem_of_map_to_list.
Qed.

(** [Put] on the table of transaction types keeps the table and its set in
    agreement, and opening the database again gives the same set. *)
Theorem txTypes_Put_spec (s : txTypes DB) t : txTypes_ok s →
  ∃ s', txTypes_Put t s = (Ok (), s') ∧ txTypes_ok s' ∧ NewTxTypes (tt_db s') = Ok s' ∧
    ∀ a, TxTypesFilter_ContainTxType a (tt_filter s') =
      bool_decide (a = t) || TxTypesFilter_ContainTxType a (tt_filter s).
Proof.
  intros Hok. assert (Hs' : ∃ s', txTypes_Put t s = (Ok (), s') ∧ txTypes_ok s' ∧
    ∀ a, is_Some (tt_filter s' !! a) ↔ a = t ∨ is_Some (tt_filter s !! a)).
  { unfold txTypes_Put. change ((getS ≫= ?f) s) with (f s s). cbv beta. unfold TxTypesFilter_ContainTxType.
    case_bool_decide as Hin; [exists s; naive_solver|].
    destruct (dbPut_view (tt_db s) (toKey BKTTxTypes [t]) [t]) as (db' & Hp & Hv).
    assert (Hf : ∀ a, is_Some (TxTypesFilter_AddTxType t (tt_filter s) !! a) ↔ a = t ∨ is_Some (tt_filter s !! a)).
    { intros a. unfold TxTypesFilter_AddTxType. rewrite lookup_insert_is_Some'. naive_solver. }
    eexists (mkTxTypes db' (TxTypesFilter_AddTxType t (tt_filter s))). split_and!; [|split|exact Hf].
    - rewrite (bind_run (modify _) _ s () _ eq_refl). unfold txTypes_onDB, zoom. cbn [tt_db]. by rewrite Hp.
    - cbn [tt_db tt_filter]. rewrite Hv.
      destruct (bucket_is_put BKTTxTypes (λ b, [b]) _ _ t (to_bucket s Hok)) as [Hb1 Hb2].
      split; [|intros a Ha%Hf; by apply Hb2]. intros k v Hk Hpr.
      destruct (Hb1 k v Hk Hpr) as (a & ? & ? & ?). exists a. by rewrite Hf. }
  destruct Hs' as (s' & Hr & Hok' & Hf). exists s'. split_and!; [done|done|by apply NewTxTypes_run|].
  intros a. unfold TxTypesFilter_ContainTxType. rewrite <-bool_decide_or. apply bool_decide_ext, Hf.
Qed.
End spec.
