(* ===== verification/Queue.v ===== *)
(** * The outpoint table and the notification queue

    [interface/store/ops.go], [opsbatch.go], [que.go] and [quebatch.go]: the
    outpoints that pay a watched address, and the notifications waiting to be
    confirmed, indexed by height.  The naked batches are a database and the
    recorded operations. *)
From S2P Require Export Filters.

(** ** [binary.Read] of a fixed-width integer: 0 when the input is too short,
    and the input is used up. *)
Definition binary_read (n : nat) (buf : bytes) : Z * bytes :=
  if decide (n ≤ length buf)%nat then (be_value (take n buf), drop n buf) else (0, []).

Record QueItem := mkQueItem {
  NotifyId : Uint256;
  TxId : Uint256;
  qi_Height : Z;
  LastNotify : Z;                     (* time.Time, as Unix seconds *)
}.
#[global] Instance QueItem_eq_dec : EqDecision QueItem.
Proof. solve_decision. Defined.

Definition opKey `{E : ElaCommon} (op : OutPoint) : bytes := toKey BKTOps (OutPoint_Bytes op).
Definition queValue (notifyId txHash : Uint256) : bytes := arr_bytes notifyId ++ arr_bytes txHash.
Definition queKey (notifyId txHash : Uint256) : bytes := toKey BKTQue (queValue notifyId txHash).
Definition queIdxKey (height : bytes) (notifyId txHash : Uint256) : bytes :=
  toKey BKTQueIdx (height ++ queValue notifyId txHash).

Section tables.
Context {DB} `{!LevelDB DB} `{!Uint168Bytes} `{E : ElaCommon}.

(** ** [ops] *)
Definition ops_Put (op : OutPoint) (addr : Uint168) : GoM DB unit := dbPut (opKey op) (arr_bytes addr).

(** nil when the key is absent or its value is not an address. *)
Definition ops_HaveOp (op : OutPoint) : GoM DB (option Uint168) :=
  addrBytes ← try (dbGet (opKey op));
  match addrBytes with
  | inl _ => mret None
  | inr addrBytes =>
      addr ← try (lift (Uint168FromBytes addrBytes));
      mret (match addr with inl _ => None | inr addr => Some addr end)
  end.

Fixpoint ops_keys (entries : list (bytes * bytes)) : outcome (list OutPoint) :=
  match entries with
  | [] => Ok []
  | (key, _) :: entries =>
      value ← subKey BKTOps key;
      op ← OutPointFromBytes value;
      rest ← ops_keys entries;
      Ok (op :: rest)
  end.
Definition ops_GetAll : GoM DB (list OutPoint) :=
  entries ← dbIterate BKTOps;
  lift (ops_keys entries).

Definition deleteKeys (entries : list (bytes * bytes)) : batch := (λ kv, BDelete kv.1) <$> entries.

Definition ops_Clear : GoM DB unit :=
  entries ← dbIterate BKTOps;
  dbWrite (deleteKeys entries).

(** ** [que] *)
Definition que_Put (item : QueItem) : GoM DB unit :=
  let buf := be_bytes 4 (qi_Height item) in
  let value := queValue (NotifyId item) (TxId item) in
  dbWrite [BPut (toKey BKTQueIdx (buf ++ value)) [];
           BPut (toKey BKTQue value) (buf ++ be_bytes 8 (u64 (LastNotify item)))].

(** The height and the time of a stored value; the errors of [binary.Read] are
    dropped. *)
Definition queRead (v : bytes) : Z * Z :=
  let '(height, buf) := binary_read 4 v in
  let '(lastNotify, _) := binary_read 8 buf in
  (height, i64 lastNotify).

Fixpoint que_items (entries : list (bytes * bytes)) : outcome (list QueItem) :=
  match entries with
  | [] => Ok []
  | (key, v) :: entries =>
      value ← subKey BKTQue key;
      notifyId ← slice value 0 32;
      txId ← slice value 32 (Z.of_nat (length value));
      rest ← que_items entries;
      Ok (mkQueItem (copy_array 32 notifyId) (copy_array 32 txId) (queRead v).1 (queRead v).2 :: rest)
  end.
Definition que_GetAll : GoM DB (list QueItem) :=
  entries ← dbIterate BKTQue;
  lift (que_items entries).

(** The whole stored value stands where the index key has the height. *)
Definition que_Del (notifyId txHash : Uint256) : GoM DB unit :=
  height ← dbGet (queKey notifyId txHash);
  dbWrite [BDelete (queKey notifyId txHash); BDelete (queIdxKey height notifyId txHash)].

Definition que_Clear : GoM DB unit :=
  e1 ← dbIterate BKTQue;
  e2 ← dbIterate BKTQueIdx;
  dbWrite (deleteKeys (e1 ++ e2)).

(** ** The batches *)
Notation St := (DB * batch)%type.
Definition onSt {A} (m : GoM DB A) : GoM St A := zoom fst (λ db s, (db, s.2)) m.
Definition record (ops : batch) : GoM St unit := modify (λ s, (s.1, s.2 ++ ops)).

Definition opsBatch_Put (op : OutPoint) (addr : Uint168) : GoM St unit :=
  record [BPut (opKey op) (arr_bytes addr)].
Definition opsBatch_Del (op : OutPoint) : GoM St unit := record [BDelete (opKey op)].
Definition batch_Rollback : GoM St unit := modify (λ s, (s.1, [])).
Definition batch_Commit : GoM St unit := s ← getS; onSt (dbWrite s.2).

Definition queBatch_Put (item : QueItem) : GoM St unit :=
  let height := be_bytes 4 (qi_Height item) in
  record [BPut (queKey (NotifyId item) (TxId item)) height] ≫= λ _,
  record [BPut (queIdxKey height (NotifyId item) (TxId item)) []].

Definition queBatch_Del (notifyId txHash : Uint256) : GoM St unit :=
  height ← onSt (dbGet (queKey notifyId txHash));
  record [BDelete (queKey notifyId txHash)] ≫= λ _,
  record [BDelete (queIdxKey height notifyId txHash)].

Definition queBatch_DelAll (height : Z) : GoM St unit :=
  let prefix := toKey BKTQueIdx (be_bytes 4 height) in
  entries ← onSt (dbIterate prefix);
  forM entries (λ kv,
    value ← lift (subKey prefix kv.1);
    record [BDelete (toKey BKTQue value)] ≫= λ _,
    record [BDelete kv.1]).
End tables.
