(* ===== verification/QueueSpec.v ===== *)
(** * What the outpoint table and the queue keep

    The queue's bucket as a finite map from (notify id, transaction hash) to
    (height, time of the last notification); the outpoint bucket as a map from
    outpoints to addresses. *)
From S2P Require Export Queue.

Definition queUnkey (k : bytes) : option (Uint256 * Uint256) :=
  if decide (BKTQue = take 3 k ∧ length k = 67%nat)
  then Some (copy_array 32 (take 32 (drop 3 k)), copy_array 32 (drop 35 k)) else None.
Definition queKeyOf (x : Uint256 * Uint256) : bytes := queKey x.1 x.2.

Lemma queKey_length n t : length (queKey n t) = 67%nat.
Proof. unfold queKey, toKey, queValue. by rewrite !length_app, !arr_length. Qed.
Lemma queUnkey_key x : queUnkey (queKeyOf x) = Some x.
Proof.
  destruct x as [n t]. unfold queUnkey, queKeyOf. cbn [fst snd].
  rewrite decide_True by (split; [done|apply queKey_length]).
  unfold queKey, toKey. change (drop 3 (BKTQue ++ queValue n t)) with (queValue n t).
  change (drop 35 (BKTQue ++ queValue n t)) with (drop 32 (queValue n t)).
  unfold queValue. rewrite take_app_length' by (by rewrite arr_length). rewrite drop_app_length' by (by rewrite arr_length).
  by rewrite !copy_array_bytes.
Qed.
Lemma queUnkey_inj k x : queUnkey k = Some x → k = queKeyOf x.
Proof.
  unfold queUnkey. intros Hk. case_decide as Hd; [|done]. destruct Hd as [Hp Hl].
  injection Hk as <-. unfold queKeyOf, queKey, queValue, toKey. cbn [fst snd].
  rewrite !arr_copy_array by (rewrite ?length_take, ?length_drop; lia).
  rewrite Hp at 1. change 35%nat with (3 + 32)%nat. rewrite <-drop_drop.
  by rewrite take_drop, take_drop.
Qed.
Lemma queKey_inj x y : queKeyOf x = queKeyOf y → x = y.
Proof. intros E. apply (f_equal queUnkey) in E. rewrite !queUnkey_key in E. congruence. Qed.
Lemma queIdxKey_queKey b n t x : queIdxKey b n t ≠ queKeyOf x.
Proof. unfold queIdxKey, queKeyOf, queKey, toKey. discriminate. Qed.

Section que.
Context {DB} `{!LevelDB DB} `{!LevelDBLaws DB}.

(** The keys of the bucket are two hashes. *)
Definition que_ok (db : DB) : Prop :=
  ∀ k v, db_view db !! k = Some v → BKTQue `prefix_of` k → length k = 67%nat.
Definition que_view (db : DB) : gmap (Uint256 * Uint256) (Z * Z) :=
  bucket_view queUnkey (λ v, Some (queRead v)) (db_view db).

Lemma que_view_lookup db x : que_view db !! x = queRead <$> db_view db !! queKeyOf x.
Proof.
  unfold que_view. rewrite (bucket_view_lookup queKeyOf queUnkey (λ v, Some (queRead v)) queUnkey_key queUnkey_inj).
  by destruct (db_view db !! queKeyOf x).
Qed.
Lemma que_key_of db k v : que_ok db → db_view db !! k = Some v → BKTQue `prefix_of` k →
  ∃ x, k = queKeyOf x.
Proof.
  intros Hok Hk Hp. pose proof (Hok k v Hk Hp) as Hl. destruct (queUnkey k) as [x|] eqn:Hx.
  - exists x. by apply queUnkey_inj.
  - exfalso. unfold queUnkey in Hx. rewrite decide_True in Hx; [done|]. split; [|done].
    destruct Hp as [r ->]. done.
Qed.

Lemma queRead_Put h t : fits 32 h → - 2 ^ 63 ≤ t < 2 ^ 63 →
  queRead (be_bytes 4 h ++ be_bytes 8 (u64 t)) = (h, t).
Proof.
  intros Hh Ht. unfold queRead, binary_read.
  rewrite decide_True by (rewrite length_app, be_bytes_length; lia).
  rewrite take_app_length' by (by rewrite be_bytes_length). rewrite drop_app_length' by (by rewrite be_bytes_length).
  rewrite decide_True by (rewrite be_bytes_length; lia).
  rewrite (take_ge (be_bytes 8 _)) by (rewrite be_bytes_length; lia).
  rewrite be_value_fits32 by done. rewrite be_value_bytes.
  rewrite Z.mod_small by exact (u64_fits t). by rewrite i64_u64.
Qed.

(** [GetAll] lists the map. *)
Definition item_entry (i : QueItem) : (Uint256 * Uint256) * (Z * Z) :=
  ((NotifyId i, TxId i), (qi_Height i, LastNotify i)).

Lemma que_items_spec (l : list (bytes * bytes)) :
  (∀ k v, (k, v) ∈ l → ∃ x, k = queKeyOf x) →
  ∃ items, que_items l = Ok items ∧
    item_entry <$> items = omap (bucket_entry queUnkey (λ v, Some (queRead v))) l.
Proof.
  induction l as [|[k v] l IH]; intros Hl; [by exists []|].
  destruct (Hl k v) as ([n t] & ->); [set_solver|].
  destruct IH as (items & He & Hi); [set_solver|].
  exists (mkQueItem n t (queRead v).1 (queRead v).2 :: items).
  cbn [que_items fmap list_fmap omap list_omap].
  assert (Hb : bucket_entry queUnkey (λ v, Some (queRead v)) (queKeyOf (n, t), v) = Some ((n, t), queRead v)).
  { unfold bucket_entry. cbn [fst snd]. by rewrite queUnkey_key. }
  rewrite Hb, <-Hi, He. unfold queKeyOf. cbn [fst snd]. unfold queKey. rewrite subKey_toKey.
  cbn [mbind outcome_bind]. unfold queValue.
  pose proof (arr_length n) as Hn. pose proof (arr_length t) as Ht. unfold slice.
  rewrite decide_True by (rewrite length_app; lia). cbn [mbind outcome_bind].
  rewrite decide_True by (rewrite length_app; lia). cbn [mbind outcome_bind].
  change (Z.to_nat 0) with 0%nat. change (Z.to_nat (32 - 0)) with 32%nat. change (Z.to_nat 32) with 32%nat.
  rewrite drop_0, take_app_length' by done. rewrite drop_app_length' by done.
  rewrite take_ge by (rewrite length_app; lia). rewrite !copy_array_bytes. split; [done|].
  unfold item_entry at 1. cbn [NotifyId TxId qi_Height LastNotify]. by destruct (queRead v).
Qed.

Lemma que_GetAll_view db : que_ok db →
  ∃ items, que_GetAll db = (Ok items, db) ∧ item_entry <$> items ≡ₚ map_to_list (que_view db).
Proof.
  intros Hok. destruct (que_items_spec (ldb_Iterate db BKTQue)) as (items & He & Hi).
  { intros k v [Hk Hp]%ldb_Iterate_elem. by eapply que_key_of. }
  exists items. split; [unfold que_GetAll, dbIterate, mbind, GoM_bind, lift; by rewrite He|].
  rewrite Hi. apply NoDup_Permutation.
  - apply (NoDup_fmap_1 fst), bucket_entries_keys with (ek := queKeyOf); [apply queUnkey_inj|].
    apply ldb_Iterate_NoDup.
  - apply NoDup_map_to_list.
  - intros [x y]. rewrite elem_of_map_to_list, que_view_lookup, list_elem_of_omap. split.
    + intros ([k v] & [Hk Hp]%ldb_Iterate_elem & He'). unfold bucket_entry in He'. cbn in He'.
      destruct (queUnkey k) as [x'|] eqn:Hx; [|done]. cbn in He'. simplify_eq.
      apply queUnkey_inj in Hx as ->. by rewrite Hk.
    + destruct (db_view db !! queKeyOf x) as [v|] eqn:Hk; [|done]. cbn. intros [= <-].
      exists (queKeyOf x, v). rewrite ldb_Iterate_elem. split_and!; [done|by apply prefix_app_r|].
      unfold bucket_entry. cbn [fst snd]. by rewrite queUnkey_key.
Qed.

(** The queue after one of its entries changed. *)
Lemma que_update db db' x ov :
  que_ok db → (∀ k, BKTQue `prefix_of` k →
    db_view db' !! k = if decide (k = queKeyOf x) then ov else db_view db !! k) →
  que_ok db' ∧ ∀ y, que_view db' !! y = if decide (y = x) then queRead <$> ov else que_view db !! y.
Proof.
  intros Hok Hdb. split.
  - intros k v Hk Hp. rewrite Hdb in Hk by done. case_decide as Hd; [|by eapply Hok].
    subst k. apply queKey_length.
  - intros y. rewrite !que_view_lookup, Hdb by apply prefix_app_r, reflexivity.
    destruct (decide (y = x)) as [->|Hne]; [by rewrite decide_True|].
    rewrite decide_False; [done|]. by intros ?%queKey_inj.
Qed.

Lemma que_Put_run db i : que_ok db → fits 32 (qi_Height i) → - 2 ^ 63 ≤ LastNotify i < 2 ^ 63 →
  ∃ db', que_Put i db = (Ok (), db') ∧ que_ok db' ∧
    que_view db' = <[(NotifyId i, TxId i) := (qi_Height i, LastNotify i)]> (que_view db) ∧
    length <$> db_view db' !! queKey (NotifyId i) (TxId i) = Some 12%nat ∧
    db_view db' !! queIdxKey (be_bytes 4 (qi_Height i)) (NotifyId i) (TxId i) = Some [] ∧
    (∀ k, db_view db !! k = Some [] → BKTQueIdx `prefix_of` k → db_view db' !! k = Some []).
Proof.
  intros Hok Hh Ht. set (n := NotifyId i). set (t := TxId i).
  set (kv := be_bytes 4 (qi_Height i) ++ be_bytes 8 (u64 (LastNotify i))).
  destruct (dbWrite_view db [BPut (queIdxKey (be_bytes 4 (qi_Height i)) n t) []; BPut (queKey n t) kv])
    as (db' & Hw & Hv). cbn [apply_batch foldl apply_op] in Hv.
  assert (Hq : ∀ b k, BKTQueIdx `prefix_of` k → queKey n t ≠ k ∧ (BKTQue `prefix_of` k → b)).
  { intros b k [r ->]. split; [discriminate|]. by intros [r' Hr]. }
  destruct (que_update db db' (n, t) (Some kv) Hok) as (Hok' & Hview).
  { intros k Hp. rewrite Hv. case_decide as Hd; [subst; apply lookup_insert_eq|].
    rewrite lookup_insert_ne by (intros Heq; apply Hd; by rewrite <-Heq).
    apply lookup_insert_ne. intros <-. destruct Hp as [r Hr]. discriminate. }
  exists db'. split_and!; [exact Hw|done| | | |].
  - apply map_eq. intros y. rewrite Hview. case_decide as Hd.
    + subst y. rewrite lookup_insert_eq. cbn [fmap option_fmap option_map]. unfold kv. by rewrite queRead_Put.
    + by rewrite lookup_insert_ne.
  - rewrite Hv, lookup_insert_eq. cbn [fmap option_fmap option_map]. unfold kv.
    by rewrite length_app, !be_bytes_length.
  - rewrite Hv, lookup_insert_ne; [apply lookup_insert_eq|]. apply (Hq True). by apply prefix_app_r.
  - intros k Hk Hp. rewrite Hv, lookup_insert_ne by apply (Hq True k Hp).
    destruct (decide (queIdxKey (be_bytes 4 (qi_Height i)) n t = k)) as [->|Hne];
      [apply lookup_insert_eq|by rewrite lookup_insert_ne].
Qed.

(** [Put] files the item under its two hashes, replacing an older item with
    the same ones, and [GetAll] then lists every item of the queue once, with
    its height and time. *)
Theorem que_Put_spec db i : que_ok db → fits 32 (qi_Height i) → - 2 ^ 63 ≤ LastNotify i < 2 ^ 63 →
  ∃ db', que_Put i db = (Ok (), db') ∧ que_ok db' ∧
    que_view db' = <[(NotifyId i, TxId i) := (qi_Height i, LastNotify i)]> (que_view db) ∧
    ∃ items, que_GetAll db' = (Ok items, db') ∧ item_entry <$> items ≡ₚ map_to_list (que_view db').
Proof.
  intros Hok Hh Ht. destruct (que_Put_run db i Hok Hh Ht) as (db' & ? & ? & ? & _).
  exists db'. split_and!; [done..|]. by apply que_GetAll_view.
Qed.

Lemma que_Del_run db n t v : que_ok db → db_view db !! queKey n t = Some v →
  ∃ db', que_Del n t db = (Ok (), db') ∧ que_ok db' ∧ que_view db' = delete (n, t) (que_view db) ∧
    (length v ≠ 4%nat → ∀ h, db_view db' !! queIdxKey (be_bytes 4 h) n t = db_view db !! queIdxKey (be_bytes 4 h) n t).
Proof.
  intros Hok Hk. destruct (dbWrite_view db [BDelete (queKey n t); BDelete (queIdxKey v n t)]) as (db' & Hw & Hv).
  cbn [apply_batch foldl apply_op] in Hv. destruct (que_update db db' (n, t) None Hok) as (Hok' & Hview).
  { intros k Hp. rewrite Hv. rewrite lookup_delete_ne.
    2: { intros <-. destruct Hp as [r Hr]. discriminate. }
    case_decide as Hd; [subst; apply lookup_delete_eq|].
    apply lookup_delete_ne. intros Heq; apply Hd; by rewrite <-Heq. }
  exists db'. split_and!; [|done| |].
  - unfold que_Del. rewrite (bind_run (dbGet _) _ db v db) by (by rewrite dbGet_view, Hk). exact Hw.
  - apply map_eq. intros y. rewrite Hview. case_decide as Hd; [subst; by rewrite lookup_delete_eq|].
    by rewrite lookup_delete_ne.
  - intros Hl h. rewrite Hv, !lookup_delete_ne; [done|apply not_eq_sym; discriminate|].
    intros Heq%app_inv_head%(f_equal length). rewrite !length_app, be_bytes_length in Heq. lia.
Qed.

(** [Del] removes the item of the two hashes and no other; without such an
    item it answers the database's error and changes nothing. *)
Theorem que_Del_spec db n t : que_ok db →
  match que_view db !! (n, t) with
  | Some _ => ∃ db', que_Del n t db = (Ok (), db') ∧ que_ok db' ∧ que_view db' = delete (n, t) (que_view db)
  | None => que_Del n t db = (Err ErrNotFound, db)
  end.
Proof.
  intros Hok. rewrite que_view_lookup. unfold queKeyOf. cbn [fst snd].
  destruct (db_view db !! queKey n t) as [v|] eqn:Hk; cbn [fmap option_fmap option_map].
  - destruct (que_Del_run db n t v Hok Hk) as (db' & ? & ? & ? & _). by exists db'.
  - unfold que_Del. apply bind_run_err. by rewrite dbGet_view, Hk.
Qed.

Lemma queBatch_DelAll_run db b h : ∃ keys,
  queBatch_DelAll h (db, b) = (Ok (), (db, b ++ (BDelete <$> keys))) ∧
  (∀ n t v, db_view db !! queIdxKey (be_bytes 4 h) n t = Some v → queKey n t ∈ keys) ∧
  ∀ k, k ∈ keys → BKTQue `prefix_of` k ∨ BKTQueIdx `prefix_of` k.
Proof.
  set (prefix := toKey BKTQueIdx (be_bytes 4 h)).
  exists (ldb_Iterate db prefix ≫= λ kv, [toKey BKTQue (drop (length prefix) kv.1); kv.1]).
  unfold queBatch_DelAll.
  rewrite (bind_run (onSt _) _ (db, b) (ldb_Iterate db prefix) (db, b)) by done.
  assert (Hpre : ∀ kv, kv ∈ ldb_Iterate db prefix → prefix `prefix_of` kv.1).
  { intros [k v] [_ Hp]%ldb_Iterate_elem. exact Hp. }
  split_and!.
  - revert b. induction (ldb_Iterate db prefix) as [|kv l IH]; intros b; [cbn; by rewrite app_nil_r|].
    cbn [forM]. rewrite (bind_run _ _ (db, b) ()
      (db, (b ++ [BDelete (toKey BKTQue (drop (length prefix) kv.1))]) ++ [BDelete kv.1])).
    + rewrite IH by set_solver. rewrite bind_cons, fmap_app. by rewrite <-!app_assoc.
    + destruct (Hpre kv) as [r Hr]; [set_solver|]. fold prefix. unfold subKey.
      rewrite decide_True by (rewrite Hr, length_app; lia).
      by rewrite (bind_run (lift _) _ (db, b) _ (db, b) eq_refl).
  - intros n t v Hk. apply list_elem_of_bind. exists (queIdxKey (be_bytes 4 h) n t, v).
    assert (Hkey : queIdxKey (be_bytes 4 h) n t = prefix ++ queValue n t) by done. split.
    + cbn [fst]. rewrite Hkey, drop_app_length. unfold queKey. set_solver.
    + apply ldb_Iterate_elem. split; [done|]. rewrite Hkey. by apply prefix_app_r.
  - intros k (kv & Hin & Hkv)%list_elem_of_bind. destruct (Hpre kv Hkv) as [r Hr].
    apply elem_of_cons in Hin as [->|Hin%list_elem_of_singleton]; [left; by apply prefix_app_r|right].
    subst k. rewrite Hr. do 2 apply prefix_app_r. done.
Qed.

(** [Del] leaves the index entry of the item behind; when the same two
    hashes are queued again at another height, rolling back the first height
    drops the second item. *)
Theorem que_Del_stale_index db n t h1 l1 h2 l2 :
  que_ok db → fits 32 h1 → fits 32 h2 → - 2 ^ 63 ≤ l1 < 2 ^ 63 → - 2 ^ 63 ≤ l2 < 2 ^ 63 →
  ∃ db1 db2 db3 db4 b,
    que_Put (mkQueItem n t h1 l1) db = (Ok (), db1) ∧
    que_Del n t db1 = (Ok (), db2) ∧
    que_Put (mkQueItem n t h2 l2) db2 = (Ok (), db3) ∧ que_view db3 !! (n, t) = Some (h2, l2) ∧
    (queBatch_DelAll h1 ≫= λ _, batch_Commit) (db3, []) = (Ok (), (db4, b)) ∧
    que_view db4 !! (n, t) = None.
Proof.
  intros Hok Hh1 Hh2 Hl1 Hl2.
  destruct (que_Put_run db (mkQueItem n t h1 l1) Hok Hh1 Hl1) as (db1 & Hp1 & Hok1 & Hv1 & Hlen & Hi1 & _).
  cbn [NotifyId TxId qi_Height LastNotify] in *.
  pose proof (que_view_lookup db1 (n, t)) as Hq. rewrite Hv1, lookup_insert_eq in Hq.
  change (queKeyOf (n, t)) with (queKey n t) in Hq.
  destruct (db_view db1 !! queKey n t) as [v|] eqn:Hk; [|done]. cbn in Hq. injection Hq as Hq.
  destruct (que_Del_run db1 n t v Hok1 Hk) as (db2 & Hd2 & Hok2 & Hv2 & Hi2).
  destruct (que_Put_run db2 (mkQueItem n t h2 l2) Hok2 Hh2 Hl2) as (db3 & Hp3 & Hok3 & Hv3 & _ & _ & Hi3).
  cbn [NotifyId TxId qi_Height LastNotify] in *.
  destruct (queBatch_DelAll_run db3 [] h1) as (keys & Hda & Hkeys & _).
  destruct (dbWrite_view db3 (BDelete <$> keys)) as (db4 & Hw & Hv4).
  exists db1, db2, db3, db4, (BDelete <$> keys). split_and!; [done..| | |].
  - by rewrite Hv3, lookup_insert_eq.
  - rewrite (bind_run _ _ _ _ _ Hda). unfold batch_Commit. rewrite (bind_run getS _ _ _ _ eq_refl).
    unfold onSt, zoom. cbn [fst snd app]. by rewrite Hw.
  - rewrite que_view_lookup, Hv4, apply_batch_deletes, decide_True; [done|].
    apply (Hkeys n t []). apply Hi3; [|by apply prefix_app_r].
    rewrite Hi2; [done|]. cbn in Hlen. congruence.
Qed.
End que.

Section ops.
Context {DB} `{!LevelDB DB} `{!LevelDBLaws DB} `{E : ElaCommon} `{!ElaCommonLaws E}
  `{!Uint168Bytes} `{!Uint168BytesLaws}.

(** Every entry of the bucket is an address under an outpoint. *)
Definition ops_ok (db : DB) : Prop :=
  ∀ k v, db_view db !! k = Some v → BKTOps `prefix_of` k →
    ∃ op a, OutPoint_wf op ∧ k = opKey op ∧ v = arr_bytes (a : Uint168).

Lemma opKey_inj op1 op2 : OutPoint_wf op1 → OutPoint_wf op2 → opKey op1 = opKey op2 → op1 = op2.
Proof. intros H1 H2 E1%app_inv_head. by apply OutPoint_Bytes_inj. Qed.
Lemma OutPointFromBytes_Bytes op : OutPoint_wf op → OutPointFromBytes (OutPoint_Bytes op) = Ok op.
Proof.
  intros Hop. destruct (OutPoint_ok op Hop) as (bs & Hw & Hr).
  unfold OutPointFromBytes, OutPoint_Bytes. rewrite Hw. cbn [snd app].
  specialize (Hr []). rewrite app_nil_r in Hr. by rewrite Hr.
Qed.

Lemma ops_HaveOp_view db op : ops_ok db → OutPoint_wf op →
  ops_HaveOp op db = (Ok (v ← db_view db !! opKey op; Some (copy_array 21 v)), db).
Proof.
  intros Hok Hop. unfold ops_HaveOp. pose proof (dbGet_view db (opKey op)) as Hg.
  destruct (db_view db !! opKey op) as [v|] eqn:Hk; cbn [mbind option_bind].
  - rewrite (bind_run _ _ _ _ _ (try_run _ _ _ _ Hg)).
    destruct (Hok _ _ Hk) as (op' & a & _ & _ & ->); [by apply prefix_app_r|].
    rewrite Uint168FromBytes_Bytes, copy_array_bytes. done.
  - by rewrite (bind_run _ _ _ _ _ (try_run_err _ _ _ _ Hg)).
Qed.

Lemma ops_keys_spec (l : list (bytes * bytes)) :
  (∀ k v, (k, v) ∈ l → ∃ op, OutPoint_wf op ∧ k = opKey op) →
  ∃ ops, ops_keys l = Ok ops ∧ opKey <$> ops = l.*1 ∧ Forall OutPoint_wf ops.
Proof.
  induction l as [|[k v] l IH]; intros Hl; [by exists []|].
  destruct (Hl k v) as (op & Hop & ->); [set_solver|].
  destruct IH as (ops & He & Hi & Hf); [set_solver|]. exists (op :: ops). cbn [ops_keys].
  unfold opKey at 1. rewrite subKey_toKey. cbn [mbind outcome_bind].
  rewrite OutPointFromBytes_Bytes by done. cbn [mbind outcome_bind]. rewrite He.
  split_and!; [done| |by constructor]. cbn [fmap list_fmap]. by rewrite <-Hi.
Qed.

(** after [Put] the outpoint is known with its address and every other
    outpoint as before; after a batch deletes it, it is unknown; [GetAll] lists
    exactly the known outpoints, once each. *)
Theorem ops_spec db op addr : ops_ok db → OutPoint_wf op →
  ∃ db1 db2 b, ops_Put op addr db = (Ok (), db1) ∧ ops_ok db1 ∧
    (opsBatch_Del op ≫= λ _, batch_Commit) (db1, []) = (Ok (), (db2, b)) ∧ ops_ok db2 ∧
    (∀ op', OutPoint_wf op' →
      (ops_HaveOp op' db1).1 = (if decide (op' = op) then Ok (Some addr) else (ops_HaveOp op' db).1) ∧
      (ops_HaveOp op' db2).1 = (if decide (op' = op) then Ok None else (ops_HaveOp op' db).1)) ∧
    ∃ l, ops_GetAll db1 = (Ok l, db1) ∧ NoDup l ∧
      ∀ op', op' ∈ l ↔ OutPoint_wf op' ∧ (ops_HaveOp op' db1).1 ≠ Ok None.
Proof.
  intros Hok Hop. destruct (dbPut_view db (opKey op) (arr_bytes addr)) as (db1 & Hp & Hv1).
  destruct (dbWrite_view db1 [BDelete (opKey op)]) as (db2 & Hw & Hv2). cbn in Hv2.
  assert (Hok1 : ops_ok db1).
  { intros k v. rewrite Hv1. intros [[<- <-]|[_ Hk]]%lookup_insert_Some Hpre; [by exists op, addr|by apply Hok]. }
  assert (Hok2 : ops_ok db2).
  { intros k v. rewrite Hv2. intros [_ Hk]%lookup_delete_Some Hpre. by apply Hok1. }
  exists db1, db2, [BDelete (opKey op)]. split_and!; try done.
  - rewrite (bind_run (opsBatch_Del op) _ (db1, []) () (db1, [BDelete (opKey op)])) by done.
    unfold batch_Commit. rewrite (bind_run getS _ _ _ _ eq_refl). unfold onSt, zoom. cbn [fst snd]. by rewrite Hw.
  - intros op' Hop'. rewrite !ops_HaveOp_view by done. cbn [fst]. rewrite Hv2, Hv1.
    case_decide as Hd; [subst; by rewrite lookup_delete_eq, lookup_insert_eq; cbn; rewrite copy_array_bytes|].
    assert (opKey op ≠ opKey op') by (intros ?%opKey_inj; congruence).
    by rewrite lookup_delete_ne, !lookup_insert_ne.
  - destruct (ops_keys_spec (ldb_Iterate db1 BKTOps)) as (l & He & Hl & Hf).
    { intros k v [Hk Hpre]%ldb_Iterate_elem. destruct (Hok1 k v Hk Hpre) as (op' & _ & ? & -> & _). by exists op'. }
    exists l. split_and!; [unfold ops_GetAll, dbIterate, mbind, GoM_bind, lift; by rewrite He| |].
    + apply (NoDup_fmap_1 opKey). rewrite Hl. apply ldb_Iterate_NoDup.
    + intros op'. rewrite Forall_forall in Hf. split.
      * intros Hin. split; [by apply Hf|]. rewrite ops_HaveOp_view by auto.
        apply (list_elem_of_fmap_2 opKey) in Hin. rewrite Hl in Hin.
        apply list_elem_of_fmap in Hin as ([k v] & Hkey & [Hk _]%ldb_Iterate_elem). cbn [fst] in Hkey.
        subst k. by rewrite Hk.
      * intros [Hop' Hne]. rewrite ops_HaveOp_view in Hne by done.
        destruct (db_view db1 !! opKey op') as [v|] eqn:Hk; [|done].
        assert (Hin : opKey op' ∈ opKey <$> l).
        { rewrite Hl. apply (list_elem_of_fmap_2 fst _ (opKey op', v)), ldb_Iterate_elem.
          split; [done|]. by apply prefix_app_r. }
        apply list_elem_of_fmap in Hin as (op'' & Hkey & Hin).
        apply opKey_inj in Hkey; [by subst|done|by apply Hf].
Qed.
End ops.
