(* ===== verification/Arbiters.v ===== *)
(** * The arbiters table

    [interface/store/arbiters.go]: the arbiters of every working height, stored
    once per distinct set (a later height with the same set holds the four bytes
    of the first height), the list of working heights, and the heights at which
    the consensus changed. *)
From S2P Require Export Queue.
From stdpp Require Export sorting.
#[local] Open Scope Z_scope.

(** [common.Uint256FromBytes] *)
Class Uint256Bytes := {
  Uint256FromBytes : bytes → outcome Uint256;
}.
Class Uint256BytesLaws `{!Uint256Bytes} : Prop := {
  Uint256FromBytes_Bytes (a : Uint256) : Uint256FromBytes (arr_bytes a) = Ok a;
}.

(** ** Encodings *)
Definition uint32toBytes (data : Z) : bytes := le_bytes 4 data.
Definition uint32ArrayToBytes (data : list Z) : bytes :=
  le_bytes 4 (u32 (Z.of_nat (length data))) ++ (data ≫= uint32toBytes).

(** [binary.LittleEndian.Uint32] *)
Definition bytesToUint32 (data : bytes) : outcome Z :=
  if decide (4 ≤ length data)%nat then Ok (le_value (take 4 data)) else Panic.

Fixpoint uint32s_loop (n : nat) (i : Z) (data : bytes) : outcome (list Z) :=
  match n with
  | O => Ok []
  | S n =>
      val ← slice data (i * 4 + 4) ((i + 1) * 4 + 4);
      x ← bytesToUint32 val;
      rest ← uint32s_loop n (i + 1) data;
      Ok (x :: rest)
  end.
Definition bytesToUint32Array (data : bytes) : outcome (list Z) :=
  len ← bytesToUint32 data;
  uint32s_loop (Z.to_nat len) 0 data.

Record RevertInfo := mkRevertInfo { ri_WorkingHeight : Z; ri_Mode : byte }.
#[global] Instance RevertInfo_eq_dec : EqDecision RevertInfo.
Proof. solve_decision. Defined.

(** [WriteByte] and [ReadByte] of Go's buffers. *)
Definition WriteByte (b : byte) : Writer := λ buf, (Ok (), buf ++ [b]).
Definition ReadByte : Reader byte := λ r,
  match r with [] => (Err EOF, []) | b :: r => (Ok b, r) end.

Section encodings.
Context `{E : ElaCommon}.

Definition revertInfoArrayToBytes (data : list RevertInfo) : outcome bytes :=
  let '(o, w) :=
    (WriteVarUint (Z.of_nat (length data)) ≫= λ _,
     forM data (λ r, wr Uint32C (ri_WorkingHeight r) ≫= λ _, WriteByte (ri_Mode r))) [] in
  (λ _, w) <$> o.

Definition bytesToRevertInfoArray (data : bytes) : outcome (list RevertInfo) :=
  ((count ← ReadVarUint 0;
    readN (Z.to_nat count)
      (workingHeight ← rd Uint32C; mode ← ReadByte; mret (mkRevertInfo workingHeight mode))) data).1.

(** [bytes.Compare(a, b) < 0] *)
Fixpoint bytes_ltb (a b : bytes) : bool :=
  match a, b with
  | _, [] => false
  | [], _ :: _ => true
  | x :: a, y :: b => (Z_of_byte x <? Z_of_byte y) || (Z_of_byte x =? Z_of_byte y) && bytes_ltb a b
  end.
Definition bytes_le (a b : bytes) : Prop := bytes_ltb b a = false.
#[global] Instance bytes_le_dec : RelDecision bytes_le.
Proof. intros a b. unfold bytes_le. apply _. Defined.

(** [sort.Slice] by [bytes.Compare]. *)
Definition sort_keys (l : list bytes) : list bytes := merge_sort bytes_le l.

(** A write whose error is dropped. *)
Definition dropErr (m : Writer) : Writer := λ buf, (Ok (), (m buf).2).

Definition getValueBytes (crc nor : list bytes) : bytes :=
  let crc := sort_keys crc in
  let nor := sort_keys nor in
  ((dropErr (wr Uint8C (u8 (Z.of_nat (length crc)))) ≫= λ _,
    forM crc (λ v, dropErr (WriteVarBytes v)) ≫= λ _,
    dropErr (wr Uint8C (u8 (Z.of_nat (length nor)))) ≫= λ _,
    forM nor (λ v, dropErr (WriteVarBytes v))) []).2.

Definition readArbiters : Reader (list bytes * list bytes) :=
  crcCount ← rd Uint8C;
  crc ← readN (Z.to_nat crcCount) (ReadVarBytes 33);
  normalCount ← rd Uint8C;
  nor ← readN (Z.to_nat normalCount) (ReadVarBytes 33);
  mret (crc, nor).
End encodings.

Definition getIndex (data : Z) : bytes := toKey BKTArbiters (le_bytes 4 data).
Definition arbKey (height : Z) : bytes := toKey BKTArbitersData (getIndex height).

Definition findSlot_scan (height : Z) : list Z → Z :=
  fix go (rev_pos : list Z) : Z :=
    match rev_pos with
    | [] => 0
    | p :: rest => if p <? height then p else go rest
    end.
Definition findSlot (pos : list Z) (height arbitersCount : Z) : outcome Z :=
  match last pos with
  | None => Err (ErrStr "invalid height")
  | Some p =>
      if u32 (p + u32 arbitersCount) <? height then Err (ErrStr "invalid height")
      else Ok (findSlot_scan height (reverse pos))
  end.

(** ** The table *)
Record arbiters (DB : Type) := mkArbiters {
  ar_db : DB;
  ar_b : batch;
  posCache : list Z;
  revertPOSCache : list RevertInfo;
  ar_cache : gmap Uint256 Z;
  originArbiters : list bytes;
  arbitersCount : Z;
}.
Arguments mkArbiters {DB}.
Arguments ar_db {DB}.
Arguments ar_b {DB}.
Arguments posCache {DB}.
Arguments revertPOSCache {DB}.
Arguments ar_cache {DB}.
Arguments originArbiters {DB}.
Arguments arbitersCount {DB}.

Section arbiters.
Context {DB} `{!LevelDB DB} `{E : ElaCommon} `{!Sha} `{!Uint256Bytes}.
Notation Ar := (arbiters DB).
Notation St := (arbiters DB * batch)%type.

Definition NewArbiters (db : DB) (originArbiters : list bytes) (arbitersCount : Z) : Ar :=
  mkArbiters db [] [] [] ∅ originArbiters arbitersCount.

Definition ar_set_db (db : DB) (c : Ar) : Ar :=
  mkArbiters db (ar_b c) (posCache c) (revertPOSCache c) (ar_cache c) (originArbiters c) (arbitersCount c).
Definition ar_set_b (b : batch) (c : Ar) : Ar :=
  mkArbiters (ar_db c) b (posCache c) (revertPOSCache c) (ar_cache c) (originArbiters c) (arbitersCount c).
Definition set_posCache (pos : list Z) (c : Ar) : Ar :=
  mkArbiters (ar_db c) (ar_b c) pos (revertPOSCache c) (ar_cache c) (originArbiters c) (arbitersCount c).
Definition set_revertPOSCache (pos : list RevertInfo) (c : Ar) : Ar :=
  mkArbiters (ar_db c) (ar_b c) (posCache c) pos (ar_cache c) (originArbiters c) (arbitersCount c).
Definition cache_height (key : Uint256) (height : Z) (c : Ar) : Ar :=
  mkArbiters (ar_db c) (ar_b c) (posCache c) (revertPOSCache c) (<[key := height]> (ar_cache c))
    (originArbiters c) (arbitersCount c).

Definition ar_onDB {A} (m : GoM DB A) : GoM Ar A := zoom ar_db ar_set_db m.
Definition onAr {A} (m : GoM Ar A) : GoM St A := zoom fst (λ c s, (c, s.2)) m.
Definition ar_record (ops : batch) : GoM St unit := modify (λ s, (s.1, s.2 ++ ops)).

Definition getCurrentPosition : GoM Ar Z :=
  pos ← try (ar_onDB (dbGet BKTArbPosition));
  match pos with inr pos => lift (bytesToUint32 pos) | inl _ => mret 0 end.
Definition getCurrentPositions : GoM Ar (list Z) :=
  pos ← try (ar_onDB (dbGet BKTArbPositions));
  match pos with inr pos => lift (bytesToUint32Array pos) | inl _ => mret [] end.
Definition getCurrentRevertPosition : GoM Ar Z :=
  pos ← try (ar_onDB (dbGet BKTRevertPosition));
  match pos with inr pos => lift (bytesToUint32 pos) | inl _ => mret 0 end.
Definition getCurrentRevertPositions : GoM Ar (list RevertInfo) :=
  pos ← ar_onDB (dbGet BKTRevertPositions);
  lift (bytesToRevertInfoArray pos).

Definition batchPut (height : Z) (crcArbiters normalArbiters : list bytes) : GoM St unit :=
  ar_record [BPut BKTArbPosition (uint32toBytes height)] ≫= λ _,
  pos ← onAr getCurrentPositions;
  let newPosCache := filter (λ p, p < height) pos ++ [height] in
  onAr (modify (set_posCache newPosCache)) ≫= λ _,
  ar_record [BPut BKTArbPositions (uint32ArrayToBytes newPosCache)] ≫= λ _,
  let data := getValueBytes crcArbiters normalArbiters in
  let hash := Sum256 data in
  key ← lift (Uint256FromBytes (arr_bytes hash));
  c ← onAr getS;
  match ar_cache c !! key with
  | Some val => ar_record [BPut (arbKey height) (uint32toBytes val)]
  | None =>
      existHeight ← try (onAr (ar_onDB (dbGet (toKey BKTTransactionHeight (arr_bytes hash)))));
      match existHeight with
      | inr existHeight =>
          h ← lift (bytesToUint32 existHeight);
          onAr (modify (cache_height key h)) ≫= λ _,
          ar_record [BPut (arbKey height) existHeight]
      | inl err =>
          if decide (err = ErrNotFound) then
            onAr (modify (cache_height key height)) ≫= λ _,
            ar_record [BPut (arbKey height) data] ≫= λ _,
            ar_record [BPut (toKey BKTTransactionHeight (arr_bytes hash)) (uint32toBytes height)]
          else throw err
      end
  end.
Definition arbiters_BatchPut := batchPut.

(** [Put] records in [c.b], which nothing empties, and drops the error of the
    write. *)
Definition arbiters_Put (height : Z) (crcArbiters normalArbiters : list bytes) : GoM Ar unit :=
  (λ c, let '(o, (c', b)) := batchPut height crcArbiters normalArbiters (c, ar_b c) in (o, ar_set_b b c')) ≫= λ _,
  c ← getS;
  _ ← try (ar_onDB (dbWrite (ar_b c)));
  mret ().

Definition arbiters_get (height : Z) : GoM Ar (list bytes * list bytes) :=
  val ← ar_onDB (dbGet (arbKey height));
  val ← (if decide (length val = 4%nat) then
           h ← lift (bytesToUint32 val);
           ar_onDB (dbGet (arbKey h))
         else mret val);
  lift (readArbiters val).1.

Definition arbiters_GetByHeight (height : Z) : GoM Ar (list bytes * list bytes) :=
  c ← getS;
  pos ← (match posCache c with
         | [] => pos ← getCurrentPositions; modify (set_posCache pos) ≫= λ _, mret pos
         | pos => mret pos
         end);
  slot ← lift (findSlot pos height (arbitersCount c));
  if slot =? 0 then mret (originArbiters c, []) else arbiters_get slot.

Definition arbiters_Get : GoM Ar (list bytes * list bytes) :=
  height ← getCurrentPosition;
  arbiters_GetByHeight height.

Definition arbiters_GetNext : GoM Ar (Z * (list bytes * list bytes)) :=
  workingHeight ← getCurrentPosition;
  r ← arbiters_get workingHeight;
  mret (workingHeight, r).

Definition arbiters_Clear : GoM Ar unit :=
  entries ← ar_onDB (dbIterate BKTArbiters);
  modify (λ c, ar_set_b (ar_b c ++ deleteKeys entries ++ [BDelete BKTArbPosition]) c) ≫= λ _,
  c ← getS;
  ar_onDB (dbWrite (ar_b c)).

Definition arbiters_Commit : GoM Ar unit := c ← getS; ar_onDB (dbWrite (ar_b c)).
Definition arbiters_Rollback : GoM Ar unit := modify (ar_set_b []).
Definition arbiters_CommitBatch : GoM St unit := s ← getS; onAr (ar_onDB (dbWrite s.2)).
Definition arbiters_RollbackBatch : GoM St unit := modify (λ s, (s.1, [])).

(** The list of revert heights, read on first use; [None] when the database
    fails with something else than a missing key. *)
Definition revertPositions : GoM Ar (goerr + list RevertInfo) :=
  c ← getS;
  match revertPOSCache c with
  | [] =>
      pos ← try getCurrentRevertPositions;
      match pos with
      | inl err =>
          if decide (err = ErrNotFound) then modify (set_revertPOSCache []) ≫= λ _, mret (inr [])
          else mret (inl err)
      | inr pos => modify (set_revertPOSCache pos) ≫= λ _, mret (inr pos)
      end
  | pos => mret (inr pos)
  end.

Definition GetRevertInfo : GoM Ar (list RevertInfo) :=
  pos ← revertPositions;
  mret (match pos with inl _ => [] | inr pos => pos end).

Fixpoint modeAt (height : Z) (pos : list RevertInfo) (mode : byte) : byte :=
  match pos with
  | [] => mode
  | p :: pos => if height <? ri_WorkingHeight p then mode else modeAt height pos (ri_Mode p)
  end.
Definition GetConsensusAlgorithmByHeight (height : Z) : GoM Ar byte :=
  pos ← revertPositions;
  match pos with inl err => throw err | inr pos => mret (modeAt height pos x00) end.

Definition BatchPutRevertTransaction (workingHeight : Z) (mode : byte) : GoM St unit :=
  pos ← onAr getCurrentRevertPosition;
  let isRollback := workingHeight <=? pos in
  ar_record [BPut BKTRevertPosition (uint32toBytes workingHeight)] ≫= λ _,
  if isRollback then mret ()
  else
    pos ← try (onAr getCurrentRevertPositions);
    pos ← (match pos with
           | inr pos => mret pos
           | inl err => if decide (err = ErrNotFound) then mret [] else throw err
           end);
    let newPosCache := filter (λ p, ri_WorkingHeight p < workingHeight) pos
                         ++ [mkRevertInfo workingHeight mode] in
    onAr (modify (set_revertPOSCache newPosCache)) ≫= λ _,
    data ← lift (revertInfoArrayToBytes newPosCache);
    ar_record [BPut BKTRevertPositions data].
End arbiters.
