(* ===== verification/ArbitersSpec.v ===== *)
(** * What the arbiters table answers

    The encodings read back; a set of arbiters put at a height no set is stored
    under is what [GetByHeight] answers for the turn after that height; putting
    the same set twice at one height loses it; the consensus mode of a height. *)
From S2P Require Export Arbiters.
#[local] Open Scope Z_scope.

(** ** Encodings *)
Lemma uint32toBytes_length z : length (uint32toBytes z) = 4%nat.
Proof. apply le_bytes_length. Qed.
Lemma bytesToUint32_bytes z (rest : bytes) : fits 32 z → bytesToUint32 (uint32toBytes z ++ rest) = Ok z.
Proof.
  intros Hz. unfold bytesToUint32. rewrite decide_True by (rewrite length_app, uint32toBytes_length; lia).
  rewrite take_app_length' by (by rewrite uint32toBytes_length). unfold uint32toBytes. by rewrite le_value_fits32.
Qed.
Lemma bytesToUint32_bytes_nil z : fits 32 z → bytesToUint32 (uint32toBytes z) = Ok z.
Proof. intros Hz. rewrite <-(app_nil_r (uint32toBytes z)). by apply bytesToUint32_bytes. Qed.

Lemma uint32s_bytes_length (l : list Z) : length (l ≫= uint32toBytes) = (4 * length l)%nat.
Proof.
  induction l as [|x l IH]; [done|]. rewrite bind_cons, length_app, uint32toBytes_length, IH. cbn [length]. lia.
Qed.
Lemma uint32s_loop_bytes n i (front l : list Z) (hd : bytes) :
  length hd = 4%nat → Forall (fits 32) l → n = length l → i = Z.of_nat (length front) →
  uint32s_loop n i (hd ++ ((front ++ l) ≫= uint32toBytes)) = Ok l.
Proof.
  intros Hhd. revert i front n. induction l as [|x l IH]; intros i front n Hl Hn Hi; subst n; [done|].
  apply Forall_cons in Hl as [Hx Hl]. cbn [uint32s_loop length].
  assert (Hs : slice (hd ++ ((front ++ x :: l) ≫= uint32toBytes)) (i * 4 + 4) ((i + 1) * 4 + 4) = Ok (uint32toBytes x)).
  { unfold slice. rewrite decide_True.
    2: { rewrite length_app, uint32s_bytes_length, length_app. cbn [length]. lia. }
    f_equal. rewrite bind_app, bind_cons, app_assoc.
    assert (HF : length (hd ++ (front ≫= uint32toBytes)) = Z.to_nat (i * 4 + 4))
      by (rewrite length_app, uint32s_bytes_length; lia).
    rewrite drop_app_length' by done. apply take_app_length'. rewrite uint32toBytes_length. lia. }
  rewrite Hs. cbn [mbind outcome_bind]. rewrite bytesToUint32_bytes_nil by done. cbn [mbind outcome_bind].
  replace (front ++ x :: l) with ((front ++ [x]) ++ l) by (by rewrite <-app_assoc).
  rewrite IH; [done|done|done|rewrite length_app; cbn [length]; lia].
Qed.
Lemma uint32Array_roundtrip (l : list Z) :
  Forall (fits 32) l → Z.of_nat (length l) < 2 ^ 32 → bytesToUint32Array (uint32ArrayToBytes l) = Ok l.
Proof.
  intros Hl Hlen. unfold bytesToUint32Array, uint32ArrayToBytes.
  rewrite u32_small by (unfold fits; lia). change (le_bytes 4) with uint32toBytes.
  rewrite bytesToUint32_bytes by (unfold fits; lia). cbn [mbind outcome_bind]. rewrite Nat2Z.id.
  by apply (uint32s_loop_bytes _ 0 [] l); [apply uint32toBytes_length|..].
Qed.

Lemma arbKey_length z : length (arbKey z) = 19%nat.
Proof. unfold arbKey, getIndex, toKey. by rewrite !length_app, le_bytes_length. Qed.
Lemma arbKey_inj z1 z2 : fits 32 z1 → fits 32 z2 → arbKey z1 = arbKey z2 → z1 = z2.
Proof. intros H1 H2 Hk%app_inv_head%app_inv_head. by apply le_bytes_inj in Hk. Qed.
Definition thKey (hash : Uint256) : bytes := toKey BKTTransactionHeight (arr_bytes hash).
Lemma thKey_length k : length (thKey k) = 40%nat.
Proof. unfold thKey, toKey. by rewrite length_app, arr_length. Qed.
Lemma thKey_inj k1 k2 : thKey k1 = thKey k2 → k1 = k2.
Proof. intros Hk%app_inv_head. by apply array_eq. Qed.
Lemma arbKey_thKey z k : arbKey z ≠ thKey k.
Proof. intros Hk%(f_equal length). by rewrite arbKey_length, thKey_length in Hk. Qed.

Section values.
Context `{E : ElaCommon} `{!ElaCommonLaws E}.

(** At most 255 public keys of at most 33 bytes. *)
Definition keys_wf (l : list bytes) : Prop :=
  Z.of_nat (length l) < 2 ^ 8 ∧ Forall (λ k, Z.of_nat (length k) ≤ 33) l.

Lemma sort_keys_wf l : keys_wf l → keys_wf (sort_keys l).
Proof.
  intros [Hl Hf]. unfold sort_keys, keys_wf.
  by rewrite (merge_sort_Permutation bytes_le l).
Qed.

Lemma dropErr_writes m bs : writes m bs → writes (dropErr m) bs.
Proof. intros Hm buf. unfold dropErr. by rewrite Hm. Qed.

Lemma keys_ok l : keys_wf l → ∃ bs : bytes,
  writes (forM l (λ v, dropErr (WriteVarBytes v))) bs ∧ reads (readN (length l) (ReadVarBytes 33)) bs l.
Proof.
  intros [_ Hl]. induction Hl as [|v l Hv _ (bs & Hw & Hr)].
  - exists []. split; [apply writes_ret|apply reads_ret].
  - assert (H33 : fits 32 33) by (unfold fits; lia). destruct (VarBytes_ok 33 H33 v Hv) as (b & Hwb & Hrb).
    exists (b ++ bs). split.
    + cbn [forM]. apply writes_bind; [by apply dropErr_writes|done].
    + cbn [length readN]. eapply reads_bind; [exact Hrb|]. eapply reads_bind_nil; [exact Hr|apply reads_ret].
Qed.
Lemma keys_section_ok l : keys_wf l → ∃ bs : bytes,
  writes (dropErr (wr Uint8C (u8 (Z.of_nat (length l)))) ≫= λ _, forM l (λ v, dropErr (WriteVarBytes v))) bs ∧
  reads (n ← rd Uint8C; readN (Z.to_nat n) (ReadVarBytes 33)) bs l.
Proof.
  intros Hl. destruct (keys_ok l Hl) as (bs & Hw & Hr). destruct Hl as [Hl _].
  assert (Hu : u8 (Z.of_nat (length l)) = Z.of_nat (length l)) by (unfold u8; apply Z.mod_small; lia).
  destruct (Uint8C_ok (Z.of_nat (length l))) as (b & Hwb & Hrb); [unfold fits; lia|].
  exists (b ++ bs). rewrite Hu. split; [apply writes_bind; [by apply dropErr_writes|done]|].
  eapply reads_bind; [exact Hrb|]. by rewrite Nat2Z.id.
Qed.

Lemma getValueBytes_read crc nor : keys_wf crc → keys_wf nor →
  (readArbiters (getValueBytes crc nor)).1 = Ok (sort_keys crc, sort_keys nor).
Proof.
  intros (b1 & Hw1 & Hr1)%sort_keys_wf%keys_section_ok (b2 & Hw2 & Hr2)%sort_keys_wf%keys_section_ok.
  assert (Hv : getValueBytes crc nor = b1 ++ b2).
  { unfold getValueBytes. cbv zeta.
    pose proof (writes_bind _ (λ _, dropErr (wr Uint8C (u8 (Z.of_nat (length (sort_keys nor))))) ≫= λ _,
      forM (sort_keys nor) (λ v, dropErr (WriteVarBytes v))) b1 b2 Hw1 Hw2 []) as Hw. cbn [app] in Hw.
    assert (Hass : ∀ (m1 m2 m3 : Writer) buf,
      ((m1 ≫= λ _, m2) ≫= λ _, m3) buf = (m1 ≫= λ _, m2 ≫= λ _, m3) buf).
    { intros m1 m2 m3 buf. unfold mbind, GoM_bind. by destruct (m1 buf) as [[[]|e|] buf']. }
    rewrite Hass in Hw. by rewrite Hw. }
  rewrite Hv. assert (Hr : reads readArbiters (b1 ++ b2) (sort_keys crc, sort_keys nor)).
  { intros rest. unfold readArbiters. specialize (Hr1 (b2 ++ rest)). specialize (Hr2 rest).
    rewrite <-app_assoc. unfold mbind, GoM_bind in *.
    destruct (rd Uint8C (b1 ++ b2 ++ rest)) as [[n|e|] r]; [|done..].
    destruct (readN (Z.to_nat n) (ReadVarBytes 33) r) as [[l|e|] r']; simplify_eq.
    destruct (rd Uint8C (b2 ++ rest)) as [[n'|e|] r'']; [|done..].
    destruct (readN (Z.to_nat n') (ReadVarBytes 33) r'') as [[l'|e|] r3]; simplify_eq. done. }
  specialize (Hr []). rewrite app_nil_r in Hr. by rewrite Hr.
Qed.
End values.

(** ** The table *)
Section spec.
Context {DB} `{!LevelDB DB} `{!LevelDBLaws DB} `{E : ElaCommon} `{!ElaCommonLaws E} `{!Sha}
  `{!Uint256Bytes} `{!Uint256BytesLaws}.
Notation Ar := (arbiters DB).
Notation view c := (db_view (ar_db c)).

(** The working heights on disk. *)
Definition positions (m : gmap bytes bytes) : list Z :=
  match m !! BKTArbPositions with
  | Some v => match bytesToUint32Array v with Ok ps => ps | _ => [] end
  | None => []
  end.

(** The height kept under a hash has the set of that hash in full; a short entry
    is such a height; the caches agree with the disk. *)
Record arb_ok (c : Ar) : Prop := {
  ao_hash : ∀ k v, view c !! thKey k = Some v → ∃ h d, v = uint32toBytes h ∧ fits 32 h ∧
    view c !! arbKey h = Some d ∧ length d ≠ 4%nat ∧ Sum256 d = k;
  ao_cache : ∀ k h, ar_cache c !! k = Some h → view c !! thKey k = Some (uint32toBytes h) ∧ fits 32 h;
  ao_ref : ∀ h v, fits 32 h → view c !! arbKey h = Some v → length v = 4%nat → ∃ k, view c !! thKey k = Some v;
  ao_pos : ∀ v, view c !! BKTArbPositions = Some v → ∃ ps, v = uint32ArrayToBytes ps ∧
    Forall (fits 32) ps ∧ Z.of_nat (length ps) < 2 ^ 32;
  ao_posCache : posCache c = [] ∨ posCache c = positions (view c);
}.

(** No set is kept at height [h] for later heights to refer to. *)
Definition fresh (c : Ar) (h : Z) : Prop := ∀ k, view c !! thKey k ≠ Some (uint32toBytes h).

(** The bytes [get] parses for a height. *)
Definition resolve (m : gmap bytes bytes) (h : Z) : option bytes :=
  v ← m !! arbKey h;
  if decide (length v = 4%nat) then m !! arbKey (le_value v) else Some v.

Lemma ar_onDB_read {A} (m : GoM DB A) (c : Ar) o : m (ar_db c) = (o, ar_db c) → ar_onDB m c = (o, c).
Proof. intros Hm. unfold ar_onDB, zoom. rewrite Hm. by destruct c. Qed.
Lemma ar_get_key (c : Ar) k :
  ar_onDB (dbGet k) c = (match view c !! k with Some v => Ok v | None => Err ErrNotFound end, c).
Proof. apply ar_onDB_read, dbGet_view. Qed.

Lemma arbiters_get_resolve (c : Ar) h d : resolve (view c) h = Some d →
  arbiters_get h c = ((readArbiters d).1, c).
Proof.
  unfold resolve, arbiters_get. intros Hr. pose proof (ar_get_key c (arbKey h)) as Hg.
  destruct (view c !! arbKey h) as [v|] eqn:Hv; [|done]. cbn [mbind option_bind] in Hr.
  rewrite (bind_run _ _ _ _ _ Hg). case_decide as Hl.
  - rewrite (bind_run _ _ c d c); [done|]. rewrite (bind_run (lift _) _ c (le_value v) c).
    + by rewrite ar_get_key, Hr.
    + unfold bytesToUint32. rewrite decide_True by lia. by rewrite take_ge by lia.
  - injection Hr as ->. by rewrite (bind_run _ _ c d c).
Qed.

Lemma positions_view (c : Ar) : arb_ok c → getCurrentPositions c = (Ok (positions (view c)), c).
Proof.
  intros Hok. unfold getCurrentPositions, positions. pose proof (ar_get_key c BKTArbPositions) as Hg.
  destruct (view c !! BKTArbPositions) as [v|] eqn:Hv.
  - rewrite (bind_run _ _ _ _ _ (try_run _ _ _ _ Hg)). destruct (ao_pos c Hok v Hv) as (ps & -> & Hf & Hl).
    unfold lift. by rewrite uint32Array_roundtrip.
  - by rewrite (bind_run _ _ _ _ _ (try_run_err _ _ _ _ Hg)).
Qed.
Lemma positions_fits (c : Ar) : arb_ok c → Forall (fits 32) (positions (view c)).
Proof.
  intros Hok. unfold positions. destruct (view c !! BKTArbPositions) as [v|] eqn:Hv; [|constructor].
  destruct (ao_pos c Hok v Hv) as (ps & -> & Hf & Hl). by rewrite uint32Array_roundtrip.
Qed.

(** The working heights after one is put. *)
Definition put_position (h : Z) (ps : list Z) : list Z := filter (λ p, p < h) ps ++ [h].

(** The entries a put writes for the set itself: in full with its hash, or as
    the height that has it. *)
Definition set_ops (m : gmap bytes bytes) (h : Z) (data : bytes) : batch :=
  match m !! thKey (Sum256 data) with
  | Some v => [BPut (arbKey h) v]
  | None => [BPut (arbKey h) data; BPut (thKey (Sum256 data)) (uint32toBytes h)]
  end.
Definition put_ops (m : gmap bytes bytes) (h : Z) (data : bytes) : batch :=
  [BPut BKTArbPosition (uint32toBytes h); BPut BKTArbPositions (uint32ArrayToBytes (put_position h (positions m)))]
  ++ set_ops m h data.

Definition hash_height (m : gmap bytes bytes) (h : Z) (k : Uint256) : Z :=
  match m !! thKey k with Some v => le_value v | None => h end.

Lemma batchPut_run (c : Ar) b h crc nor : arb_ok c → fits 32 h →
  ∃ cache', batchPut h crc nor (c, b) =
    (Ok (), (mkArbiters (ar_db c) (ar_b c) (put_position h (positions (view c))) (revertPOSCache c) cache'
               (originArbiters c) (arbitersCount c),
             b ++ put_ops (view c) h (getValueBytes crc nor))) ∧
    cache' = <[Sum256 (getValueBytes crc nor) :=
                 hash_height (view c) h (Sum256 (getValueBytes crc nor))]> (ar_cache c).
Proof.
  intros Hok Hh. set (data := getValueBytes crc nor). set (k := Sum256 data).
  eexists. split; [|reflexivity]. unfold batchPut. fold data. fold k.
  set (b1 := b ++ [BPut BKTArbPosition (uint32toBytes h)]).
  set (np := put_position h (positions (view c))).
  set (b2 := b1 ++ [BPut BKTArbPositions (uint32ArrayToBytes np)]).
  set (c1 := set_posCache np c).
  rewrite (bind_run (ar_record _) _ (c, b) () (c, b1)) by done.
  rewrite (bind_run (onAr getCurrentPositions) _ (c, b1) (positions (view c)) (c, b1)).
  2: { unfold onAr, zoom. cbn [fst]. by rewrite positions_view. }
  cbv zeta. fold (put_position h (positions (view c))). fold np.
  rewrite (bind_run (onAr (modify _)) _ (c, b1) () (c1, b1)) by done.
  rewrite (bind_run (ar_record _) _ (c1, b1) () (c1, b2)) by done.
  rewrite Uint256FromBytes_Bytes. rewrite (bind_run (lift (Ok k)) _ (c1, b2) k (c1, b2)) by done.
  rewrite (bind_run (onAr getS) _ (c1, b2) c1 (c1, b2)) by done.
  assert (Hb : ∀ l, b2 ++ l = b ++ [BPut BKTArbPosition (uint32toBytes h); BPut BKTArbPositions (uint32ArrayToBytes np)] ++ l).
  { intros l. unfold b2, b1. by rewrite <-!app_assoc. }
  change (ar_cache c1) with (ar_cache c). unfold put_ops, set_ops, hash_height. fold k np.
  destruct (ar_cache c !! k) as [val|] eqn:Hc.
  - destruct (ao_cache c Hok k val Hc) as [Hk Hval]. rewrite Hk. unfold ar_record, modify. cbn [fst snd].
    rewrite Hb. f_equal. f_equal. unfold c1, set_posCache. f_equal. symmetry.
    unfold uint32toBytes. rewrite le_value_fits32 by done. by apply insert_id.
  - pose proof (ar_get_key c1 (thKey k)) as Hg. change (view c1) with (view c) in Hg.
    assert (Hg' : onAr (ar_onDB (dbGet (thKey k))) (c1, b2) =
      (match view c !! thKey k with Some v => Ok v | None => Err ErrNotFound end, (c1, b2))).
    { unfold onAr, zoom. cbn [fst snd]. by rewrite Hg. }
    destruct (view c !! thKey k) as [v|] eqn:Hv.
    + rewrite (bind_run _ _ _ _ _ (try_run _ _ _ _ Hg')).
      destruct (ao_hash c Hok k v Hv) as (h0 & d & -> & Hh0 & _).
      rewrite bytesToUint32_bytes_nil by done.
      rewrite (bind_run (lift (Ok h0)) _ (c1, b2) h0 (c1, b2)) by done.
      unfold uint32toBytes at 3. rewrite le_value_fits32 by done.
      rewrite (bind_run (onAr (modify _)) _ (c1, b2) () (cache_height k h0 c1, b2)) by done.
      unfold ar_record, modify. cbn [fst snd]. by rewrite Hb.
    + rewrite (bind_run _ _ _ _ _ (try_run_err _ _ _ _ Hg')). rewrite decide_True by done.
      rewrite (bind_run (onAr (modify _)) _ (c1, b2) () (cache_height k h c1, b2)) by done.
      rewrite (bind_run (ar_record _) _ _ () (cache_height k h c1, b2 ++ [BPut (arbKey h) data])) by done.
      unfold ar_record, modify. cbn [fst snd]. by rewrite <-app_assoc, Hb.
Qed.

Lemma put_ops_view m h data : fits 32 h →
  (∀ k, apply_batch (put_ops m h data) m !! thKey k =
     if decide (k = Sum256 data ∧ m !! thKey k = None) then Some (uint32toBytes h) else m !! thKey k) ∧
  (∀ h', fits 32 h' → apply_batch (put_ops m h data) m !! arbKey h' =
     if decide (h' = h) then Some (default data (m !! thKey (Sum256 data))) else m !! arbKey h') ∧
  apply_batch (put_ops m h data) m !! BKTArbPositions =
    Some (uint32ArrayToBytes (put_position h (positions m))).
Proof.
  intros Hh. unfold put_ops, set_ops.
  assert (Hth : ∀ k x, thKey k = x → length x = 40%nat) by (intros k x <-; apply thKey_length).
  assert (Har : ∀ z x, arbKey z = x → length x = 19%nat) by (intros z x <-; apply arbKey_length).
  destruct (m !! thKey (Sum256 data)) as [v|] eqn:Hv; cbn [app apply_batch foldl apply_op default]; split_and!.
  - intros k. rewrite decide_False by (intros [-> ?]; congruence).
    rewrite !lookup_insert_ne; [done|..]; intros Heq; symmetry in Heq; apply Hth in Heq;
      rewrite ?arbKey_length in Heq; discriminate.
  - intros h' Hh'. case_decide as Hd; [subst; apply lookup_insert_eq|].
    rewrite lookup_insert_ne by (intros Heq%arbKey_inj; congruence).
    rewrite !lookup_insert_ne; [done|..]; intros Heq; symmetry in Heq; apply Har in Heq; discriminate.
  - rewrite lookup_insert_ne by (intros Heq%Har; discriminate). apply lookup_insert_eq.
  - intros k. destruct (decide (k = Sum256 data)) as [->|Hne].
    + rewrite decide_True by done. apply lookup_insert_eq.
    + rewrite decide_False by (intros []; congruence).
      rewrite lookup_insert_ne by (intros Heq%thKey_inj; congruence).
      rewrite !lookup_insert_ne; [done|..]; intros Heq; symmetry in Heq; apply Hth in Heq;
        rewrite ?arbKey_length in Heq; discriminate.
  - intros h' Hh'. rewrite lookup_insert_ne by (apply not_eq_sym, arbKey_thKey).
    case_decide as Hd; [subst; apply lookup_insert_eq|].
    rewrite lookup_insert_ne by (intros Heq%arbKey_inj; congruence).
    rewrite !lookup_insert_ne; [done|..]; intros Heq; symmetry in Heq; apply Har in Heq; discriminate.
  - rewrite !lookup_insert_ne by (intros Heq; first [apply Har in Heq | apply Hth in Heq]; discriminate).
    apply lookup_insert_eq.
Qed.

Lemma put_position_fits h ps : fits 32 h → Forall (fits 32) ps → Forall (fits 32) (put_position h ps).
Proof.
  intros Hh Hps. unfold put_position. apply Forall_app. split; [|by constructor].
  apply Forall_forall. intros x [_ Hx]%list_elem_of_filter. by eapply Forall_forall in Hx.
Qed.
Lemma put_position_length h ps : (length (put_position h ps) ≤ length ps + 1)%nat.
Proof. unfold put_position. rewrite length_app. cbn. pose proof (length_filter (λ p, p < h) ps). lia. Qed.

(** Committing a put at a fresh height keeps the table consistent. *)
Lemma put_ok (c : Ar) h data db' :
  arb_ok c → fits 32 h → fresh c h → length data ≠ 4%nat →
  Z.of_nat (length (positions (view c))) < 2 ^ 32 - 1 →
  db_view db' = apply_batch (put_ops (view c) h data) (view c) →
  arb_ok (mkArbiters db' (ar_b c) (put_position h (positions (view c))) (revertPOSCache c)
    (<[Sum256 data := hash_height (view c) h (Sum256 data)]> (ar_cache c)) (originArbiters c) (arbitersCount c)).
Proof.
  intros Hok Hh Hfr Hl Hps Hv. destruct (put_ops_view (view c) h data Hh) as (Ht & Ha & Hp).
  rewrite <-Hv in Ht, Ha, Hp. clear Hv.
  assert (Hposf := put_position_fits h _ Hh (positions_fits c Hok)).
  assert (Hposl := put_position_length h (positions (view c))).
  split; cbn [ar_db ar_cache posCache].
  - intros k v. rewrite Ht. case_decide as Hd.
    + intros [= <-]. destruct Hd as [-> Hn]. exists h, data. rewrite Ha, decide_True, Hn by done. done.
    + intros Hk. destruct (ao_hash c Hok k v Hk) as (h0 & d & -> & Hh0 & Hd0 & Hl0 & Hs0).
      exists h0, d. rewrite Ha by done. rewrite decide_False; [done|]. intros ->. by apply (Hfr k).
  - intros k h0 [[<- <-]|[Hne Hk]]%lookup_insert_Some; unfold hash_height.
    + rewrite Ht. destruct (view c !! thKey (Sum256 data)) as [v|] eqn:Hv.
      * rewrite decide_False by naive_solver. destruct (ao_hash c Hok _ v Hv) as (h1 & d & -> & Hh1 & _).
        unfold uint32toBytes. by rewrite le_value_fits32 by done.
      * by rewrite decide_True.
    + rewrite Ht, decide_False by naive_solver. by apply (ao_cache c Hok).
  - intros h0 v Hh0. rewrite Ha by done. case_decide as Hd.
    + intros [= <-] Hl4. destruct (view c !! thKey (Sum256 data)) as [v|] eqn:Hv; [|done].
      exists (Sum256 data). rewrite Ht, decide_False by naive_solver. done.
    + intros Hk Hl4. destruct (ao_ref c Hok h0 v Hh0 Hk Hl4) as (k & Hv). exists k.
      rewrite Ht, decide_False by naive_solver. done.
  - intros v. rewrite Hp. intros [= <-]. eexists. split_and!; [done..|lia].
  - right. unfold positions at 2. rewrite Hp, uint32Array_roundtrip; [done|done|lia].
Qed.

(** What every height resolves to after the put. *)
Lemma put_resolve (c : Ar) h data :
  arb_ok c → fits 32 h → fresh c h → length data ≠ 4%nat →
  (∃ d, Sum256 d = Sum256 data ∧ resolve (apply_batch (put_ops (view c) h data) (view c)) h = Some d) ∧
  (∀ h', fits 32 h' → h' ≠ h →
    resolve (apply_batch (put_ops (view c) h data) (view c)) h' = resolve (view c) h').
Proof.
  intros Hok Hh Hfr Hl. destruct (put_ops_view (view c) h data Hh) as (_ & Ha & _).
  unfold resolve. split.
  - rewrite Ha, decide_True by done. cbn [mbind option_bind].
    destruct (view c !! thKey (Sum256 data)) as [v|] eqn:Hv; cbn [from_option id].
    + destruct (ao_hash c Hok _ v Hv) as (h1 & d & -> & Hh1 & Hd & Hld & Hs). exists d. split; [done|].
      rewrite decide_True by apply uint32toBytes_length.
      unfold uint32toBytes. rewrite le_value_fits32 by done. rewrite Ha by done. rewrite decide_False; [done|].
      intros ->. by apply (Hfr (Sum256 data)).
    + exists data. by rewrite decide_False.
  - intros h' Hh' Hne. rewrite Ha, decide_False by done.
    destruct (view c !! arbKey h') as [v|] eqn:Hv; [|done]. cbn [mbind option_bind].
    case_decide as Hlv; [|done]. destruct (ao_ref c Hok h' v Hh' Hv Hlv) as (k & Hk).
    destruct (ao_hash c Hok k v Hk) as (h1 & d & -> & Hh1 & _).
    unfold uint32toBytes. rewrite le_value_fits32 by done. rewrite Ha, decide_False; [done| |done].
    intros ->. by apply (Hfr k).
Qed.

Lemma arbiters_get_missing (c : Ar) h : resolve (view c) h = None → (arbiters_get h c).1 = Err ErrNotFound.
Proof.
  unfold resolve, arbiters_get. intros Hr. pose proof (ar_get_key c (arbKey h)) as Hg.
  destruct (view c !! arbKey h) as [v|] eqn:Hv; [|by rewrite (bind_run_err _ _ _ _ _ Hg)].
  cbn [mbind option_bind] in Hr. rewrite (bind_run _ _ _ _ _ Hg). case_decide as Hl; [|done].
  rewrite (bind_run_err _ _ c ErrNotFound c); [done|].
  rewrite (bind_run (lift _) _ c (le_value v) c); [by rewrite ar_get_key, Hr|].
  unfold bytesToUint32. rewrite decide_True by lia. by rewrite take_ge by lia.
Qed.
Lemma arbiters_get_same (c c' : Ar) h :
  resolve (view c) h = resolve (view c') h → (arbiters_get h c).1 = (arbiters_get h c').1.
Proof.
  intros Hr. destruct (resolve (view c') h) as [d|] eqn:Hr'.
  - by rewrite !(arbiters_get_resolve _ _ d).
  - by rewrite !arbiters_get_missing.
Qed.

(** The working height of the turn a height is in: the greatest one below it. *)
Lemma findSlot_put h ps height cnt : 0 ≤ cnt → h + cnt < 2 ^ 32 → fits 32 h → h < height ≤ h + cnt →
  findSlot (put_position h ps) height cnt = Ok h.
Proof.
  intros Hc Hb Hh Hr. unfold findSlot, put_position. rewrite last_snoc.
  rewrite (u32_small cnt) by (unfold fits in *; lia). rewrite u32_small by (unfold fits in *; lia).
  destruct (Z.ltb_spec (h + cnt) height); [lia|]. rewrite reverse_snoc. cbn [findSlot_scan].
  by destruct (Z.ltb_spec h height); [|lia].
Qed.

Lemma put_commit_run (c : Ar) h crc nor : arb_ok c → fits 32 h →
  ∃ c1 b c2, arbiters_BatchPut h crc nor (c, []) = (Ok (), (c1, b)) ∧
    arbiters_CommitBatch (c1, b) = (Ok (), (c2, b)) ∧
    view c2 = apply_batch (put_ops (view c) h (getValueBytes crc nor)) (view c) ∧
    arbitersCount c2 = arbitersCount c ∧ posCache c2 = put_position h (positions (view c)) ∧
    (fresh c h → length (getValueBytes crc nor) ≠ 4%nat →
     Z.of_nat (length (positions (view c))) < 2 ^ 32 - 1 → arb_ok c2).
Proof.
  intros Hok Hh. destruct (batchPut_run c [] h crc nor Hok Hh) as (cache' & Hrun & ->).
  set (data := getValueBytes crc nor) in *. cbn [app] in Hrun.
  destruct (dbWrite_view (ar_db c) (put_ops (view c) h data)) as (db' & Hw & Hv).
  eexists _, _, (mkArbiters db' (ar_b c) (put_position h (positions (view c))) (revertPOSCache c)
    (<[Sum256 data := hash_height (view c) h (Sum256 data)]> (ar_cache c)) (originArbiters c) (arbitersCount c)).
  split_and!; [exact Hrun| |exact Hv|done|done|].
  - unfold arbiters_CommitBatch. rewrite (bind_run getS _ _ _ _ eq_refl).
    unfold onAr, ar_onDB, zoom. cbn [fst snd ar_db]. by rewrite Hw.
  - intros Hfr Hl Hps. by apply put_ok.
Qed.

(** C37: putting a set of arbiters for a working height at which no set is kept
    yet, and committing, keeps the table consistent; every height of the turn
    that follows answers exactly that set, sorted, unless two different sets
    have the same hash; the sets of the other working heights stay as they
    were. *)
Theorem arbiters_BatchPut_GetByHeight (c : Ar) h crc nor :
  arb_ok c → fresh c h → fits 32 h → 0 < h → keys_wf crc → keys_wf nor →
  length (getValueBytes crc nor) ≠ 4%nat → Z.of_nat (length (positions (view c))) < 2 ^ 32 - 1 →
  0 ≤ arbitersCount c → h + arbitersCount c < 2 ^ 32 →
  ∃ c1 b c2, arbiters_BatchPut h crc nor (c, []) = (Ok (), (c1, b)) ∧
    arbiters_CommitBatch (c1, b) = (Ok (), (c2, b)) ∧ arb_ok c2 ∧
    ((∀ h', h < h' ≤ h + arbitersCount c →
        (arbiters_GetByHeight h' c2).1 = Ok (sort_keys crc, sort_keys nor)) ∨
     ∃ d, d ≠ getValueBytes crc nor ∧ Sum256 d = Sum256 (getValueBytes crc nor)) ∧
    ∀ h', fits 32 h' → h' ≠ h → (arbiters_get h' c2).1 = (arbiters_get h' c).1.
Proof.
  intros Hok Hfr Hh Hpos Hcrc Hnor Hl Hps Hcnt Hb.
  destruct (put_commit_run c h crc nor Hok Hh) as (c1 & b & c2 & Hr1 & Hr2 & Hv & Hac & Hpc & Hok2).
  destruct (put_resolve c h (getValueBytes crc nor) Hok Hh Hfr Hl) as ((d & Hs & Hres) & Hother).
  rewrite <-Hv in Hres, Hother. exists c1, b, c2. split_and!; [done|done|by apply Hok2| |].
  - destruct (decide (d = getValueBytes crc nor)) as [->|Hne]; [left|right; by exists d].
    intros h' Hh'. unfold arbiters_GetByHeight. rewrite (bind_run getS _ _ _ _ eq_refl).
    rewrite (bind_run _ _ c2 (posCache c2) c2).
    2: { rewrite Hpc. unfold put_position. by destruct (filter _ _). }
    rewrite Hpc, Hac, findSlot_put by done. rewrite (bind_run (lift _) _ c2 h c2) by done.
    destruct (Z.eqb_spec h 0); [lia|]. rewrite (arbiters_get_resolve _ _ _ Hres). cbn [fst].
    by apply getValueBytes_read.
  - intros h' Hh' Hne. apply arbiters_get_same. by apply Hother.
Qed.

(** Putting the same set twice for one working height, as a reorganisation
    that connects the same transaction again does, replaces the set by the four
    bytes of its own height: [get] then parses those, whatever the set was. *)
Theorem arbiters_BatchPut_twice (c : Ar) h crc nor :
  arb_ok c → fresh c h → fits 32 h → keys_wf crc → keys_wf nor →
  length (getValueBytes crc nor) ≠ 4%nat → Z.of_nat (length (positions (view c))) < 2 ^ 32 - 1 →
  view c !! thKey (Sum256 (getValueBytes crc nor)) = None →
  ∃ c1 b1 c2 c3 b3 c4,
    arbiters_BatchPut h crc nor (c, []) = (Ok (), (c1, b1)) ∧ arbiters_CommitBatch (c1, b1) = (Ok (), (c2, b1)) ∧
    (arbiters_get h c2).1 = Ok (sort_keys crc, sort_keys nor) ∧
    arbiters_BatchPut h crc nor (c2, []) = (Ok (), (c3, b3)) ∧ arbiters_CommitBatch (c3, b3) = (Ok (), (c4, b3)) ∧
    (arbiters_get h c4).1 = (readArbiters (uint32toBytes h)).1.
Proof.
  intros Hok Hfr Hh Hcrc Hnor Hl Hps Hn. set (data := getValueBytes crc nor) in *.
  destruct (put_commit_run c h crc nor Hok Hh) as (c1 & b1 & c2 & Hr1 & Hr2 & Hv2 & _ & _ & Hok2).
  specialize (Hok2 Hfr Hl Hps). fold data in Hv2.
  destruct (put_commit_run c2 h crc nor Hok2 Hh) as (c3 & b3 & c4 & Hr3 & Hr4 & Hv4 & _). fold data in Hv4.
  destruct (put_ops_view (view c) h data Hh) as (Ht2 & Ha2 & _). rewrite <-Hv2 in Ht2, Ha2.
  destruct (put_ops_view (view c2) h data Hh) as (_ & Ha4 & _). rewrite <-Hv4 in Ha4.
  assert (Hth : view c2 !! thKey (Sum256 data) = Some (uint32toBytes h)) by (by rewrite Ht2, decide_True).
  exists c1, b1, c2, c3, b3, c4. split_and!; [done|done| |done|done|].
  - rewrite (arbiters_get_resolve c2 h data); [by apply getValueBytes_read|].
    unfold resolve. rewrite Ha2, decide_True, Hn by done. cbn. by rewrite decide_False.
  - rewrite (arbiters_get_resolve c4 h (uint32toBytes h)); [done|].
    unfold resolve. rewrite Ha4, decide_True, Hth by done. cbn [from_option id mbind option_bind].
    rewrite decide_True by apply uint32toBytes_length. unfold uint32toBytes at 1.
    rewrite le_value_fits32 by done. rewrite Ha4, decide_True, Hth by done. done.
Qed.
End spec.

(** ** The consensus of a height *)
Section revert.
Context {DB} `{!LevelDB DB} `{!LevelDBLaws DB} `{E : ElaCommon} `{!ElaCommonLaws E}.
Notation Ar := (arbiters DB).
Notation view c := (db_view (ar_db c)).

Lemma revertInfo_roundtrip (ps : list RevertInfo) :
  Forall (λ p, fits 32 (ri_WorkingHeight p)) ps → Z.of_nat (length ps) < 2 ^ 64 →
  ∃ v, revertInfoArrayToBytes ps = Ok v ∧ bytesToRevertInfoArray v = Ok ps.
Proof.
  intros Hps Hl.
  assert (∃ e : bytes, writes (forM ps (λ r, wr Uint32C (ri_WorkingHeight r) ≫= λ _, WriteByte (ri_Mode r))) e ∧
    reads (readN (length ps) (workingHeight ← rd Uint32C; mode ← ReadByte; mret (mkRevertInfo workingHeight mode))) e ps)
    as (e & Hw & Hr).
  { clear Hl. induction Hps as [|[h m] ps Hh _ (e & Hw & Hr)]; [exists []; split; [apply writes_ret|apply reads_ret]|].
    destruct (Uint32C_ok h Hh) as (b & Hwb & Hrb). exists ((b ++ [m]) ++ e). split.
    - cbn [forM ri_WorkingHeight ri_Mode]. apply writes_bind; [|done]. apply writes_bind; [done|]. by intros buf.
    - cbn [length readN]. eapply reads_bind; [|eapply reads_bind_nil; [exact Hr|apply reads_ret]].
      eapply reads_bind; [exact Hrb|]. eapply reads_bind_nil; [|apply reads_ret]. by intros rest. }
  destruct (VarUint_ok (Z.of_nat (length ps))) as (b & Hwb & Hrb); [unfold fits; lia|]. cbn [wr rd] in Hwb, Hrb.
  exists (b ++ e). split.
  - unfold revertInfoArrayToBytes. by rewrite (writes_bind _ (λ _, forM ps _) b e Hwb Hw []).
  - unfold bytesToRevertInfoArray.
    assert (Hrr : reads (count ← ReadVarUint 0; readN (Z.to_nat count) (workingHeight ← rd Uint32C;
      mode ← ReadByte; mret (mkRevertInfo workingHeight mode))) (b ++ e) ps).
    { eapply reads_bind; [exact Hrb|]. by rewrite Nat2Z.id. }
    specialize (Hrr []). rewrite app_nil_r in Hrr. by rewrite Hrr.
Qed.

(** The recorded changes of the consensus. *)
Definition changes (m : gmap bytes bytes) : list RevertInfo :=
  match m !! BKTRevertPositions with
  | Some v => match bytesToRevertInfoArray v with Ok ps => ps | _ => [] end
  | None => []
  end.
Definition last_revert (m : gmap bytes bytes) : Z :=
  match m !! BKTRevertPosition with Some v => le_value v | None => 0 end.

Record revert_ok (c : Ar) : Prop := {
  ro_changes : ∀ v, view c !! BKTRevertPositions = Some v → bytesToRevertInfoArray v = Ok (changes (view c));
  ro_sorted : StronglySorted (λ p q, ri_WorkingHeight p < ri_WorkingHeight q) (changes (view c));
  ro_fits : Forall (λ p, fits 32 (ri_WorkingHeight p)) (changes (view c));
  ro_position : ∀ v, view c !! BKTRevertPosition = Some v → length v = 4%nat;
  ro_cache : revertPOSCache c = [] ∨ revertPOSCache c = changes (view c);
}.

Lemma ar_get_entry (c : Ar) k :
  ar_onDB (dbGet k) c = (match view c !! k with Some v => Ok v | None => Err ErrNotFound end, c).
Proof. unfold ar_onDB, zoom. rewrite dbGet_view. by destruct c. Qed.

Lemma revertPositions_run (c : Ar) : revert_ok c →
  ∃ c', revertPositions c = (Ok (inr (changes (view c))), c') ∧ ar_db c' = ar_db c ∧ revert_ok c'.
Proof.
  intros Hok. unfold revertPositions. rewrite (bind_run getS _ _ _ _ eq_refl).
  destruct (revertPOSCache c) as [|p ps] eqn:Hc.
  2: { exists c. split_and!; [|done|done]. destruct (ro_cache c Hok) as [Hn|Hn]; [congruence|].
       by rewrite Hc in Hn; rewrite <-Hn. }
  unfold getCurrentRevertPositions. pose proof (ar_get_entry c BKTRevertPositions) as Hg.
  assert (Hset : ∀ pos, pos = changes (view c) → revert_ok (set_revertPOSCache pos c)).
  { intros pos ->. destruct Hok. split; try done. by right. }
  destruct (view c !! BKTRevertPositions) as [v|] eqn:Hv.
  - rewrite (bind_run _ _ c (inr (changes (view c))) c).
    + eexists. split_and!; [reflexivity|done|by apply Hset].
    + apply try_run. rewrite (bind_run _ _ _ _ _ Hg). unfold lift. by rewrite (ro_changes c Hok v Hv).
  - rewrite (bind_run _ _ c (inl ErrNotFound) c).
    + rewrite decide_True by done. assert (Hch : changes (view c) = []) by (unfold changes; by rewrite Hv).
      eexists. rewrite Hch. split_and!; [reflexivity|done|by apply Hset].
    + apply try_run_err. by rewrite (bind_run_err _ _ _ _ _ Hg).
Qed.

(** The mode of a height is that of the last change at or below it. *)
Lemma GetConsensus_view (c : Ar) height : revert_ok c →
  (GetConsensusAlgorithmByHeight height c).1 = Ok (modeAt height (changes (view c)) x00).
Proof.
  intros Hok. destruct (revertPositions_run c Hok) as (c' & Hr & _ & _).
  unfold GetConsensusAlgorithmByHeight. by rewrite (bind_run _ _ _ _ _ Hr).
Qed.

Lemma modeAt_put height w mode ps m0 :
  StronglySorted (λ p q, ri_WorkingHeight p < ri_WorkingHeight q) ps →
  modeAt height (filter (λ p, ri_WorkingHeight p < w) ps ++ [mkRevertInfo w mode]) m0 =
    if w <=? height then mode else modeAt height ps m0.
Proof.
  intros Hs. revert m0. induction Hs as [|[p m] ps Hs IH Hp]; intros m0.
  - cbn. destruct (Z.ltb_spec height w), (Z.leb_spec w height); try lia; done.
  - rewrite filter_cons. cbn [ri_WorkingHeight]. case_decide as Hd.
    + cbn [app modeAt ri_WorkingHeight ri_Mode]. rewrite IH.
      destruct (Z.ltb_spec height p), (Z.leb_spec w height); try lia; done.
    + assert (Hf : filter (λ p, ri_WorkingHeight p < w) ps = []).
      { destruct (filter _ ps) as [|q l] eqn:Hq; [done|].
        assert (Hin : q ∈ filter (λ p, ri_WorkingHeight p < w) ps) by (rewrite Hq; set_solver).
        apply list_elem_of_filter in Hin as [Hqw Hin]. rewrite Forall_forall in Hp.
        specialize (Hp q Hin). cbn in Hp. lia. }
      rewrite Hf. cbn [app modeAt ri_WorkingHeight ri_Mode].
      destruct (Z.ltb_spec height w), (Z.leb_spec w height), (Z.ltb_spec height p); try lia; done.
Qed.

Lemma put_sorted w mode ps :
  StronglySorted (λ p q, ri_WorkingHeight p < ri_WorkingHeight q) ps →
  StronglySorted (λ p q, ri_WorkingHeight p < ri_WorkingHeight q)
    (filter (λ p, ri_WorkingHeight p < w) ps ++ [mkRevertInfo w mode]).
Proof.
  induction 1 as [|p ps Hs IH Hp]; [repeat constructor|]. rewrite filter_cons. case_decide as Hd; [|exact IH].
  cbn [app]. constructor; [exact IH|]. apply Forall_app. split.
  - apply Forall_forall. intros q [_ Hq]%list_elem_of_filter. by eapply Forall_forall in Hp.
  - by constructor.
Qed.

Lemma onAr_run {A} (m : GoM Ar A) (c c' : Ar) (b : batch) o : m c = (o, c') → onAr m (c, b) = (o, (c', b)).
Proof. intros Hm. unfold onAr, zoom. cbn [fst snd]. by rewrite Hm. Qed.

Lemma getCurrentRevertPosition_view (c : Ar) : revert_ok c →
  getCurrentRevertPosition c = (Ok (last_revert (view c)), c).
Proof.
  intros Hok. unfold getCurrentRevertPosition, last_revert. pose proof (ar_get_entry c BKTRevertPosition) as Hg.
  destruct (view c !! BKTRevertPosition) as [v|] eqn:Hv.
  - rewrite (bind_run _ _ _ _ _ (try_run _ _ _ _ Hg)). pose proof (ro_position c Hok v Hv) as Hl.
    unfold lift, bytesToUint32. rewrite decide_True by lia. by rewrite take_ge by lia.
  - by rewrite (bind_run _ _ _ _ _ (try_run_err _ _ _ _ Hg)).
Qed.

(** The two shapes of [BatchPutRevertTransaction]. *)
Lemma BatchPutRevert_run (c : Ar) w mode : revert_ok c → fits 32 w →
  Z.of_nat (length (changes (view c))) < 2 ^ 64 - 1 →
  ∃ c1 v ops, BatchPutRevertTransaction w mode (c, []) = (Ok (), (c1, ops)) ∧ ar_db c1 = ar_db c ∧
    if decide (w ≤ last_revert (view c))
    then revertPOSCache c1 = revertPOSCache c ∧ ops = [BPut BKTRevertPosition (uint32toBytes w)]
    else revertPOSCache c1 = filter (λ p, ri_WorkingHeight p < w) (changes (view c)) ++ [mkRevertInfo w mode] ∧
      bytesToRevertInfoArray v = Ok (revertPOSCache c1) ∧
      ops = [BPut BKTRevertPosition (uint32toBytes w); BPut BKTRevertPositions v].
Proof.
  intros Hok Hw Hlen. unfold BatchPutRevertTransaction.
  rewrite (bind_run _ _ _ _ _ (onAr_run _ _ _ [] _ (getCurrentRevertPosition_view c Hok))). cbv zeta.
  rewrite (bind_run (ar_record _) _ _ () (c, [BPut BKTRevertPosition (uint32toBytes w)])) by done.
  case_decide as Hd.
  - exists c, [], [BPut BKTRevertPosition (uint32toBytes w)]. rewrite (proj2 (Z.leb_le _ _) Hd). done.
  - set (np := filter (λ p, ri_WorkingHeight p < w) (changes (view c)) ++ [mkRevertInfo w mode]).
    rewrite (proj2 (Z.leb_gt _ _)) by lia.
    assert (Hf : Forall (λ p, fits 32 (ri_WorkingHeight p)) np).
    { apply Forall_app. split; [|by apply Forall_singleton]. apply Forall_forall.
      intros q [_ Hq]%list_elem_of_filter. pose proof (ro_fits c Hok) as Hff. by eapply Forall_forall in Hff. }
    assert (Hl : Z.of_nat (length np) < 2 ^ 64).
    { unfold np. rewrite length_app. cbn [length].
      pose proof (length_filter (λ p, ri_WorkingHeight p < w) (changes (view c))). lia. }
    destruct (revertInfo_roundtrip np Hf Hl) as (v & Henc & Hdec).
    exists (set_revertPOSCache np c), v, [BPut BKTRevertPosition (uint32toBytes w); BPut BKTRevertPositions v].
    split_and!; [|done|done|done|done]. set (b1 := [BPut BKTRevertPosition (uint32toBytes w)]).
    pose proof (ar_get_entry c BKTRevertPositions) as Hg.
    assert (Hch : ∃ r, try (onAr getCurrentRevertPositions) (c, b1) = (Ok r, (c, b1)) ∧
      match r with inr pos => mret pos
        | inl err => if decide (err = ErrNotFound) then mret [] else throw err end (c, b1) = (Ok (changes (view c)), (c, b1))).
    { destruct (view c !! BKTRevertPositions) as [v0|] eqn:Hv.
      - exists (inr (changes (view c))). split; [|done]. apply try_run, onAr_run.
        unfold getCurrentRevertPositions. rewrite (bind_run _ _ _ _ _ Hg). unfold lift.
        by rewrite (ro_changes c Hok v0 Hv).
      - exists (inl ErrNotFound). split.
        + apply try_run_err, onAr_run. unfold getCurrentRevertPositions. by rewrite (bind_run_err _ _ _ _ _ Hg).
        + rewrite decide_True by done. unfold changes. by rewrite Hv. }
    destruct Hch as (r & Hr1 & Hr2). rewrite (bind_run _ _ _ _ _ Hr1). rewrite (bind_run _ _ _ _ _ Hr2).
    fold np. rewrite (bind_run (onAr (modify _)) _ _ () (set_revertPOSCache np c, b1)) by done.
    rewrite Henc. by rewrite (bind_run (lift (Ok v)) _ _ v (set_revertPOSCache np c, b1)) by done.
Qed.

(** a change of the consensus above the last recorded one, once committed,
    gives its mode to every height from its working height on and leaves the
    lower heights as they were, also after a restart; one at or below the last
    recorded height changes no height's mode. *)
Theorem BatchPutRevertTransaction_spec (c : Ar) w mode : revert_ok c → fits 32 w →
  Z.of_nat (length (changes (view c))) < 2 ^ 64 - 1 →
  ∃ c1 b c2, BatchPutRevertTransaction w mode (c, []) = (Ok (), (c1, b)) ∧
    arbiters_CommitBatch (c1, b) = (Ok (), (c2, b)) ∧ revert_ok c2 ∧
    ∀ height,
      (GetConsensusAlgorithmByHeight height c2).1 =
        (if decide (last_revert (view c) < w ∧ w ≤ height) then Ok mode
         else (GetConsensusAlgorithmByHeight height c).1) ∧
      (GetConsensusAlgorithmByHeight height (NewArbiters (ar_db c2) [] 0)).1 =
        (GetConsensusAlgorithmByHeight height c2).1.
Proof.
  intros Hok Hw Hlen. destruct (BatchPutRevert_run c w mode Hok Hw Hlen) as (c1 & v & ops & Hrun & Hdb & Hcase).
  destruct (dbWrite_view (ar_db c1) ops) as (db' & Hwr & Hv'). rewrite Hdb in Hv'.
  set (c2 := ar_set_db db' c1).
  assert (Hcommit : arbiters_CommitBatch (c1, ops) = (Ok (), (c2, ops))).
  { unfold arbiters_CommitBatch. rewrite (bind_run getS _ _ _ _ eq_refl). unfold onAr, ar_onDB, zoom.
    cbn [fst snd]. by rewrite Hwr. }
  assert (Hmain : revert_ok c2 ∧ changes (view c2) =
    if decide (w ≤ last_revert (view c)) then changes (view c)
    else filter (λ p, ri_WorkingHeight p < w) (changes (view c)) ++ [mkRevertInfo w mode]).
  { change (view c2) with (db_view db'). case_decide as Hd.
    - destruct Hcase as [Hcc ->]. cbn in Hv'.
      assert (Hrp : db_view db' !! BKTRevertPositions = view c !! BKTRevertPositions)
        by (rewrite Hv'; by apply lookup_insert_ne).
      assert (Hch : changes (db_view db') = changes (view c)) by (unfold changes; by rewrite Hrp).
      split; [|done]. split; change (view c2) with (db_view db'); rewrite ?Hch.
      + intros v0. rewrite Hrp. apply (ro_changes c Hok).
      + apply (ro_sorted c Hok).
      + apply (ro_fits c Hok).
      + intros v0. rewrite Hv', lookup_insert_eq. intros [= <-]. apply uint32toBytes_length.
      + change (revertPOSCache c2) with (revertPOSCache c1). rewrite Hcc. apply (ro_cache c Hok).
    - destruct Hcase as (Hcc & Hdec & ->). cbn in Hv'.
      assert (Hrp : db_view db' !! BKTRevertPositions = Some v) by (rewrite Hv'; apply lookup_insert_eq).
      assert (Hch : changes (db_view db') = revertPOSCache c1) by (unfold changes; by rewrite Hrp, Hdec).
      split; [|by rewrite Hch]. split; change (view c2) with (db_view db'); rewrite ?Hch, ?Hcc.
      + intros v0. rewrite Hrp. intros [= <-]. by rewrite Hdec, Hcc.
      + apply put_sorted, (ro_sorted c Hok).
      + apply Forall_app. split; [|by apply Forall_singleton]. apply Forall_forall.
        intros q [_ Hq]%list_elem_of_filter. pose proof (ro_fits c Hok) as Hff. by eapply Forall_forall in Hff.
      + intros v0. rewrite Hv', lookup_insert_ne, lookup_insert_eq by done. intros [= <-]. apply uint32toBytes_length.
      + right. change (revertPOSCache c2) with (revertPOSCache c1). by rewrite Hcc. }
  destruct Hmain as [Hok2 Hch]. exists c1, ops, c2. split_and!; [done..|]. intros height.
  assert (Hnew : revert_ok (NewArbiters (ar_db c2) [] 0)) by (destruct Hok2; split; try done; by left).
  rewrite !GetConsensus_view by done. split; [|done]. rewrite Hch. f_equal.
  destruct (decide (w ≤ last_revert (view c))) as [Hd|Hd].
  - rewrite decide_False by lia. done.
  - rewrite modeAt_put by apply (ro_sorted c Hok).
    destruct (Z.leb_spec w height); [rewrite decide_True by lia|rewrite decide_False by lia]; done.
Qed.
End revert.
