(* ===== verification/CustomId.v ===== *)
(** * The custom id table

    [interface/store/customid.go]: custom ids waiting for a proposal's result
    (under the proposal's hash), the reserved and received ids with the height
    of their result, the fee rates by working height, and the returned side
    chain deposits. *)
From S2P Require Export Arbiters.
#[local] Open Scope Z_scope.

(** [dpos/state.DPOS], the mode byte of the delegated consensus. *)
Class DposState := { DPOS : byte }.

Definition DefaultConfirmations : Z := 6.

Record CustomIDInfo := mkCustomIDInfo { ci_DID : Uint168; ci_Height : Z }.
#[global] Instance CustomIDInfo_eq_dec : EqDecision CustomIDInfo.
Proof. solve_decision. Defined.

(** A Go string is its bytes. *)
Record customID (DB : Type) := mkCustomID {
  cid_db : DB;
  cid_b : batch;
  reservedCustomIDs : gmap bytes Z;
  receivedCustomIDs : gmap bytes CustomIDInfo;
  customIDFeePosCache : list Z;
  GenesisBlockAddress : bytes;
}.
Arguments mkCustomID {DB}.
Arguments cid_db {DB}.
Arguments cid_b {DB}.
Arguments reservedCustomIDs {DB}.
Arguments receivedCustomIDs {DB}.
Arguments customIDFeePosCache {DB}.
Arguments GenesisBlockAddress {DB}.

(** The state of the loop of [isProposalConfirmed]. *)
Record confirmState := mkConfirm {
  lastMode : byte; lastWorkingHeight : Z; reachedTheEnd : bool; beganFromStartHeight : bool }.

Section confirmed.
Context `{!DposState}.
(** [None]: the loop returned true. *)
Fixpoint confirm_loop (currentHeight proposalHeight : Z) (info : list RevertInfo) (st : confirmState) : option confirmState :=
  match info with
  | [] => Some st
  | r :: info =>
      let inside := proposalHeight <? ri_WorkingHeight r in
      let ends := inside && (currentHeight <? ri_WorkingHeight r) in
      let reached := reachedTheEnd st || ends in
      let calculateHeight := if ends then currentHeight else ri_WorkingHeight r in
      let from := if lastWorkingHeight st <? proposalHeight then proposalHeight else lastWorkingHeight st in
      if inside && bool_decide (lastMode st = DPOS) && (DefaultConfirmations <=? u32 (calculateHeight - from))
      then None
      else
        let st := mkConfirm (ri_Mode r) (ri_WorkingHeight r) reached (beganFromStartHeight st || inside) in
        if reached then Some st else confirm_loop currentHeight proposalHeight info st
  end.

Definition isProposalConfirmed (currentHeight proposalHeight : Z) (info : list RevertInfo) : bool :=
  if currentHeight <=? proposalHeight then false
  else
    match confirm_loop currentHeight proposalHeight info (mkConfirm x00 0 false false) with
    | None => true
    | Some st =>
        bool_decide (lastMode st = DPOS) &&
        (if negb (beganFromStartHeight st) then DefaultConfirmations <=? u32 (currentHeight - proposalHeight)
         else negb (reachedTheEnd st) && (DefaultConfirmations <=? u32 (currentHeight - lastWorkingHeight st)))
    end.
End confirmed.

Section customID.
Context {DB} `{!LevelDB DB} `{E : ElaCommon} `{!MapOrder} `{!DposState}.
Notation Cid := (customID DB).
Notation St := (customID DB * batch)%type.

Definition NewCustomID (db : DB) (GenesisBlockAddress : bytes) : Cid :=
  mkCustomID db [] ∅ ∅ [] GenesisBlockAddress.

Definition cid_set_db (db : DB) (c : Cid) : Cid :=
  mkCustomID db (cid_b c) (reservedCustomIDs c) (receivedCustomIDs c) (customIDFeePosCache c) (GenesisBlockAddress c).
Definition set_reserved (ids : gmap bytes Z) (c : Cid) : Cid :=
  mkCustomID (cid_db c) (cid_b c) ids (receivedCustomIDs c) (customIDFeePosCache c) (GenesisBlockAddress c).
Definition set_received (ids : gmap bytes CustomIDInfo) (c : Cid) : Cid :=
  mkCustomID (cid_db c) (cid_b c) (reservedCustomIDs c) ids (customIDFeePosCache c) (GenesisBlockAddress c).
Definition set_feePos (pos : list Z) (c : Cid) : Cid :=
  mkCustomID (cid_db c) (cid_b c) (reservedCustomIDs c) (receivedCustomIDs c) pos (GenesisBlockAddress c).

Definition cid_onDB {A} (m : GoM DB A) : GoM Cid A := zoom cid_db cid_set_db m.
Definition onCid {A} (m : GoM Cid A) : GoM St A := zoom fst (λ c s, (c, s.2)) m.
Definition cid_record (ops : batch) : GoM St unit := modify (λ s, (s.1, s.2 ++ ops)).

(** The bytes a writer leaves in a fresh buffer. *)
Definition buffer (w : Writer) : outcome bytes := let '(o, buf) := w [] in (λ _, buf) <$> o.

Definition reservedKey (proposalHash : Uint256) : bytes := toKey BKTReservedCustomID (arr_bytes proposalHash).
Definition receivedKey (proposalHash : Uint256) : bytes := toKey BKTReceivedCustomID (arr_bytes proposalHash).
Definition changeFeeKey (proposalHash : Uint256) : bytes := toKey BKTChangeCustomIDFee (arr_bytes proposalHash).

(** ** Reading *)
Fixpoint read_ids (n : nat) (ids : gmap bytes unit) : Reader (gmap bytes unit) :=
  match n with
  | O => mret ids
  | S n => id ← rd VarStringC; read_ids n (<[id := ()]> ids)
  end.
Definition getControversialReservedCustomIDsFromDB (proposalHash : Uint256) : GoM Cid (gmap bytes unit) :=
  val ← cid_onDB (dbGet (reservedKey proposalHash));
  lift ((count ← ReadVarUint 0; read_ids (Z.to_nat count) ∅) val).1.

Fixpoint read_reserved (n : nat) (ids : gmap bytes Z) : Reader (gmap bytes Z) :=
  match n with
  | O => mret ids
  | S n => id ← rd VarStringC; height ← rd Uint32C; read_reserved n (<[id := height]> ids)
  end.
Definition getReservedCustomIDsFromDB : GoM Cid (gmap bytes Z) :=
  val ← try (cid_onDB (dbGet BKTReservedCustomID));
  match val with
  | inl err => if decide (err = ErrNotFound) then mret ∅ else throw err
  | inr val => lift ((count ← ReadVarUint 0; read_reserved (Z.to_nat count) ∅) val).1
  end.

Fixpoint read_dids (n : nat) (ids : gmap bytes Uint168) : Reader (gmap bytes Uint168) :=
  match n with
  | O => mret ids
  | S n => id ← rd VarStringC; did ← rd Hash168C; read_dids n (<[id := did]> ids)
  end.
Definition getControversialReceivedCustomIDsFromDB (proposalHash : Uint256) : GoM Cid (gmap bytes Uint168) :=
  val ← cid_onDB (dbGet (receivedKey proposalHash));
  lift ((count ← rd Uint32C; read_dids (Z.to_nat count) ∅) val).1.

Fixpoint read_received (n : nat) (ids : gmap bytes CustomIDInfo) : Reader (gmap bytes CustomIDInfo) :=
  match n with
  | O => mret ids
  | S n =>
      id ← rd VarStringC; did ← rd Hash168C; height ← rd Uint32C;
      read_received n (<[id := mkCustomIDInfo did height]> ids)
  end.
Definition getReceivedCustomIDsFromDB : GoM Cid (gmap bytes CustomIDInfo) :=
  val ← try (cid_onDB (dbGet BKTReceivedCustomID));
  match val with
  | inl err => if decide (err = ErrNotFound) then mret ∅ else throw err
  | inr val => lift ((count ← rd Uint32C; read_received (Z.to_nat count) ∅) val).1
  end.

Definition getControversialCustomIDFeeRateByProposalHash (proposalHash : Uint256) : GoM Cid (Z * Z) :=
  val ← cid_onDB (dbGet (changeFeeKey proposalHash));
  lift ((rate ← rd Fixed64C; workingHeight ← rd Uint32C; mret (rate, workingHeight)) val).1.
Definition getControversialCustomIDFeeRateByHeight (workingHeight : Z) : GoM Cid Z :=
  buf ← lift (buffer (wr Uint32C workingHeight));
  val ← cid_onDB (dbGet (toKey BKTChangeCustomIDFee buf));
  lift (rd Fixed64C val).1.

Definition getCurrentCustomIDFeePositions : GoM Cid (list Z) :=
  pos ← try (cid_onDB (dbGet BKTCustomIDFeePositions));
  match pos with inr pos => lift (bytesToUint32Array pos) | inl _ => mret [] end.

(** ** Writing *)
Definition batchPutControversialReservedCustomIDs (ids : list bytes) (proposalHash : Uint256) : GoM St unit :=
  w ← lift (buffer (WriteVarUint (Z.of_nat (length ids)) ≫= λ _, forM ids (wr VarStringC)));
  cid_record [BPut (reservedKey proposalHash) w].

Definition batchPutReservedCustomIDs : GoM St unit :=
  c ← onCid getS;
  w ← lift (buffer (WriteVarUint (Z.of_nat (size (reservedCustomIDs c))) ≫= λ _,
    forM (range (reservedCustomIDs c)) (λ kv, wr VarStringC kv.1 ≫= λ _, wr Uint32C kv.2)));
  cid_record [BPut BKTReservedCustomID w].

Definition batchPutControversialReceivedCustomIDs (ids : list bytes) (did : Uint168) (proposalHash : Uint256) : GoM St unit :=
  w ← lift (buffer (wr Uint32C (u32 (Z.of_nat (length ids))) ≫= λ _,
    forM ids (λ id, wr VarStringC id ≫= λ _, wr Hash168C did)));
  cid_record [BPut (receivedKey proposalHash) w].

Definition batchPutReceivedCustomIDs : GoM St unit :=
  c ← onCid getS;
  w ← lift (buffer (wr Uint32C (u32 (Z.of_nat (size (receivedCustomIDs c)))) ≫= λ _,
    forM (range (receivedCustomIDs c)) (λ kv,
      wr VarStringC kv.1 ≫= λ _, wr Hash168C (ci_DID kv.2) ≫= λ _, wr Uint32C (ci_Height kv.2))));
  cid_record [BPut BKTReceivedCustomID w].

Definition batchPutControversialChangeCustomIDFee (rate workingHeight : Z) (proposalHash : Uint256) : GoM St unit :=
  w ← lift (buffer (wr Fixed64C rate ≫= λ _, wr Uint32C workingHeight));
  cid_record [BPut (changeFeeKey proposalHash) w].

Definition batchPutChangeCustomIDFee (feeRate workingHeight : Z) : GoM St unit :=
  pos ← onCid getCurrentCustomIDFeePositions;
  let newPosCache := filter (λ p, p < workingHeight) pos ++ [workingHeight] in
  onCid (modify (set_feePos newPosCache)) ≫= λ _,
  cid_record [BPut BKTCustomIDFeePositions (uint32ArrayToBytes newPosCache)] ≫= λ _,
  buf ← lift (buffer (wr Uint32C workingHeight));
  w ← lift (buffer (wr Fixed64C feeRate));
  cid_record [BPut (toKey BKTChangeCustomIDFee buf) w].

(** ** The results of proposals *)
Definition loadReserved : GoM Cid unit :=
  c ← getS;
  if decide (size (reservedCustomIDs c) = 0%nat)
  then ids ← getReservedCustomIDsFromDB; modify (set_reserved ids) else mret ().
Definition loadReceived : GoM Cid unit :=
  c ← getS;
  if decide (size (receivedCustomIDs c) = 0%nat)
  then ids ← getReceivedCustomIDsFromDB; modify (set_received ids) else mret ().

Definition putResult (height : Z) (r : ProposalResultItem) : GoM St unit :=
  match pr_ProposalType r with
  | ReserveCustomID =>
      onCid loadReserved ≫= λ _,
      if pr_Result r then
        ids ← onCid (getControversialReservedCustomIDsFromDB (pr_ProposalHash r));
        onCid (modify (λ c, set_reserved
          (foldl (λ m kv, <[kv.1 := height]> m) (reservedCustomIDs c) (range ids)) c)) ≫= λ _,
        batchPutReservedCustomIDs
      else mret ()
  | ReceiveCustomID =>
      onCid loadReceived ≫= λ _,
      if pr_Result r then
        ids ← onCid (getControversialReceivedCustomIDsFromDB (pr_ProposalHash r));
        onCid (modify (λ c, set_received
          (foldl (λ m kv, <[kv.1 := mkCustomIDInfo kv.2 height]> m) (receivedCustomIDs c) (range ids)) c)) ≫= λ _,
        batchPutReceivedCustomIDs
      else mret ()
  | ChangeCustomIDFee =>
      if pr_Result r then
        '(rate, workingHeight) ← onCid (getControversialCustomIDFeeRateByProposalHash (pr_ProposalHash r));
        batchPutChangeCustomIDFee rate workingHeight
      else mret ()
  | ProposalOther => mret ()
  end.
Definition batchPutCustomIDProposalResults (results : list ProposalResultItem) (height : Z) : GoM St unit :=
  forM results (putResult height).

(** ** The exported operations *)
Definition BatchPutControversialReservedCustomIDs := batchPutControversialReservedCustomIDs.
Definition BatchPutControversialReceivedCustomIDs := batchPutControversialReceivedCustomIDs.
Definition BatchPutControversialChangeCustomIDFee (rate : Z) (proposalHash : Uint256) (workingHeight : Z) : GoM St unit :=
  batchPutControversialChangeCustomIDFee rate workingHeight proposalHash.
Definition BatchPutCustomIDProposalResults := batchPutCustomIDProposalResults.

(** A fresh batch, filled and written. *)
Definition withBatch (m : GoM St unit) : GoM Cid unit :=
  b ← (λ c, let '(o, (c', b)) := m (c, []) in ((λ _, b) <$> o, c'));
  cid_onDB (dbWrite b).
Definition PutControversialReservedCustomIDs (ids : list bytes) (proposalHash : Uint256) : GoM Cid unit :=
  withBatch (batchPutControversialReservedCustomIDs ids proposalHash).
Definition PutControversialReceivedCustomIDs (ids : list bytes) (did : Uint168) (proposalHash : Uint256) : GoM Cid unit :=
  withBatch (batchPutControversialReceivedCustomIDs ids did proposalHash).
Definition PutControversialChangeCustomIDFee (rate : Z) (proposalHash : Uint256) (workingHeight : Z) : GoM Cid unit :=
  withBatch (batchPutControversialChangeCustomIDFee rate workingHeight proposalHash).
Definition PutCustomIDProposalResults (results : list ProposalResultItem) (height : Z) : GoM Cid unit :=
  withBatch (batchPutCustomIDProposalResults results height).

Definition BatchDeleteControversialReservedCustomIDs (proposalHash : Uint256) : GoM St unit :=
  cid_record [BDelete (reservedKey proposalHash)].
Definition BatchDeleteControversialReceivedCustomIDs (proposalHash : Uint256) : GoM St unit :=
  cid_record [BDelete (receivedKey proposalHash)].
Definition BatchDeleteControversialChangeCustomIDFee (proposalHash : Uint256) : GoM St unit :=
  cid_record [BDelete (changeFeeKey proposalHash)].

Definition GetReservedCustomIDs (height : Z) (info : list RevertInfo) : GoM Cid (gmap bytes unit) :=
  loadReserved ≫= λ _,
  c ← getS;
  mret (foldl (λ m kv, if isProposalConfirmed height kv.2 info then <[kv.1 := ()]> m else m) ∅
    (range (reservedCustomIDs c))).
Definition GetReceivedCustomIDs (height : Z) (info : list RevertInfo) : GoM Cid (gmap bytes Uint168) :=
  loadReceived ≫= λ _,
  c ← getS;
  mret (foldl (λ m kv, if isProposalConfirmed height (ci_Height kv.2) info then <[kv.1 := ci_DID kv.2]> m else m) ∅
    (range (receivedCustomIDs c))).

Definition findCustomIDWorkingHeightByCurrentHeight (height : Z) : GoM Cid Z :=
  c ← getS;
  (match customIDFeePosCache c with
   | [] => pos ← getCurrentCustomIDFeePositions; modify (set_feePos pos)
   | _ => mret ()
   end) ≫= λ _,
  c ← getS;
  match customIDFeePosCache c with
  | [] => throw (ErrStr "have no customID fee from main chain proposal")
  | pos => mret (findSlot_scan height (reverse pos))
  end.
Definition GetCustomIDFeeRate (height : Z) : GoM Cid Z :=
  workingHeight ← findCustomIDWorkingHeightByCurrentHeight height;
  getControversialCustomIDFeeRateByHeight workingHeight.

(** ** Returned side chain deposits *)
Definition depositKey (txHash : Uint256) : bytes := toKey BKTReturnSideChainDepositCoin (arr_bytes txHash).
Definition onDeposits (f : Uint256 → batch_op) (outputs : list Output) : GoM St unit :=
  forM outputs (λ output,
    if decide (OutType output = OTReturnSideChainDepositCoin) then
      match OutPayload output with
      | ReturnSideChainDeposit address hash =>
          s ← getS;
          if decide (address = GenesisBlockAddress s.1) then cid_record [f hash] else mret ()
      | OutputPayloadOther => throw (ErrStr "invalid ReturnSideChainDeposit output payload")
      end
    else mret ()).
Definition BatchPutRetSideChainDepositCoinTx (outputs : list Output) : GoM St unit :=
  onDeposits (λ hash, BPut (depositKey hash) [x01]) outputs.
Definition BatchDeleteRetSideChainDepositCoinTx (outputs : list Output) : GoM St unit :=
  onDeposits (λ hash, BDelete (depositKey hash)) outputs.
Definition HaveRetSideChainDepositCoinTx (txHash : Uint256) : GoM Cid bool :=
  r ← try (cid_onDB (dbGet (depositKey txHash)));
  mret (match r with inr _ => true | inl _ => false end).

(** ** Batches *)
(** The deletions go to a local batch, and the batch of the table is written. *)
Definition customID_Clear : GoM Cid unit :=
  e1 ← cid_onDB (dbIterate BKTReservedCustomID);
  e2 ← cid_onDB (dbIterate BKTReceivedCustomID);
  e3 ← cid_onDB (dbIterate BKTChangeCustomIDFee);
  let batch := deleteKeys (e1 ++ e2 ++ e3) in
  c ← getS;
  cid_onDB (dbWrite (cid_b c)).
Definition customID_Commit : GoM Cid unit := c ← getS; cid_onDB (dbWrite (cid_b c)).
Definition customID_Rollback : GoM Cid unit :=
  modify (λ c, mkCustomID (cid_db c) [] (reservedCustomIDs c) (receivedCustomIDs c)
    (customIDFeePosCache c) (GenesisBlockAddress c)).
Definition customID_CommitBatch : GoM St unit := s ← getS; onCid (cid_onDB (dbWrite s.2)).
Definition customID_RollbackBatch : GoM St unit := modify (λ s, (s.1, [])).
End customID.
