(* ===== verification/CustomIdSpec.v ===== *)
(** * What the custom id table answers

    When a proposal is confirmed, and how the results of proposals move the
    waiting custom ids to the reserved ones, on disk and in the cache. *)
From S2P Require Export CustomId.
#[local] Open Scope Z_scope.

(** ** Confirmation *)
Section confirmed.
Context `{!DposState}.

(** The height the [i]-th consensus period ends at. *)
Definition period_end (cur : Z) (info : list RevertInfo) (i : nat) : Z :=
  match info !! S i with Some r => ri_WorkingHeight r | None => cur end.
(** Some delegated period has six heights between the proposal and now. *)
Definition confirmed (cur prop : Z) (info : list RevertInfo) : Prop :=
  ∃ i r, info !! i = Some r ∧ ri_Mode r = DPOS ∧
    DefaultConfirmations ≤ Z.min cur (period_end cur info i) - Z.max prop (ri_WorkingHeight r).

Definition head_end (cur : Z) (info : list RevertInfo) : Z :=
  match info with r :: _ => ri_WorkingHeight r | [] => cur end.
Definition pending (cur prop : Z) (st : confirmState) (info : list RevertInfo) : Prop :=
  lastMode st = DPOS ∧ DefaultConfirmations ≤ Z.min cur (head_end cur info) - Z.max prop (lastWorkingHeight st).

Lemma confirmed_cons cur prop r info :
  confirmed cur prop (r :: info) ↔
  pending cur prop (mkConfirm (ri_Mode r) (ri_WorkingHeight r) false false) info ∨ confirmed cur prop info.
Proof.
  unfold confirmed, pending, period_end. split.
  - intros ([|i] & r' & Hi & Hm & Hc); [left|right].
    + cbn in Hi. simplify_eq. split; [done|]. by destruct info.
    + by exists i, r'.
  - intros [[Hm Hc]|(i & r' & Hi & Hm & Hc)].
    + exists 0%nat, r. split_and!; [done..|]. by destruct info.
    + by exists (S i), r'.
Qed.

(** The value of [isProposalConfirmed] after the loop. *)
Definition finish (cur prop : Z) (o : option confirmState) : bool :=
  match o with
  | None => true
  | Some st =>
      bool_decide (lastMode st = DPOS) &&
      (if negb (beganFromStartHeight st) then DefaultConfirmations <=? u32 (cur - prop)
       else negb (reachedTheEnd st) && (DefaultConfirmations <=? u32 (cur - lastWorkingHeight st)))
  end.

Lemma confirm_loop_nil cur prop st : fits 32 cur → fits 32 prop → prop < cur →
  0 ≤ lastWorkingHeight st ≤ cur → reachedTheEnd st = false →
  beganFromStartHeight st = bool_decide (prop < lastWorkingHeight st) →
  finish cur prop (confirm_loop cur prop [] st) = true ↔ pending cur prop st [] ∨ confirmed cur prop [].
Proof.
  unfold fits. intros Hcur Hprop Hlt Hlast Hreach Hbegan.
  assert (Hu : ∀ z, 0 ≤ z < 2 ^ 32 → u32 z = z) by (intros; by apply u32_small).
  assert (Hno : ¬ confirmed cur prop []) by (intros (i & r & Hi & _); by rewrite lookup_nil in Hi).
  unfold pending. cbn [confirm_loop finish head_end]. rewrite Hreach, Hbegan. cbn [negb andb].
  destruct (decide (lastMode st = DPOS)) as [Hm|Hm].
  - rewrite bool_decide_true by done. cbn [andb].
    case_bool_decide; cbn [negb]; rewrite Hu by lia; rewrite Z.leb_le;
      (split; [intros; left; split; [done|lia]|intros [[_ ?]|]; [lia|done]]).
  - rewrite bool_decide_false by done. cbn [andb]. naive_solver.
Qed.
(** Nothing is confirmed by periods that begin after the current height. *)
Lemma confirmed_later cur prop r info : cur < ri_WorkingHeight r →
  Forall (λ q, ri_WorkingHeight r < ri_WorkingHeight q) info →
  ¬ (pending cur prop (mkConfirm (ri_Mode r) (ri_WorkingHeight r) false false) info ∨ confirmed cur prop info).
Proof.
  intros Hend Hr. rewrite Forall_forall in Hr. unfold pending, confirmed, DefaultConfirmations. cbn [lastWorkingHeight].
  intros [[_ ?]|(i & q & Hi & _ & ?)]; [lia|]. apply list_elem_of_lookup_2 in Hi. specialize (Hr q Hi). lia.
Qed.
Lemma confirm_loop_spec cur prop info st :
  fits 32 cur → fits 32 prop → prop < cur →
  StronglySorted (λ p q, ri_WorkingHeight p < ri_WorkingHeight q) info →
  Forall (λ p, fits 32 (ri_WorkingHeight p) ∧ lastWorkingHeight st < ri_WorkingHeight p ∨ lastWorkingHeight st = 0 ∧ fits 32 (ri_WorkingHeight p)) info →
  0 ≤ lastWorkingHeight st ≤ cur → reachedTheEnd st = false →
  beganFromStartHeight st = bool_decide (prop < lastWorkingHeight st) →
  finish cur prop (confirm_loop cur prop info st) = true ↔ pending cur prop st info ∨ confirmed cur prop info.
Proof.
  intros Hcur Hprop Hlt Hs. unfold fits in Hcur, Hprop.
  assert (Hu : ∀ z, 0 ≤ z < 2 ^ 32 → u32 z = z) by (intros; by apply u32_small).
  revert st. induction Hs as [|r info Hs IH Hr]; intros st Hall Hlast Hreach Hbegan.
  - by apply confirm_loop_nil.
  - apply Forall_cons in Hall as [Hr0 Hall]. rewrite confirmed_cons.
    assert (Hrf : fits 32 (ri_WorkingHeight r)) by naive_solver. unfold fits in Hrf.
    assert (Hrl : lastWorkingHeight st ≤ ri_WorkingHeight r) by (destruct Hr0 as [[_ ?]|[? _]]; lia).
    assert (Hnext : ∀ b, ri_WorkingHeight r ≤ cur → b = bool_decide (prop < ri_WorkingHeight r) →
      finish cur prop (confirm_loop cur prop info (mkConfirm (ri_Mode r) (ri_WorkingHeight r) false b)) = true ↔
      pending cur prop (mkConfirm (ri_Mode r) (ri_WorkingHeight r) false false) info ∨ confirmed cur prop info).
    { intros b Hrc ->. rewrite IH; [done| |cbn; lia|done|done].
      rewrite Forall_forall in Hall, Hr |- *. intros q Hq. left. cbn. specialize (Hr q Hq).
      specialize (Hall q Hq). naive_solver. }
    cbn [confirm_loop]. rewrite Hreach. cbn [orb]. unfold pending at 1. cbn [head_end].
    destruct (Z.ltb_spec prop (ri_WorkingHeight r)) as [Hin|Hin]; cbn [andb].
    + assert (Hfrom : (if lastWorkingHeight st <? prop then prop else lastWorkingHeight st)
                      = Z.max prop (lastWorkingHeight st)) by (destruct (Z.ltb_spec (lastWorkingHeight st) prop); lia).
      rewrite Hfrom. destruct (Z.ltb_spec cur (ri_WorkingHeight r)) as [Hend|Hend].
      * pose proof (confirmed_later cur prop r info Hend Hr) as Hno.
        rewrite Hu by lia. rewrite Z.min_l by lia. destruct (decide (lastMode st = DPOS)) as [Hm|Hm].
        -- rewrite bool_decide_true by done. cbn [andb].
           destruct (Z.leb_spec DefaultConfirmations (cur - Z.max prop (lastWorkingHeight st))); cbn [finish].
           ++ naive_solver.
           ++ rewrite orb_true_r, andb_false_r. cbn [negb andb beganFromStartHeight reachedTheEnd].
              split; [done|]. intros [[_ ?]|]; [lia|done].
        -- rewrite bool_decide_false by done. cbn [andb finish negb beganFromStartHeight reachedTheEnd].
           rewrite orb_true_r, andb_false_r. naive_solver.
      * rewrite Z.min_r by lia.
        assert (Hb : beganFromStartHeight st || true = bool_decide (prop < ri_WorkingHeight r))
          by (rewrite orb_true_r; symmetry; by apply bool_decide_true).
        specialize (Hnext _ Hend Hb). rewrite Hu by lia. destruct (decide (lastMode st = DPOS)) as [Hm|Hm].
        -- rewrite bool_decide_true by done. cbn [andb].
           destruct (Z.leb_spec DefaultConfirmations (ri_WorkingHeight r - Z.max prop (lastWorkingHeight st))).
           ++ naive_solver.
           ++ rewrite Hnext. split; [auto|]. intros [[_ ?]|]; [lia|done].
        -- rewrite bool_decide_false by done. cbn [andb]. rewrite Hnext. naive_solver.
    + assert (Hb : beganFromStartHeight st || false = bool_decide (prop < ri_WorkingHeight r)).
      { rewrite orb_false_r, Hbegan, !bool_decide_false by lia. done. }
      rewrite (Hnext _ ltac:(lia) Hb). unfold DefaultConfirmations. split; [auto|]. intros [[_ ?]|]; [lia|done].
Qed.
End confirmed.

Section confirmed_thm.
Context `{!DposState}.
(** a proposal is confirmed at a height exactly when some period of the
    delegated consensus contains six heights between the proposal's height and
    that height, for periods listed in order; mode 0 holds before the first. *)
Theorem isProposalConfirmed_spec cur prop info :
  fits 32 cur → fits 32 prop →
  StronglySorted (λ p q, ri_WorkingHeight p < ri_WorkingHeight q) info →
  Forall (λ p, fits 32 (ri_WorkingHeight p)) info →
  isProposalConfirmed cur prop info = true ↔ confirmed cur prop (mkRevertInfo 0 x00 :: info).
Proof.
  intros Hcur Hprop Hs Hf. unfold isProposalConfirmed. destruct (Z.leb_spec cur prop) as [Hle|Hlt].
  - unfold fits in *. split; [done|]. intros (i & r & _ & _ & Hc). unfold DefaultConfirmations in Hc. lia.
  - set (st := mkConfirm x00 0 false false).
    pose proof (confirm_loop_spec cur prop info st Hcur Hprop Hlt Hs) as Hloop.
    change (match confirm_loop cur prop info st with None => true | Some st => _ end)
      with (finish cur prop (confirm_loop cur prop info st)).
    rewrite confirmed_cons, Hloop; cbn [st lastWorkingHeight reachedTheEnd beganFromStartHeight]; [done| | |done|].
    + rewrite Forall_forall in Hf |- *. intros q Hq. right. auto.
    + unfold fits in *. lia.
    + unfold fits in *. rewrite bool_decide_false by lia. done.
Qed.
End confirmed_thm.

(** ** Maps written entry by entry *)
Section maps.
Context {K V : Type} `{Countable K}.
Definition insert_all (m : gmap K V) (l : list (K * V)) : gmap K V := foldl (λ m kv, <[kv.1 := kv.2]> m) m l.
Lemma insert_all_lookup (l : list (K * V)) m k : NoDup l.*1 →
  insert_all m l !! k = match list_to_map (M := gmap K V) l !! k with Some v => Some v | None => m !! k end.
Proof.
  unfold insert_all. revert m. induction l as [|[k' v'] l IH]; intros m Hnd; [done|].
  apply NoDup_cons in Hnd as [Hni Hnd]. cbn [foldl fst snd list_to_map foldr uncurry]. rewrite IH by done.
  cbn [fst] in Hni. destruct (decide (k' = k)) as [->|Hne].
  - rewrite (not_elem_of_list_to_map_1 (M := gmap K) l k Hni), !lookup_insert_eq. done.
  - by rewrite (lookup_insert_ne (M := gmap K)), lookup_insert_ne.
Qed.
Lemma insert_all_range `{!MapOrder} (m : gmap K V) : insert_all ∅ (range m) = m.
Proof.
  apply map_eq. intros k. rewrite insert_all_lookup by apply range_keys_NoDup.
  rewrite range_lookup, lookup_empty. by destruct (m !! k).
Qed.
Lemma size_insert_le (m : gmap K V) k v : (size (<[k := v]> m) ≤ S (size m))%nat.
Proof. rewrite map_size_insert. destruct (m !! k); auto. Qed.
Lemma length_range `{!MapOrder} (m : gmap K V) : length (range m) = size m.
Proof. by rewrite range_perm, length_map_to_list. Qed.
End maps.

Section reserved.
Context {DB} `{!LevelDB DB} `{!LevelDBLaws DB} `{E : ElaCommon} `{!ElaCommonLaws E} `{!MapOrder} `{!DposState}.
Notation Cid := (customID DB).
Notation view c := (db_view (cid_db c)).

Definition id_wf (id : bytes) : Prop := Z.of_nat (length id) ≤ MaxVarStringLength.

Lemma read_ids_ok (l : list bytes) (m : gmap bytes unit) : Forall id_wf l →
  ∃ e : bytes, writes (forM l (wr VarStringC)) e ∧
    reads (read_ids (length l) m) e (foldl (λ m id, <[id := ()]> m) m l).
Proof.
  intros Hl. revert m. induction Hl as [|id l Hid _ IH]; intros m.
  - exists []. split; [apply writes_ret|apply reads_ret].
  - destruct (VarString_ok id Hid) as (b & Hw & Hr). destruct (IH (<[id := ()]> m)) as (e & Hwe & Hre).
    exists (b ++ e). split; [by apply writes_bind|]. cbn [length read_ids foldl].
    eapply reads_bind; [exact Hr|exact Hre].
Qed.
Lemma read_reserved_ok (l : list (bytes * Z)) (m : gmap bytes Z) : Forall (λ kv, id_wf kv.1 ∧ fits 32 kv.2) l →
  ∃ e : bytes, writes (forM l (λ kv, wr VarStringC kv.1 ≫= λ _, wr Uint32C kv.2)) e ∧
    reads (read_reserved (length l) m) e (insert_all m l).
Proof.
  intros Hl. revert m. induction Hl as [|[id h] l [Hid Hh] _ IH]; intros m.
  - exists []. split; [apply writes_ret|apply reads_ret].
  - cbn [fst snd] in Hid, Hh. destruct (VarString_ok id Hid) as (b & Hw & Hr).
    destruct (Uint32C_ok h Hh) as (b2 & Hw2 & Hr2). destruct (IH (<[id := h]> m)) as (e & Hwe & Hre).
    exists ((b ++ b2) ++ e). split; [by repeat apply writes_bind|]. cbn [length read_reserved].
    rewrite <-app_assoc. eapply reads_bind; [exact Hr|]. eapply reads_bind; [exact Hr2|exact Hre].
Qed.

Lemma buffer_writes m e : writes m e → buffer m = Ok e.
Proof. intros Hw. unfold buffer. by rewrite (Hw []). Qed.

(** What the reader of the reserved ids makes of a value. *)
Definition decode_reserved (v : bytes) : outcome (gmap bytes Z) :=
  ((count ← ReadVarUint 0; read_reserved (Z.to_nat count) ∅) v).1.
Definition reserved_db (m : gmap bytes bytes) : gmap bytes Z :=
  match m !! BKTReservedCustomID with
  | Some v => match decode_reserved v with Ok ids => ids | _ => ∅ end
  | None => ∅
  end.

Definition reserved_wf (ids : gmap bytes Z) : Prop :=
  (∀ id h, ids !! id = Some h → id_wf id ∧ fits 32 h) ∧ Z.of_nat (size ids) < 2 ^ 64.

Lemma reserved_roundtrip (ids : gmap bytes Z) : reserved_wf ids →
  ∃ w, buffer (WriteVarUint (Z.of_nat (size ids)) ≫= λ _,
      forM (range ids) (λ kv, wr VarStringC kv.1 ≫= λ _, wr Uint32C kv.2)) = Ok w ∧ decode_reserved w = Ok ids.
Proof.
  intros [Hwf Hsz]. destruct (read_reserved_ok (range ids) ∅) as (e & Hw & Hr).
  { apply Forall_forall. intros [id h] Hin%range_elem. by apply Hwf. }
  destruct (VarUint_ok (Z.of_nat (size ids))) as (b & Hwb & Hrb); [unfold fits; lia|]. cbn [wr rd] in Hwb, Hrb.
  exists (b ++ e). split; [by apply buffer_writes, writes_bind|].
  assert (Hrr : reads (count ← ReadVarUint 0; read_reserved (Z.to_nat count) ∅) (b ++ e) ids).
  { eapply reads_bind; [exact Hrb|]. rewrite Nat2Z.id, <-length_range. by rewrite insert_all_range in Hr. }
  unfold decode_reserved. specialize (Hrr []). rewrite app_nil_r in Hrr. by rewrite Hrr.
Qed.

(** The stored ids read, and the cache is empty or holds them. *)
Record cid_ok (c : Cid) : Prop := {
  co_db : ∀ v, view c !! BKTReservedCustomID = Some v → decode_reserved v = Ok (reserved_db (view c));
  co_wf : reserved_wf (reserved_db (view c));
  co_cache : size (reservedCustomIDs c) = 0%nat ∨ reservedCustomIDs c = reserved_db (view c);
}.

Lemma cid_get_key (c : Cid) k :
  cid_onDB (dbGet k) c = (match view c !! k with Some v => Ok v | None => Err ErrNotFound end, c).
Proof. unfold cid_onDB, zoom. rewrite dbGet_view. by destruct c. Qed.
Lemma onCid_run {A} (m : GoM Cid A) (c c' : Cid) (b : batch) o : m c = (o, c') → onCid m (c, b) = (o, (c', b)).
Proof. intros Hm. unfold onCid, zoom. cbn [fst snd]. by rewrite Hm. Qed.

Lemma loadReserved_run (c : Cid) : cid_ok c →
  loadReserved c = (Ok (), set_reserved (reserved_db (view c)) c).
Proof.
  intros Hok. unfold loadReserved. rewrite (bind_run getS _ _ _ _ eq_refl). case_decide as Hsz.
  - rewrite (bind_run _ _ c (reserved_db (view c)) c); [done|]. unfold getReservedCustomIDsFromDB.
    pose proof (cid_get_key c BKTReservedCustomID) as Hg.
    destruct (view c !! BKTReservedCustomID) as [v|] eqn:Hv.
    + rewrite (bind_run _ _ _ _ _ (try_run _ _ _ _ Hg)). unfold lift. fold (decode_reserved v).
      by rewrite (co_db c Hok v Hv).
    + rewrite (bind_run _ _ _ _ _ (try_run_err _ _ _ _ Hg)). rewrite decide_True by done.
      unfold reserved_db. by rewrite Hv.
  - destruct (co_cache c Hok) as [|Hc]; [done|]. rewrite <-Hc. by destruct c.
Qed.

Lemma reservedKey_ne p : reservedKey p ≠ BKTReservedCustomID.
Proof. unfold reservedKey, toKey. intros Heq%(f_equal length). rewrite length_app, arr_length in Heq. discriminate. Qed.

Lemma withBatch_run (m : GoM (Cid * batch) unit) (c c' : Cid) b : m (c, []) = (Ok (), (c', b)) →
  ∃ db', withBatch m c = (Ok (), cid_set_db db' c') ∧ db_view db' = apply_batch b (view c').
Proof.
  intros Hm. destruct (dbWrite_view (cid_db c') b) as (db' & Hw & Hv). exists db'. split; [|done].
  unfold withBatch. rewrite (bind_run _ _ c b c').
  - unfold cid_onDB, zoom. by rewrite Hw.
  - by rewrite Hm.
Qed.


(** The set of the listed ids. *)
Lemma id_set_lookup (l : list bytes) (m : gmap bytes unit) id :
  foldl (λ m id, <[id := ()]> m) m l !! id = if decide (id ∈ l) then Some () else m !! id.
Proof.
  revert m. induction l as [|x l IH]; intros m; [done|]. cbn [foldl]. rewrite IH.
  destruct (decide (id ∈ l)); [by rewrite decide_True by set_solver|].
  destruct (decide (x = id)) as [->|Hne].
  - rewrite decide_True by set_solver. apply lookup_insert_eq.
  - rewrite decide_False by set_solver. by apply lookup_insert_ne.
Qed.
Lemma id_set_size (l : list bytes) (m : gmap bytes unit) :
  (size (foldl (λ m id, <[id := ()]> m) m l) ≤ size m + length l)%nat.
Proof.
  revert m. induction l as [|x l IH]; intros m; cbn [foldl length]; [lia|].
  specialize (IH (<[x := ()]> m)). etrans; [exact IH|].
  rewrite Nat.add_succ_r. apply (proj1 (Nat.add_le_mono_r _ _ _) (size_insert_le m x ())).
Qed.

(** The waiting ids, entered at [height]. *)
Definition reserve (ids : gmap bytes unit) (height : Z) (m : gmap bytes Z) : gmap bytes Z :=
  foldl (λ m kv, <[kv.1 := height]> m) m (range ids).
Lemma reserve_lookup ids height m id :
  reserve ids height m !! id = if ids !! id then Some height else m !! id.
Proof.
  unfold reserve. assert (Hgen : ∀ l m, foldl (λ (m : gmap bytes Z) (kv : bytes * unit), <[kv.1 := height]> m) m l !! id =
    if decide (id ∈ l.*1) then Some height else m !! id).
  { clear. induction l as [|[x []] l IH]; intros m; [done|]. cbn [foldl fmap list_fmap fst]. rewrite IH.
    destruct (decide (id ∈ l.*1)); [by rewrite decide_True by set_solver|].
    destruct (decide (x = id)) as [->|Hne].
    - rewrite decide_True by set_solver. apply lookup_insert_eq.
    - rewrite decide_False by set_solver. by apply lookup_insert_ne. }
  rewrite Hgen. destruct (ids !! id) as [[]|] eqn:Hid.
  - rewrite decide_True; [done|]. by apply (list_elem_of_fmap_2 fst _ (id, ())), range_elem.
  - rewrite decide_False; [done|]. intros ([x []] & -> & Hin%range_elem)%list_elem_of_fmap. cbn in Hid. congruence.
Qed.
Lemma reserve_size ids height m : (size (reserve ids height m) ≤ size m + size ids)%nat.
Proof.
  unfold reserve. rewrite <-(length_range ids). generalize (range ids). intros l. revert m.
  induction l as [|[x []] l IH]; intros m; cbn [foldl length fst]; [apply Nat.le_add_r|].
  specialize (IH (<[x := height]> m)). etrans; [exact IH|].
  rewrite Nat.add_succ_r. apply (proj1 (Nat.add_le_mono_r _ _ _) (size_insert_le m x height)).
Qed.

(** The ids waiting for a proposal. *)
Definition waiting (c : Cid) (p : Uint256) (ids : gmap bytes unit) : Prop :=
  getControversialReservedCustomIDsFromDB p c = (Ok ids, c).

Lemma PutControversialReserved_run (c : Cid) l p : cid_ok c → Forall id_wf l → Z.of_nat (length l) < 2 ^ 64 →
  ∃ c1, PutControversialReservedCustomIDs l p c = (Ok (), c1) ∧ cid_ok c1 ∧
    reserved_db (view c1) = reserved_db (view c) ∧ waiting c1 p (foldl (λ m id, <[id := ()]> m) ∅ l).
Proof.
  intros Hok Hl Hlen. destruct (read_ids_ok l ∅ Hl) as (e & Hw & Hr).
  destruct (VarUint_ok (Z.of_nat (length l))) as (b & Hwb & Hrb); [unfold fits; lia|]. cbn [wr rd] in Hwb, Hrb.
  destruct (withBatch_run (batchPutControversialReservedCustomIDs l p) c c [BPut (reservedKey p) (b ++ e)])
    as (db' & Hrun & Hv).
  { unfold batchPutControversialReservedCustomIDs. rewrite (buffer_writes _ (b ++ e)) by (by apply writes_bind).
    by rewrite (bind_run (lift _) _ (c, []) (b ++ e) (c, [])) by done. }
  cbn in Hv. exists (cid_set_db db' c). split; [exact Hrun|].
  assert (Hres : db_view db' !! BKTReservedCustomID = view c !! BKTReservedCustomID)
    by (rewrite Hv; apply lookup_insert_ne, reservedKey_ne).
  assert (Hrd : reserved_db (db_view db') = reserved_db (view c)) by (unfold reserved_db; by rewrite Hres).
  split_and!; [|exact Hrd|].
  - split; cbn [cid_set_db cid_db reservedCustomIDs].
    + intros v. rewrite Hrd, Hres. apply (co_db c Hok).
    + rewrite Hrd. apply (co_wf c Hok).
    + rewrite Hrd. apply (co_cache c Hok).
  - unfold waiting, getControversialReservedCustomIDsFromDB. pose proof (cid_get_key (cid_set_db db' c) (reservedKey p)) as Hg.
    cbn [cid_set_db cid_db] in Hg. rewrite Hv, lookup_insert_eq in Hg. rewrite (bind_run _ _ _ _ _ Hg).
    assert (Hrr : reads (count ← ReadVarUint 0; read_ids (Z.to_nat count) ∅) (b ++ e) (foldl (λ m id, <[id := ()]> m) ∅ l)).
    { eapply reads_bind; [exact Hrb|]. by rewrite Nat2Z.id. }
    specialize (Hrr []). rewrite app_nil_r in Hrr. unfold lift. by rewrite Hrr.
Qed.

(** An accepted proposal moves its ids to the reserved ones. *)
Lemma PutResults_run (c : Cid) p ids height : cid_ok c → waiting c p ids → fits 32 height →
  (∀ id, is_Some (ids !! id) → id_wf id) →
  Z.of_nat (size (reserved_db (view c)) + size ids) < 2 ^ 64 →
  ∃ c2, PutCustomIDProposalResults [mkProposalResult p ReserveCustomID true] height c = (Ok (), c2) ∧ cid_ok c2 ∧
    reserved_db (view c2) = reserve ids height (reserved_db (view c)).
Proof.
  intros Hok Hwait Hh Hids Hsz. set (R := reserved_db (view c)) in *. set (R2 := reserve ids height R).
  assert (Hwf : reserved_wf R2).
  { split.
    - intros id h. unfold R2. rewrite reserve_lookup. destruct (ids !! id) as [[]|] eqn:Hid.
      + intros [= <-]. split; [apply Hids; by rewrite Hid|done].
      + intros Hr. by apply (proj1 (co_wf c Hok)).
    - pose proof (reserve_size ids height R). unfold R2. lia. }
  destruct (reserved_roundtrip R2 Hwf) as (w & Henc & Hdec).
  set (c1 := set_reserved R2 c).
  destruct (withBatch_run (batchPutCustomIDProposalResults [mkProposalResult p ReserveCustomID true] height) c c1
    [BPut BKTReservedCustomID w]) as (db' & Hrun & Hv).
  { unfold batchPutCustomIDProposalResults. cbn [forM].
    rewrite (bind_run _ _ (c, []) () (c1, [BPut BKTReservedCustomID w])); [done|].
    unfold putResult. cbn [pr_ProposalType pr_Result pr_ProposalHash].
    rewrite (bind_run _ _ _ _ _ (onCid_run _ _ _ [] _ (loadReserved_run c Hok))). fold R.
    assert (Hw' : waiting (set_reserved R c) p ids).
    { unfold waiting, getControversialReservedCustomIDsFromDB in *.
      pose proof (cid_get_key c (reservedKey p)) as Hg. pose proof (cid_get_key (set_reserved R c) (reservedKey p)) as Hg'.
      change (view (set_reserved R c)) with (view c) in Hg'. destruct (view c !! reservedKey p) as [v|].
      - rewrite (bind_run _ _ _ _ _ Hg) in Hwait. rewrite (bind_run _ _ _ _ _ Hg'). unfold lift in *. injection Hwait as Hwait. by rewrite Hwait.
      - by rewrite (bind_run_err _ _ _ _ _ Hg) in Hwait. }
    rewrite (bind_run _ _ _ _ _ (onCid_run _ _ _ [] _ Hw')).
    rewrite (bind_run (onCid (modify _)) _ _ () (c1, [])) by done.
    unfold batchPutReservedCustomIDs. rewrite (bind_run (onCid getS) _ _ c1 (c1, [])) by done.
    change (reservedCustomIDs c1) with R2. rewrite Henc. by rewrite (bind_run (lift (Ok w)) _ _ w (c1, [])) by done. }
  cbn in Hv. exists (cid_set_db db' c1). split; [exact Hrun|].
  assert (Hres : db_view db' !! BKTReservedCustomID = Some w) by (rewrite Hv; apply lookup_insert_eq).
  assert (Hrd : reserved_db (db_view db') = R2) by (unfold reserved_db; by rewrite Hres, Hdec).
  split; [|exact Hrd]. split; cbn [cid_set_db cid_db reservedCustomIDs]; rewrite Hrd; [|done|by right].
  intros v. rewrite Hres. by intros [= <-].
Qed.

Lemma GetReservedCustomIDs_view (c : Cid) height info : cid_ok c →
  ∃ m c', GetReservedCustomIDs height info c = (Ok m, c') ∧
    ∀ id, m !! id = Some () ↔ ∃ h, reserved_db (view c) !! id = Some h ∧ isProposalConfirmed height h info = true.
Proof.
  intros Hok. eexists _, _. split.
  - unfold GetReservedCustomIDs. rewrite (bind_run _ _ _ _ _ (loadReserved_run c Hok)).
    rewrite (bind_run getS _ _ _ _ eq_refl). reflexivity.
  - cbn [set_reserved reservedCustomIDs]. set (R := reserved_db (view c)). intros id.
    assert (Hgen : ∀ l m, foldl (λ (m : gmap bytes unit) (kv : bytes * Z),
        if isProposalConfirmed height kv.2 info then <[kv.1 := ()]> m else m) m l !! id = Some () ↔
      (∃ h, (id, h) ∈ l ∧ isProposalConfirmed height h info = true) ∨ m !! id = Some ()).
    { clear. induction l as [|[x h] l IH]; intros m; cbn [foldl fst snd].
      - split; [by right|]. intros [(h & Hin & _)|]; [by apply not_elem_of_nil in Hin|done].
      - rewrite IH. setoid_rewrite elem_of_cons. destruct (isProposalConfirmed height h info) eqn:Hc.
        + destruct (decide (x = id)) as [->|Hne].
          * rewrite lookup_insert_eq. split; [intros _; left; exists h; auto|]. auto.
          * rewrite lookup_insert_ne by done. split.
            -- intros [(h' & Hin & Hc')|Hm]; [left; exists h'; auto|by right].
            -- intros [(h' & [[= ? ->]|Hin] & Hc')|Hm]; [congruence|left; by exists h'|by right].
        + split.
          * intros [(h' & Hin & Hc')|Hm]; [left; exists h'; auto|by right].
          * intros [(h' & [[= ? ->]|Hin] & Hc')|Hm]; [congruence|left; by exists h'|by right]. }
    rewrite Hgen, lookup_empty. setoid_rewrite range_elem. split; [intros [Hx|]; [exact Hx|done]|by left].
Qed.

(** C38: the ids of an accepted reservation proposal join the reserved ids at
    the height of the result; [GetReservedCustomIDs] then answers exactly the
    ids whose result is confirmed, and so does the table opened again from the
    same database. *)
Theorem reserve_CustomIDs (c : Cid) l p height : cid_ok c → Forall id_wf l → fits 32 height →
  Z.of_nat (size (reserved_db (view c)) + length l) < 2 ^ 64 →
  ∃ c1 c2, PutControversialReservedCustomIDs l p c = (Ok (), c1) ∧
    PutCustomIDProposalResults [mkProposalResult p ReserveCustomID true] height c1 = (Ok (), c2) ∧ cid_ok c2 ∧
    (∀ id, reserved_db (view c2) !! id = if decide (id ∈ l) then Some height else reserved_db (view c) !! id) ∧
    ∀ h info c', c' = c2 ∨ c' = NewCustomID (cid_db c2) (GenesisBlockAddress c2) →
      ∃ m c'', GetReservedCustomIDs h info c' = (Ok m, c'') ∧
        ∀ id, m !! id = Some () ↔
          ∃ h', reserved_db (view c2) !! id = Some h' ∧ isProposalConfirmed h h' info = true.
Proof.
  intros Hok Hl Hh Hsz. destruct (PutControversialReserved_run c l p Hok Hl) as (c1 & Hr1 & Hok1 & Hrd1 & Hwait); [lia|].
  set (ids := foldl (λ m id, <[id := ()]> m) ∅ l) in *. pose proof (id_set_size l ∅) as Hidsz. rewrite map_size_empty in Hidsz.
  fold ids in Hidsz.
  destruct (PutResults_run c1 p ids height Hok1 Hwait Hh) as (c2 & Hr2 & Hok2 & Hrd2).
  { intros id. unfold ids. rewrite id_set_lookup, lookup_empty. case_decide as Hin; [|by intros []].
    intros _. rewrite Forall_forall in Hl. by apply Hl. }
  { rewrite Hrd1. lia. }
  exists c1, c2. split_and!; [done|done|done| |].
  - intros id. rewrite Hrd2, Hrd1, reserve_lookup. unfold ids. rewrite id_set_lookup, lookup_empty. by case_decide.
  - intros h info c' [->| ->]; [by apply GetReservedCustomIDs_view|].
    apply (GetReservedCustomIDs_view (NewCustomID (cid_db c2) (GenesisBlockAddress c2))).
    destruct Hok2 as [Hd Hw _]. split; [exact Hd|exact Hw|by left].
Qed.

(** [Clear] of the custom ids records its deletions in a batch of its own
    and writes the other one, which nothing fills: no id is deleted. *)
Theorem customID_Clear_keeps (c : Cid) : cid_b c = [] →
  ∃ c', customID_Clear c = (Ok (), c') ∧ view c' = view c.
Proof.
  intros Hb. destruct (dbWrite_view (cid_db c) []) as (db' & Hw & Hv). exists (cid_set_db db' c). split; [|done].
  assert (Hit : ∀ k, cid_onDB (dbIterate k) c = (Ok (ldb_Iterate (cid_db c) k), c)).
  { intros k. unfold cid_onDB, zoom, dbIterate. by destruct c. }
  unfold customID_Clear. rewrite (bind_run _ _ _ _ _ (Hit _)). rewrite (bind_run _ _ _ _ _ (Hit _)).
  rewrite (bind_run _ _ _ _ _ (Hit _)). cbv zeta. rewrite (bind_run getS _ _ _ _ eq_refl). rewrite Hb.
  unfold cid_onDB, zoom. by rewrite Hw.
Qed.
End reserved.
