(* ===== verification/Difficulty.v ===== *)
(** * Package [blockchain]: targets, work and proof of work

    [blockchain/difficulty.go].  [big.Int] is [Z]. *)
From S2P Require Import Ela Util Samples.

Definition PowLimit : Z := Z.shiftl 1 255 - 1.

Definition CompactToBig (compact : Z) : Z :=
  let mantissa := Z.land compact 0x007fffff in
  let isNegative := negb (Z.land compact 0x00800000 =? 0) in
  let exponent := Z.shiftr compact 24 in
  let bn := if exponent <=? 3 then Z.shiftr mantissa (8 * (3 - exponent))
            else Z.shiftl mantissa (8 * (exponent - 3)) in
  if isNegative then - bn else bn.

Definition CalcWork (bits : Z) : Z :=
  let difficultyNum := CompactToBig bits in
  if Z.sgn difficultyNum <=? 0 then 0
  else
    let denominator := difficultyNum + 1 in
    Z.shiftl 1 256 / denominator.

(** [for i := 0; i < blen/2; i++ { buf[i], buf[blen-1-i] = buf[blen-1-i], buf[i] }] *)
Fixpoint swap_loop (n i : nat) (buf : bytes) : bytes :=
  match n with
  | O => buf
  | S n =>
      let j := (length buf - 1 - i)%nat in
      let bi := nth i buf x00 in
      let bj := nth j buf x00 in
      swap_loop n (S i) (<[j := bi]> (<[i := bj]> buf))
  end.

Definition HashToBig (hash : Uint256) : Z :=
  let buf := arr_bytes hash in
  SetBytes (swap_loop (length buf / 2) 0 buf).

Section pow.
Context {H} `{BlockHeader H}.

Definition checkProofOfWork (header : Header H) : bool :=
  let target := CompactToBig (hdrBits header) in
  if Z.sgn target <=? 0 then false
  else if PowLimit <? target then false
  else
    let hashNum := HashToBig (hdrPowHash header) in
    if target <? hashNum then false else true.
End pow.

(** ** Facts *)
Lemma CompactToBig_value c :
  fits 32 c → Z.land c 0x00800000 = 0 →
  CompactToBig c =
    if Z.shiftr c 24 <=? 3 then Z.land c 0x007fffff / 256 ^ (3 - Z.shiftr c 24)
    else Z.land c 0x007fffff * 256 ^ (Z.shiftr c 24 - 3).
Proof.
  intros Hc Hs. unfold CompactToBig. rewrite Hs. cbn [Z.eqb negb].
  assert (0 ≤ Z.shiftr c 24) by (apply Z.shiftr_nonneg; apply Hc).
  change 256 with (2 ^ 8).
  destruct (Z.leb_spec (Z.shiftr c 24) 3); rewrite <-Z.pow_mul_r by lia.
  - by rewrite Z.shiftr_div_pow2 by lia.
  - by rewrite Z.shiftl_mul_pow2 by lia.
Qed.

(** The work is the number of hashes expected to meet the target. *)
Lemma CalcWork_spec bits :
  let t := CompactToBig bits in
  (t ≤ 0 → CalcWork bits = 0) ∧
  (0 < t → CalcWork bits * (t + 1) ≤ 2 ^ 256 < (CalcWork bits + 1) * (t + 1)).
Proof.
  intros t. unfold CalcWork. fold t. split; intros Ht.
  - assert (Z.sgn t ≤ 0) by (destruct t; simpl; lia). by rewrite (proj2 (Z.leb_le _ _)) by lia.
  - assert (0 < Z.sgn t) by (destruct t; simpl; lia). rewrite (proj2 (Z.leb_gt _ _)) by lia.
    rewrite shl1_pow2 by lia. pose proof (Z.div_mod (2 ^ 256) (t + 1) ltac:(lia)).
    pose proof (Z.mod_pos_bound (2 ^ 256) (t + 1) ltac:(lia)). split; nia.
Qed.

Lemma CalcWork_nonneg bits : 0 ≤ CalcWork bits.
Proof.
  pose proof (CalcWork_spec bits) as [H0 H1].
  destruct (decide (CompactToBig bits ≤ 0)); [rewrite H0; lia|].
  specialize (H1 ltac:(lia)). nia.
Qed.

Lemma swap_loop_reverse n a b m :
  length a = length b → (length m = 2 * n ∨ length m = 2 * n + 1)%nat →
  swap_loop n (length a) (a ++ m ++ b) = a ++ reverse m ++ b.
Proof.
  revert a b m. induction n as [|n IH]; intros a b m Hab Hm.
  { destruct m as [|x [|y m]]; simpl in Hm; [done|done|lia]. }
  destruct m as [|x m]; [simpl in Hm; lia|].
  destruct (exists_last (l := m)) as (m' & y & ->); [intros ->; simpl in Hm; lia|].
  cbn [swap_loop]. cbn [length] in Hm. rewrite length_app in Hm. simpl in Hm.
  set (buf := a ++ (x :: m' ++ [y]) ++ b).
  assert (Hl : (length buf - 1 - length a = length a + S (length m'))%nat).
  { unfold buf. rewrite !length_app. cbn [length]. rewrite length_app. simpl. lia. }
  rewrite Hl. unfold buf. clear Hl buf.
  replace (nth (length a) (a ++ (x :: m' ++ [y]) ++ b) x00) with x
    by (rewrite app_nth2, Nat.sub_diag by lia; done).
  replace (nth (length a + S (length m')) (a ++ (x :: m' ++ [y]) ++ b) x00) with y.
  2: { rewrite app_nth2_plus. cbn. rewrite <-app_assoc, app_nth2, Nat.sub_diag by lia. done. }
  assert (H1 : <[length a := y]> (a ++ (x :: m' ++ [y]) ++ b) = a ++ y :: m' ++ y :: b).
  { pose proof (insert_app_r a ((x :: m' ++ [y]) ++ b) 0 y) as Hi. rewrite Nat.add_0_r in Hi.
    rewrite Hi. cbn. by rewrite <-app_assoc. }
  assert (H2 : <[(length a + S (length m'))%nat := x]> (a ++ y :: m' ++ y :: b)
               = a ++ y :: m' ++ x :: b).
  { rewrite insert_app_r. cbn. do 2 f_equal.
    pose proof (insert_app_r m' (y :: b) 0 x) as Hi. by rewrite Nat.add_0_r in Hi. }
  rewrite H1, H2.
  replace (S (length a)) with (length (a ++ [y])) by (rewrite length_app; simpl; lia).
  replace (a ++ y :: m' ++ x :: b) with ((a ++ [y]) ++ m' ++ (x :: b)) by (by rewrite <-app_assoc).
  rewrite IH; [|rewrite length_app; simpl; lia|lia].
  rewrite reverse_cons, reverse_snoc, <-!app_assoc. done.
Qed.

Lemma HashToBig_le hash : HashToBig hash = le_value (arr_bytes hash).
Proof.
  unfold HashToBig. rewrite (arr_length hash).
  pose proof (swap_loop_reverse 16 [] [] (arr_bytes hash) eq_refl) as Hs.
  rewrite !app_nil_r in Hs. cbn [app length] in Hs. change (32 / 2)%nat with 16%nat. rewrite Hs by (left; apply arr_length).
  unfold SetBytes, be_value. by rewrite reverse_involutive.
Qed.

Lemma checkProofOfWork_iff {H} `{BlockHeader H} (header : Header H) :
  checkProofOfWork header = true ↔
  0 < CompactToBig (hdrBits header) < 2 ^ 255 ∧
  le_value (arr_bytes (hdrPowHash header)) ≤ CompactToBig (hdrBits header).
Proof.
  unfold checkProofOfWork, PowLimit. rewrite shl1_pow2, HashToBig_le by lia.
  set (t := CompactToBig _).
  assert (Hs : (Z.sgn t <=? 0) = (t <=? 0)) by (by destruct t). rewrite Hs.
  destruct (Z.leb_spec t 0), (Z.ltb_spec (2 ^ 255 - 1) t),
    (Z.ltb_spec t (le_value (arr_bytes (hdrPowHash header)))); split; intros; try done; lia.
Qed.

(** [checkProofOfWork] accepts exactly the headers whose target is positive
    and below 2^255 and whose proof-of-work hash, read as a little-endian
    number, does not exceed the target. *)
Theorem checkProofOfWork_spec {H} `{BlockHeader H} (header : Header H) :
  checkProofOfWork header = true ↔
  0 < CompactToBig (hdrBits header) < 2 ^ 255 ∧
  le_value (arr_bytes (hdrPowHash header)) ≤ CompactToBig (hdrBits header).
Proof. apply checkProofOfWork_iff. Qed.

Lemma checkProofOfWork_pos {H} `{BlockHeader H} (header : Header H) :
  checkProofOfWork header = true → 2 ≤ CalcWork (hdrBits header).
Proof.
  intros [[Ht Hl] _]%checkProofOfWork_iff. pose proof (CalcWork_spec (hdrBits header)) as [_ Hw]. specialize (Hw Ht).
  change (2 ^ 256) with (2 * 2 ^ 255) in Hw. nia.
Qed.

(** a header that passes the proof-of-work check adds at least 2 to the
    chain's work, and the work added is the floor of 2^256 / (target + 1). *)
Theorem checkProofOfWork_work {H} `{BlockHeader H} (header : Header H) :
  checkProofOfWork header = true →
  let t := CompactToBig (hdrBits header) in
  2 ≤ CalcWork (hdrBits header) ∧ CalcWork (hdrBits header) = 2 ^ 256 / (t + 1).
Proof.
  intros Hc t. split; [by apply checkProofOfWork_pos|]. apply checkProofOfWork_iff in Hc as [[Ht Hl] _]. fold t in Ht, Hl.
  pose proof (CalcWork_spec (hdrBits header)) as [_ Hw]. fold t in Hw. specialize (Hw Ht).
  apply (Z.div_unique _ _ _ (2 ^ 256 - CalcWork (hdrBits header) * (t + 1))); [left|]; nia.
Qed.

Lemma checkProofOfWork_work_witness :
  let header := mkHeader (mksh (h256 1) (h256 2) 0x207fffff 6) 7 2 [] [] 0 in
  2 ≤ CalcWork (hdrBits header) ∧
  CalcWork (hdrBits header) = 2 ^ 256 / (CompactToBig (hdrBits header) + 1).
Proof. apply checkProofOfWork_work. vm_compute. reflexivity. Defined.
