(* ===== verification/Chain.v ===== *)
(** * Packages [database] and [blockchain]: the chain of headers

    The interfaces [database.Headers] and [database.TxsDB], their combination
    [chainDB] ([database/chaindb.go]) and the [BlockChain]
    ([blockchain/blockchain.go]).  The chain lock makes every exported call
    atomic: a call is a function of the store. *)
From S2P Require Export Ela Util Difficulty.

(** ** The interfaces of the two databases *)

(** [database.Headers] *)
Class HeadersDB (HS H : Type) := {
  hdPut : Header H → bool → GoM HS unit;
  hdGetPrevious : Header H → GoM HS (Header H);
  hdGet : Uint256 → GoM HS (Header H);
  hdGetBest : GoM HS (Header H);
  hdClear : GoM HS unit;
  hdClose : GoM HS unit;
}.

(** [database.TxsDB] *)
Class TxsDB (TS T : Type) := {
  tdPutTxs : list T → Z → GoM TS Z;
  tdPutForkTxs : list T → Uint256 → GoM TS unit;
  tdHaveTx : Uint256 → GoM TS bool;
  tdGetTxs : Z → GoM TS (list T);
  tdGetForkTxs : Uint256 → GoM TS (list T);
  tdDelTxs : Z → GoM TS unit;
  tdClear : GoM TS unit;
  tdClose : GoM TS unit;
}.

(** ** [chainDB] *)
Record chainDB (HS TS : Type) := mkChainDB { cd_h : HS; cd_t : TS }.
Arguments mkChainDB {HS TS}.
Arguments cd_h {HS TS}.
Arguments cd_t {HS TS}.

Section chaindb.
Context {HS TS H T} `{BlockHeader H} `{HDB : HeadersDB HS H} `{TDB : TxsDB TS T}.
Notation DB := (chainDB HS TS).

Definition onHeaders {A} (m : GoM HS A) : GoM DB A :=
  zoom cd_h (λ h d, mkChainDB h (cd_t d)) m.
Definition onTxs {A} (m : GoM TS A) : GoM DB A :=
  zoom cd_t (λ t d, mkChainDB (cd_h d) t) m.

Definition chainDB_CommitBlock (block : Block H T) (newTip : bool) : GoM DB Z :=
  onHeaders (hdPut (BlockHdr block) newTip) ≫= λ _,
  if newTip then onTxs (tdPutTxs (Transactions block) (Height (BlockHdr block)))
  else
    let hash := hdrHash (BlockHdr block) in
    onTxs (tdPutForkTxs (Transactions block) hash) ≫= λ _, mret 0.

(** 1. Move the transactions of [header] and its ancestors, down to [root], to
    the fork store. *)
Fixpoint moveToFork (fuel : nat) (root : Uint256) (header : Header H) : GoL DB unit :=
  match fuel with
  | O => mret None
  | S fuel =>
      let hash := hdrHash header in
      if decide (hash = root) then mret (Some ())
      else
        txs ← onTxs (tdGetTxs (Height header));
        onTxs (tdPutForkTxs txs hash) ≫= λ _,
        onTxs (tdDelTxs (Height header)) ≫= λ _,
        header ← onHeaders (hdGetPrevious header);
        moveToFork fuel root header
  end.

(** 2. Index [header] and its ancestors, down to [root], by previous hash. *)
Fixpoint indexSubChain (fuel : nat) (root : Uint256) (header : Header H)
    (subChain : gmap Uint256 (Header H)) : GoL DB (gmap Uint256 (Header H)) :=
  match fuel with
  | O => mret None
  | S fuel =>
      let hash := hdrHash header in
      if decide (hash = root) then mret (Some subChain)
      else
        let subChain := <[hdrPrevious header := header]> subChain in
        header ← onHeaders (hdGetPrevious header);
        indexSubChain fuel root header subChain
  end.

(** 3. Put the transactions from [header] up to [tip] on the main chain. *)
Fixpoint connectSubChain (fuel : nat) (subChain : gmap Uint256 (Header H)) (tip : Uint256)
    (header : Header H) : GoL DB unit :=
  match fuel with
  | O => mret None
  | S fuel =>
      let newRoot := hdrHash header in
      if decide (newRoot = tip) then mret (Some ())
      else
        txs ← onTxs (tdGetForkTxs newRoot);
        onTxs (tdPutTxs txs (Height header)) ≫= λ _,
        header ← lift (or_panic (subChain !! newRoot));
        connectSubChain fuel subChain tip header
  end.

(** The fuel of each loop is the number of headers it can visit. *)
Definition chainDB_ProcessReorganize (commonAncestor prevTip newTip : Header H) : GoL DB unit :=
  let root := hdrHash commonAncestor in
  _ ←ₗ moveToFork (S (Z.to_nat (Height prevTip))) root prevTip;
  subChain ←ₗ indexSubChain (S (Z.to_nat (Height newTip))) root newTip ∅;
  let tip := hdrHash newTip in
  header ←ₗ done_ (lift (or_panic (subChain !! root)));
  _ ←ₗ connectSubChain (S (Z.to_nat (Height newTip))) subChain tip header;
  done_ (onHeaders (hdPut newTip true)).

Definition chainDB_Clear : GoM DB unit := onHeaders hdClear ≫= λ _, onTxs tdClear.
Definition chainDB_Close : GoM DB unit := onHeaders hdClose ≫= λ _, onTxs tdClose.
End chaindb.

(** ** [BlockChain] *)
Definition MaxBlockLocatorHashes : nat := 100.
Definition OrphanBlockError : goerr := ErrVar "OrphanBlockError".

Record commitResult := mkCommitResult {
  cr_newTip : bool; cr_reorg : bool; cr_newHeight : Z; cr_fps : Z; cr_err : option goerr;
}.

Section blockchain.
Context {HS TS H T} `{BlockHeader H} `{HDB : HeadersDB HS H} `{TDB : TxsDB TS T}.
Notation DB := (chainDB HS TS).

Definition BlockChain_New (genesisHeader : H) : GoM DB unit :=
  best ← try (onHeaders hdGetBest);
  match best with
  | inl _ =>
      let storeHeader := mkHeader genesisHeader 0 0 [] [] 0 in
      onHeaders (hdPut storeHeader true)
  | inr _ => mret ()
  end.

Definition checkHeader (header prevHeader : Header H) : bool :=
  let prevHash := hdrHash prevHeader in
  if negb (bool_decide (prevHash = hdrPrevious header)) then false
  else if negb (checkProofOfWork header) then false
  else true.

(** The closure [rollback] of [getCommonAncestor] and [LatestBlockLocator]. *)
Fixpoint rollback (n : nat) (parent : Header H) : GoM DB (Header H) :=
  match n with
  | O => mret parent
  | S n => parent ← onHeaders (hdGetPrevious parent); rollback n parent
  end.

Fixpoint commonLoop (fuel : nat) (majority minority : Header H) : GoL DB (Header H) :=
  match fuel with
  | O => mret None
  | S fuel =>
      if decide (hdrHash majority = hdrHash minority) then mret (Some majority)
      else
        majority ← onHeaders (hdGetPrevious majority);
        minority ← onHeaders (hdGetPrevious minority);
        commonLoop fuel majority minority
  end.

Definition getCommonAncestor (bestHeader prevTip : Header H) : GoL DB (Header H) :=
  majority ← (if Height prevTip <? Height bestHeader
              then rollback (Z.to_nat (u32 (Height bestHeader - Height prevTip))) bestHeader
              else mret bestHeader);
  minority ← (if Height prevTip <? Height bestHeader then mret prevTip
              else if Height bestHeader <? Height prevTip
              then rollback (Z.to_nat (u32 (Height prevTip - Height bestHeader))) prevTip
              else mret prevTip);
  commonLoop (S (Z.to_nat (Height majority))) majority minority.

(** The call also returns the block, whose header it fills in. *)
Definition CommitBlock (block : Block H T) : GoL DB (commitResult * Block H T) :=
  best ← try (onHeaders hdGetBest);
  match best with
  | inl e => mret (Some (mkCommitResult false false 0 0 (Some e), block))
  | inr bestHeader =>
    let header := BlockHdr block in
    let tipHash := hdrHash bestHeader in
    parent ← (if decide (hdrPrevious header = tipHash) then mret (inr bestHeader)
              else try (onHeaders (hdGetPrevious header)));
    match parent with
    | inl _ => mret (Some (mkCommitResult false false 0 0 (Some OrphanBlockError), block))
    | inr parentHeader =>
      if negb (checkHeader header parentHeader)
      then mret (Some (mkCommitResult false false 0 0 None, block))
      else if decide (tipHash = hdrHash header)
      then mret (Some (mkCommitResult false false 0 0 None, block))
      else
        let cumulativeWork := TotalWork parentHeader + CalcWork (hdrBits header) in
        let newTip := TotalWork bestHeader <? cumulativeWork in
        let reorg := newTip && negb (bool_decide (tipHash = hdrHash parentHeader)) in
        let newHeight := u32 (Height parentHeader + 1) in
        let header := mkHeader (BlockHeaderOf header) newHeight (NumTxs header) (Hashes header)
                        (Flags header) cumulativeWork in
        let block := mkBlock header (Transactions block) in
        fps ← try (chainDB_CommitBlock block newTip);
        match fps with
        | inl e => mret (Some (mkCommitResult newTip reorg 0 0 (Some e), block))
        | inr fps =>
          if negb reorg then mret (Some (mkCommitResult newTip reorg newHeight fps None, block))
          else
            ancestor ←ₗ tryL (getCommonAncestor header bestHeader);
            match ancestor with
            | inl e => mret (Some (mkCommitResult newTip reorg 0 0 (Some e), block))
            | inr commonAncestor =>
              done ←ₗ tryL (chainDB_ProcessReorganize commonAncestor bestHeader header);
              mret (Some (match done with
                | inl e => mkCommitResult newTip reorg 0 0 (Some e)
                | inr _ => mkCommitResult newTip reorg newHeight fps None
                end, block))
            end
        end
    end
  end.

Definition HaveBlock (hash : Uint256) : GoM DB bool :=
  header ← try (onHeaders (hdGet hash));
  mret (match header with inl _ => false | inr _ => true end).

(** Each turn appends a hash, so [MaxBlockLocatorHashes] turns are enough. *)
Fixpoint locatorLoop (fuel : nat) (step start : nat) (parent : Header H) (ret : list Uint256) :
    GoL DB (list Uint256) :=
  match fuel with
  | O => mret None
  | S fuel =>
      let '(step, start) := if (9 <=? start)%nat then ((step * 2)%nat, 0%nat) else (step, start) in
      let ret := ret ++ [hdrHash parent] in
      if (MaxBlockLocatorHashes <=? length ret)%nat then mret (Some ret)
      else
        parent ← try (rollback step parent);
        match parent with
        | inl _ => mret (Some ret)
        | inr parent => locatorLoop fuel step (start + 1) parent ret
        end
  end.

Definition LatestBlockLocator : GoL DB (list Uint256) :=
  parent ← try (onHeaders hdGetBest);
  match parent with
  | inl _ => mret (Some [])
  | inr parent => locatorLoop MaxBlockLocatorHashes 1 0 parent []
  end.

Definition BestHeight : GoM DB Z :=
  best ← try (onHeaders hdGetBest);
  mret (match best with inl _ => 0 | inr best => Height best end).

Definition BlockChain_Clear : GoM DB unit := chainDB_Clear.
Definition BlockChain_Close : GoM DB unit := chainDB_Close.
End blockchain.
