(* ===== verification/ChainSpec.v ===== *)
(** * The chain: laws of the databases and the invariant of the headers

    What [BlockChain] relies on in its two databases ([HeadersLaws],
    [TxsLaws]), the invariant of the header tree, and that [CommitBlock]
    preserves it and answers as documented on every branch. *)
From S2P Require Export Chain.

(** ** The contracts of the databases *)

(** A header store keeps the last header put under each hash and the last one
    put as the tip; [hd_fits] says which headers it can serialize. *)
Class HeadersLaws (HS H : Type) `{BlockHeader H} `{!HeadersDB HS H} := {
  hd_ok : HS → Prop;
  hd_fits : Header H → Prop;
  hd_view : HS → gmap Uint256 (Header H);
  hd_best : HS → option (Header H);
  hdGet_law s hash : hd_ok s →
    match hd_view s !! hash with
    | Some h => hdGet hash s = (Ok h, s)
    | None => ∃ e, hdGet hash s = (Err e, s)
    end;
  hdGetPrevious_law s (h : Header H) : hdGetPrevious h s = hdGet (hdrPrevious h) s;
  hdGetBest_law s : hd_ok s →
    match hd_best s with
    | Some h => hdGetBest s = (Ok h, s)
    | None => ∃ e, hdGetBest s = (Err e, s)
    end;
  hdPut_law s h newTip : hd_ok s → hd_fits h →
    ∃ s', hdPut h newTip s = (Ok (), s') ∧ hd_ok s' ∧
      hd_view s' = <[hdrHash h := h]> (hd_view s) ∧
      hd_best s' = if newTip then Some h else hd_best s;
}.

(** A transaction store as the comments of [database.TxsDB] describe it.  The
    main chain keeps only the transactions of interest ([td_keep]), the others
    are the false positives it counts. *)
Class TxsLaws (TS T : Type) `{!TxsDB TS T} := {
  td_main : TS → Z → list T;
  td_fork : TS → gmap Uint256 (list T);
  td_keep : T → bool;
  tdPutTxs_law s txs height :
    ∃ s' fps, tdPutTxs txs height s = (Ok fps, s') ∧ td_fork s' = td_fork s ∧
      ∀ x, td_main s' x = td_main s x ++ (if decide (x = height) then filter (λ t, td_keep t) txs else []);
  tdPutForkTxs_law s txs hash :
    ∃ s', tdPutForkTxs txs hash s = (Ok (), s') ∧ td_fork s' = <[hash := txs]> (td_fork s) ∧
      ∀ x, td_main s' x = td_main s x;
  tdGetTxs_law s height : tdGetTxs height s = (Ok (td_main s height), s);
  tdGetForkTxs_law s hash txs : td_fork s !! hash = Some txs → tdGetForkTxs hash s = (Ok txs, s);
  tdDelTxs_law s height :
    ∃ s', tdDelTxs height s = (Ok (), s') ∧ td_fork s' = td_fork s ∧
      ∀ x, td_main s' x = if decide (x = height) then [] else td_main s x;
}.

(** ** The header tree *)
Section tree.
Context {H} `{BlockHeader H} (genesis : Header H).
Implicit Types (m : gmap Uint256 (Header H)) (h p best : Header H).

Definition child_of p h : Prop :=
  hdrPrevious h = hdrHash p ∧ Height h = Height p + 1 ∧
  TotalWork h = TotalWork p + CalcWork (hdrBits h).

(** Every header but the genesis extends a stored header, one higher and with
    its work added. *)
Record tree_inv m : Prop := {
  ti_key : ∀ k h, m !! k = Some h → hdrHash h = k;
  ti_height : ∀ k h, m !! k = Some h → 0 ≤ Height h;
  ti_genesis : m !! hdrHash genesis = Some genesis ∧ Height genesis = 0 ∧ TotalWork genesis = 0 ∧
    m !! hdrPrevious genesis = None;
  ti_parent : ∀ k h, m !! k = Some h → k ≠ hdrHash genesis →
    ∃ p, m !! hdrPrevious h = Some p ∧ child_of p h;
}.

(** The tip is a stored header, and none has more work. *)
Record chain_inv m best : Prop := {
  ci_tree : tree_inv m;
  ci_best : m !! hdrHash best = Some best;
  ci_most : ∀ k h, m !! k = Some h → TotalWork h ≤ TotalWork best;
}.

Lemma lookup_key m k h : tree_inv m → m !! k = Some h → m !! hdrHash h = Some h.
Proof. intros Ht Hk. by rewrite (ti_key m Ht k h Hk). Qed.

Lemma parent_of m h :
  tree_inv m → m !! hdrHash h = Some h → 0 < Height h →
  ∃ p, m !! hdrPrevious h = Some p ∧ m !! hdrHash p = Some p ∧ child_of p h.
Proof.
  intros Ht Hk Hh. destruct (ti_parent m Ht _ _ Hk) as (p & Hp & Hc).
  - intros Heq. destruct (ti_genesis m Ht) as (Hg & Hg0 & _). rewrite Heq, Hg in Hk.
    simplify_eq. lia.
  - exists p. split; [done|]. split; [by eapply lookup_key|done].
Qed.
Lemma height_0 m h : tree_inv m → m !! hdrHash h = Some h → Height h = 0 → h = genesis.
Proof.
  intros Ht Hk Hh. destruct (decide (hdrHash h = hdrHash genesis)) as [Heq|Hne].
  - destruct (ti_genesis m Ht) as (Hg & _). rewrite Heq in Hk. congruence.
  - destruct (ti_parent m Ht _ _ Hk Hne) as (p & Hp & _ & Hc & _).
    pose proof (ti_height m Ht _ _ Hp). lia.
Qed.

(** ** Branches: the headers [l] lead up from [p], one at a time *)
Fixpoint linked m p (l : list (Header H)) : Prop :=
  m !! hdrHash p = Some p ∧
  match l with [] => True | h :: l => child_of p h ∧ linked m h l end.

Definition tip_of p (l : list (Header H)) : Header H := default p (last l).

Lemma linked_start m p l : linked m p l → m !! hdrHash p = Some p.
Proof. by destruct l; intros [? ?]. Qed.
Lemma tip_of_cons p h l : tip_of p (h :: l) = tip_of h l.
Proof. unfold tip_of. rewrite last_cons. by destruct (last l). Qed.
Lemma tip_of_snoc p l h : tip_of p (l ++ [h]) = h.
Proof. unfold tip_of. by rewrite last_snoc. Qed.
Lemma tip_of_app p l1 l2 : tip_of p (l1 ++ l2) = tip_of (tip_of p l1) l2.
Proof. unfold tip_of. rewrite last_app. by destruct (last l2). Qed.
Lemma linked_app m p l1 l2 : linked m p (l1 ++ l2) ↔ linked m p l1 ∧ linked m (tip_of p l1) l2.
Proof.
  revert p. induction l1 as [|h l1 IH]; intros p; simpl.
  - split; [intros Hl; split; [by split; [eapply linked_start|]|done]|by intros [_ ?]].
  - rewrite IH, tip_of_cons. tauto.
Qed.
Lemma linked_tip m p l : linked m p l → m !! hdrHash (tip_of p l) = Some (tip_of p l).
Proof.
  revert p. induction l as [|h l IH]; intros p; [apply linked_start|].
  intros (_ & _ & Hl). rewrite tip_of_cons. by apply IH.
Qed.
Lemma linked_snoc m p l h :
  linked m p (l ++ [h]) ↔ linked m p l ∧ child_of (tip_of p l) h ∧ m !! hdrHash h = Some h.
Proof.
  rewrite linked_app. simpl. split; [by intros (Hl & _ & Hc & Hk & _)|].
  intros (Hl & Hc & Hk). split_and!; try done. by apply linked_tip.
Qed.
Lemma linked_height m p l : linked m p l → Height (tip_of p l) = Height p + Z.of_nat (length l).
Proof.
  revert p. induction l as [|h l IH]; intros p Hl; [cbn; lia|].
  destruct Hl as (_ & (_ & Hh & _) & Hl). rewrite tip_of_cons, (IH _ Hl). cbn [length]. lia.
Qed.
Lemma linked_elem m p l h :
  linked m p l → h ∈ l → m !! hdrHash h = Some h ∧ Height p < Height h ≤ Height (tip_of p l).
Proof.
  intros Hl (l1 & l2 & ->)%list_elem_of_split.
  replace (l1 ++ h :: l2) with ((l1 ++ [h]) ++ l2) in * by (by rewrite <-app_assoc).
  apply linked_app in Hl as [Hl1 Hl2]. rewrite tip_of_app.
  pose proof (linked_height _ _ _ Hl1) as E1. pose proof (linked_height _ _ _ Hl2) as E2.
  rewrite tip_of_snoc in *. rewrite length_app in E1. simpl in E1.
  apply linked_snoc in Hl1 as (_ & _ & ?). split; [done|lia].
Qed.

(** Equal hashes are equal headers. *)
Lemma hash_eq m h1 h2 :
  m !! hdrHash h1 = Some h1 → m !! hdrHash h2 = Some h2 → hdrHash h1 = hdrHash h2 → h1 = h2.
Proof. intros H1 H2 He. rewrite He in H1. congruence. Qed.

Definition disjoint_branches (l1 l2 : list (Header H)) : Prop :=
  ∀ h1 h2, h1 ∈ l1 → h2 ∈ l2 → hdrHash h1 ≠ hdrHash h2.

Lemma disjoint_extend m p l1 l2 h1 h2 :
  linked m p (l1 ++ [h1]) → linked m p (l2 ++ [h2]) → Height h1 = Height h2 →
  hdrHash h1 ≠ hdrHash h2 → disjoint_branches l1 l2 →
  disjoint_branches (l1 ++ [h1]) (l2 ++ [h2]).
Proof.
  intros L1 L2 Hh Hne Hd a b Ha Hb Heq.
  destruct (linked_elem _ _ _ _ L1 Ha) as [Ka Ha']. destruct (linked_elem _ _ _ _ L2 Hb) as [Kb Hb'].
  pose proof (hash_eq _ _ _ Ka Kb Heq). subst b.
  pose proof (linked_height _ _ _ L1) as E1. pose proof (linked_height _ _ _ L2) as E2.
  rewrite tip_of_snoc in *.
  apply elem_of_app in Ha as [Ha|Ha]; apply elem_of_app in Hb as [Hb|Hb].
  - by eapply Hd.
  - apply list_elem_of_singleton in Hb. subst a. apply linked_snoc in L1 as (L1 & Hc & _).
    destruct (linked_elem _ _ _ _ L1 Ha) as [_ ?]. destruct Hc as (_ & ? & _). lia.
  - apply list_elem_of_singleton in Ha. subst a. apply linked_snoc in L2 as (L2 & Hc & _).
    destruct (linked_elem _ _ _ _ L2 Hb) as [_ ?]. destruct Hc as (_ & ? & _). lia.
  - apply list_elem_of_singleton in Ha. apply list_elem_of_singleton in Hb. congruence.
Qed.
Lemma disjoint_higher m p l1 l2 l3 :
  linked m p l1 → linked m p (l2 ++ l3) → Height (tip_of p l1) = Height (tip_of p l2) →
  disjoint_branches l1 l2 → disjoint_branches l1 (l2 ++ l3).
Proof.
  intros L1 L2 Hh Hd a b Ha Hb Heq. apply elem_of_app in Hb as [Hb|Hb]; [by eapply Hd|].
  apply linked_app in L2 as [_ L3].
  destruct (linked_elem _ _ _ _ L1 Ha) as [Ka ?]. destruct (linked_elem _ _ _ _ L3 Hb) as [Kb ?].
  pose proof (hash_eq _ _ _ Ka Kb Heq). subst b. lia.
Qed.
End tree.

(** ** Walking back through the headers *)
Section walk.
Context {HS TS H T} `{BlockHeader H} `{!HeadersDB HS H} `{!TxsDB TS T} `{!HeadersLaws HS H}.
Context (genesis : Header H).
Implicit Types (s : chainDB HS TS) (m : gmap Uint256 (Header H)).

Lemma onHeaders_read {A} (op : GoM HS A) s o : op (cd_h s) = (o, cd_h s) → onHeaders op s = (o, s).
Proof. intros Hop. unfold onHeaders, zoom. rewrite Hop. by destruct s. Qed.

Lemma getPrevious_run s h p :
  hd_ok (cd_h s) → hd_view (cd_h s) !! hdrPrevious h = Some p →
  onHeaders (hdGetPrevious h) s = (Ok p, s).
Proof.
  intros Hok Hp. apply onHeaders_read. rewrite hdGetPrevious_law.
  pose proof (hdGet_law (cd_h s) (hdrPrevious h) Hok) as Hg. by rewrite Hp in Hg.
Qed.
Lemma getPrevious_err s h :
  hd_ok (cd_h s) → hd_view (cd_h s) !! hdrPrevious h = None →
  ∃ e, onHeaders (hdGetPrevious h) s = (Err e, s).
Proof.
  intros Hok Hp. pose proof (hdGet_law (cd_h s) (hdrPrevious h) Hok) as Hg. rewrite Hp in Hg.
  destruct Hg as (e & Hg). exists e. apply onHeaders_read. by rewrite hdGetPrevious_law.
Qed.
Lemma getBest_run s h :
  hd_ok (cd_h s) → hd_best (cd_h s) = Some h → onHeaders hdGetBest s = (Ok h, s).
Proof.
  intros Hok Hb. apply onHeaders_read. pose proof (hdGetBest_law (cd_h s) Hok) as Hg.
  by rewrite Hb in Hg.
Qed.

(** [n] steps back from [h]. *)
Lemma rollback_spec s n h :
  let m := hd_view (cd_h s) in
  hd_ok (cd_h s) → tree_inv genesis m → m !! hdrHash h = Some h → Z.of_nat n ≤ Height h →
  ∃ p l, rollback n h s = (Ok p, s) ∧ linked m p l ∧ tip_of p l = h ∧ length l = n.
Proof.
  intros m Hok Ht. revert h. induction n as [|n IH]; intros h Hh Hn.
  { by exists h, []. }
  destruct (parent_of genesis m h Ht Hh) as (p & Hp & Hpk & Hc); [lia|].
  destruct (IH p Hpk) as (q & l & Hr & Hl & Htip & Hlen); [destruct Hc as (_ & ? & _); lia|].
  exists q, (l ++ [h]). cbn [rollback]. rewrite (bind_run _ _ s p s) by (by apply getPrevious_run).
  split_and!; [done| |by rewrite tip_of_snoc|rewrite length_app; simpl; lia].
  apply linked_snoc. by rewrite Htip.
Qed.

Lemma rollback_err s n h :
  let m := hd_view (cd_h s) in
  hd_ok (cd_h s) → tree_inv genesis m → m !! hdrHash h = Some h → Height h < Z.of_nat n →
  ∃ e, rollback n h s = (Err e, s).
Proof.
  intros m Hok Ht. revert h. induction n as [|n IH]; intros h Hh Hn.
  { pose proof (ti_height genesis m Ht _ _ Hh). lia. }
  cbn [rollback]. destruct (decide (Height h = 0)) as [Hz|Hz].
  - pose proof (height_0 genesis m h Ht Hh Hz) as ->.
    destruct (getPrevious_err s genesis Hok) as (e & He); [apply (ti_genesis genesis m Ht)|].
    exists e. by apply bind_run_err.
  - pose proof (ti_height genesis m Ht _ _ Hh).
    destruct (parent_of genesis m h Ht Hh) as (p & Hp & Hpk & _ & Hc & _); [lia|].
    rewrite (bind_run _ _ s p s) by (by apply getPrevious_run). apply IH; [done|lia].
Qed.

(** Two headers of the same height have a common ancestor, found without
    running out of headers; the branches from it share nothing. *)
Lemma commonLoop_spec s n a b :
  let m := hd_view (cd_h s) in
  hd_ok (cd_h s) → tree_inv genesis m → m !! hdrHash a = Some a → m !! hdrHash b = Some b →
  Height a = Height b → (Z.to_nat (Height a) < n)%nat →
  ∃ c la lb, commonLoop n a b s = (Ok (Some c), s) ∧ linked m c la ∧ linked m c lb ∧
    tip_of c la = a ∧ tip_of c lb = b ∧ disjoint_branches la lb.
Proof.
  intros m Hok Ht. revert a b. induction n as [|n IH]; intros a b Ha Hb Hh Hn; [lia|].
  cbn [commonLoop]. destruct (decide (hdrHash a = hdrHash b)) as [He|Hne].
  { pose proof (hash_eq _ _ _ Ha Hb He). subst b.
    exists a, [], []. split_and!; try done. intros h1 h2 Hh1. by apply not_elem_of_nil in Hh1. }
  pose proof (ti_height genesis m Ht _ _ Ha). assert (Height a ≠ 0).
  { intros Hz. apply Hne. rewrite (height_0 genesis m a Ht Ha Hz).
    by rewrite (height_0 genesis m b Ht Hb ltac:(lia)). }
  destruct (parent_of genesis m a Ht Ha) as (pa & Hpa & Hka & Hca); [lia|].
  destruct (parent_of genesis m b Ht Hb) as (pb & Hpb & Hkb & Hcb); [lia|].
  rewrite (bind_run _ _ s pa s), (bind_run _ _ s pb s) by (by apply getPrevious_run).
  pose proof Hca as (_ & ? & _). pose proof Hcb as (_ & ? & _).
  destruct (IH pa pb Hka Hkb) as (c & la & lb & Hr & Hla & Hlb & Hta & Htb & Hd); [lia..|].
  assert (linked m c (la ++ [a])) by (apply linked_snoc; by rewrite Hta).
  assert (linked m c (lb ++ [b])) by (apply linked_snoc; by rewrite Htb).
  exists c, (la ++ [a]), (lb ++ [b]). rewrite !tip_of_snoc.
  split_and!; try done. by eapply disjoint_extend.
Qed.

(** The common ancestor of two stored headers. *)
Lemma getCommonAncestor_spec s a b :
  let m := hd_view (cd_h s) in
  hd_ok (cd_h s) → tree_inv genesis m → m !! hdrHash a = Some a → m !! hdrHash b = Some b →
  Height a < 2 ^ 32 → Height b < 2 ^ 32 →
  ∃ c la lb, getCommonAncestor a b s = (Ok (Some c), s) ∧ linked m c la ∧ linked m c lb ∧
    tip_of c la = a ∧ tip_of c lb = b ∧ disjoint_branches la lb.
Proof.
  intros m Hok Ht Ha Hb Hfa Hfb. unfold getCommonAncestor.
  pose proof (ti_height genesis m Ht _ _ Ha). pose proof (ti_height genesis m Ht _ _ Hb).
  destruct (Z.ltb_spec (Height b) (Height a)) as [Hlt|Hge].
  - rewrite u32_small by (unfold fits; lia).
    destruct (rollback_spec s (Z.to_nat (Height a - Height b)) a Hok Ht Ha)
      as (p & l & Hr & Hl & Htip & Hlen); [lia|].
    pose proof (linked_start _ _ _ Hl). pose proof (linked_height _ _ _ Hl) as Hh. rewrite Htip in Hh.
    rewrite (bind_run _ _ s p s) by done. rewrite (bind_run _ _ s b s) by done.
    destruct (commonLoop_spec s (S (Z.to_nat (Height p))) p b Hok Ht) as
      (c & la & lb & Hc & Hla & Hlb & Hta & Htb & Hd); [done..|lia|lia|].
    subst p b. exists c, (la ++ l), lb. rewrite tip_of_app. split_and!; try done.
    + by apply linked_app.
    + intros x y Hx Hy Heq. eapply (disjoint_higher m c lb la l); try done; [by apply linked_app|lia|].
      intros ? ? ? ? ?. by eapply Hd.
  - rewrite (bind_run _ _ s a s) by done.
    destruct (Z.ltb_spec (Height a) (Height b)) as [Hlt|Hge'].
    + rewrite u32_small by (unfold fits; lia).
      destruct (rollback_spec s (Z.to_nat (Height b - Height a)) b Hok Ht Hb)
        as (p & l & Hr & Hl & Htip & Hlen); [lia|].
      pose proof (linked_start _ _ _ Hl). pose proof (linked_height _ _ _ Hl) as Hh. rewrite Htip in Hh.
      rewrite (bind_run _ _ s p s) by done.
      destruct (commonLoop_spec s (S (Z.to_nat (Height a))) a p Hok Ht) as
        (c & la & lb & Hc & Hla & Hlb & Hta & Htb & Hd); [done..|lia|lia|].
      subst p a. exists c, la, (lb ++ l). rewrite tip_of_app. split_and!; try done.
      * by apply linked_app.
      * eapply disjoint_higher; try done; [by apply linked_app|lia].
    + rewrite (bind_run _ _ s b s) by done.
      destruct (commonLoop_spec s (S (Z.to_nat (Height a))) a b Hok Ht) as
        (c & la & lb & Hc & ?); [done..|lia|lia|]. by exists c, la, lb.
Qed.
End walk.
