(* ===== verification/Reorg.v ===== *)
(** * Reorganisation of the chain

    What [chainDB.ProcessReorganize] does to the transactions, loop by loop,
    and what [BlockChain.CommitBlock] guarantees on every branch. *)
From S2P Require Export ChainSpec.

(** ** The loops of [ProcessReorganize] *)
Section loops.
Context {HS TS H T} `{BlockHeader H} `{!HeadersDB HS H} `{!TxsDB TS T}
  `{!HeadersLaws HS H} `{!TxsLaws TS T}.
Context (genesis : Header H).
Implicit Types (s : chainDB HS TS) (t : TS) (m : gmap Uint256 (Header H)).

Definition kept (txs : list T) : list T := filter (λ tx : T, td_keep tx) txs.

Lemma onTxs_run {A} (op : GoM TS A) s o t : op (cd_t s) = (o, t) → onTxs op s = (o, mkChainDB (cd_h s) t).
Proof. intros Hop. unfold onTxs, zoom. by rewrite Hop. Qed.

Lemma linked_prev m c l h : linked m c l → h ∈ l →
  ∃ p, child_of p h ∧ m !! hdrHash p = Some p ∧ (p = c ∨ p ∈ l).
Proof.
  intros Hl (l1 & l2 & ->)%list_elem_of_split.
  apply linked_app in Hl as [Hl1 (Hp & Hc & _)]. exists (tip_of c l1). split_and!; [done..|].
  destruct l1 as [|x l1 _] using rev_ind; [by left|]. right. rewrite tip_of_snoc. set_solver.
Qed.

(** Headers of one branch have different hashes. *)
Lemma linked_hash_ne m c l h x :
  linked m c (l ++ [h]) → x = c ∨ x ∈ l → hdrHash x ≠ hdrHash h.
Proof.
  intros Hl Hx He. pose proof (linked_height _ _ _ Hl) as Hh. rewrite tip_of_snoc in Hh.
  rewrite length_app in Hh. simpl in Hh.
  apply linked_snoc in Hl as (Hl & _ & Hk). pose proof (linked_height _ _ _ Hl).
  destruct Hx as [->|Hx].
  - pose proof (hash_eq _ _ _ (linked_start _ _ _ Hl) Hk He). subst. lia.
  - destruct (linked_elem _ _ _ _ Hl Hx) as [Hkx ?].
    pose proof (hash_eq _ _ _ Hkx Hk He). subst. lia.
Qed.

Lemma moveToFork_spec s n c l :
  hd_ok (cd_h s) → linked (hd_view (cd_h s)) c l → (length l < n)%nat →
  ∃ t', moveToFork n (hdrHash c) (tip_of c l) s = (Ok (Some ()), mkChainDB (cd_h s) t') ∧
    (∀ h, h ∈ l → td_fork t' !! hdrHash h = Some (td_main (cd_t s) (Height h))) ∧
    (∀ k, (∀ h, h ∈ l → hdrHash h ≠ k) → td_fork t' !! k = td_fork (cd_t s) !! k) ∧
    (∀ x, td_main t' x = if decide (Height c < x ≤ Height (tip_of c l)) then []
                         else td_main (cd_t s) x).
Proof.
  revert s n. induction l as [|h l IH] using rev_ind; intros s n Hok Hl Hn.
  all: destruct n as [|n]; [lia|]; cbn [moveToFork].
  - exists (cd_t s). cbn [tip_of last default]. rewrite decide_True by done.
    destruct s. split_and!; try done; [set_solver|]. intros x. case_decide; [lia|done].
  - rewrite length_app in Hn. simpl in Hn. rewrite tip_of_snoc.
    rewrite decide_False by (by intros He; eapply linked_hash_ne; [|left|]).
    pose proof Hl as (Hl' & (Hprev & Hh & _) & Hk)%linked_snoc.
    rewrite (bind_run _ _ s (td_main (cd_t s) (Height h)) s).
    2: { rewrite (onTxs_run _ s _ _ (tdGetTxs_law (cd_t s) (Height h))). by destruct s. }
    destruct (tdPutForkTxs_law (cd_t s) (td_main (cd_t s) (Height h)) (hdrHash h))
      as (t1 & Hp & Hpf & Hpm).
    rewrite (bind_run _ _ s _ _ (onTxs_run _ s _ _ Hp)).
    destruct (tdDelTxs_law t1 (Height h)) as (t2 & Hd & Hdf & Hdm).
    rewrite (bind_run _ _ _ _ _ (onTxs_run _ (mkChainDB (cd_h s) t1) _ _ Hd)). cbn [cd_h].
    rewrite (bind_run _ _ _ (tip_of c l) (mkChainDB (cd_h s) t2)).
    2: { apply getPrevious_run; [done|]. rewrite Hprev. by eapply linked_tip. }
    destruct (IH (mkChainDB (cd_h s) t2) n Hok Hl' ltac:(lia)) as (t' & Hr & Hf & Hfo & Hm).
    cbn [cd_h cd_t] in *. exists t'. split; [done|]. split_and!.
    + intros x [Hx|Hx%list_elem_of_singleton]%elem_of_app.
      * rewrite Hf, Hdm, Hpm by done. destruct (linked_elem _ _ _ _ Hl' Hx) as [_ ?].
        by rewrite decide_False by lia.
      * subst x. rewrite Hfo by (intros x Hx; eapply linked_hash_ne; eauto).
        by rewrite Hdf, Hpf, lookup_insert_eq.
    + intros k Hk'. rewrite Hfo by set_solver.
      rewrite Hdf, Hpf, lookup_insert_ne; [done|]. apply Hk'. set_solver.
    + intros x. rewrite Hm, Hdm, Hpm. pose proof (linked_height _ _ _ Hl').
      repeat case_decide; try done; lia.
Qed.

Lemma indexSubChain_spec s n c l sc :
  hd_ok (cd_h s) → linked (hd_view (cd_h s)) c l → (length l < n)%nat →
  ∃ sc', indexSubChain n (hdrHash c) (tip_of c l) sc s = (Ok (Some sc'), s) ∧
    (∀ h, h ∈ l → sc' !! hdrPrevious h = Some h) ∧
    (∀ k, (∀ h, h ∈ l → hdrPrevious h ≠ k) → sc' !! k = sc !! k).
Proof.
  revert n sc. induction l as [|h l IH] using rev_ind; intros n sc Hok Hl Hn.
  all: destruct n as [|n]; [lia|]; cbn [indexSubChain].
  - exists sc. cbn [tip_of last default]. rewrite decide_True by done. split_and!; [done|set_solver|done].
  - rewrite length_app in Hn. simpl in Hn. rewrite tip_of_snoc.
    rewrite decide_False by (by intros He; eapply linked_hash_ne; [|left|]).
    pose proof Hl as (Hl' & (Hprev & Hh & _) & Hk)%linked_snoc.
    rewrite (bind_run _ _ s (tip_of c l) s).
    2: { apply getPrevious_run; [done|]. rewrite Hprev. by eapply linked_tip. }
    destruct (IH n (<[hdrPrevious h := h]> sc) Hok Hl' ltac:(lia)) as (sc' & Hr & Hin & Hout).
    exists sc'. split; [done|]. split.
    + intros x [Hx|Hx%list_elem_of_singleton]%elem_of_app; [by apply Hin|]. subst x.
      rewrite Hout; [apply lookup_insert_eq|]. intros x Hx He.
      destruct (linked_prev _ _ _ _ Hl' Hx) as (p & (Hpp & Hph & _) & Hpk & _).
      rewrite Hprev, Hpp in He. pose proof (hash_eq _ _ _ Hpk (linked_tip _ _ _ Hl') He). subst p.
      destruct (linked_elem _ _ _ _ Hl' Hx) as [_ ?]. lia.
    + intros k Hk'. rewrite Hout by set_solver. rewrite lookup_insert_ne; [done|]. apply Hk'. set_solver.
Qed.

Lemma connectSubChain_spec s n sc c h l :
  linked (hd_view (cd_h s)) c (h :: l) → (length l < n)%nat →
  (∀ x, x ∈ l → sc !! hdrPrevious x = Some x) →
  (∀ x, x ∈ h :: l → x ≠ tip_of h l → is_Some (td_fork (cd_t s) !! hdrHash x)) →
  ∃ t', connectSubChain n sc (hdrHash (tip_of h l)) h s = (Ok (Some ()), mkChainDB (cd_h s) t') ∧
    td_fork t' = td_fork (cd_t s) ∧
    (∀ x txs, x ∈ h :: l → x ≠ tip_of h l → td_fork (cd_t s) !! hdrHash x = Some txs →
       td_main t' (Height x) = td_main (cd_t s) (Height x) ++ kept txs) ∧
    (∀ x, ¬ (Height h ≤ x < Height (tip_of h l)) → td_main t' x = td_main (cd_t s) x).
Proof.
  revert s n c h. induction l as [|h2 l IH]; intros s n c h Hl Hn Hsc Hf.
  all: destruct n as [|n]; [simpl in *; lia|]; cbn [connectSubChain].
  - exists (cd_t s). cbn [tip_of last default]. rewrite decide_True by done. destruct s.
    split_and!; try done. intros x txs Hx Hne. set_solver.
  - rewrite tip_of_cons in *. cbn [length] in Hn.
    destruct Hl as (_ & Hc0 & Hl). pose proof Hl as (Hkh & (Hprev & Hh2 & _) & Hl2).
    pose proof (linked_height _ _ _ Hl2) as Htip. pose proof (linked_tip _ _ _ Hl2) as Hkt.
    assert (Hne : hdrHash h ≠ hdrHash (tip_of h2 l)).
    { intros He. pose proof (hash_eq _ _ _ Hkh Hkt He) as E. rewrite <-E in Htip. lia. }
    rewrite decide_False by done.
    destruct (Hf h) as [txs Htxs]; [left|congruence|].
    rewrite (bind_run _ _ s txs s).
    2: { rewrite (onTxs_run _ s _ _ (tdGetForkTxs_law (cd_t s) _ _ Htxs)). by destruct s. }
    destruct (tdPutTxs_law (cd_t s) txs (Height h)) as (t1 & fps & Hp & Hpf & Hpm).
    rewrite (bind_run _ _ s _ _ (onTxs_run _ s _ _ Hp)).
    assert (Hsc2 : sc !! hdrHash h = Some h2) by (rewrite <-Hprev; apply Hsc; set_solver).
    rewrite (bind_run _ _ _ h2 (mkChainDB (cd_h s) t1)) by (unfold lift; by rewrite Hsc2).
    destruct (IH (mkChainDB (cd_h s) t1) n h h2) as (t' & Hr & Hf' & Hin & Hout).
    { done. } { lia. } { set_solver. }
    { cbn [cd_t]. rewrite Hpf. intros x Hx. apply Hf. by right. }
    cbn [cd_h cd_t] in *. rewrite Hpf in *. exists t'. split_and!; [done|done| |].
    + intros x txs' [->|Hx]%elem_of_cons Hnt Hx'.
      * simplify_eq. rewrite Hout by lia. by rewrite Hpm, decide_True by done.
      * rewrite (Hin x txs') by done. rewrite Hpm.
        rewrite decide_False, app_nil_r; [done|].
        assert (Height h < Height x); [|lia]. by eapply (linked_elem _ h (h2 :: l)).
    + intros x Hx. rewrite Hout by lia. rewrite Hpm, decide_False by lia. apply app_nil_r.
Qed.

(** The old branch [la] goes to the fork store, the new branch [lb] comes out
    of it, and the tip of [lb] is the new tip. *)
Lemma ProcessReorganize_spec s c la lb :
  let m := hd_view (cd_h s) in
  hd_ok (cd_h s) → linked m c la → linked m c lb → lb ≠ [] → disjoint_branches la lb →
  0 ≤ Height c → hd_fits (tip_of c lb) →
  (∀ x, x ∈ lb → x ≠ tip_of c lb → is_Some (td_fork (cd_t s) !! hdrHash x)) →
  ∃ s', chainDB_ProcessReorganize c (tip_of c la) (tip_of c lb) s = (Ok (Some ()), s') ∧
    hd_ok (cd_h s') ∧ hd_view (cd_h s') = m ∧ hd_best (cd_h s') = Some (tip_of c lb) ∧
    (∀ h, h ∈ la → td_fork (cd_t s') !! hdrHash h = Some (td_main (cd_t s) (Height h))) ∧
    (∀ k, (∀ h, h ∈ la → hdrHash h ≠ k) → td_fork (cd_t s') !! k = td_fork (cd_t s) !! k) ∧
    (∀ x txs, x ∈ lb → x ≠ tip_of c lb → td_fork (cd_t s) !! hdrHash x = Some txs →
       td_main (cd_t s') (Height x) =
         (if decide (Height x ≤ Height (tip_of c la)) then [] else td_main (cd_t s) (Height x))
         ++ kept txs) ∧
    (∀ x, ¬ (Height c < x < Height (tip_of c lb)) →
       td_main (cd_t s') x = if decide (Height c < x ≤ Height (tip_of c la)) then []
                             else td_main (cd_t s) x).
Proof.
  intros m Hok Hla Hlb Hne Hd Hc0 Hfits Hforks. unfold chainDB_ProcessReorganize.
  pose proof (linked_height _ _ _ Hla). pose proof (linked_height _ _ _ Hlb).
  destruct (moveToFork_spec s (S (Z.to_nat (Height (tip_of c la)))) c la Hok Hla)
    as (t1 & Hr1 & Hf1 & Hfo1 & Hm1); [lia|].
  rewrite (bindL_run _ _ _ _ _ Hr1). set (s1 := mkChainDB (cd_h s) t1) in *.
  destruct (indexSubChain_spec s1 (S (Z.to_nat (Height (tip_of c lb)))) c lb ∅ Hok Hlb)
    as (sc & Hr2 & Hsc & _); [lia|].
  rewrite (bindL_run _ _ _ _ _ Hr2). cbv beta zeta.
  destruct lb as [|h lb]; [done|]. pose proof Hlb as (_ & (Hprev & Hhh & _) & Hlb').
  assert (Hsch : sc !! hdrHash c = Some h) by (rewrite <-Hprev; apply Hsc; left).
  rewrite (bindL_run _ _ s1 h s1) by (by apply done_run; unfold lift; rewrite Hsch).
  assert (Hforks1 : ∀ x, x ∈ h :: lb → td_fork t1 !! hdrHash x = td_fork (cd_t s) !! hdrHash x).
  { intros x Hx. apply Hfo1. intros y Hy. by apply Hd. }
  rewrite tip_of_cons in *. cbn [length] in *.
  destruct (connectSubChain_spec s1 (S (Z.to_nat (Height (tip_of h lb)))) sc c h lb Hlb)
    as (t2 & Hr3 & Hf2 & Hin & Hout); [lia|intros; apply Hsc; by right| |].
  { intros x Hx Hnt. cbn [s1 cd_t]. rewrite Hforks1 by done. by apply Hforks. }
  rewrite (bindL_run _ _ _ _ _ Hr3). cbn [s1 cd_h cd_t] in *.
  destruct (hdPut_law (cd_h s) (tip_of h lb) true Hok Hfits) as (h' & Hp & Hok' & Hv & Hb).
  exists (mkChainDB h' t2). cbn [cd_h cd_t].
  split_and!; [|done| |done| | | |].
  - apply done_run. unfold onHeaders, zoom. cbn [cd_h cd_t]. by rewrite Hp.
  - rewrite Hv. apply insert_id. pose proof (linked_tip _ _ _ Hlb') as Ht. exact Ht.
  - intros x Hx. rewrite Hf2. by apply Hf1.
  - intros k Hk. rewrite Hf2. by apply Hfo1.
  - intros x txs Hx Hnt Htxs. rewrite (Hin x txs) by (rewrite ?Hforks1; done). rewrite Hm1.
    destruct (linked_elem _ _ _ _ Hlb Hx) as [_ Hxr].
    f_equal. repeat case_decide; try done; lia.
  - intros x Hx. rewrite Hout by lia. by rewrite Hm1.
Qed.
End loops.

(** ** Committing a block *)

Section insert.
Context {H} `{BlockHeader H} (genesis : Header H).
Implicit Types (m : gmap Uint256 (Header H)).

(** The header extends the stored header [p]; a header already stored under
    its hash carries the same link and target; the genesis has no parent. *)
Definition extends m p h : Prop :=
  m !! hdrHash p = Some p ∧ child_of p h ∧ hdrHash h ≠ hdrPrevious genesis ∧
  ∀ h', m !! hdrHash h = Some h' → hdrPrevious h' = hdrPrevious h ∧ hdrBits h' = hdrBits h.

Lemma extends_same m p h h' :
  tree_inv genesis m → extends m p h → m !! hdrHash h = Some h' →
  hdrHash h' = hdrHash h ∧ h' ≠ genesis ∧ Height h' = Height h ∧ TotalWork h' = TotalWork h.
Proof.
  intros Ht (Hp & (Hprev & Hh & Hw) & Hng & Hs) Hl. destruct (Hs _ Hl) as [Hp' Hb'].
  pose proof (ti_key genesis m Ht _ _ Hl) as Hk. split; [done|].
  assert (h' ≠ genesis).
  { intros ->. destruct (ti_genesis genesis m Ht) as (_ & _ & _ & Hn). congruence. }
  split; [done|].
  destruct (ti_parent genesis m Ht _ _ Hl) as (q & Hq & (Hq1 & Hq2 & Hq3)).
  { intros He. destruct (ti_genesis genesis m Ht) as (Hg & _). rewrite He, Hg in Hl. congruence. }
  rewrite Hp', Hprev, Hp in Hq. simplify_eq. rewrite Hq2, Hq3, Hb'. lia.
Qed.

Lemma tree_inv_insert m p h :
  tree_inv genesis m → extends m p h → tree_inv genesis (<[hdrHash h := h]> m).
Proof.
  intros Ht He. pose proof He as (Hp & (Hprev & Hh & Hw) & Hng & Hs). split.
  - intros k x Hk. destruct (decide (k = hdrHash h)) as [->|Hne].
    + rewrite lookup_insert_eq in Hk. congruence.
    + rewrite lookup_insert_ne in Hk by done. by apply (ti_key genesis m Ht).
  - intros k x Hk. destruct (decide (k = hdrHash h)) as [->|Hne].
    + rewrite lookup_insert_eq in Hk. simplify_eq. pose proof (ti_height genesis m Ht _ _ Hp). lia.
    + rewrite lookup_insert_ne in Hk by done. by eapply (ti_height genesis m Ht).
  - destruct (ti_genesis genesis m Ht) as (Hg & Hg0 & Hgw & Hgn). split_and!; try done.
    + rewrite lookup_insert_ne; [done|]. intros Heq. rewrite <-Heq in Hg.
      by destruct (extends_same m p h genesis Ht He Hg) as (_ & ? & _).
    + by rewrite lookup_insert_ne.
  - assert (Hpar : ∀ k q, m !! k = Some q → ∃ q', <[hdrHash h := h]> m !! k = Some q' ∧
        ∀ x, child_of q x → child_of q' x).
    { intros k q Hq. destruct (decide (k = hdrHash h)) as [->|Hne].
      - exists h. rewrite lookup_insert_eq. split; [done|]. unfold child_of.
        destruct (extends_same m p h q Ht He Hq) as (-> & _ & -> & ->). done.
      - exists q. by rewrite lookup_insert_ne. }
    intros k x Hk Hkg. destruct (decide (k = hdrHash h)) as [->|Hne].
    + rewrite lookup_insert_eq in Hk. simplify_eq. rewrite <-Hprev in Hp.
      destruct (Hpar _ _ Hp) as (q & Hq & Hc). exists q. split; [done|]. by apply Hc.
    + rewrite lookup_insert_ne in Hk by done.
      destruct (ti_parent genesis m Ht _ _ Hk Hkg) as (q & Hq & Hc).
      destruct (Hpar _ _ Hq) as (q' & Hq' & Hc'). eauto.
Qed.

(** The tip after the insertion, by work. *)
Lemma chain_inv_insert m best p h :
  chain_inv genesis m best → extends m p h → hdrHash best ≠ hdrHash h →
  chain_inv genesis (<[hdrHash h := h]> m) (if TotalWork best <? TotalWork h then h else best).
Proof.
  intros [Ht Hb Hmost] He Hne. split.
  - by eapply tree_inv_insert.
  - destruct (_ <? _); [apply lookup_insert_eq|by rewrite lookup_insert_ne].
  - intros k x Hk. destruct (decide (k = hdrHash h)) as [->|Hkne].
    + rewrite lookup_insert_eq in Hk. simplify_eq.
      destruct (Z.ltb_spec (TotalWork best) (TotalWork x)); lia.
    + rewrite lookup_insert_ne in Hk by done. specialize (Hmost _ _ Hk).
      destruct (Z.ltb_spec (TotalWork best) (TotalWork h)); lia.
Qed.
End insert.
