(* ===== verification/Commit.v ===== *)
(** * [BlockChain.CommitBlock]

    The call on every branch: the answer, the invariant of the headers
    ([CommitBlock_chain]) and, through a reorganisation too, the transactions
    of the main chain ([CommitBlock_txs]). *)
From S2P Require Export Reorg.

(** ** Paths before and after a header is added *)
Section paths.
Context {H} `{BlockHeader H} (genesis : Header H).
Implicit Types (m : gmap Uint256 (Header H)).

Definition on_main m best h : Prop := ∃ l, linked m h l ∧ tip_of h l = best.

Lemma ancestor_unique m a b l1 l2 :
  linked m a l1 → linked m b l2 → tip_of a l1 = tip_of b l2 → Height a = Height b → a = b ∧ l1 = l2.
Proof.
  revert l2. induction l1 as [|x l1 IH] using rev_ind; intros l2 H1 H2 Ht Hh.
  all: pose proof (linked_height _ _ _ H1) as E1; pose proof (linked_height _ _ _ H2) as E2.
  all: rewrite Ht in E1; destruct l2 as [|y l2 _] using rev_ind;
    rewrite ?length_app in *; simpl in *; try lia.
  { done. }
  rewrite !tip_of_snoc in Ht. subst y.
  apply linked_snoc in H1 as (H1 & (P1 & _) & _). apply linked_snoc in H2 as (H2 & (P2 & _) & _).
  rewrite P1 in P2.
  pose proof (hash_eq _ _ _ (linked_tip _ _ _ H1) (linked_tip _ _ _ H2) P2) as Ht.
  destruct (IH l2 H1 H2 Ht Hh) as [-> ->]. done.
Qed.

(** The header of a given height on a path. *)
Lemma linked_at m a l k :
  linked m a l → Height a ≤ k ≤ Height (tip_of a l) →
  ∃ l1 l2, l = l1 ++ l2 ∧ linked m a l1 ∧ linked m (tip_of a l1) l2 ∧
    Height (tip_of a l1) = k ∧ tip_of (tip_of a l1) l2 = tip_of a l.
Proof.
  intros Hl Hk. exists (take (Z.to_nat (k - Height a)) l), (drop (Z.to_nat (k - Height a)) l).
  pose proof (linked_height _ _ _ Hl). rewrite <-tip_of_app, take_drop. split; [done|].
  rewrite <-(take_drop (Z.to_nat (k - Height a)) l) in Hl. apply linked_app in Hl as [Hl1 Hl2].
  pose proof (linked_height _ _ _ Hl1) as E. rewrite length_take in E. split_and!; try done. lia.
Qed.

(** A header on the path to the tip of a branch above [c] is above [c] on it
    or leads to [c]. *)
Lemma on_path m c l h :
  linked m c l → on_main m (tip_of c l) h → h ∈ l ∨ on_main m c h.
Proof.
  intros Hl (lh & Hlh & Ht). pose proof (linked_height _ _ _ Hl). pose proof (linked_height _ _ _ Hlh) as E.
  rewrite Ht in E. destruct (decide (Height c < Height h)).
  - left. destruct (linked_at m c l (Height h) Hl ltac:(lia)) as (l1 & l2 & -> & Hl1 & Hl2 & Hh & Ht2).
    destruct (ancestor_unique _ _ _ _ _ Hlh Hl2) as [-> _]; [congruence|done|].
    destruct l1 as [|x l1 _] using rev_ind; [change (tip_of c []) with c in *; lia|]. rewrite tip_of_snoc. set_solver.
  - right. destruct (linked_at m h lh (Height c) Hlh) as (l1 & l2 & -> & Hl1 & Hl2 & Hh & Ht2);
      [rewrite Ht; lia|].
    destruct (ancestor_unique _ _ _ _ _ Hl Hl2) as [-> _]; [congruence|done|]. by exists l1.
Qed.
Lemma on_main_elem m c l h : linked m c l → h ∈ l → on_main m (tip_of c l) h.
Proof.
  intros Hl (l1 & l2 & ->)%list_elem_of_split. exists l2.
  apply linked_app in Hl as [_ (_ & _ & Hl2)]. by rewrite tip_of_app, tip_of_cons.
Qed.
Lemma on_main_up m c l h : linked m c l → on_main m c h → on_main m (tip_of c l) h.
Proof.
  intros Hl (lh & Hlh & <-). exists (lh ++ l). rewrite tip_of_app. split; [by apply linked_app|done].
Qed.

Context (m : gmap Uint256 (Header H)) (p new : Header H).
Context (Ht : tree_inv genesis m) (He : extends genesis m p new) (Hfresh : m !! hdrHash new = None).
Notation m' := (<[hdrHash new := new]> m).

Lemma linked_mono c l : linked m c l → linked m' c l.
Proof.
  revert c. induction l as [|h l IH]; intros c (Hc & Hl).
  all: assert (m' !! hdrHash c = Some c) by (rewrite lookup_insert_ne; [done|congruence]).
  - done.
  - destruct Hl. split_and!; try done. by apply IH.
Qed.

Lemma stored_old h : m' !! hdrHash h = Some h → h ≠ new → m !! hdrHash h = Some h.
Proof.
  intros Hk Hne. destruct (decide (hdrHash new = hdrHash h)) as [Heq|].
  - rewrite Heq, lookup_insert_eq in Hk. congruence.
  - by rewrite lookup_insert_ne in Hk.
Qed.

(** Nothing stored descends from the new header. *)
Lemma linked_old c l : linked m' c l → tip_of c l ≠ new → linked m c l.
Proof.
  revert c. induction l as [|h l IH]; intros c (Hc & Hl) Htip.
  - split; [|done]. by apply stored_old.
  - rewrite tip_of_cons in Htip. destruct Hl as [Hch Hl]. specialize (IH h Hl Htip).
    split_and!; [|done|done]. apply stored_old; [done|]. intros ->.
    destruct Hch as (Hprev & Hh & _). pose proof (linked_start _ _ _ IH) as Hk.
    destruct (ti_parent genesis m Ht _ _ Hk) as (q & Hq & _); [|congruence].
    intros Heq. destruct (ti_genesis genesis m Ht) as (Hg & _). rewrite Heq, Hg in Hk.
    simplify_eq. by destruct He as (_ & _ & ? & _).
Qed.
Lemma on_main_old best h : best ≠ new → on_main m' best h ↔ on_main m best h.
Proof.
  intros Hne. split; intros (l & Hl & <-); exists l.
  - split; [by apply linked_old|done].
  - split; [by apply linked_mono|done].
Qed.
Lemma on_main_new h : on_main m' new h ↔ h = new ∨ on_main m p h.
Proof.
  pose proof He as (Hp & Hc & _). split.
  - intros (l & Hl & Htip). destruct l as [|x l _] using rev_ind; [by left|]. right.
    rewrite tip_of_snoc in Htip. subst x. apply linked_snoc in Hl as (Hl & (Hpr & _) & _).
    assert (Hk : tip_of h l ≠ new).
    { intros E. pose proof Hc as (Hpr' & Hhh & _). rewrite Hpr', E in Hpr. rewrite Hpr in Hp. congruence. }
    apply linked_old in Hl; [|done]. pose proof (linked_tip _ _ _ Hl) as Hkt.
    destruct Hc as (Hpr' & _). rewrite Hpr' in Hpr. exists l. split; [done|].
    by apply (hash_eq _ _ _ Hkt Hp).
  - intros [->|(l & Hl & <-)].
    + exists []. split; [|done]. split; [apply lookup_insert_eq|done].
    + exists (l ++ [new]). rewrite tip_of_snoc. split; [|done]. apply linked_snoc.
      split_and!; [by apply linked_mono|done|apply lookup_insert_eq].
Qed.
End paths.

(** ** One commit *)
Section commit.
Context {HS TS H T} `{BlockHeader H} `{!HeadersDB HS H} `{!TxsDB TS T}
  `{!HeadersLaws HS H} `{!TxsLaws TS T}.
Context (genesis : Header H).
Implicit Types (s : chainDB HS TS) (m : gmap Uint256 (Header H)) (block : Block H T).

(** The header of [block] as it is stored above [p]. *)
Definition filled block (p : Header H) : Header H :=
  let h := BlockHdr block in
  mkHeader (BlockHeaderOf h) (Height p + 1) (NumTxs h) (Hashes h) (Flags h)
    (TotalWork p + CalcWork (hdrBits h)).

(** A store with a consistent header tree and [best] as its tip. *)
Definition chain_ok s best : Prop :=
  hd_ok (cd_h s) ∧ hd_best (cd_h s) = Some best ∧ chain_inv genesis (hd_view (cd_h s)) best ∧
  Height best < 2 ^ 32 - 1.

(** The block can be stored above [p]: its header fits the database, its
    height fits 32 bits, and its hash belongs to no other header. *)
Definition storable s block p : Prop :=
  extends genesis (hd_view (cd_h s)) p (filled block p) ∧ hd_fits (filled block p) ∧
  Height p < 2 ^ 32 - 1.

Lemma store_block s (new : Header H) (txs : list T) newTip :
  hd_ok (cd_h s) → hd_fits new →
  ∃ s1 fps, chainDB_CommitBlock (mkBlock new txs) newTip s = (Ok fps, s1) ∧
    hd_ok (cd_h s1) ∧ hd_view (cd_h s1) = <[hdrHash new := new]> (hd_view (cd_h s)) ∧
    hd_best (cd_h s1) = (if newTip then Some new else hd_best (cd_h s)) ∧
    td_fork (cd_t s1) = (if newTip then td_fork (cd_t s) else <[hdrHash new := txs]> (td_fork (cd_t s))) ∧
    ∀ x, td_main (cd_t s1) x =
      td_main (cd_t s) x ++ (if decide (newTip ∧ x = Height new) then kept txs else []).
Proof.
  intros Hok Hfits. unfold chainDB_CommitBlock. cbn [BlockHdr Transactions].
  destruct (hdPut_law (cd_h s) new newTip Hok Hfits) as (h' & Hp & Hok' & Hv & Hb).
  rewrite (bind_run _ _ s () (mkChainDB h' (cd_t s)))
    by (unfold onHeaders, zoom; by rewrite Hp).
  destruct newTip.
  - destruct (tdPutTxs_law (cd_t s) txs (Height new)) as (t' & fps & Hpt & Hf & Hm).
    eexists _, fps. split; [by apply (onTxs_run _ (mkChainDB h' (cd_t s)))|].
    split_and!; [done..|]. intros x. cbn [cd_t]. rewrite Hm. unfold kept.
    repeat case_decide; naive_solver.
  - destruct (tdPutForkTxs_law (cd_t s) txs (hdrHash new)) as (t' & Hpt & Hf & Hm).
    rewrite (bind_run _ _ _ _ _ (onTxs_run _ (mkChainDB h' (cd_t s)) _ _ Hpt)).
    eexists _, 0. split; [done|]. split_and!; [done..|]. intros x. cbn [cd_t].
    rewrite Hm, decide_False by (by intros [[] _]). by rewrite app_nil_r.
Qed.

(** The branches that store nothing. *)
Lemma CommitBlock_orphan s best block :
  chain_ok s best → hd_view (cd_h s) !! hdrPrevious (BlockHdr block) = None →
  CommitBlock block s =
    (Ok (Some (mkCommitResult false false 0 0 (Some OrphanBlockError), block)), s).
Proof.
  intros (Hok & Hb & Hc & _) Hp. unfold CommitBlock.
  rewrite (bind_run _ _ s (inr best) s) by (by apply try_run, getBest_run).
  rewrite decide_False.
  2: { intros Heq. pose proof (ci_best _ _ _ Hc). congruence. }
  destruct (getPrevious_err s (BlockHdr block) Hok Hp) as (e & Hg).
  by rewrite (bind_run _ _ s (inl e) s) by (by apply try_run_err).
Qed.

Lemma parent_run s best block p :
  chain_ok s best → hd_view (cd_h s) !! hdrPrevious (BlockHdr block) = Some p →
  (if decide (hdrPrevious (BlockHdr block) = hdrHash best) then mret (inr best)
   else try (onHeaders (hdGetPrevious (BlockHdr block)))) s = (Ok (inr p : goerr + Header H), s).
Proof.
  intros (Hok & Hb & Hc & _) Hp. case_decide as Heq.
  - pose proof (ci_best _ _ _ Hc). replace p with best by congruence. done.
  - by apply try_run, getPrevious_run.
Qed.

Lemma checkHeader_pow m block p :
  tree_inv genesis m → m !! hdrPrevious (BlockHdr block) = Some p →
  checkHeader (BlockHdr block) p = checkProofOfWork (BlockHdr block).
Proof.
  intros Ht Hp. unfold checkHeader. rewrite (ti_key _ _ Ht _ _ Hp), bool_decide_true by done.
  by destruct (checkProofOfWork _).
Qed.

Lemma CommitBlock_refused s best block p :
  chain_ok s best → hd_view (cd_h s) !! hdrPrevious (BlockHdr block) = Some p →
  checkProofOfWork (BlockHdr block) = false ∨ hdrHash best = hdrHash (BlockHdr block) →
  CommitBlock block s = (Ok (Some (mkCommitResult false false 0 0 None, block)), s).
Proof.
  intros Hs Hp Hr. pose proof Hs as (Hok & Hb & Hc & _). unfold CommitBlock.
  rewrite (bind_run _ _ s (inr best) s) by (by apply try_run, getBest_run).
  rewrite (bind_run _ _ s (inr p) s) by (by apply parent_run).
  rewrite (checkHeader_pow _ _ _ (ci_tree _ _ _ Hc) Hp).
  destruct (checkProofOfWork _); [|done]. destruct Hr as [|Hr]; [done|].
  cbn [negb]. by rewrite decide_True.
Qed.

(** The branches that store the block: [s1] is the store with the block in
    it, before a reorganisation. *)
Lemma CommitBlock_run s best block p s1 fps :
  chain_ok s best → hd_view (cd_h s) !! hdrPrevious (BlockHdr block) = Some p →
  checkProofOfWork (BlockHdr block) = true → hdrHash best ≠ hdrHash (BlockHdr block) →
  Height p < 2 ^ 32 - 1 →
  let new := filled block p in
  let newTip := TotalWork best <? TotalWork new in
  let block' := mkBlock new (Transactions block) in
  chainDB_CommitBlock block' newTip s = (Ok fps, s1) →
  CommitBlock block s =
    if negb (newTip && negb (bool_decide (hdrHash best = hdrHash p)))
    then (Ok (Some (mkCommitResult newTip false (Height new) fps None, block')), s1)
    else (ancestor ←ₗ tryL (getCommonAncestor new best);
          match ancestor with
          | inl e => mret (Some (mkCommitResult true true 0 0 (Some e), block'))
          | inr commonAncestor =>
              done ←ₗ tryL (chainDB_ProcessReorganize commonAncestor best new);
              mret (Some (match done with
                | inl e => mkCommitResult true true 0 0 (Some e)
                | inr _ => mkCommitResult true true (Height new) fps None
                end, block'))
          end) s1.
Proof.
  intros Hs Hp Hpow Hne Hh new newTip block' Hst. pose proof Hs as (Hok & Hb & Hc & _).
  pose proof (ti_height _ _ (ci_tree _ _ _ Hc) _ _ Hp).
  unfold CommitBlock. rewrite (bind_run _ _ s (inr best) s) by (by apply try_run, getBest_run).
  rewrite (bind_run _ _ s (inr p) s) by (by apply parent_run).
  rewrite (checkHeader_pow _ _ _ (ci_tree _ _ _ Hc) Hp), Hpow. cbn [negb].
  rewrite decide_False by done. rewrite u32_small by (unfold fits; lia).
  rewrite (bind_run _ _ s (inr fps) s1) by (by apply try_run).
  change (TotalWork p + CalcWork (hdrBits (BlockHdr block))) with (TotalWork new). fold newTip.
  destruct (newTip && _) eqn:Hre; [|by cbn]. cbn [negb].
  apply andb_true_iff in Hre as [-> _]. done.
Qed.

Lemma fresh_tip m best p new :
  chain_inv genesis m best → extends genesis m p new → TotalWork best < TotalWork new →
  m !! hdrHash new = None.
Proof.
  intros Hc He Hw. destruct (m !! hdrHash new) as [h|] eqn:Hl; [|done].
  destruct (extends_same genesis m p new h (ci_tree _ _ _ Hc) He Hl) as (_ & _ & _ & Hw').
  pose proof (ci_most _ _ _ Hc _ _ Hl). lia.
Qed.

(** Every stored header that is not on the main chain has its transactions in
    the fork store. *)
Definition forks_ok m best (t : TS) : Prop :=
  ∀ h, m !! hdrHash h = Some h → ¬ on_main m best h → is_Some (td_fork t !! hdrHash h).

(** A reorganisation: [c] is the fork point, [la] the branch of the old tip,
    [lb] the new branch below the new tip. *)
Record reorganised s best block (p c : Header H) la lb s' fps : Prop := {
  ro_run : CommitBlock block s =
    (Ok (Some (mkCommitResult true true (Height (filled block p)) fps None,
               mkBlock (filled block p) (Transactions block))), s');
  ro_ok : hd_ok (cd_h s') ∧
    hd_view (cd_h s') = <[hdrHash (filled block p) := filled block p]> (hd_view (cd_h s)) ∧
    hd_best (cd_h s') = Some (filled block p);
  ro_old : linked (hd_view (cd_h s)) c la ∧ tip_of c la = best;
  ro_new : linked (hd_view (cd_h s)) c lb ∧ tip_of c lb = p;
  ro_disjoint : disjoint_branches la lb;
  ro_fork_old : ∀ h, h ∈ la →
    ∃ more, td_fork (cd_t s') !! hdrHash h = Some (td_main (cd_t s) (Height h) ++ more) ∧
      (Height (filled block p) ≠ Height h → more = []);
  ro_fork : ∀ k, (∀ h, h ∈ la → hdrHash h ≠ k) → td_fork (cd_t s') !! k = td_fork (cd_t s) !! k;
  ro_main_new : ∀ x txs, x ∈ lb → td_fork (cd_t s) !! hdrHash x = Some txs →
    td_main (cd_t s') (Height x) =
      (if decide (Height x ≤ Height best) then [] else td_main (cd_t s) (Height x)) ++ kept txs;
  ro_main : ∀ x, ¬ (Height c < x < Height (filled block p)) →
    td_main (cd_t s') x =
      if decide (Height c < x ≤ Height best) then []
      else td_main (cd_t s) x ++
           (if decide (x = Height (filled block p)) then kept (Transactions block) else []);
}.

(** Where the branch of a new tip leaves the main chain. *)
Record fork_point m best p new (c : Header H) la lb : Prop := {
  fp_old : linked m c la ∧ tip_of c la = best;
  fp_new : linked m c lb ∧ tip_of c lb = p;
  fp_disjoint : disjoint_branches la (lb ++ [new]);
  fp_stored : linked (<[hdrHash new := new]> m) c la ∧ linked (<[hdrHash new := new]> m) c (lb ++ [new]);
}.
Lemma fork_point_found s1 m best p new :
  chain_inv genesis m best → extends genesis m p new → TotalWork best < TotalWork new →
  Height best < 2 ^ 32 → Height new < 2 ^ 32 →
  hd_ok (cd_h s1) → hd_view (cd_h s1) = <[hdrHash new := new]> m →
  ∃ c la lb, getCommonAncestor new best s1 = (Ok (Some c), s1) ∧ fork_point m best p new c la lb.
Proof.
  intros Hc He Hw Hfb Hfn Hok1 Hv1. pose proof (ci_tree _ _ _ Hc) as Ht.
  pose proof (fresh_tip _ _ _ _ Hc He Hw) as Hfresh. pose proof He as (Hpk & (Hpp & _) & _).
  assert (Hbn : best ≠ new) by (intros ->; lia).
  assert (Hhn : hdrHash best ≠ hdrHash new)
    by (intros E; pose proof (ci_best _ _ _ Hc) as Hcb; rewrite E in Hcb; congruence).
  destruct (getCommonAncestor_spec genesis s1 new best Hok1)
    as (c & lb0 & la & Hca & Hlb0 & Hla & Htb & Hta & Hd); [| | |done|done|].
  { rewrite Hv1. by eapply tree_inv_insert. }
  { rewrite Hv1. apply lookup_insert_eq. }
  { rewrite Hv1, lookup_insert_ne by done. apply (ci_best _ _ _ Hc). }
  rewrite Hv1 in Hlb0, Hla. pose proof Hla as Hla0.
  apply (linked_old genesis m p new Ht He Hfresh) in Hla; [|by rewrite Hta].
  pose proof (linked_start _ _ _ Hla) as Hcm.
  destruct lb0 as [|x lb _] using rev_ind; [change (tip_of c []) with c in Htb; congruence|].
  rewrite tip_of_snoc in Htb. subst x.
  pose proof Hlb0 as (Hlb & (Hnp & _) & _)%linked_snoc.
  assert (Htp : tip_of c lb = p).
  { rewrite Hpp in Hnp. pose proof (linked_tip _ _ _ Hlb) as Hkt. rewrite <-Hnp in Hkt.
    rewrite lookup_insert_ne in Hkt; [congruence|]. intros E. rewrite <-E in Hpk. congruence. }
  exists c, la, lb. split; [done|]. split; [done| |by intros h1 h2 Hh1 Hh2 E; eapply Hd|done].
  split; [|done]. apply (linked_old genesis m p new Ht He Hfresh); [done|].
  intros E. rewrite Htp in E. rewrite E in Hpk. congruence.
Qed.
(** The blocks of the new branch are not on the main chain, so the fork store
    has them. *)
Lemma fork_point_forks m best p new c la lb (t : TS) : fork_point m best p new c la lb →
  forks_ok m best t → ∀ x, x ∈ lb → is_Some (td_fork t !! hdrHash x).
Proof.
  intros [[Hla Hta] [Hlb _] Hd _] Hforks x Hx. destruct (linked_elem _ _ _ _ Hlb Hx) as [Hxk Hxh].
  apply Hforks; [done|]. intros Hom. rewrite <-Hta in Hom.
  destruct (on_path m c la x Hla Hom) as [Hx'|(l & Hl & Htl)].
  - eapply Hd; [exact Hx'| |done]. apply elem_of_app. by left.
  - pose proof (linked_height _ _ _ Hl). rewrite Htl in *. lia.
Qed.

Lemma reorganise s best block p :
  chain_ok s best → hd_view (cd_h s) !! hdrPrevious (BlockHdr block) = Some p →
  checkProofOfWork (BlockHdr block) = true → storable s block p →
  forks_ok (hd_view (cd_h s)) best (cd_t s) →
  TotalWork best < TotalWork (filled block p) → hdrHash best ≠ hdrHash p →
  ∃ c la lb s' fps, reorganised s best block p c la lb s' fps.
Proof.
  intros Hs Hp Hpow (He & Hfits & Hph) Hforks Hw Hbp. pose proof Hs as (Hok & Hb & Hc & Hbh).
  set (new := filled block p) in *. set (m := hd_view (cd_h s)) in *.
  pose proof (ci_tree _ _ _ Hc) as Ht. pose proof (fresh_tip _ _ _ _ Hc He Hw) as Hfresh.
  assert (Hhn : hdrHash best ≠ hdrHash new)
    by (intros E; pose proof (ci_best _ _ _ Hc) as Hcb; rewrite E in Hcb; congruence).
  destruct (store_block s new (Transactions block) true Hok Hfits)
    as (s1 & fps & Hst & Hok1 & Hv1 & Hb1 & Hf1 & Hm1). fold m in Hv1.
  pose proof (CommitBlock_run s best block p s1 fps Hs Hp Hpow Hhn Hph) as Hrun.
  cbv zeta in Hrun. fold new in Hrun. rewrite (proj2 (Z.ltb_lt _ _) Hw) in Hrun.
  specialize (Hrun Hst). rewrite bool_decide_false in Hrun by done. cbn [andb negb] in Hrun.
  destruct (fork_point_found s1 m best p new Hc He Hw ltac:(lia) ltac:(unfold new; cbn; lia) Hok1 Hv1)
    as (c & la & lb & Hca & Hfp).
  pose proof (fork_point_forks _ _ _ _ _ _ _ _ Hfp Hforks) as Hsome.
  destruct Hfp as [[Hla Hta] [Hlb Htp] Hd [Hla1 Hlb1]].
  rewrite (bindL_run _ _ s1 (inr c) s1) in Hrun by (by apply tryL_run).
  destruct (ProcessReorganize_spec s1 c la (lb ++ [new])) as
    (s' & Hpr & Hok' & Hv' & Hb' & Hfo & Hfr & Hmn & Hmo); [done|by rewrite Hv1..|by destruct lb|done| | | |].
  { eapply (ti_height _ _ Ht), (linked_start _ _ _ Hla). }
  { by rewrite tip_of_snoc. }
  { rewrite tip_of_snoc, Hf1. intros x [Hx|Hx%list_elem_of_singleton]%elem_of_app Hxn; [by apply Hsome|done]. }
  rewrite tip_of_snoc, Hta in *.
  rewrite (bindL_run _ _ s1 (inr ()) s') in Hrun by (by apply tryL_run).
  exists c, la, lb, s', fps. split; try done.
  - split_and!; [done|by rewrite Hv', Hv1|done].
  - intros h1 h2 Hh1 Hh2. apply Hd; [done|]. apply elem_of_app. by left.
  - intros h Hh. exists (if decide (Height h = Height new) then kept (Transactions block) else []).
    rewrite Hfo, Hm1 by done. split; [repeat case_decide; naive_solver|intros Hne; by rewrite decide_False].
  - intros k Hk. by rewrite Hfr, Hf1.
  - intros x txs Hx Htxs. destruct (linked_elem _ _ _ _ Hlb Hx) as [Hxk Hxh].
    assert (Height x < Height new) by (rewrite Htp in Hxh; unfold new; cbn; lia).
    rewrite (Hmn x txs); [|set_solver|intros ->; lia|by rewrite Hf1].
    rewrite Hm1, (decide_False (P := True ∧ _)) by (intros [_ E]; lia). by rewrite app_nil_r.
  - intros x Hx. rewrite Hmo, Hm1 by done. repeat case_decide; naive_solver.
Qed.

Lemma CommitBlock_stores s best block p :
  chain_ok s best → hd_view (cd_h s) !! hdrPrevious (BlockHdr block) = Some p →
  checkProofOfWork (BlockHdr block) = true → hdrHash best ≠ hdrHash (BlockHdr block) →
  storable s block p →
  let new := filled block p in
  let newTip := TotalWork best <? TotalWork new in
  newTip && negb (bool_decide (hdrHash best = hdrHash p)) = false →
  ∃ s' fps, CommitBlock block s =
      (Ok (Some (mkCommitResult newTip false (Height new) fps None,
                 mkBlock new (Transactions block))), s') ∧
    hd_ok (cd_h s') ∧ hd_view (cd_h s') = <[hdrHash new := new]> (hd_view (cd_h s)) ∧
    hd_best (cd_h s') = (if newTip then Some new else Some best) ∧
    td_fork (cd_t s') = (if newTip then td_fork (cd_t s)
                         else <[hdrHash new := Transactions block]> (td_fork (cd_t s))) ∧
    ∀ x, td_main (cd_t s') x =
      td_main (cd_t s) x ++ (if decide (newTip ∧ x = Height new) then kept (Transactions block) else []).
Proof.
  intros Hs Hp Hpow Hne (He & Hfits & Hph) new newTip Hre. pose proof Hs as (Hok & Hb & _).
  destruct (store_block s new (Transactions block) newTip Hok Hfits)
    as (s1 & fps & Hst & Hrest). exists s1, fps. rewrite <-Hb. split; [|done].
  rewrite (CommitBlock_run s best block p s1 fps) by done. fold new newTip. by rewrite Hre.
Qed.

(** ** The transactions of the main chain *)

(** [txs_of] gives the transactions of every block by its hash. *)
Context (txs_of : Uint256 → list T).

Record txs_inv m best (t : TS) : Prop := {
  tx_main : ∀ h, m !! hdrHash h = Some h → on_main m best h →
    td_main t (Height h) = kept (txs_of (hdrHash h));
  tx_above : ∀ x, Height best < x → td_main t x = [];
  tx_fork : ∀ h, m !! hdrHash h = Some h → ¬ on_main m best h →
    ∃ txs, td_fork t !! hdrHash h = Some txs ∧ kept txs = kept (txs_of (hdrHash h));
}.

Lemma txs_forks_ok m best t : txs_inv m best t → forks_ok m best t.
Proof. intros [_ _ Hf] h Hk Hm. destruct (Hf h Hk Hm) as (txs & -> & _). eauto. Qed.

Lemma kept_kept (txs : list T) : kept (kept txs) = kept txs.
Proof.
  unfold kept. induction txs as [|x txs IH]; [done|]. rewrite !filter_cons.
  destruct (decide (td_keep x)); [|done]. rewrite filter_cons, decide_True by done. by f_equal.
Qed.

Section reorganised.
Context (s s' : chainDB HS TS) (block : Block H T) (best p c : Header H) (la lb : list (Header H)) (fps : Z).
Context (Hc : chain_inv genesis (hd_view (cd_h s)) best).
Notation new := (filled block p).
Notation m := (hd_view (cd_h s)).
Context (He : extends genesis m p new) (Hinv : txs_inv m best (cd_t s)).
Context (Hw : TotalWork best < TotalWork new) (Hhb : Height best < Height new).
Context (Htxs : txs_of (hdrHash new) = Transactions block).
Context (R : reorganised s best block p c la lb s' fps).

Lemma reorganised_heights :
  Height best = Height c + Z.of_nat (length la) ∧ Height new = Height c + Z.of_nat (length lb) + 1.
Proof.
  destruct (ro_old _ _ _ _ _ _ _ _ _ R) as [Hla <-], (ro_new _ _ _ _ _ _ _ _ _ R) as [Hlb Htb].
  pose proof (linked_height _ _ _ Hlb) as Hlen. rewrite Htb in Hlen.
  split; [by eapply linked_height|]. cbn. lia.
Qed.
(** A header below the new tip, on the main chain it ends. *)
Lemma reorganised_main h : m !! hdrHash h = Some h → on_main m p h →
  td_main (cd_t s') (Height h) = kept (txs_of (hdrHash h)).
Proof.
  intros Hold Hom. destruct Hinv as [Hmain Habove Hfork], reorganised_heights as [Hlen Hlenb].
  destruct (ro_old _ _ _ _ _ _ _ _ _ R) as [Hla Hta], (ro_new _ _ _ _ _ _ _ _ _ R) as [Hlb Htb].
  rewrite <-Htb in Hom. destruct (on_path m c lb h Hlb Hom) as [Hin|Hup].
  - destruct (linked_elem _ _ _ _ Hlb Hin) as [_ Hr].
    pose proof (linked_height _ _ _ Hlb) as Hlh. rewrite Htb in Hr, Hlh.
    destruct (Hfork h Hold) as (txs & Htx & Hkt).
    { intros Hob. rewrite <-Hta in Hob. destruct (on_path m c la h Hla Hob) as [Hin'|(l & Hl & Htl)].
      - by eapply (ro_disjoint _ _ _ _ _ _ _ _ _ R).
      - pose proof (linked_height _ _ _ Hl). rewrite Htl in *. lia. }
    rewrite (ro_main_new _ _ _ _ _ _ _ _ _ R h txs Hin Htx), Hkt.
    case_decide; [done|]. by rewrite Habove by lia.
  - pose proof Hup as (l & Hl & Htl). pose proof (linked_height _ _ _ Hl) as Hlh. rewrite Htl in Hlh.
    rewrite (ro_main _ _ _ _ _ _ _ _ _ R) by lia.
    rewrite decide_False, decide_False, app_nil_r by lia. apply Hmain; [done|].
    rewrite <-Hta. by eapply on_main_up.
Qed.
(** A header that the new main chain leaves aside. *)
Lemma reorganised_fork h : m !! hdrHash h = Some h → ¬ on_main m p h →
  ∃ txs, td_fork (cd_t s') !! hdrHash h = Some txs ∧ kept txs = kept (txs_of (hdrHash h)).
Proof.
  intros Hold Hom. destruct Hinv as [Hmain Habove Hfork], reorganised_heights as [Hlen Hlenb].
  destruct (ro_old _ _ _ _ _ _ _ _ _ R) as [Hla Hta], (ro_new _ _ _ _ _ _ _ _ _ R) as [Hlb Htb].
  destruct (decide (hdrHash h ∈ hdrHash <$> la)) as [Hin|Hnin].
  - apply list_elem_of_fmap in Hin as (x & E & Hin).
    destruct (linked_elem _ _ _ _ Hla Hin) as [Hxk Hr]. rewrite Hta in Hr.
    pose proof (hash_eq _ _ _ Hold Hxk E). subst x.
    destruct (ro_fork_old _ _ _ _ _ _ _ _ _ R h Hin) as (more & Hf & Hmore).
    rewrite (Hmore ltac:(lia)), app_nil_r in Hf. eexists. split; [exact Hf|].
    rewrite Hmain; [apply kept_kept|done|]. rewrite <-Hta. by eapply on_main_elem.
  - rewrite (ro_fork _ _ _ _ _ _ _ _ _ R).
    2: { intros x Hx E. apply Hnin. rewrite <-E. by apply list_elem_of_fmap_2. }
    apply Hfork; [done|]. intros Hob. rewrite <-Hta in Hob.
    destruct (on_path m c la h Hla Hob) as [Hin|Hup]; [by apply Hnin, list_elem_of_fmap_2|].
    apply Hom. rewrite <-Htb. by eapply on_main_up.
Qed.

Lemma reorganised_txs : txs_inv (hd_view (cd_h s')) new (cd_t s').
Proof.
  pose proof (ci_tree _ _ _ Hc) as Ht. pose proof (fresh_tip _ _ _ _ Hc He Hw) as Hfresh.
  destruct (ro_ok _ _ _ _ _ _ _ _ _ R) as (_ & Hv & _). rewrite Hv.
  pose proof reorganised_heights as [Hlen Hlenb]. pose proof (tx_above _ _ _ Hinv) as Habove.
  split.
  - intros h Hk Hom. apply (on_main_new genesis m p new Ht He Hfresh) in Hom as [->|Hom].
    + rewrite (ro_main _ _ _ _ _ _ _ _ _ R) by lia.
      rewrite decide_False, decide_True by lia. by rewrite Habove, Htxs by lia.
    + apply reorganised_main; [|done]. eapply stored_old; [exact Hk|].
      intros ->. destruct Hom as (l & Hl & _). apply linked_start in Hl. congruence.
  - intros x Hx. rewrite (ro_main _ _ _ _ _ _ _ _ _ R) by lia.
    rewrite decide_False, decide_False, app_nil_r by lia. apply Habove. lia.
  - intros h Hk Hom. apply reorganised_fork.
    + eapply stored_old; [exact Hk|]. intros ->. apply Hom. exists []. split; [by split|done].
    + intros Hp. apply Hom. apply (on_main_new genesis m p new Ht He Hfresh). by right.
Qed.
End reorganised.

Lemma appended_txs s best block s' :
  let new := filled block best in
  chain_inv genesis (hd_view (cd_h s)) best →
  extends genesis (hd_view (cd_h s)) best new → TotalWork best < TotalWork new →
  txs_inv (hd_view (cd_h s)) best (cd_t s) → txs_of (hdrHash new) = Transactions block →
  hd_view (cd_h s') = <[hdrHash new := new]> (hd_view (cd_h s)) →
  td_fork (cd_t s') = td_fork (cd_t s) →
  (∀ x, td_main (cd_t s') x = td_main (cd_t s) x ++
          (if decide (True ∧ x = Height new) then kept (Transactions block) else [])) →
  txs_inv (hd_view (cd_h s')) new (cd_t s').
Proof.
  intros new Hc He Hw [Hmain Habove Hfork] Htxs Hv Hf Hm. set (m := hd_view (cd_h s)) in *.
  pose proof (ci_tree _ _ _ Hc) as Ht. pose proof (fresh_tip _ _ _ _ Hc He Hw) as Hfresh.
  assert (Hnh : Height new = Height best + 1) by done. rewrite Hv. split.
  - intros h Hk Hom. rewrite Hm.
    apply (on_main_new genesis m best new Ht He Hfresh) in Hom as [->|Hom].
    + rewrite decide_True by done. by rewrite Habove, Htxs by lia.
    + pose proof Hom as (l & Hl & Htl). pose proof (linked_height _ _ _ Hl) as Hlh. rewrite Htl in Hlh.
      rewrite decide_False, app_nil_r by (intros [_ E]; lia). apply Hmain; [|done].
      by eapply linked_start.
  - intros x Hx. rewrite Hm, decide_False, app_nil_r by (intros [_ E]; lia). apply Habove. lia.
  - intros h Hk Hom. rewrite Hf. apply Hfork.
    + eapply stored_old; [done|]. intros ->. apply Hom. exists []. split; [by split|done].
    + intros Hob. apply Hom. apply (on_main_new genesis m best new Ht He Hfresh). by right.
Qed.

Lemma side_txs s best block p s' :
  let new := filled block p in
  chain_inv genesis (hd_view (cd_h s)) best →
  extends genesis (hd_view (cd_h s)) p new → hd_view (cd_h s) !! hdrHash new = None →
  txs_inv (hd_view (cd_h s)) best (cd_t s) → txs_of (hdrHash new) = Transactions block →
  hd_view (cd_h s') = <[hdrHash new := new]> (hd_view (cd_h s)) →
  td_fork (cd_t s') = <[hdrHash new := Transactions block]> (td_fork (cd_t s)) →
  (∀ x, td_main (cd_t s') x = td_main (cd_t s) x) →
  txs_inv (hd_view (cd_h s')) best (cd_t s').
Proof.
  intros new Hc He Hfresh [Hmain Habove Hfork] Htxs Hv Hf Hm. set (m := hd_view (cd_h s)) in *.
  pose proof (ci_tree _ _ _ Hc) as Ht.
  assert (Hbn : best ≠ new) by (intros E; pose proof (ci_best _ _ _ Hc); congruence).
  pose proof (on_main_old genesis m p new Ht He Hfresh best) as Hold. rewrite Hv. split.
  - intros h Hk Hom. rewrite Hm. apply Hold in Hom; [|done]. apply Hmain; [|done].
    destruct Hom as (l & Hl & _). by eapply linked_start.
  - intros x Hx. rewrite Hm. by apply Habove.
  - intros h Hk Hom. rewrite Hf. destruct (decide (hdrHash h = hdrHash new)) as [E|Hne'].
    + rewrite E, lookup_insert_eq. eexists. by rewrite Htxs.
    + assert (Hne : h ≠ new) by congruence. pose proof (stored_old m new h Hk Hne) as Hkm. rewrite lookup_insert_ne by congruence.
      apply Hfork; [done|]. intros Hob. by apply Hom, Hold.
Qed.
End commit.

(** ** The theorems *)
Section theorems.
Context {HS TS H T} `{BlockHeader H} `{!HeadersDB HS H} `{!TxsDB TS T}
  `{!HeadersLaws HS H} `{!TxsLaws TS T}.
Context (genesis : Header H).
Implicit Types (s : chainDB HS TS) (block : Block H T).

Lemma CommitBlock_chain_run s best block :
  chain_ok genesis s best → forks_ok (hd_view (cd_h s)) best (cd_t s) →
  (∀ p, hd_view (cd_h s) !! hdrPrevious (BlockHdr block) = Some p → storable genesis s block p) →
  match hd_view (cd_h s) !! hdrPrevious (BlockHdr block) with
  | None => CommitBlock block s =
      (Ok (Some (mkCommitResult false false 0 0 (Some OrphanBlockError), block)), s)
  | Some p =>
    if negb (checkProofOfWork (BlockHdr block)) || bool_decide (hdrHash best = hdrHash (BlockHdr block))
    then CommitBlock block s = (Ok (Some (mkCommitResult false false 0 0 None, block)), s)
    else
      let new := filled block p in
      let newTip := TotalWork best <? TotalWork new in
      let reorg := newTip && negb (bool_decide (hdrHash best = hdrHash p)) in
      let best' := if newTip then new else best in
      ∃ fps s', CommitBlock block s =
          (Ok (Some (mkCommitResult newTip reorg (Height p + 1) fps None,
                     mkBlock new (Transactions block))), s') ∧
        hd_ok (cd_h s') ∧ hd_view (cd_h s') = <[hdrHash new := new]> (hd_view (cd_h s)) ∧
        hd_best (cd_h s') = Some best' ∧ chain_inv genesis (hd_view (cd_h s')) best'
  end.
Proof.
  intros Hs Hforks Hst. destruct (hd_view (cd_h s) !! hdrPrevious (BlockHdr block)) as [p|] eqn:Hp.
  2: { by eapply CommitBlock_orphan. }
  destruct (checkProofOfWork (BlockHdr block)) eqn:Hpow; cbn [negb orb].
  2: { eapply CommitBlock_refused; eauto. }
  case_bool_decide as Hne; [eapply CommitBlock_refused; eauto|].
  specialize (Hst p eq_refl). pose proof Hst as (He & _). pose proof Hs as (_ & _ & Hc & _).
  pose proof (chain_inv_insert genesis _ _ _ _ Hc He Hne) as Hinv.
  cbv zeta. destruct (_ && _) eqn:Hre.
  - apply andb_true_iff in Hre as [Hw%Z.ltb_lt Hbp%negb_true_iff%bool_decide_eq_false].
    destruct (reorganise genesis s best block p Hs Hp Hpow Hst Hforks Hw Hbp)
      as (c & la & lb & s' & fps & R). exists fps, s'.
    rewrite (proj2 (Z.ltb_lt _ _) Hw) in *. destruct (ro_ok _ _ _ _ _ _ _ _ _ R) as (Hok & Hv & Hb).
    split_and!; [apply (ro_run _ _ _ _ _ _ _ _ _ R)|done..|]. by rewrite Hv.
  - destruct (CommitBlock_stores genesis s best block p Hs Hp Hpow Hne Hst Hre)
      as (s' & fps & Hrun & Hok & Hv & Hb & _). exists fps, s'.
    split_and!; [done|done|done| |by rewrite Hv]. rewrite Hb. by destruct (_ <? _).
Qed.


Lemma CommitBlock_txs_run s best block p (txs_of : Uint256 → list T) :
  chain_ok genesis s best → txs_inv txs_of (hd_view (cd_h s)) best (cd_t s) →
  hd_view (cd_h s) !! hdrPrevious (BlockHdr block) = Some p → storable genesis s block p →
  checkProofOfWork (BlockHdr block) = true → hd_view (cd_h s) !! hdrHash (BlockHdr block) = None →
  txs_of (hdrHash (BlockHdr block)) = Transactions block →
  (TotalWork best < TotalWork (filled block p) → hdrHash best ≠ hdrHash p → Height best < Height p + 1) →
  ∃ r block' s' best', CommitBlock block s = (Ok (Some (r, block')), s') ∧ cr_err r = None ∧
    hd_best (cd_h s') = Some best' ∧ txs_inv txs_of (hd_view (cd_h s')) best' (cd_t s').
Proof.
  intros Hs Hinv Hp Hst Hpow Hfresh Htxs Hhigh. pose proof Hst as (He & _). pose proof Hs as (_ & _ & Hc & _).
  assert (Hne : hdrHash best ≠ hdrHash (BlockHdr block)).
  { intros E. pose proof (ci_best _ _ _ Hc). congruence. }
  destruct ((TotalWork best <? TotalWork (filled block p)) &&
            negb (bool_decide (hdrHash best = hdrHash p))) eqn:Hre.
  - apply andb_true_iff in Hre as [Hw%Z.ltb_lt Hbp%negb_true_iff%bool_decide_eq_false].
    destruct (reorganise genesis s best block p Hs Hp Hpow Hst (txs_forks_ok _ _ _ _ Hinv) Hw Hbp)
      as (c & la & lb & s' & fps & R). destruct (ro_ok _ _ _ _ _ _ _ _ _ R) as (_ & _ & Hb).
    eexists _, _, s', _. split_and!; [apply (ro_run _ _ _ _ _ _ _ _ _ R)|done|done|].
    by eapply (reorganised_txs genesis); eauto.
  - destruct (CommitBlock_stores genesis s best block p Hs Hp Hpow Hne Hst Hre)
      as (s' & fps & Hrun & Hok & Hv & Hb & Hf & Hm).
    eexists _, _, s', (if TotalWork best <? TotalWork (filled block p) then filled block p else best).
    split_and!; [exact Hrun|done|destruct (_ <? _); exact Hb|].
    destruct (Z.ltb_spec (TotalWork best) (TotalWork (filled block p))) as [Hw|Hw]; cbn [andb] in Hre.
    + apply negb_false_iff, bool_decide_eq_true in Hre. pose proof He as (Hpk & _).
      pose proof (hash_eq _ _ _ (ci_best _ _ _ Hc) Hpk Hre). subst p.
      eapply (appended_txs genesis); eauto.
    + eapply (side_txs genesis); eauto.
      intros x. rewrite Hm, decide_False by (by intros [[] _]). apply app_nil_r.
Qed.

(** C2: over a transaction database that does what the interface [TxsDB] says
    ([TxsLaws]; neither store of the repository takes transactions back, see
    [spv_index_never_written] and [wallet_DelTxs_fails]): when the main chain holds
    the transactions of the blocks on it and the fork store those of every other
    block, committing a block that is not stored yet keeps both, reorganisations
    included, as long as the new tip of a reorganisation is higher than the old
    one ([CommitBlock_short_reorg] is the other case). *)
Theorem CommitBlock_txs s best block p (txs_of : Uint256 → list T) :
  chain_ok genesis s best → txs_inv txs_of (hd_view (cd_h s)) best (cd_t s) →
  hd_view (cd_h s) !! hdrPrevious (BlockHdr block) = Some p → storable genesis s block p →
  checkProofOfWork (BlockHdr block) = true → hd_view (cd_h s) !! hdrHash (BlockHdr block) = None →
  txs_of (hdrHash (BlockHdr block)) = Transactions block →
  (TotalWork best < TotalWork (filled block p) → hdrHash best ≠ hdrHash p → Height best < Height p + 1) →
  ∃ r block' s' best', CommitBlock block s = (Ok (Some (r, block')), s') ∧ cr_err r = None ∧
    hd_best (cd_h s') = Some best' ∧ txs_inv txs_of (hd_view (cd_h s')) best' (cd_t s').
Proof. apply CommitBlock_txs_run. Qed.

(** a reorganisation to a branch with more work that is not higher than
    the old one succeeds, and leaves the main chain without the transactions
    of the new tip. *)
Theorem CommitBlock_short_reorg s best block p :
  chain_ok genesis s best → forks_ok (hd_view (cd_h s)) best (cd_t s) →
  hd_view (cd_h s) !! hdrPrevious (BlockHdr block) = Some p → storable genesis s block p →
  checkProofOfWork (BlockHdr block) = true →
  TotalWork best < TotalWork (filled block p) → hdrHash best ≠ hdrHash p →
  Height p + 1 ≤ Height best →
  ∃ r block' s', CommitBlock block s = (Ok (Some (r, block')), s') ∧
    cr_err r = None ∧ cr_newTip r = true ∧ hd_best (cd_h s') = Some (filled block p) ∧
    td_main (cd_t s') (Height (filled block p)) = [].
Proof.
  intros Hs Hforks Hp Hst Hpow Hw Hbp Hh.
  destruct (reorganise genesis s best block p Hs Hp Hpow Hst Hforks Hw Hbp)
    as (c & la & lb & s' & fps & R). destruct (ro_ok _ _ _ _ _ _ _ _ _ R) as (_ & _ & Hb).
  eexists _, _, s'. split_and!; [apply (ro_run _ _ _ _ _ _ _ _ _ R)|done..|].
  destruct (ro_new _ _ _ _ _ _ _ _ _ R) as [Hlb Htb]. pose proof (linked_height _ _ _ Hlb) as Hl.
  rewrite Htb in Hl. rewrite (ro_main _ _ _ _ _ _ _ _ _ R) by lia.
  cbn [filled Height]. by rewrite decide_True by lia.
Qed.
End theorems.
