(* ===== verification/Locator.v ===== *)
(** * Block locators and common ancestors *)
From S2P Require Export Commit.

(** The heights a locator from height [h] visits: [step] doubles every nine
    hashes, at most [n] hashes, never below the genesis. *)
Fixpoint locator_heights (n step start : nat) (h : Z) : list Z :=
  match n with
  | O => []
  | S n =>
      let '(step, start) := if (9 <=? start)%nat then ((step * 2)%nat, 0%nat) else (step, start) in
      h :: (if h <? Z.of_nat step then [] else locator_heights n step (start + 1) (h - Z.of_nat step))
  end.

Lemma locator_heights_head n step start h :
  (0 < n)%nat → head (locator_heights n step start h) = Some h.
Proof. destruct n; [lia|]. intros _. cbn [locator_heights]. by destruct (9 <=? start)%nat. Qed.

Section locator.
Context {HS TS H T} `{BlockHeader H} `{!HeadersDB HS H} `{!TxsDB TS T} `{!HeadersLaws HS H}.
Context (genesis : Header H).
Implicit Types (s : chainDB HS TS).

Lemma locatorLoop_spec s best n step start h ret :
  let m := hd_view (cd_h s) in
  hd_ok (cd_h s) → tree_inv genesis m → on_main m best h →
  (0 < n)%nat → (length ret + n = MaxBlockLocatorHashes)%nat →
  ∃ hs, locatorLoop n step start h ret s = (Ok (Some (ret ++ (hdrHash <$> hs))), s) ∧
    Forall (on_main m best) hs ∧ Height <$> hs = locator_heights n step start (Height h).
Proof.
  intros m Hok Ht. revert step start h ret. induction n as [|n IH]; intros step start h ret Hm Hn Hlen; [lia|].
  cbn [locatorLoop locator_heights].
  destruct (if (9 <=? start)%nat then _ else _) as [step' start'] eqn:Hstep. clear Hstep.
  pose proof Hm as (lm & Hlm & Htm). pose proof (linked_start _ _ _ Hlm) as Hk.
  rewrite length_app. cbn [length].
  destruct (Nat.leb_spec MaxBlockLocatorHashes (length ret + 1)) as [Hfull|Hroom].
  { assert (n = 0%nat) as -> by lia. exists [h]. split_and!; [done|by repeat constructor|].
    cbn [fmap list_fmap]. by destruct (_ <? _). }
  destruct (Z.ltb_spec (Height h) (Z.of_nat step')) as [Hlt|Hge].
  - destruct (rollback_err genesis s step' h Hok Ht Hk Hlt) as (e & He).
    rewrite (bind_run _ _ s (inl e) s) by (by apply try_run_err).
    exists [h]. split_and!; [done|by repeat constructor|done].
  - destruct (rollback_spec genesis s step' h Hok Ht Hk Hge) as (p & l & Hr & Hl & Hlt & Hll).
    rewrite (bind_run _ _ s (inr p) s) by (by apply try_run).
    destruct (IH step' (start' + 1)%nat p (ret ++ [hdrHash h])) as (hs & Hrun & Hall & Hh).
    { exists (l ++ lm). rewrite tip_of_app, Hlt. split; [|done]. apply linked_app. by rewrite Hlt. }
    { lia. }
    { rewrite length_app. simpl. lia. }
    exists (h :: hs). split_and!.
    + rewrite Hrun. cbn. by rewrite <-app_assoc.
    + by constructor.
    + cbn [fmap list_fmap]. f_equal. pose proof (linked_height _ _ _ Hl) as Hlh.
      rewrite Hlt, Hll in Hlh. rewrite Hlh, Z.add_simpl_r. exact Hh.
Qed.

Lemma LatestBlockLocator_spec_run s best :
  chain_ok genesis s best →
  ∃ hs, LatestBlockLocator s = (Ok (Some (hdrHash <$> hs)), s) ∧
    Forall (on_main (hd_view (cd_h s)) best) hs ∧
    Height <$> hs = locator_heights MaxBlockLocatorHashes 1 0 (Height best) ∧ head hs = Some best.
Proof.
  intros (Hok & Hb & Hc & _). unfold LatestBlockLocator.
  rewrite (bind_run _ _ s (inr best) s) by (by apply try_run, getBest_run).
  assert (Hm : on_main (hd_view (cd_h s)) best best).
  { exists []. split; [|done]. split; [apply (ci_best _ _ _ Hc)|done]. }
  destruct (locatorLoop_spec s best MaxBlockLocatorHashes 1 0 best [] Hok (ci_tree _ _ _ Hc) Hm)
    as (hs & Hrun & Hall & Hh); [unfold MaxBlockLocatorHashes; lia|done|].
  exists hs. split_and!; [done..|]. apply (f_equal head) in Hh.
  rewrite locator_heights_head in Hh by (unfold MaxBlockLocatorHashes; lia).
  destruct hs as [|h hs]; [done|]. injection Hh as Hhh. cbn [head]. f_equal.
  apply Forall_cons in Hall as [(l & Hl1 & Hl2) _].
  assert (Hl0 : linked (hd_view (cd_h s)) best []) by (split; [apply (ci_best _ _ _ Hc)|done]).
  by destruct (ancestor_unique _ _ _ _ _ Hl1 Hl0 Hl2 Hhh).
Qed.

(** C40: [LatestBlockLocator] returns, and answers the hashes of the main chain
    at the heights [locator_heights]: the tip first, step 1 nine times, then
    doubling every nine, at most a hundred. *)
Theorem LatestBlockLocator_spec s best :
  chain_ok genesis s best →
  ∃ hs, LatestBlockLocator s = (Ok (Some (hdrHash <$> hs)), s) ∧
    Forall (on_main (hd_view (cd_h s)) best) hs ∧
    Height <$> hs = locator_heights MaxBlockLocatorHashes 1 0 (Height best) ∧ head hs = Some best.
Proof. apply LatestBlockLocator_spec_run. Qed.

(** C36: [getCommonAncestor] of two stored headers returns the header where
    their branches part: both descend from it and nothing above it is common. *)
Theorem getCommonAncestor_lowest s best a b :
  chain_ok genesis s best →
  hd_view (cd_h s) !! hdrHash a = Some a → hd_view (cd_h s) !! hdrHash b = Some b →
  Height a < 2 ^ 32 → Height b < 2 ^ 32 →
  ∃ c, getCommonAncestor a b s = (Ok (Some c), s) ∧
    on_main (hd_view (cd_h s)) a c ∧ on_main (hd_view (cd_h s)) b c ∧
    ∀ h, on_main (hd_view (cd_h s)) a h → on_main (hd_view (cd_h s)) b h → Height h ≤ Height c.
Proof.
  intros (Hok & _ & Hc & _) Ha Hb Hha Hhb.
  destruct (getCommonAncestor_spec genesis s a b Hok (ci_tree _ _ _ Hc) Ha Hb Hha Hhb)
    as (c & la & lb & Hr & Hla & Hlb & <- & <- & Hd).
  exists c. split_and!; [done|by exists la|by exists lb|].
  intros h Hoa Hob. destruct (on_path _ _ _ _ Hla Hoa) as [Hin|(l & Hl & <-)].
  - destruct (on_path _ _ _ _ Hlb Hob) as [Hin'|(l & Hl & <-)]; [by destruct (Hd h h)|].
    rewrite (linked_height _ _ _ Hl). lia.
  - rewrite (linked_height _ _ _ Hl). lia.
Qed.
End locator.
