(* ===== verification/ElaHeader.v ===== *)
(** * The headers of the Elastos chain

    [interface/iutil/header.go] and [wallet/sutil/header.go] wrap the header of
    the Elastos node, the same way.  The chain is merge-mined: the proof of work
    of a header is the hash of the header of a parent chain in its [AuxPow],
    which the node's [AuxPow.Check] ties to the header; nothing here calls it
    ([replayed_work]). *)
From S2P Require Export Commit.
#[local] Open Scope Z_scope.

(** [core/types/common.Header] of the node, with the hash of
    [AuxPow.ParBlockHeader]. *)
Class ElaBlockHeader (EH : Type) := {
  eh_Previous : EH → Uint256;
  eh_Bits : EH → Z;
  eh_MerkleRoot : EH → Uint256;
  eh_Hash : EH → Uint256;
  eh_AuxPow_ParBlockHeader_Hash : EH → Uint256;
  eh_Serialize : EH → Writer;
  eh_Deserialize : Reader EH;
  eh_empty : EH;                        (* &types.Header{} *)
}.

Section header.
Context {EH : Type} `{!ElaBlockHeader EH}.

(** [Header]: [Hash], [Serialize] and [Deserialize] are those of the header it
    holds. *)
Record elaHeader := NewHeader { orgHeader : EH }.
#[export] Instance elaHeader_BlockHeader : BlockHeader elaHeader := {
  Previous h := eh_Previous (orgHeader h);
  Bits h := eh_Bits (orgHeader h);
  MerkleRoot h := eh_MerkleRoot (orgHeader h);
  Hash h := eh_Hash (orgHeader h);
  PowHash h := eh_AuxPow_ParBlockHeader_Hash (orgHeader h);
  SerializeHeader h := eh_Serialize (orgHeader h);
  DeserializeHeader := h ← eh_Deserialize; mret (NewHeader h);
}.
Definition NewEmptyHeader : elaHeader := NewHeader eh_empty.
(** [newBlockHeader] and [GenesisHeader] of the service, the header of a block. *)
Definition newBlockHeader : elaHeader := NewHeader eh_empty.
Definition GenesisHeader (header : EH) : elaHeader := NewHeader header.

(** The serializer of the node round-trips. *)
Class ElaBlockHeaderLaws : Prop := {
  eh_ok h : ∃ bs, writes (eh_Serialize h) bs ∧ reads eh_Deserialize bs h;
}.
Context `{!ElaBlockHeaderLaws}.
(** So the stores of headers may hold the wrapped one. *)
#[export] Instance elaHeader_laws : BlockHeaderLaws elaHeader.
Proof.
  split. intros [h]. destruct (eh_ok h) as (bs & Hw & Hr). exists bs. split; [done|].
  cbn. intros rest. unfold mbind, GoM_bind. by rewrite (Hr rest).
Qed.
End header.
Arguments elaHeader : clear implicits.

(** ** Replayed work *)
Section replay.
Context {HS TS EH T : Type} `{!ElaBlockHeader EH} `{!HeadersDB HS (elaHeader EH)} `{!TxsDB TS T}
  `{!HeadersLaws HS (elaHeader EH)} `{!TxsLaws TS T}.
Context (genesis : Header (elaHeader EH)).
Implicit Types (s : chainDB HS TS) (block : Block (elaHeader EH) T).

(** The same claim of work: the difficulty bits and the parent chain's header. *)
Definition same_work (a b : Header (elaHeader EH)) : Prop :=
  eh_Bits (orgHeader (BlockHeaderOf a)) = eh_Bits (orgHeader (BlockHeaderOf b)) ∧
  eh_AuxPow_ParBlockHeader_Hash (orgHeader (BlockHeaderOf a)) = eh_AuxPow_ParBlockHeader_Hash (orgHeader (BlockHeaderOf b)).
Lemma same_work_check a b : same_work a b → checkProofOfWork a = checkProofOfWork b.
Proof. intros [Hb Hp]. unfold checkProofOfWork, hdrBits, hdrPowHash. cbn. by rewrite Hb, Hp. Qed.

(** C8: the proof of work of one accepted header is good for any other: a block on
    the tip with any merkle root and any transactions becomes the new tip, with the
    work of the old proof added, when its header repeats the bits and the parent
    header of [used]. *)
Theorem replayed_work s best block used : chain_ok genesis s best → checkProofOfWork used = true →
  same_work (BlockHdr block) used → hdrPrevious (BlockHdr block) = hdrHash best →
  hdrHash best ≠ hdrHash (BlockHdr block) → storable genesis s block best →
  ∃ s' fps, CommitBlock block s =
      (Ok (Some (mkCommitResult true false (Height best + 1) fps None, mkBlock (filled block best) (Transactions block))), s') ∧
    hd_best (cd_h s') = Some (filled block best) ∧
    TotalWork (filled block best) = TotalWork best + CalcWork (hdrBits used) ∧ 2 ≤ CalcWork (hdrBits used).
Proof.
  intros Hs Hused Hsame Hprev Hne Hst. pose proof Hs as (_ & _ & Hc & _).
  assert (Hpow : checkProofOfWork (BlockHdr block) = true) by (by rewrite (same_work_check _ _ Hsame)).
  assert (Hbits : hdrBits (BlockHdr block) = hdrBits used) by apply Hsame.
  pose proof (checkProofOfWork_pos used Hused) as Hwork.
  assert (Hfill : TotalWork (filled block best) = TotalWork best + CalcWork (hdrBits used)) by by rewrite <-Hbits.
  assert (Hnew : (TotalWork best <? TotalWork (filled block best)) = true) by (apply Z.ltb_lt; lia).
  destruct (CommitBlock_stores genesis s best block best Hs) as (s' & fps & Hr & _ & _ & Hb & _); try done.
  - by rewrite Hprev, (ci_best _ _ _ Hc).
  - by rewrite Hnew, bool_decide_true.
  - rewrite Hnew in Hr, Hb. exists s', fps. by split_and!.
Qed.
End replay.
