(* ===== verification/ChainDemo.v ===== *)
(** * Databases in memory, a small chain, and the witnesses of the chain theorems *)
From S2P Require Import Demo Samples Locator.

(** ** In-memory databases *)
Record mem_headers := mkMH {
  mh_map : gmap Uint256 (Header sample_header); mh_best : option (Header sample_header) }.
#[export] Instance mem_HeadersDB : HeadersDB mem_headers sample_header := {
  hdPut h newTip := modify (λ s,
    mkMH (<[hdrHash h := h]> (mh_map s)) (if (newTip : bool) then Some h else mh_best s));
  hdGetPrevious h := λ s,
    (match mh_map s !! hdrPrevious h with Some p => Ok p | None => Err ErrNotFound end, s);
  hdGet k := λ s, (match mh_map s !! k with Some p => Ok p | None => Err ErrNotFound end, s);
  hdGetBest := λ s, (match mh_best s with Some p => Ok p | None => Err ErrNotFound end, s);
  hdClear := putS (mkMH ∅ None);
  hdClose := mret ();
}.
#[export] Instance mem_HeadersLaws : HeadersLaws mem_headers sample_header.
Proof.
  refine {| hd_ok _ := True; hd_fits _ := True; hd_view := mh_map; hd_best := mh_best |}.
  - intros s k _. cbn. destruct (mh_map s !! k); eauto.
  - done.
  - intros s _. cbn. destruct (mh_best s); eauto.
  - intros s h newTip _ _. by eexists.
Defined.

Record mem_txs := mkMT { mt_main : gmap Z (list sample_tx); mt_fork : gmap Uint256 (list sample_tx) }.
Definition mt_at (s : mem_txs) (x : Z) : list sample_tx := default [] (mt_main s !! x).
#[export] Instance mem_TxsDB : TxsDB mem_txs sample_tx := {
  tdPutTxs txs height := λ s, (Ok 0, mkMT (<[height := mt_at s height ++ txs]> (mt_main s)) (mt_fork s));
  tdPutForkTxs txs hash := λ s, (Ok (), mkMT (mt_main s) (<[hash := txs]> (mt_fork s)));
  tdHaveTx _ := mret false;
  tdGetTxs height := λ s, (Ok (mt_at s height), s);
  tdGetForkTxs hash := λ s,
    (match mt_fork s !! hash with Some txs => Ok txs | None => Err ErrNotFound end, s);
  tdDelTxs height := λ s, (Ok (), mkMT (delete height (mt_main s)) (mt_fork s));
  tdClear := putS (mkMT ∅ ∅);
  tdClose := mret ();
}.
#[export] Instance mem_TxsLaws : TxsLaws mem_txs sample_tx.
Proof.
  refine {| td_main := mt_at; td_fork := mt_fork; td_keep _ := true |}.
  - intros s txs height. eexists _, 0. split_and!; [done|done|]. intros x. unfold mt_at. cbn.
    match goal with |- context[@filter _ _ _ ?P ?D txs] => assert (@filter _ _ _ P D txs = txs) as -> end.
    { induction txs as [|t txs IH]; [done|]. rewrite filter_cons, decide_True by done. by f_equal. }
    case_decide as E; [subst; by rewrite lookup_insert_eq|]. rewrite lookup_insert_ne by done.
    by rewrite app_nil_r.
  - intros s txs hash. by eexists.
  - done.
  - intros s hash txs E. cbn. by rewrite E.
  - intros s height. eexists. split_and!; [done|done|]. intros x. unfold mt_at. cbn.
    case_decide as E; [subst; by rewrite lookup_delete_eq|]. by rewrite lookup_delete_ne.
Defined.

(** ** Checking the invariants of a concrete store *)
Section checks.
Context {H} `{BlockHeader H} (genesis : Header H) (m : gmap Uint256 (Header H)).

Definition child_ofb (p h : Header H) : bool :=
  bool_decide (hdrPrevious h = hdrHash p) && (Height h =? Height p + 1) &&
  (TotalWork h =? TotalWork p + CalcWork (hdrBits h)).
Lemma child_ofb_ok p h : child_ofb p h = true → child_of p h.
Proof.
  intros [[Hp%bool_decide_eq_true Hh%Z.eqb_eq]%andb_true_iff Hw%Z.eqb_eq]%andb_true_iff. by split_and!.
Qed.

(** The stored headers, as a list: all but the genesis have their parent. *)
Definition tree_check : bool :=
  forallb (λ '(k, h), bool_decide (hdrHash h = k) && (0 <=? Height h) &&
    (bool_decide (k = hdrHash genesis) ||
     match m !! hdrPrevious h with Some p => child_ofb p h | None => false end)) (map_to_list m).

Lemma tree_check_ok :
  m !! hdrHash genesis = Some genesis → Height genesis = 0 → TotalWork genesis = 0 →
  m !! hdrPrevious genesis = None → tree_check = true → tree_inv genesis m.
Proof.
  intros Hg Hg0 Hgw Hgn Hc. unfold tree_check in Hc. rewrite forallb_forall in Hc.
  assert (Hc' : ∀ k h, m !! k = Some h → hdrHash h = k ∧ 0 ≤ Height h ∧ (k = hdrHash genesis ∨
     ∃ p, m !! hdrPrevious h = Some p ∧ child_of p h)).
  { intros k h Hk. apply elem_of_map_to_list, list_elem_of_In in Hk. specialize (Hc _ Hk). cbn in Hc.
    apply andb_true_iff in Hc as [[H1%bool_decide_eq_true H2%Z.leb_le]%andb_true_iff H3].
    split_and!; [done|done|]. apply orb_true_iff in H3 as [H3%bool_decide_eq_true|H3]; [by left|right].
    destruct (m !! hdrPrevious h) as [p|]; [|done]. exists p. split; [done|]. by apply child_ofb_ok. }
  split; [..|done|].
  - intros k h Hk. by destruct (Hc' k h Hk).
  - intros k h Hk. by destruct (Hc' k h Hk) as (_ & ? & _).
  - intros k h Hk Hne. by destruct (Hc' k h Hk) as (_ & _ & [?|?]).
Qed.

Definition most_check (best : Header H) : bool :=
  forallb (λ '(_, h), TotalWork h <=? TotalWork best) (map_to_list m).
Lemma most_check_ok best :
  most_check best = true → ∀ k h, m !! k = Some h → TotalWork h ≤ TotalWork best.
Proof.
  intros Hc k h Hk. unfold most_check in Hc. rewrite forallb_forall in Hc.
  apply elem_of_map_to_list, list_elem_of_In in Hk. specialize (Hc _ Hk). cbn in Hc. by apply Z.leb_le.
Qed.

(** [h] is met going back [n] times from [best]. *)
Fixpoint reach (n : nat) (best h : Header H) : bool :=
  bool_decide (hdrHash best = hdrHash h) ||
  match n with
  | O => false
  | S n => match m !! hdrPrevious best with
           | Some p => child_ofb p best && reach n p h | None => false end
  end.
Lemma reach_ok n best h :
  tree_inv genesis m → m !! hdrHash best = Some best → m !! hdrHash h = Some h →
  reach n best h = true → on_main m best h.
Proof.
  intros Ht. revert best. induction n as [|n IH]; intros best Hb Hh Hr; cbn [reach] in Hr.
  all: apply orb_true_iff in Hr as [Hr|Hr]; [apply bool_decide_eq_true in Hr;
    pose proof (hash_eq _ _ _ Hb Hh Hr); subst; exists []; by repeat split|].
  { done. }
  destruct (m !! hdrPrevious best) as [p|] eqn:Hp; [|done].
  apply andb_true_iff in Hr as [Hc%child_ofb_ok Hr].
  pose proof (lookup_key genesis m _ _ Ht Hp) as Hpk.
  destruct (IH p Hpk Hh Hr) as (l & Hl & Htl). exists (l ++ [best]).
  rewrite tip_of_snoc. split; [|done]. apply linked_snoc. by rewrite Htl.
Qed.
Definition all_main (n : nat) (best : Header H) : bool :=
  forallb (λ '(_, h), reach n best h) (map_to_list m).
Lemma all_main_ok n best :
  tree_inv genesis m → m !! hdrHash best = Some best → all_main n best = true →
  ∀ h, m !! hdrHash h = Some h → on_main m best h.
Proof.
  intros Ht Hb Hc h Hk. unfold all_main in Hc. rewrite forallb_forall in Hc.
  pose proof Hk as Hk'. apply elem_of_map_to_list, list_elem_of_In in Hk'. specialize (Hc _ Hk'). cbn in Hc.
  by eapply reach_ok.
Qed.
End checks.

(** ** A chain of three headers *)
Definition demo_genesis : Header sample_header := mkHeader (mksh (h256 0) (h256 100) 0x207fffff 0) 0 0 [] [] 0.
Definition demo_block (prev : Header sample_header) (nonce bits : Z) : Block sample_header sample_tx :=
  mkBlock (mkHeader (mksh (hdrHash prev) (h256 nonce) bits 1) 0 1 [] [] 0) [simple_tx nonce [] []].
Definition demo_s0 : chainDB mem_headers mem_txs :=
  (BlockChain_New (BlockHeaderOf demo_genesis) (mkChainDB (mkMH ∅ None) (mkMT ∅ ∅))).2.
Definition demo_b1 := demo_block demo_genesis 1 0x207fffff.
Definition demo_h1 := filled demo_b1 demo_genesis.
Definition demo_s1 := (CommitBlock demo_b1 demo_s0).2.
Definition demo_b2 := demo_block demo_h1 2 0x207fffff.
Definition demo_h2 := filled demo_b2 demo_h1.
Definition demo_s2 := (CommitBlock demo_b2 demo_s1).2.
(** A heavier block on the genesis: one high, against a tip two high. *)
Definition demo_b3 := demo_block demo_genesis 3 0x1f7fffff.
Definition demo_h3 := filled demo_b3 demo_genesis.

Lemma demo_genesis_tree m :
  m !! hdrHash demo_genesis = Some demo_genesis → m !! hdrPrevious demo_genesis = None →
  tree_check demo_genesis m = true → tree_inv demo_genesis m.
Proof. intros. by apply tree_check_ok. Qed.

Lemma demo_chain_ok (s : chainDB mem_headers mem_txs) best :
  mh_best (cd_h s) = Some best → Height best < 2 ^ 32 - 1 → mh_map (cd_h s) !! hdrHash best = Some best →
  mh_map (cd_h s) !! hdrHash demo_genesis = Some demo_genesis →
  mh_map (cd_h s) !! hdrPrevious demo_genesis = None →
  tree_check demo_genesis (mh_map (cd_h s)) = true → most_check (mh_map (cd_h s)) best = true →
  chain_ok demo_genesis s best.
Proof.
  intros Hb Hh Hk Hg Hgn Ht Hm. split_and!; [done|done| |done]. split; [by apply demo_genesis_tree|done|].
  by apply most_check_ok.
Qed.
Lemma demo_s2_ok : chain_ok demo_genesis demo_s2 demo_h2.
Proof. apply demo_chain_ok; vm_compute; reflexivity. Qed.
Lemma demo_s2_main h :
  hd_view (cd_h demo_s2) !! hdrHash h = Some h → on_main (hd_view (cd_h demo_s2)) demo_h2 h.
Proof.
  pose proof demo_s2_ok as (_ & _ & [Ht Hb _] & _).
  apply (all_main_ok demo_genesis _ 3 demo_h2 Ht Hb). vm_compute. reflexivity.
Qed.
Lemma demo_s2_forks : forks_ok (hd_view (cd_h demo_s2)) demo_h2 (cd_t demo_s2).
Proof. intros h Hk Hn. exact (False_ind _ (Hn (demo_s2_main h Hk))). Qed.
Lemma demo_b3_storable : storable demo_genesis demo_s2 demo_b3 demo_genesis.
Proof.
  split; [split; [|split; [split; [|split]|split]]|split; [exact I|vm_compute; reflexivity]].
  - vm_compute. reflexivity.
  - vm_compute. reflexivity.
  - vm_compute. reflexivity.
  - vm_compute. reflexivity.
  - vm_compute. intros; congruence.
  - intros h Hk. exfalso. revert Hk. vm_compute. congruence.
Qed.

(** ** The witnesses *)
Lemma demo_parent : hd_view (cd_h demo_s2) !! hdrPrevious (BlockHdr demo_b3) = Some demo_genesis.
Proof. vm_compute. reflexivity. Qed.

Lemma checkProofOfWork_witness_b3 : checkProofOfWork (BlockHdr demo_b3) = true.
Proof. vm_compute. reflexivity. Qed.


Definition demo_b4 := demo_block demo_h2 4 0x207fffff.
Definition demo_txs_of (k : Uint256) : list sample_tx :=
  if decide (k = hdrHash demo_h1) then Transactions demo_b1
  else if decide (k = hdrHash demo_h2) then Transactions demo_b2
  else if decide (k = hdrHash (BlockHdr demo_b4)) then Transactions demo_b4 else [].

Lemma fmap_eq_elem {A B} (f g : A → B) (l : list A) x : f <$> l = g <$> l → x ∈ l → f x = g x.
Proof.
  induction l as [|y l IH]; intros Hfg Hx; [by apply not_elem_of_nil in Hx|].
  injection Hfg as Hy Hl. apply elem_of_cons in Hx as [->|Hx]; [done|by apply IH].
Qed.

Lemma demo_s2_txs : txs_inv demo_txs_of (hd_view (cd_h demo_s2)) demo_h2 (cd_t demo_s2).
Proof.
  split.
  - intros h Hk _. apply elem_of_map_to_list in Hk.
    refine (fmap_eq_elem (λ kh, td_main (cd_t demo_s2) (Height kh.2))
      (λ kh, kept (demo_txs_of (hdrHash kh.2))) _ (_, h) _ Hk).
    vm_compute. reflexivity.
  - intros x Hx. assert (Hall : Forall (λ kl : Z * list sample_tx, kl.1 <=? Height demo_h2)
      (map_to_list (mt_main (cd_t demo_s2)))).
    { apply forallb_True. vm_compute. exact I. }
    change (mt_at (cd_t demo_s2) x = []). unfold mt_at.
    destruct (mt_main (cd_t demo_s2) !! x) as [l|] eqn:Hl; [|reflexivity].
    apply elem_of_map_to_list in Hl. pose proof (proj1 (Forall_forall _ _) Hall _ Hl) as Hle.
    apply Is_true_true, Z.leb_le in Hle. cbn [fst] in Hle. lia.
  - intros h Hk Hn. exact (False_ind _ (Hn (demo_s2_main h Hk))).
Qed.
Lemma demo_b4_storable : storable demo_genesis demo_s2 demo_b4 demo_h2.
Proof.
  split; [split; [|split; [split; [|split]|split]]|split; [exact I|vm_compute; reflexivity]].
  - vm_compute. reflexivity.
  - vm_compute. reflexivity.
  - vm_compute. reflexivity.
  - vm_compute. reflexivity.
  - vm_compute. intros; congruence.
  - intros h Hk. exfalso. revert Hk. vm_compute. congruence.
Qed.

(** Three blocks beside them: two stay on the side, the third is the tip. *)
Definition demo_c1 := demo_block demo_genesis 11 0x207fffff.
Definition demo_c2 := demo_block (filled demo_c1 demo_genesis) 12 0x207fffff.
Definition demo_p1 := filled demo_c1 demo_genesis.
Definition demo_p2 := filled demo_c2 demo_p1.
Definition demo_c3 := demo_block demo_p2 13 0x207fffff.
Definition demo_s3 := (CommitBlock demo_c1 demo_s2).2.
Definition demo_s4 := (CommitBlock demo_c2 demo_s3).2.
Definition demo_txs_all (k : Uint256) : list sample_tx :=
  if decide (k = hdrHash (BlockHdr demo_c1)) then Transactions demo_c1
  else if decide (k = hdrHash (BlockHdr demo_c2)) then Transactions demo_c2
  else if decide (k = hdrHash (BlockHdr demo_c3)) then Transactions demo_c3 else demo_txs_of k.
Lemma demo_s2_txs_all : txs_inv demo_txs_all (hd_view (cd_h demo_s2)) demo_h2 (cd_t demo_s2).
Proof.
  pose proof demo_s2_txs as [Hmain Habove Hfork]. split; [|exact Habove|].
  - intros h Hk Hm. rewrite (Hmain h Hk Hm). apply elem_of_map_to_list in Hk.
    refine (fmap_eq_elem (λ kh, kept (demo_txs_of (hdrHash kh.2))) (λ kh, kept (demo_txs_all (hdrHash kh.2))) _ (_, h) _ Hk).
    vm_compute. reflexivity.
  - intros h Hk Hn. exact (False_ind _ (Hn (demo_s2_main h Hk))).
Qed.
Lemma demo_s3_ok : chain_ok demo_genesis demo_s3 demo_h2.
Proof. apply demo_chain_ok; vm_compute; reflexivity. Qed.
Lemma demo_s4_ok : chain_ok demo_genesis demo_s4 demo_h2.
Proof. apply demo_chain_ok; vm_compute; reflexivity. Qed.
Ltac demo_storable :=
  split; [split; [|split; [split; [|split]|split]]|split; [exact I|vm_compute; reflexivity]];
  [vm_compute; reflexivity..|vm_compute; intros; congruence|intros h Hk; exfalso; revert Hk; vm_compute; congruence].
Lemma demo_c1_storable : storable demo_genesis demo_s2 demo_c1 demo_genesis.
Proof. demo_storable. Qed.
Lemma demo_c2_storable : storable demo_genesis demo_s3 demo_c2 demo_p1.
Proof. demo_storable. Qed.
Lemma demo_c3_storable : storable demo_genesis demo_s4 demo_c3 demo_p2.
Proof. demo_storable. Qed.
(** A block put on the side keeps the transactions in their stores. *)
Lemma demo_side s (block : Block sample_header sample_tx) p :
  chain_ok demo_genesis s demo_h2 → txs_inv demo_txs_all (hd_view (cd_h s)) demo_h2 (cd_t s) →
  hd_view (cd_h s) !! hdrPrevious (BlockHdr block) = Some p → storable demo_genesis s block p →
  checkProofOfWork (BlockHdr block) = true → hd_view (cd_h s) !! hdrHash (BlockHdr block) = None →
  demo_txs_all (hdrHash (BlockHdr block)) = Transactions block → TotalWork (filled block p) <= TotalWork demo_h2 →
  hd_best (cd_h (CommitBlock block s).2) = Some demo_h2 →
  txs_inv demo_txs_all (hd_view (cd_h (CommitBlock block s).2)) demo_h2 (cd_t (CommitBlock block s).2).
Proof.
  intros Hs Hinv Hp Hst Hpow Hfresh Htxs Hw Hbest.
  destruct (CommitBlock_txs_run demo_genesis s demo_h2 block p demo_txs_all Hs Hinv Hp Hst Hpow Hfresh Htxs) as (r & b & s' & best & Hr & _ & Hb & Hi).
  { intros Hlt. lia. }
  rewrite Hr in *. cbn [snd] in *. rewrite Hb in Hbest. injection Hbest as ->. exact Hi.
Qed.
Lemma demo_s4_txs : txs_inv demo_txs_all (hd_view (cd_h demo_s4)) demo_h2 (cd_t demo_s4).
Proof.
  apply (demo_side demo_s3 demo_c2 demo_p1 demo_s3_ok); [|vm_compute; reflexivity|exact demo_c2_storable|vm_compute; reflexivity..|vm_compute; congruence|vm_compute; reflexivity].
  apply (demo_side demo_s2 demo_c1 demo_genesis demo_s2_ok demo_s2_txs_all); [vm_compute; reflexivity|exact demo_c1_storable|vm_compute; reflexivity..|vm_compute; congruence|vm_compute; reflexivity].
Qed.

(** The reorganisation. *)
Lemma CommitBlock_txs_witness :
  TotalWork demo_h2 < TotalWork (filled demo_c3 demo_p2) ∧ hdrHash demo_h2 ≠ hdrHash demo_p2 ∧
  ∃ r block' s' best', CommitBlock demo_c3 demo_s4 = (Ok (Some (r, block')), s') ∧ cr_err r = None ∧
    hd_best (cd_h s') = Some best' ∧ txs_inv demo_txs_all (hd_view (cd_h s')) best' (cd_t s').
Proof.
  split; [vm_compute; reflexivity|]. split; [vm_compute; congruence|].
  apply (CommitBlock_txs demo_genesis demo_s4 demo_h2 demo_c3 demo_p2 demo_txs_all demo_s4_ok demo_s4_txs).
  - vm_compute. reflexivity.
  - exact demo_c3_storable.
  - vm_compute. reflexivity.
  - vm_compute. reflexivity.
  - vm_compute. reflexivity.
  - intros _ _. vm_compute. reflexivity.
Defined.

Lemma CommitBlock_short_reorg_witness :
  ∃ r block' s', CommitBlock demo_b3 demo_s2 = (Ok (Some (r, block')), s') ∧
    cr_err r = None ∧ cr_newTip r = true ∧ hd_best (cd_h s') = Some (filled demo_b3 demo_genesis) ∧
    td_main (cd_t s') (Height (filled demo_b3 demo_genesis)) = [].
Proof.
  apply (CommitBlock_short_reorg demo_genesis demo_s2 demo_h2 demo_b3 demo_genesis demo_s2_ok demo_s2_forks).
  - exact demo_parent.
  - exact demo_b3_storable.
  - exact checkProofOfWork_witness_b3.
  - vm_compute. reflexivity.
  - intros Heq. assert (Hre : bool_decide (hdrHash demo_h2 = hdrHash demo_genesis) = false)
      by (vm_compute; reflexivity). apply bool_decide_eq_false in Hre. exact (Hre Heq).
  - vm_compute. congruence.
Defined.

Lemma LatestBlockLocator_spec_witness :
  ∃ hs, LatestBlockLocator demo_s2 = (Ok (Some (hdrHash <$> hs)), demo_s2) ∧
    Forall (on_main (hd_view (cd_h demo_s2)) demo_h2) hs ∧
    Height <$> hs = locator_heights MaxBlockLocatorHashes 1 0 2 ∧ head hs = Some demo_h2.
Proof. exact (LatestBlockLocator_spec demo_genesis demo_s2 demo_h2 demo_s2_ok). Defined.

Lemma getCommonAncestor_lowest_witness :
  ∃ c, getCommonAncestor demo_h2 demo_genesis demo_s2 = (Ok (Some c), demo_s2) ∧
    on_main (hd_view (cd_h demo_s2)) demo_h2 c ∧ on_main (hd_view (cd_h demo_s2)) demo_genesis c ∧
    ∀ h, on_main (hd_view (cd_h demo_s2)) demo_h2 h → on_main (hd_view (cd_h demo_s2)) demo_genesis h →
         Height h ≤ Height c.
Proof.
  apply (getCommonAncestor_lowest demo_genesis demo_s2 demo_h2 demo_h2 demo_genesis demo_s2_ok).
  - vm_compute. reflexivity.
  - vm_compute. reflexivity.
  - vm_compute. reflexivity.
  - vm_compute. reflexivity.
Defined.
