(* ===== verification/Headers.v ===== *)
(** * The header stores

    [interface/store/headers.go] and [wallet/store/headers]: a LevelDB bucket
    of serialized headers behind a cache of the last hundred and the tip.  Both
    implement [database.Headers]; the theorem of each is that it discharges the
    laws [HeadersLaws] the chain relies on. *)
From S2P Require Export Buckets Util ChainSpec.

(** ** The cache *)
Record headerStore (DB OM H : Type) := mkHS {
  hs_db : DB;
  hs_tip : option (Header H);
  hs_cache : OM;
}.
Arguments mkHS {DB OM H}.
Arguments hs_db {DB OM H}.
Arguments hs_tip {DB OM H}.
Arguments hs_cache {DB OM H}.

Definition cacheSize : Z := 100.

Section store.
Context {DB OM H} `{LevelDB DB} `{BlockHeader H} `{!OrderedMap OM Uint256 (Header H)} `{E : ElaCommon}.
Notation HS := (headerStore DB OM H).

Definition cache_pop (c : OM) : OM :=
  match om_First c with Some k => om_Delete k c | None => c end.

Definition cache_set (header : Header H) (c : OM) : OM :=
  let c := if cacheSize <? om_Len c then cache_pop c else c in
  om_Set (hdrHash header) header c.

Definition cache_get (hash : Uint256) (c : OM) : outcome (Header H) :=
  match om_Get hash c with
  | Some sh => Ok sh
  | None => Err (ErrStr "Header not found in cache ")
  end.

Definition onDB {A} (m : GoM DB A) : GoM HS A :=
  zoom hs_db (λ db s, mkHS db (hs_tip s) (hs_cache s)) m.

(** [header.Serialize()] *)
Definition serializeHeader (h : Header H) : outcome bytes :=
  let '(o, buf) := Header_Serialize h [] in (λ _, buf) <$> o.

Definition getHeader (key : bytes) : GoM HS (Header H) :=
  data ← try (onDB (dbGet key));
  match data with
  | inl _ => throw (ErrStr "header %s does not exist in database")
  | inr data => lift (Header_Deserialize data).1
  end.

(** ** The operations, over the two buckets [hk] and [tk] *)
Section buckets.
Context (hk tk : bytes).

Definition hs_Get (hash : Uint256) : GoM HS (Header H) :=
  s ← getS;
  match cache_get hash (hs_cache s) with
  | Ok header => mret header
  | _ => getHeader (toKey hk (arr_bytes hash))
  end.

Definition hs_GetPrevious (header : Header H) : GoM HS (Header H) := hs_Get (hdrPrevious header).

Definition hs_GetBest : GoM HS (Header H) :=
  s ← getS;
  match hs_tip s with
  | Some tip => mret tip
  | None => getHeader tk
  end.

(** The first writes of [Put], the same in both stores. *)
Definition hs_Put (header : Header H) (newTip : bool) : GoM HS unit :=
  modify (λ s, mkHS (hs_db s) (hs_tip s) (cache_set header (hs_cache s))) ≫= λ _,
  (if newTip then modify (λ s, mkHS (hs_db s) (Some header) (hs_cache s)) else mret ()) ≫= λ _,
  let key := toKey hk (arr_bytes (hdrHash header)) in
  data ← lift (serializeHeader header);
  onDB (dbPut key data) ≫= λ _,
  (if newTip then onDB (dbPut tk data) else mret ()).

(** Every turn asks for the previous header of the same [best]. *)
Fixpoint initLoop (n : nat) (best : Header H) (headers : list (Header H)) : GoM HS (list (Header H)) :=
  match n with
  | O => mret headers
  | S n =>
      sh ← try (hs_GetPrevious best);
      match sh with
      | inl _ => mret headers
      | inr sh => initLoop n best (headers ++ [sh])
      end
  end.

Definition hs_initCache : GoM HS unit :=
  best ← try hs_GetBest;
  match best with
  | inl _ => mret ()
  | inr best =>
      modify (λ s, mkHS (hs_db s) (Some best) (hs_cache s)) ≫= λ _,
      headers ← initLoop 99 best [best];
      forM (reverse headers) (λ h, modify (λ s, mkHS (hs_db s) (hs_tip s) (cache_set h (hs_cache s))))
  end.

(** The database is emptied; the cache and its tip stay. *)
Definition hs_Clear : GoM HS unit :=
  entries ← onDB (dbIterate []);
  onDB (dbWrite ((λ kv, BDelete kv.1) <$> entries)).
End buckets.

(** ** [interface/store/headers.go] *)
Definition headers_Put (header : Header H) (newTip : bool) : GoM HS unit :=
  hs_Put BKTHeaders BKTChainTip header newTip ≫= λ _,
  let index := toKey BKTIndexes (le_bytes 4 (Height header)) in
  onDB (dbPut index (arr_bytes (hdrHash header))).
Definition headers_Get := hs_Get BKTHeaders.
Definition headers_GetPrevious := hs_GetPrevious BKTHeaders.
Definition headers_GetBest := hs_GetBest BKTChainTip.
Definition headers_GetByHeight (height : Z) : GoM HS (Header H) :=
  hashBytes ← onDB (dbGet (toKey BKTIndexes (le_bytes 4 height)));
  getHeader (toKey BKTHeaders hashBytes).
Definition headers_initCache := hs_initCache BKTHeaders BKTChainTip.
Definition headers_Clear := hs_Clear.

(** ** [wallet/store/headers] *)
Definition WBKTHeaders : bytes := lit "H".
Definition WBKTChainTip : bytes := lit "B".
Definition Database_Put := hs_Put WBKTHeaders WBKTChainTip.
Definition Database_Get := hs_Get WBKTHeaders.
Definition Database_GetPrevious := hs_GetPrevious WBKTHeaders.
Definition Database_GetBest := hs_GetBest WBKTChainTip.
Definition Database_initCache := hs_initCache WBKTHeaders WBKTChainTip.
Definition Database_Clear := hs_Clear.
End store.

(** ** The stores keep what is put in them *)
Section laws.
Context {DB OM H} `{!LevelDB DB} `{!BlockHeader H} `{!OrderedMap OM Uint256 (Header H)} `{E : ElaCommon}.
Context `{!LevelDBLaws DB} `{!BlockHeaderLaws H} `{!ElaCommonLaws E}
  `{!OrderedMapLaws OM Uint256 (Header H)}.
Context (hk tk : bytes) (Htk : length tk ≠ (length hk + 32)%nat).
Notation HS := (headerStore DB OM H).

(** [v] is what is written for [h]. *)
Definition stored (v : bytes) (h : Header H) : Prop := Header_wf h ∧ writes (Header_Serialize h) v.

Definition decodeHeader (v : bytes) : option (Header H) :=
  match (Header_Deserialize v).1 with Ok h => Some h | _ => None end.

Lemma serialize_stored h : Header_wf h → ∃ v, serializeHeader h = Ok v ∧ stored v h.
Proof.
  intros Hwf. destruct (Header_ok h Hwf) as (v & Hw & _). exists v. split; [|done].
  unfold serializeHeader. by rewrite Hw.
Qed.
Lemma stored_decode v h : stored v h → (Header_Deserialize v).1 = Ok h.
Proof.
  intros [Hwf Hw]. destruct (Header_ok h Hwf) as (v' & Hw' & Hr).
  assert (v = v') as ->.
  { specialize (Hw []). specialize (Hw' []). simpl in *. congruence. }
  specialize (Hr []). rewrite app_nil_r in Hr. by rewrite Hr.
Qed.

(** Every entry of the header bucket is a header under its hash; the cache and
    the tip agree with the database. *)
Record store_ok (s : HS) : Prop := {
  so_bucket : ∀ k v, db_view (hs_db s) !! array_key hk (n := 32) k = Some v →
    ∃ h, stored v h ∧ hdrHash h = k;
  so_cache : ∀ k h, om_view (hs_cache s) !! k = Some h →
    ∃ v, db_view (hs_db s) !! array_key hk k = Some v ∧ stored v h;
  so_tip : match hs_tip s with
           | Some h => ∃ v, db_view (hs_db s) !! tk = Some v ∧ stored v h
           | None => ∀ v, db_view (hs_db s) !! tk = Some v → ∃ h, stored v h
           end;
}.

Definition store_view (s : HS) : gmap Uint256 (Header H) :=
  bucket_view (array_unkey hk) decodeHeader (db_view (hs_db s)).
Definition store_best (s : HS) : option (Header H) :=
  match hs_tip s with
  | Some h => Some h
  | None => v ← db_view (hs_db s) !! tk; decodeHeader v
  end.

Lemma store_view_lookup s k : store_view s !! k = (v ← db_view (hs_db s) !! array_key hk k; decodeHeader v).
Proof.
  unfold store_view. apply (bucket_view_lookup (array_key hk) (array_unkey hk) decodeHeader).
  - apply array_unkey_key.
  - apply array_unkey_inj.
Qed.
Lemma stored_decodeHeader v h : stored v h → decodeHeader v = Some h.
Proof. intros Hs. unfold decodeHeader. by rewrite (stored_decode v h Hs). Qed.
Lemma tk_key (k : Uint256) : tk ≠ array_key hk k.
Proof. intros ->. by rewrite array_key_length in Htk. Qed.

Lemma onDB_read {A} (m : GoM DB A) (s : HS) o : m (hs_db s) = (o, hs_db s) → onDB m s = (o, s).
Proof. intros Hm. unfold onDB, zoom. rewrite Hm. by destruct s. Qed.
Lemma getHeader_stored (s : HS) key v h :
  db_view (hs_db s) !! key = Some v → stored v h → getHeader key s = (Ok h, s).
Proof.
  intros Hk Hs. unfold getHeader.
  rewrite (bind_run _ _ s (inr v) s).
  - unfold lift. by rewrite (stored_decode v h Hs).
  - apply try_run, onDB_read. by rewrite dbGet_view, Hk.
Qed.
Lemma getHeader_none (s : HS) key :
  db_view (hs_db s) !! key = None → ∃ e, getHeader key s = (Err e, s).
Proof.
  intros Hk. eexists. unfold getHeader.
  rewrite (bind_run _ _ s (inl ErrNotFound) s); [done|].
  apply try_run_err, onDB_read. by rewrite dbGet_view, Hk.
Qed.

Lemma hs_Get_view s k : store_ok s →
  match store_view s !! k with
  | Some h => hs_Get hk k s = (Ok h, s)
  | None => ∃ e, hs_Get hk k s = (Err e, s)
  end.
Proof.
  intros Hok. rewrite store_view_lookup. unfold hs_Get.
  change ((getS ≫= ?f) s) with (f s s). cbv beta. unfold cache_get. rewrite om_Get_view.
  destruct (om_view (hs_cache s) !! k) as [h|] eqn:Hc.
  - destruct (so_cache s Hok k h Hc) as (v & Hv & Hs). rewrite Hv. cbn [mbind option_bind].
    by rewrite (stored_decodeHeader v h Hs).
  - destruct (db_view (hs_db s) !! array_key hk k) as [v|] eqn:Hv; cbn [mbind option_bind].
    + destruct (so_bucket s Hok k v Hv) as (h & Hs & _).
      rewrite (stored_decodeHeader v h Hs). by eapply getHeader_stored.
    + by apply getHeader_none.
Qed.

Lemma hs_GetBest_view s : store_ok s →
  match store_best s with
  | Some h => hs_GetBest tk s = (Ok h, s)
  | None => ∃ e, hs_GetBest tk s = (Err e, s)
  end.
Proof.
  intros Hok. unfold hs_GetBest, store_best. change ((getS ≫= ?f) s) with (f s s). cbv beta.
  pose proof (so_tip s Hok) as Ht. destruct (hs_tip s) as [h|]; [done|].
  destruct (db_view (hs_db s) !! tk) as [v|] eqn:Hv; cbn [mbind option_bind].
  - destruct (Ht v eq_refl) as (h & Hs). rewrite (stored_decodeHeader v h Hs).
    by eapply getHeader_stored.
  - by apply getHeader_none.
Qed.

(** The cache entries after a [set]. *)
Lemma cache_set_view h (c : OM) k x :
  om_view (cache_set h c) !! k = Some x → (k = hdrHash h ∧ x = h) ∨ (k ≠ hdrHash h ∧ om_view c !! k = Some x).
Proof.
  unfold cache_set. rewrite om_Set_view. destruct (decide (k = hdrHash h)) as [->|Hne].
  - rewrite lookup_insert_eq. naive_solver.
  - rewrite lookup_insert_ne by done. intros Hk. right. split; [done|].
    destruct (_ <? _); [|done]. unfold cache_pop in Hk. destruct (om_First c) as [k0|]; [|done].
    rewrite om_Delete_view in Hk. by apply lookup_delete_Some in Hk as [_ ?].
Qed.

Lemma onDB_put (s : HS) k v :
  ∃ db', onDB (dbPut k v) s = (Ok (), mkHS db' (hs_tip s) (hs_cache s)) ∧
    db_view db' = <[k := v]> (db_view (hs_db s)).
Proof.
  destruct (dbPut_view (hs_db s) k v) as (db' & Hp & Hv). exists db'. split; [|done].
  unfold onDB, zoom. by rewrite Hp.
Qed.

(** The database with the header in it. *)
Definition put_view (m : gmap bytes bytes) (h : Header H) (v : bytes) (newTip : bool) : gmap bytes bytes :=
  let m := <[array_key hk (hdrHash h) := v]> m in if newTip then <[tk := v]> m else m.

Lemma put_view_key m h v newTip (k : Uint256) :
  put_view m h v newTip !! array_key hk k =
    if decide (k = hdrHash h) then Some v else m !! array_key hk k.
Proof.
  unfold put_view. assert (Hne : tk ≠ array_key hk k) by apply tk_key.
  assert (Hk : <[array_key hk (hdrHash h) := v]> m !! array_key hk k =
               if decide (k = hdrHash h) then Some v else m !! array_key hk k).
  { case_decide as Hd; [subst; apply lookup_insert_eq|].
    rewrite lookup_insert_ne; [done|]. intros Heq%array_key_inj. congruence. }
  destruct newTip; [by rewrite lookup_insert_ne|done].
Qed.
Lemma put_view_tip m h v newTip : put_view m h v newTip !! tk = if newTip then Some v else m !! tk.
Proof.
  unfold put_view. destruct newTip; [apply lookup_insert_eq|].
  rewrite lookup_insert_ne; [done|]. apply not_eq_sym, tk_key.
Qed.

Lemma hs_Put_run s h newTip : Header_wf h →
  ∃ s' v, hs_Put hk tk h newTip s = (Ok (), s') ∧ stored v h ∧
    db_view (hs_db s') = put_view (db_view (hs_db s)) h v newTip ∧
    hs_tip s' = (if newTip then Some h else hs_tip s) ∧ hs_cache s' = cache_set h (hs_cache s).
Proof.
  intros Hwf. destruct (serialize_stored h Hwf) as (v & Hser & Hst).
  destruct (onDB_put (mkHS (hs_db s) (if newTip then Some h else hs_tip s) (cache_set h (hs_cache s)))
    (array_key hk (hdrHash h)) v) as (db1 & Hp1 & Hv1).
  unfold hs_Put. rewrite (bind_run (modify _) _ s () _ eq_refl).
  rewrite (bind_run _ _ _ () (mkHS (hs_db s) (if newTip then Some h else hs_tip s)
    (cache_set h (hs_cache s)))) by (by destruct newTip).
  cbv zeta. rewrite Hser. rewrite (bind_run (lift (Ok v)) _ _ v _ eq_refl). rewrite (bind_run _ _ _ _ _ Hp1).
  destruct newTip.
  - destruct (onDB_put (mkHS db1 (Some h) (cache_set h (hs_cache s))) tk v) as (db2 & Hp2 & Hv2).
    eexists _, v. split; [exact Hp2|]. split_and!; try done.
    cbn [hs_db] in Hv1, Hv2 |- *. unfold put_view. by rewrite Hv2, Hv1.
  - eexists _, v. split; [reflexivity|]. by split_and!.
Qed.

(** Any state that differs from a consistent one by the put is consistent. *)
Lemma put_store_ok s s' h v newTip :
  store_ok s → stored v h →
  (∀ k : Uint256, db_view (hs_db s') !! array_key hk k = put_view (db_view (hs_db s)) h v newTip !! array_key hk k) →
  db_view (hs_db s') !! tk = put_view (db_view (hs_db s)) h v newTip !! tk →
  hs_tip s' = (if newTip then Some h else hs_tip s) → hs_cache s' = cache_set h (hs_cache s) →
  store_ok s' ∧ store_view s' = <[hdrHash h := h]> (store_view s) ∧
  store_best s' = if newTip then Some h else store_best s.
Proof.
  intros Hok Hst Hdb Htip Ht Hc. split; [split|split].
  - intros k x. rewrite Hdb, put_view_key. case_decide as Hd.
    + intros [= <-]. exists h. by subst.
    + by apply so_bucket.
  - intros k x. rewrite Hc. intros Hx%cache_set_view. rewrite Hdb, put_view_key.
    destruct Hx as [[-> ->]|[Hne Hx]].
    + rewrite decide_True by done. by exists v.
    + rewrite decide_False by done. by apply (so_cache s Hok).
  - rewrite Ht. rewrite Htip, put_view_tip. destruct newTip; [by exists v|]. apply (so_tip s Hok).
  - apply map_eq. intros k. rewrite store_view_lookup, Hdb, put_view_key.
    case_decide as Hd.
    + subst k. rewrite lookup_insert_eq. cbn. by apply stored_decodeHeader.
    + by rewrite lookup_insert_ne, store_view_lookup.
  - unfold store_best. rewrite Ht, Htip, put_view_tip. destruct newTip; [done|]. done.
Qed.

(** Filling the cache from the database changes nothing else. *)
Lemma cache_set_ok s h v :
  store_ok s → db_view (hs_db s) !! array_key hk (hdrHash h) = Some v → stored v h →
  store_ok (mkHS (hs_db s) (hs_tip s) (cache_set h (hs_cache s))).
Proof.
  intros Hok Hv Hs. split; [apply (so_bucket s Hok)| |apply (so_tip s Hok)].
  intros k x [[-> ->]|[_ Hx]]%cache_set_view; [by exists v|by apply (so_cache s Hok)].
Qed.
Lemma store_view_elem s k h : store_ok s → store_view s !! k = Some h →
  ∃ v, db_view (hs_db s) !! array_key hk (hdrHash h) = Some v ∧ stored v h.
Proof.
  intros Hok Hk. rewrite store_view_lookup in Hk.
  destruct (db_view (hs_db s) !! array_key hk k) as [v|] eqn:Hv; [|done]. cbn in Hk.
  destruct (so_bucket s Hok k v Hv) as (h' & Hs & Hh).
  rewrite (stored_decodeHeader v h' Hs) in Hk. simplify_eq. by exists v.
Qed.

Lemma initLoop_run s n best hs :
  store_ok s → Forall (λ h, ∃ k, store_view s !! k = Some h) hs →
  ∃ hs', initLoop hk n best hs s = (Ok hs', s) ∧ Forall (λ h, ∃ k, store_view s !! k = Some h) hs'.
Proof.
  intros Hok. revert hs. induction n as [|n IH]; intros hs Hhs; [by exists hs|]. cbn [initLoop].
  unfold hs_GetPrevious. pose proof (hs_Get_view s (hdrPrevious best) Hok) as Hg.
  destruct (store_view s !! hdrPrevious best) as [p|] eqn:Hp.
  - rewrite (bind_run _ _ s (inr p) s) by (by apply try_run). apply IH.
    apply Forall_app. split; [done|]. constructor; [by eexists|constructor].
  - destruct Hg as (e & Hg). rewrite (bind_run _ _ s (inl e) s) by (by apply try_run_err). by exists hs.
Qed.

Lemma cache_all_ok s hs :
  store_ok s → Forall (λ h, ∃ k, store_view s !! k = Some h) hs →
  ∃ s', forM hs (λ h, modify (λ s, mkHS (hs_db s) (hs_tip s) (cache_set h (hs_cache s)))) s = (Ok (), s') ∧
    store_ok s' ∧ hs_db s' = hs_db s ∧ hs_tip s' = hs_tip s.
Proof.
  revert s. induction hs as [|h hs IH]; intros s Hok Hhs; [by exists s|].
  apply Forall_cons in Hhs as [(k & Hk) Hhs]. cbn [forM].
  rewrite (bind_run (modify _) _ s () _ eq_refl).
  destruct (store_view_elem s k h Hok Hk) as (v & Hv & Hs).
  destruct (IH _ (cache_set_ok s h v Hok Hv Hs)) as (s' & Hr & Hok' & Hd & Ht); [done|].
  by exists s'.
Qed.

(** When the stored tip is in the header bucket, [initCache] keeps the contract. *)
Lemma hs_initCache_run s :
  store_ok s → hs_tip s = None → (∀ h, store_best s = Some h → store_view s !! hdrHash h = Some h) →
  ∃ s', hs_initCache hk tk s = (Ok (), s') ∧ store_ok s' ∧
    store_view s' = store_view s ∧ store_best s' = store_best s ∧ hs_tip s' = store_best s.
Proof.
  intros Hok Ht Hb. unfold hs_initCache. pose proof (hs_GetBest_view s Hok) as Hg.
  destruct (store_best s) as [best|] eqn:Hbest.
  2: { destruct Hg as (e & Hg). rewrite (bind_run _ _ s (inl e) s) by (by apply try_run_err).
       by exists s. }
  rewrite (bind_run _ _ s (inr best) s) by (by apply try_run).
  rewrite (bind_run (modify _) _ s () _ eq_refl). set (s1 := mkHS (hs_db s) (Some best) (hs_cache s)).
  assert (Hok1 : store_ok s1).
  { split; [apply (so_bucket s Hok)|apply (so_cache s Hok)|]. cbn. unfold store_best in Hbest.
    rewrite Ht in Hbest. pose proof (so_tip s Hok) as Htip. rewrite Ht in Htip.
    destruct (db_view (hs_db s) !! tk) as [v|] eqn:Hv; [|done]. cbn in Hbest. exists v. split; [done|].
    destruct (Htip v eq_refl) as (h & Hs). rewrite (stored_decodeHeader v h Hs) in Hbest. congruence. }
  destruct (initLoop_run s1 99 best [best] Hok1) as (hs & Hr & Hhs).
  { constructor; [|constructor]. exists (hdrHash best). by apply Hb. }
  rewrite (bind_run _ _ s1 hs s1) by done.
  destruct (cache_all_ok s1 (reverse hs) Hok1) as (s' & Hr' & Hok' & Hd & Htip).
  { by apply Forall_reverse. }
  exists s'. split; [done|]. split; [done|]. unfold store_view, store_best. by rewrite Hd, Htip.
Qed.
End laws.

(** ** The two stores discharge the interface *)
Section instances.
Context {DB OM H} `{!LevelDB DB} `{!BlockHeader H} `{!OrderedMap OM Uint256 (Header H)} `{E : ElaCommon}.
Context `{!LevelDBLaws DB} `{!BlockHeaderLaws H} `{!ElaCommonLaws E}
  `{!OrderedMapLaws OM Uint256 (Header H)}.
Notation HS := (headerStore DB OM H).

#[export] Instance headers_HeadersDB : HeadersDB HS H := {
  hdPut := headers_Put;
  hdGetPrevious := headers_GetPrevious;
  hdGet := headers_Get;
  hdGetBest := headers_GetBest;
  hdClear := headers_Clear;
  hdClose := mret ();
}.

Lemma chaintip_length : length BKTChainTip ≠ (length BKTHeaders + 32)%nat.
Proof. done. Qed.

Lemma index_key_headers height (k : Uint256) : toKey BKTIndexes (le_bytes 4 height) ≠ array_key BKTHeaders k.
Proof.
  intros Heq%(f_equal length). unfold toKey in Heq.
  rewrite array_key_length, length_app, le_bytes_length in Heq. discriminate.
Qed.
Lemma index_key_tip height : toKey BKTIndexes (le_bytes 4 height) ≠ BKTChainTip.
Proof. intros Heq%(f_equal length). unfold toKey in Heq. rewrite length_app, le_bytes_length in Heq. done. Qed.

Lemma headers_Put_run (s : HS) h newTip : store_ok BKTHeaders BKTChainTip s → Header_wf h →
  ∃ s', headers_Put h newTip s = (Ok (), s') ∧ store_ok BKTHeaders BKTChainTip s' ∧
    store_view BKTHeaders s' = <[hdrHash h := h]> (store_view BKTHeaders s) ∧
    store_best BKTChainTip s' = (if newTip then Some h else store_best BKTChainTip s) ∧
    headers_GetByHeight (Height h) s' = (Ok h, s').
Proof.
  intros Hok Hwf.
  destruct (hs_Put_run BKTHeaders BKTChainTip s h newTip Hwf) as (s1 & v & Hp & Hst & Hv & Ht & Hc).
  destruct (onDB_put s1 (toKey BKTIndexes (le_bytes 4 (Height h))) (arr_bytes (hdrHash h)))
    as (db' & Hp2 & Hv2).
  set (s' := mkHS db' (hs_tip s1) (hs_cache s1)) in *.
  assert (Hk : ∀ k : Uint256, db_view db' !! array_key BKTHeaders k = db_view (hs_db s1) !! array_key BKTHeaders k).
  { intros k. rewrite Hv2, lookup_insert_ne; [done|]. apply index_key_headers. }
  assert (Htip : db_view db' !! BKTChainTip = db_view (hs_db s1) !! BKTChainTip).
  { rewrite Hv2, lookup_insert_ne; [done|]. apply index_key_tip. }
  destruct (put_store_ok BKTHeaders BKTChainTip chaintip_length s s' h v newTip Hok Hst)
    as (Hok' & Hview & Hbest).
  { intros k. cbn [s' hs_db]. by rewrite Hk, Hv. }
  { cbn [s' hs_db]. by rewrite Htip, Hv. }
  { done. }
  { done. }
  exists s'. split_and!; [|done..|].
  - unfold headers_Put. by rewrite (bind_run _ _ s () s1) by done.
  - unfold headers_GetByHeight.
    rewrite (bind_run _ _ s' (arr_bytes (hdrHash h)) s').
    + eapply getHeader_stored; [|exact Hst].
      change (db_view db' !! array_key BKTHeaders (hdrHash h) = Some v).
      rewrite Hk, Hv, put_view_key by apply chaintip_length. by rewrite decide_True.
    + apply onDB_read. rewrite dbGet_view. cbn [s' hs_db]. by rewrite Hv2, lookup_insert_eq.
Qed.

#[export] Instance headers_HeadersLaws : HeadersLaws HS H.
Proof.
  refine {| hd_ok := store_ok BKTHeaders BKTChainTip; hd_fits := Header_wf;
            hd_view := store_view BKTHeaders; hd_best := store_best BKTChainTip |}.
  - intros s k Hok. by apply (hs_Get_view BKTHeaders BKTChainTip).
  - done.
  - intros s Hok. by apply (hs_GetBest_view BKTHeaders BKTChainTip).
  - intros s h newTip Hok Hwf. destruct (headers_Put_run s h newTip Hok Hwf) as (s' & ? & ? & ? & ? & _).
    by exists s'.
Defined.

(** [Put] on the header store of the interface never fails on a header of
    valid ranges: afterwards [Get] answers it under its hash and every other
    header as before, the tip is it exactly when [newTip] is set, and the height
    index answers it, on the main chain or not. *)
Theorem headers_Put_spec (s : HS) h newTip : store_ok BKTHeaders BKTChainTip s → Header_wf h →
  ∃ s', headers_Put h newTip s = (Ok (), s') ∧ store_ok BKTHeaders BKTChainTip s' ∧
    store_view BKTHeaders s' = <[hdrHash h := h]> (store_view BKTHeaders s) ∧
    store_best BKTChainTip s' = (if newTip then Some h else store_best BKTChainTip s) ∧
    (∀ k x, store_view BKTHeaders s' !! k = Some x → headers_Get k s' = (Ok x, s')) ∧
    headers_GetByHeight (Height h) s' = (Ok h, s').
Proof.
  intros Hok Hwf. destruct (headers_Put_run s h newTip Hok Hwf) as (s' & Hr & Hok' & Hv & Hb & Hh).
  exists s'. split_and!; try done. intros k x Hk.
  pose proof (hs_Get_view BKTHeaders BKTChainTip s' k Hok') as Hg. by rewrite Hk in Hg.
Qed.

(** [Clear] empties the database but not the cache: [GetBest] still answers
    the old tip. *)
Theorem headers_Clear_keeps_tip (s : HS) tip :
  hs_tip s = Some tip →
  ∃ s', headers_Clear s = (Ok (), s') ∧ db_view (hs_db s') = ∅ ∧ headers_GetBest s' = (Ok tip, s').
Proof.
  intros Ht. unfold headers_Clear, hs_Clear.
  rewrite (bind_run _ _ s (ldb_Iterate (hs_db s) []) s) by (by apply onDB_read).
  destruct (dbWrite_view (hs_db s) ((λ kv, BDelete kv.1) <$> ldb_Iterate (hs_db s) [])) as (db' & Hw & Hv).
  exists (mkHS db' (hs_tip s) (hs_cache s)). split_and!.
  - unfold onDB, zoom. by rewrite Hw.
  - cbn [hs_db]. rewrite Hv. apply map_empty. intros k.
    change ((λ kv, BDelete kv.1) <$> ldb_Iterate (hs_db s) [])
      with ((BDelete ∘ fst) <$> ldb_Iterate (hs_db s) []).
    rewrite list_fmap_compose, apply_batch_deletes. case_decide as Hd; [done|].
    apply eq_None_not_Some. intros [v Hkv]. apply Hd.
    apply (list_elem_of_fmap_2 fst _ (k, v)), ldb_Iterate_elem. split; [done|]. apply prefix_nil.
  - unfold headers_GetBest, hs_GetBest. change ((getS ≫= ?f) ?s) with (f s s). cbn. by rewrite Ht.
Qed.

Lemma wallet_tip_length : length WBKTChainTip ≠ (length WBKTHeaders + 32)%nat.
Proof. done. Qed.

(** The wallet's header store meets the same contract: after [Put] the
    header is found under its hash, everything else as before, and the tip is it
    exactly when [newTip] is set. *)
Theorem Database_Put_spec (s : HS) h newTip : store_ok WBKTHeaders WBKTChainTip s → Header_wf h →
  ∃ s', Database_Put h newTip s = (Ok (), s') ∧ store_ok WBKTHeaders WBKTChainTip s' ∧
    store_view WBKTHeaders s' = <[hdrHash h := h]> (store_view WBKTHeaders s) ∧
    Database_GetBest s' =
      (if newTip then (Ok h, s') else ((Database_GetBest s).1, s')) ∧
    (∀ k x, store_view WBKTHeaders s' !! k = Some x → Database_Get k s' = (Ok x, s')).
Proof.
  intros Hok Hwf.
  destruct (hs_Put_run WBKTHeaders WBKTChainTip s h newTip Hwf) as (s' & v & Hp & Hst & Hv & Ht & Hc).
  destruct (put_store_ok WBKTHeaders WBKTChainTip wallet_tip_length s s' h v newTip Hok Hst)
    as (Hok' & Hview & Hbest); [by intros; rewrite Hv|by rewrite Hv|done..|].
  exists s'. split_and!; try done.
  - pose proof (hs_GetBest_view WBKTHeaders WBKTChainTip s' Hok') as Hg'. rewrite Hbest in Hg'.
    destruct newTip; [done|].
    unfold Database_GetBest, hs_GetBest. change ((getS ≫= ?f) ?s) with (f s s). cbv beta.
    rewrite Ht. destruct (hs_tip s) as [tip|]; [done|]. unfold getHeader, mbind, GoM_bind, try, onDB, zoom.
    rewrite !dbGet_view, Hv, put_view_tip by apply wallet_tip_length.
    destruct (db_view (hs_db s) !! WBKTChainTip); by destruct s'.
  - intros k x Hk. pose proof (hs_Get_view WBKTHeaders WBKTChainTip s' k Hok') as Hg. by rewrite Hk in Hg.
Qed.
End instances.
