(* ===== verification/StoreDemo.v ===== *)
(** * Witnesses of the header stores, over an in-memory database *)
From S2P Require Import Demo Samples Headers.

(** An ordered map as the list of its entries, oldest first. *)
Section assoc.
Context {K V : Type} `{Countable K}.
Definition al_get (k : K) (l : list (K * V)) : option V := list_to_map (M := gmap K V) l !! k.
Definition al_set (k : K) (v : V) (l : list (K * V)) : list (K * V) :=
  if decide (k ∈ l.*1) then (λ kv, if decide (kv.1 = k) then (k, v) else kv) <$> l else l ++ [(k, v)].
Definition al_delete (k : K) (l : list (K * V)) : list (K * V) := filter (λ kv, kv.1 ≠ k) l.

#[export] Instance al_OrderedMap : OrderedMap (list (K * V)) K V := {
  om_New := [];
  om_Len l := Z.of_nat (length l);
  om_First l := fst <$> head l;
  om_Get := al_get;
  om_Set := al_set;
  om_Delete := al_delete;
}.

Lemma al_set_view k v (l : list (K * V)) : list_to_map (M := gmap K V) (al_set k v l) = <[k := v]> (list_to_map l).
Proof.
  unfold al_set. case_decide as Hin.
  - apply map_eq. intros x. destruct (decide (x = k)) as [->|Hne].
    + rewrite lookup_insert_eq. induction l as [|[k' v'] l IH]; [by apply not_elem_of_nil in Hin|].
      cbn [fmap list_fmap fst]. case_decide as Hk; cbn.
      * by rewrite lookup_insert_eq.
      * cbn in Hin, Hk. rewrite lookup_insert_ne by done. apply IH. set_solver.
    + rewrite lookup_insert_ne by done. clear Hin. induction l as [|[k' v'] l IH]; [done|].
      cbn [fmap list_fmap fst]. case_decide as Hk; cbn in Hk |- *.
      * rewrite !lookup_insert_ne by congruence. apply IH.
      * destruct (decide (k' = x)) as [->|Hx]; [by rewrite !lookup_insert_eq|].
        rewrite !lookup_insert_ne by done. apply IH.
  - induction l as [|[k' v'] l IH]; [done|]. cbn in Hin |- *. rewrite IH by set_solver.
    apply insert_insert_ne. set_solver.
Qed.
Lemma al_delete_view k (l : list (K * V)) : list_to_map (M := gmap K V) (al_delete k l) = delete k (list_to_map l).
Proof.
  unfold al_delete. induction l as [|[k' v'] l IH]; [symmetry; apply (delete_empty k)|].
  rewrite filter_cons. cbn. case_decide as Hk; cbn.
  - by rewrite IH, delete_insert_ne by done.
  - subst. by rewrite IH, delete_insert_eq.
Qed.
#[export] Instance al_OrderedMapLaws : OrderedMapLaws (list (K * V)) K V.
Proof.
  refine {| om_view := list_to_map |}.
  - done.
  - done.
  - intros. apply al_set_view.
  - intros. apply al_delete_view.
Defined.
End assoc.

Definition demo_store : Type := headerStore (gmap bytes bytes) (list (Uint256 * Header sample_header)) sample_header.
Definition demo_empty : demo_store := mkHS ∅ None [].
Definition demo_header : Header sample_header := mkHeader (mksh (h256 0) (h256 100) 0x207fffff 0) 5 0 [] [] 9.

Lemma demo_empty_ok hk tk : store_ok hk tk demo_empty.
Proof. split; intros *; done. Qed.
Lemma demo_header_wf : Header_wf demo_header.
Proof. repeat split; vm_compute; congruence. Qed.

Lemma headers_Put_spec_witness :
  ∃ s', headers_Put demo_header true demo_empty = (Ok (), s') ∧ store_ok BKTHeaders BKTChainTip s' ∧
    store_view BKTHeaders s' = <[hdrHash demo_header := demo_header]> (store_view BKTHeaders demo_empty) ∧
    store_best BKTChainTip s' = Some demo_header ∧
    (∀ k x, store_view BKTHeaders s' !! k = Some x → headers_Get k s' = (Ok x, s')) ∧
    headers_GetByHeight (Height demo_header) s' = (Ok demo_header, s').
Proof. exact (headers_Put_spec demo_empty demo_header true (demo_empty_ok _ _) demo_header_wf). Defined.

Lemma Database_Put_spec_witness :
  ∃ s', Database_Put demo_header true demo_empty = (Ok (), s') ∧ store_ok WBKTHeaders WBKTChainTip s' ∧
    store_view WBKTHeaders s' = <[hdrHash demo_header := demo_header]> (store_view WBKTHeaders demo_empty) ∧
    Database_GetBest s' = (Ok demo_header, s') ∧
    (∀ k x, store_view WBKTHeaders s' !! k = Some x → Database_Get k s' = (Ok x, s')).
Proof. exact (Database_Put_spec demo_empty demo_header true (demo_empty_ok _ _) demo_header_wf). Defined.

Lemma headers_Clear_keeps_tip_witness :
  ∃ s', headers_Clear (mkHS (∅ : gmap bytes bytes) (Some demo_header) [] : demo_store) = (Ok (), s') ∧
    db_view (hs_db s') = ∅ ∧ headers_GetBest s' = (Ok demo_header, s').
Proof. apply headers_Clear_keeps_tip. reflexivity. Defined.
