(* ===== verification/TxsDemo.v ===== *)
(** * Witnesses of the transaction table, over an in-memory database *)
From S2P Require Import Demo Samples TxsBatch.

#[export] Instance demo_order : MapOrder := { range K V _ _ m := map_to_list m; range_perm K V _ _ m := reflexivity _ }.

Definition mem_empty : gmap bytes bytes := ∅.
Lemma txs_ok_empty : txs_ok mem_empty.
Proof. split; intros *; done. Qed.

Definition demo_tx (i h : Z) : Tx := mkTx (h256 i) h 1000 [].
Lemma demo_tx_wf i h : fits 32 h → Tx_wf (demo_tx i h).
Proof. intros Hh. split; [done|]. split; [vm_compute; split; congruence|vm_compute; congruence]. Qed.
Lemma demo_max : fits 32 MaxBlockContextSize.
Proof. vm_compute. split; congruence. Qed.

Lemma txs_Put_spec_witness :
  ∃ db', txs_Put (demo_tx 1 7) mem_empty = (Ok (), db') ∧ txs_ok db' ∧
    (∀ k, txs_Get k db' = (match (<[h256 1 := demo_tx 1 7]> (txs_view mem_empty)) !! k with
                           | Some t' => Ok t' | None => Err ErrNotFound end, db')) ∧
    (∀ z, fits 32 z → txs_GetIds z db' =
      (Ok (if decide (z = 7) then ids_view mem_empty z ++ [h256 1] else ids_view mem_empty z), db')).
Proof.
  apply (txs_Put_spec demo_max mem_empty (demo_tx 1 7) txs_ok_empty); [|reflexivity].
  apply demo_tx_wf. vm_compute. split; congruence.
Defined.

(** The database after putting one transaction. *)
Definition mem_one : gmap bytes bytes := (txs_Put (demo_tx 1 7) mem_empty).2.
Lemma mem_one_ok : txs_ok mem_one.
Proof.
  destruct (txs_update mem_empty mem_one (h256 1)
    (match serializeTx (demo_tx 1 7) with Ok v => Some v | _ => None end) 7 [h256 1] txs_ok_empty)
    as (Hok & _); try done.
  - intros k. change (db_view mem_one) with mem_one. case_decide as Hk; [by subst|].
    change mem_one with (<[heightKey 7 := encodeIds [h256 1]]>
      (<[txKey (h256 1) := default [] (match serializeTx (demo_tx 1 7) with Ok v => Some v | _ => None end)]> mem_empty)).
    rewrite lookup_insert_ne by (apply not_eq_sym, txKey_heightKey).
    rewrite lookup_insert_ne; [done|]. intros Heq%txKey_inj. congruence.
  - intros z Hz. change (db_view mem_one) with mem_one. case_decide as Hk; [by subst|].
    change mem_one with (<[heightKey 7 := encodeIds [h256 1]]>
      (<[txKey (h256 1) := default [] (match serializeTx (demo_tx 1 7) with Ok v => Some v | _ => None end)]> mem_empty)).
    rewrite lookup_insert_ne; [rewrite lookup_insert_ne; [done|apply txKey_heightKey]|].
    intros Heq%heightKey_inj; [congruence|vm_compute; split; congruence|done].
  - intros v Hv. exists (demo_tx 1 7). split; [|done].
    destruct (serializeTx_stored demo_max (demo_tx 1 7)) as (v' & Hs & Hst).
    { apply demo_tx_wf. vm_compute. split; congruence. }
    rewrite Hs in Hv. by injection Hv as <-.
Qed.

Lemma txs_Del_spec_witness :
  ∃ db', txs_Del (h256 1) mem_one = (Ok (), db') ∧ txs_ok db' ∧
    txs_view db' = delete (h256 1) (txs_view mem_one) ∧
    (∀ z, fits 32 z → ids_view db' z =
      if decide (z = 7) then del_first (h256 1) (ids_view mem_one z) else ids_view mem_one z).
Proof.
  apply (txs_Del_spec demo_max mem_one (h256 1) (demo_tx 1 7) mem_one_ok); [vm_compute; reflexivity|].
  refine (bool_decide_eq_true_1 _ _). vm_compute. reflexivity.
Defined.

Lemma getTxIds_wraps_witness : getTxIds (encodeIds (replicate 2048 zeroHash)) = Panic.
Proof. apply getTxIds_wraps. rewrite length_replicate. split; [apply Z.leb_le|apply Z.ltb_lt]; reflexivity. Defined.

Lemma GetForkTxs_roundtrip_witness :
  ∃ db', txs_PutForkTxs [demo_tx 1 7; demo_tx 2 7] (h256 9) mem_empty = (Ok (), db') ∧
    txs_GetForkTxs (h256 9) db' = (Ok [demo_tx 1 7; demo_tx 2 7], db').
Proof.
  apply (GetForkTxs_roundtrip demo_max mem_empty [demo_tx 1 7; demo_tx 2 7] (h256 9)); [|reflexivity].
  repeat constructor; vm_compute; congruence.
Defined.

(** Two transactions at height 7 and one at height 8: height 7 lists one id. *)
Lemma txsBatch_Commit_first_witness :
  ∃ db' b', (forM [demo_tx 1 7; demo_tx 2 7; demo_tx 3 8] txsBatch_Put ≫= λ _, txsBatch_Commit)
      (mem_empty, mkTxsBatch [] [] []) = (Ok (), (db', b')) ∧
    txs_ok db' ∧ (∀ t, t ∈ [demo_tx 1 7; demo_tx 2 7; demo_tx 3 8] → txs_Get (Tx_Hash t) db' = (Ok t, db')) ∧
    (∀ z, fits 32 z → txs_GetIds z db' =
      (Ok (ids_view mem_empty z ++
        match first_at z [demo_tx 1 7; demo_tx 2 7; demo_tx 3 8] with Some t => [Tx_Hash t] | None => [] end), db')).
Proof.
  apply (txsBatch_Commit_first demo_max mem_empty [demo_tx 1 7; demo_tx 2 7; demo_tx 3 8] txs_ok_empty).
  - repeat constructor; vm_compute; congruence.
  - refine (bool_decide_eq_true_1 _ _). vm_compute. reflexivity.
  - intros z. reflexivity.
Defined.
