(* ===== verification/TablesDemo.v ===== *)
(** * Witnesses of the address, outpoint and queue tables *)
From S2P Require Import Demo Samples TxsDemo QueueSpec.

#[export] Instance demo_168 : Uint168Bytes := {
  Uint168FromBytes bs := if decide (length bs = 21%nat) then Ok (copy_array 21 bs) else Err (ErrStr "[Common]: length") }.
#[export] Instance demo_168_laws : Uint168BytesLaws.
Proof.
  split. intros a. unfold Uint168FromBytes, demo_168. rewrite decide_True by apply arr_length.
  by rewrite copy_array_bytes.
Qed.

Definition demo_addrs : addrs (gmap bytes bytes) := mkAddrs ∅ ∅.
Lemma demo_addrs_ok : addrs_ok demo_addrs.
Proof. split; [split; intros *; [done|by intros []]|intros *; done]. Qed.
Lemma addrs_Put_spec_witness :
  ∃ s', addrs_Put (h168 5) demo_addrs = (Ok (), s') ∧ addrs_ok s' ∧ NewAddrs (a_db s') = Ok s' ∧
    ∃ l, addrs_GetAll s' = (Ok l, s') ∧ NoDup l ∧
      ∀ a, a ∈ l ↔ a = h168 5 ∨ AddrFilter_ContainAddr a (a_filter demo_addrs) = true.
Proof. exact (addrs_Put_spec demo_addrs (h168 5) demo_addrs_ok). Defined.

Definition demo_txTypes : txTypes (gmap bytes bytes) := mkTxTypes ∅ ∅.
Lemma demo_txTypes_ok : txTypes_ok demo_txTypes.
Proof. split; split; intros *; [done|by intros []]. Qed.
Lemma txTypes_Put_spec_witness :
  ∃ s', txTypes_Put x03 demo_txTypes = (Ok (), s') ∧ txTypes_ok s' ∧ NewTxTypes (tt_db s') = Ok s' ∧
    ∀ a, TxTypesFilter_ContainTxType a (tt_filter s') =
      bool_decide (a = x03) || TxTypesFilter_ContainTxType a (tt_filter demo_txTypes).
Proof. exact (txTypes_Put_spec demo_txTypes x03 demo_txTypes_ok). Defined.

Lemma que_ok_empty : que_ok mem_empty.
Proof. intros k v Hk. done. Qed.
Definition demo_item : QueItem := mkQueItem (h256 1) (h256 2) 5 77.

Lemma que_Put_spec_witness :
  ∃ db', que_Put demo_item mem_empty = (Ok (), db') ∧ que_ok db' ∧
    que_view db' = <[(h256 1, h256 2) := (5, 77)]> (que_view mem_empty) ∧
    ∃ items, que_GetAll db' = (Ok items, db') ∧ item_entry <$> items ≡ₚ map_to_list (que_view db').
Proof.
  apply (que_Put_spec mem_empty demo_item que_ok_empty); vm_compute; split; congruence.
Defined.

Lemma que_Del_spec_witness :
  que_Del (h256 1) (h256 2) mem_empty = (Err ErrNotFound, mem_empty).
Proof. exact (que_Del_spec mem_empty (h256 1) (h256 2) que_ok_empty). Defined.

Lemma que_Del_stale_index_witness :
  ∃ db1 db2 db3 db4 b,
    que_Put (mkQueItem (h256 1) (h256 2) 5 77) mem_empty = (Ok (), db1) ∧
    que_Del (h256 1) (h256 2) db1 = (Ok (), db2) ∧
    que_Put (mkQueItem (h256 1) (h256 2) 6 78) db2 = (Ok (), db3) ∧
    que_view db3 !! (h256 1, h256 2) = Some (6, 78) ∧
    (queBatch_DelAll 5 ≫= λ _, batch_Commit) (db3, []) = (Ok (), (db4, b)) ∧
    que_view db4 !! (h256 1, h256 2) = None.
Proof.
  apply (que_Del_stale_index mem_empty (h256 1) (h256 2) 5 77 6 78 que_ok_empty); vm_compute; split; congruence.
Defined.

Lemma ops_ok_empty : ops_ok mem_empty.
Proof. intros k v Hk. done. Qed.
Lemma ops_spec_witness :
  ∃ db1 db2 b, ops_Put (NewOutPoint (h256 1) 2) (h168 3) mem_empty = (Ok (), db1) ∧ ops_ok db1 ∧
    (opsBatch_Del (NewOutPoint (h256 1) 2) ≫= λ _, batch_Commit) (db1, []) = (Ok (), (db2, b)) ∧ ops_ok db2 ∧
    (∀ op', OutPoint_wf op' →
      (ops_HaveOp op' db1).1 =
        (if decide (op' = NewOutPoint (h256 1) 2) then Ok (Some (h168 3)) else (ops_HaveOp op' mem_empty).1) ∧
      (ops_HaveOp op' db2).1 =
        (if decide (op' = NewOutPoint (h256 1) 2) then Ok None else (ops_HaveOp op' mem_empty).1)) ∧
    ∃ l, ops_GetAll db1 = (Ok l, db1) ∧ NoDup l ∧
      ∀ op', op' ∈ l ↔ OutPoint_wf op' ∧ (ops_HaveOp op' db1).1 ≠ Ok None.
Proof.
  apply (ops_spec mem_empty (NewOutPoint (h256 1) 2) (h168 3) ops_ok_empty).
  vm_compute. split; congruence.
Defined.
