(* ===== verification/ArbitersDemo.v ===== *)
(** * Witnesses of the arbiters table *)
From S2P Require Import Demo Samples TablesDemo ArbitersSpec.
#[local] Open Scope Z_scope.

#[export] Instance demo_256 : Uint256Bytes := {
  Uint256FromBytes bs := if decide (length bs = 32%nat) then Ok (copy_array 32 bs) else Err (ErrStr "length") }.
#[export] Instance demo_256_laws : Uint256BytesLaws.
Proof.
  split. intros a. unfold Uint256FromBytes, demo_256. rewrite decide_True by apply arr_length.
  by rewrite copy_array_bytes.
Qed.

Definition demo_arbiters : arbiters (gmap bytes bytes) := NewArbiters ∅ [] 36.
Lemma demo_arbiters_ok : arb_ok demo_arbiters.
Proof. split; intros *; try done. by left. Qed.
Lemma demo_arbiters_fresh h : fresh demo_arbiters h.
Proof. intros k. done. Qed.
Lemma demo_arbiters_revert_ok : revert_ok demo_arbiters.
Proof. split; first [done | apply SSorted_nil | by left]. Qed.

Definition demo_crc : list bytes := [[x02; x07]; [x02; x03]].
Definition demo_nor : list bytes := [[x01]].
Lemma demo_keys_wf : keys_wf demo_crc ∧ keys_wf demo_nor.
Proof. repeat split; repeat constructor; vm_compute; congruence. Qed.

Lemma arbiters_BatchPut_GetByHeight_witness :
  ∃ c1 b c2, arbiters_BatchPut 100 demo_crc demo_nor (demo_arbiters, []) = (Ok (), (c1, b)) ∧
    arbiters_CommitBatch (c1, b) = (Ok (), (c2, b)) ∧ arb_ok c2 ∧
    ((∀ h', 100 < h' ≤ 100 + 36 →
        (arbiters_GetByHeight h' c2).1 = Ok (sort_keys demo_crc, sort_keys demo_nor)) ∨
     ∃ d, d ≠ getValueBytes demo_crc demo_nor ∧ Sum256 d = Sum256 (getValueBytes demo_crc demo_nor)) ∧
    ∀ h', fits 32 h' → h' ≠ 100 → (arbiters_get h' c2).1 = (arbiters_get h' demo_arbiters).1.
Proof.
  apply (arbiters_BatchPut_GetByHeight demo_arbiters 100 demo_crc demo_nor demo_arbiters_ok (demo_arbiters_fresh 100)).
  - vm_compute. split; congruence.
  - reflexivity.
  - exact (proj1 demo_keys_wf).
  - exact (proj2 demo_keys_wf).
  - vm_compute. congruence.
  - reflexivity.
  - vm_compute. congruence.
  - reflexivity.
Defined.

Lemma arbiters_BatchPut_twice_witness :
  ∃ c1 b1 c2 c3 b3 c4,
    arbiters_BatchPut 100 demo_crc demo_nor (demo_arbiters, []) = (Ok (), (c1, b1)) ∧
    arbiters_CommitBatch (c1, b1) = (Ok (), (c2, b1)) ∧
    (arbiters_get 100 c2).1 = Ok (sort_keys demo_crc, sort_keys demo_nor) ∧
    arbiters_BatchPut 100 demo_crc demo_nor (c2, []) = (Ok (), (c3, b3)) ∧
    arbiters_CommitBatch (c3, b3) = (Ok (), (c4, b3)) ∧
    (arbiters_get 100 c4).1 = (readArbiters (uint32toBytes 100)).1.
Proof.
  apply (arbiters_BatchPut_twice demo_arbiters 100 demo_crc demo_nor demo_arbiters_ok (demo_arbiters_fresh 100)).
  - vm_compute. split; congruence.
  - exact (proj1 demo_keys_wf).
  - exact (proj2 demo_keys_wf).
  - vm_compute. congruence.
  - reflexivity.
  - reflexivity.
Defined.

(** In this encoding the four bytes are not a set of arbiters at all. *)
Example twice_reads_error : is_ok (readArbiters (uint32toBytes 100)).1 = false.
Proof. vm_compute. reflexivity. Qed.

Lemma BatchPutRevertTransaction_spec_witness :
  ∃ c1 b c2, BatchPutRevertTransaction 50 x01 (demo_arbiters, []) = (Ok (), (c1, b)) ∧
    arbiters_CommitBatch (c1, b) = (Ok (), (c2, b)) ∧ revert_ok c2 ∧
    ∀ height,
      (GetConsensusAlgorithmByHeight height c2).1 =
        (if decide (last_revert (db_view (ar_db demo_arbiters)) < 50 ∧ 50 ≤ height) then Ok x01
         else (GetConsensusAlgorithmByHeight height demo_arbiters).1) ∧
      (GetConsensusAlgorithmByHeight height (NewArbiters (ar_db c2) [] 0)).1 =
        (GetConsensusAlgorithmByHeight height c2).1.
Proof.
  apply (BatchPutRevertTransaction_spec demo_arbiters 50 x01 demo_arbiters_revert_ok); [|reflexivity].
  vm_compute. split; congruence.
Defined.
