(* ===== verification/CustomIdDemo.v ===== *)
(** * Witnesses of the custom id table *)
From S2P Require Import Demo Samples ArbitersDemo TxsDemo CustomIdSpec.
#[local] Open Scope Z_scope.

#[export] Instance demo_dpos : DposState := { DPOS := x00 }.

(** A proposal at height 10 under the delegated consensus until height 12 and
    from height 20 on: confirmed at height 26. *)
Definition demo_info : list RevertInfo := [mkRevertInfo 12 x01; mkRevertInfo 20 x00].
Lemma isProposalConfirmed_spec_witness :
  isProposalConfirmed 26 10 demo_info = true ↔ confirmed 26 10 (mkRevertInfo 0 x00 :: demo_info).
Proof.
  apply (isProposalConfirmed_spec 26 10 demo_info).
  - vm_compute; split; congruence.
  - vm_compute; split; congruence.
  - repeat constructor.
  - repeat constructor; vm_compute; congruence.
Defined.
Example confirmed_at_26 : isProposalConfirmed 26 10 demo_info = true ∧ isProposalConfirmed 25 10 demo_info = false.
Proof. split; vm_compute; reflexivity. Qed.

Definition demo_cid : customID (gmap bytes bytes) := NewCustomID ∅ [x45].
Lemma demo_cid_ok : cid_ok demo_cid.
Proof. split; [done| |by left]. split; [done|reflexivity]. Qed.

Lemma reserve_CustomIDs_witness :
  ∃ c1 c2, PutControversialReservedCustomIDs [[x61]; [x62; x63]] (h256 4) demo_cid = (Ok (), c1) ∧
    PutCustomIDProposalResults [mkProposalResult (h256 4) ReserveCustomID true] 30 c1 = (Ok (), c2) ∧ cid_ok c2 ∧
    (∀ id, reserved_db (db_view (cid_db c2)) !! id =
       if decide (id ∈ [[x61]; [x62; x63]]) then Some 30 else reserved_db (db_view (cid_db demo_cid)) !! id) ∧
    ∀ h info c', c' = c2 ∨ c' = NewCustomID (cid_db c2) (GenesisBlockAddress c2) →
      ∃ m c'', GetReservedCustomIDs h info c' = (Ok m, c'') ∧
        ∀ id, m !! id = Some () ↔
          ∃ h', reserved_db (db_view (cid_db c2)) !! id = Some h' ∧ isProposalConfirmed h h' info = true.
Proof.
  apply (reserve_CustomIDs demo_cid [[x61]; [x62; x63]] (h256 4) 30 demo_cid_ok).
  - repeat constructor; vm_compute; congruence.
  - vm_compute; split; congruence.
  - reflexivity.
Defined.

Lemma customID_Clear_keeps_witness :
  ∃ c', customID_Clear demo_cid = (Ok (), c') ∧ db_view (cid_db c') = db_view (cid_db demo_cid).
Proof. exact (customID_Clear_keeps demo_cid eq_refl). Defined.
