(* ===== verification/Bloom.v ===== *)
(** * Package [bloom]: the filter

    [bloom/murmurhash3.go] and [bloom/filter.go].  A [Filter] is the message it
    holds, or nothing; the mutex makes every call atomic.  The theorems: no
    index is out of range, what was added always matches, and a transaction a
    filter is interested in is never missed. *)
From Stdlib Require Import Floats.SpecFloat.
From S2P Require Export Util.

(** ** MurmurHash3 *)
Definition murmurC1 : Z := 0xcc9e2d51.
Definition murmurC2 : Z := 0x1b873593.
Definition murmurR1 : Z := 15.
Definition murmurR2 : Z := 13.
Definition murmurM : Z := 5.
Definition murmurN : Z := 0xe6546b64.

(** [(x << r) | (x >> (32 - r))] *)
Definition rotl32 (x r : Z) : Z := Z.lor (shl32 x r) (Z.shiftr x (32 - r)).

Fixpoint murmur_blocks (n : nat) (data : bytes) (hash : Z) : Z :=
  match n with
  | O => hash
  | S n =>
      let k := le_value (take 4 data) in
      let k := u32 (k * murmurC1) in
      let k := rotl32 k murmurR1 in
      let k := u32 (k * murmurC2) in
      let hash := Z.lxor hash k in
      let hash := rotl32 hash murmurR2 in
      murmur_blocks n (drop 4 data) (u32 (hash * murmurM + murmurN))
  end.

(** The remaining bytes; each case of the switch falls through to the next. *)
Definition murmur_tail (tail : bytes) (hash : Z) : Z :=
  let at_ i := Z_of_byte (nth i tail x00) in
  let k := match length tail with
           | 3%nat => Z.lxor (Z.lxor (Z.lxor 0 (shl32 (at_ 2%nat) 16)) (shl32 (at_ 1%nat) 8)) (at_ 0%nat)
           | 2%nat => Z.lxor (Z.lxor 0 (shl32 (at_ 1%nat) 8)) (at_ 0%nat)
           | 1%nat => Z.lxor 0 (at_ 0%nat)
           | _ => 0
           end in
  match length tail with
  | 3%nat | 2%nat | 1%nat =>
      let k := u32 (k * murmurC1) in
      let k := rotl32 k murmurR1 in
      let k := u32 (k * murmurC2) in
      Z.lxor hash k
  | _ => hash
  end.

Definition MurmurHash3 (seed : Z) (data : bytes) : Z :=
  let dataLen := u32 (Z.of_nat (length data)) in
  let numBlocks := Z.to_nat (dataLen / 4) in
  let hash := murmur_blocks numBlocks data seed in
  let hash := murmur_tail (take (Z.to_nat (Z.land dataLen 3)) (drop (4 * numBlocks) data)) hash in
  let hash := Z.lxor hash dataLen in
  let hash := Z.lxor hash (Z.shiftr hash 16) in
  let hash := u32 (hash * 0x85ebca6b) in
  let hash := Z.lxor hash (Z.shiftr hash 13) in
  let hash := u32 (hash * 0xc2b2ae35) in
  Z.lxor hash (Z.shiftr hash 16).

Example murmur_empty : MurmurHash3 0 [] = 0.
Proof. reflexivity. Qed.
Example murmur_seed : MurmurHash3 0xfba4c795 [] = 0x6a396f08.
Proof. reflexivity. Qed.
Example murmur_1 : MurmurHash3 0 [x00] = 0x514e28b7.
Proof. reflexivity. Qed.
Example murmur_3 : MurmurHash3 0 [x00; x11; x22] = 0x8eb51c3d.
Proof. reflexivity. Qed.
Example murmur_4 : MurmurHash3 0 [x00; x11; x22; x33] = 0xb4471bf8.
Proof. reflexivity. Qed.

(** ** The filter *)
Definition MaxFilterLoadHashFuncs : Z := 50.
Definition MaxFilterLoadFilterSize : Z := 36000.

Definition minUint32 (a b : Z) : Z := if a <? b then a else b.

(** [msg.FilterLoad] *)
Record FilterLoad := mkFilterLoad {
  fl_Filter : bytes; fl_HashFuncs : Z; fl_Tweak : Z; fl_TxTypes : list Z;
}.

Definition Filter : Type := option FilterLoad.
Definition LoadFilter (msg : FilterLoad) : Filter := Some msg.
Definition IsLoaded : GoM Filter bool := bf ← getS; mret (bool_decide (is_Some bf)).
Definition Reload (msg : Filter) : GoM Filter unit := putS msg.
Definition Unload : GoM Filter unit := putS None.

(** [bf.hash]: a division by zero panics. *)
Definition filter_hash (m : FilterLoad) (hashNum : Z) (data : bytes) : outcome Z :=
  let mm := MurmurHash3 (u32 (u32 (hashNum * 0xfba4c795) + fl_Tweak m)) data in
  let size := shl32 (u32 (Z.of_nat (length (fl_Filter m)))) 3 in
  if size =? 0 then Panic else Ok (mm mod size).

Fixpoint matches_loop (n : nat) (i : Z) (m : FilterLoad) (data : bytes) : outcome bool :=
  match n with
  | O => Ok true
  | S n =>
      idx ← filter_hash m i data;
      b ← or_panic (fl_Filter m !! Z.to_nat (Z.shiftr idx 3));
      if Z.land (Z_of_byte b) (Z.shiftl 1 (Z.land idx 7)) =? 0 then Ok false
      else matches_loop n (u32 (i + 1)) m data
  end.
Definition matches (data : bytes) : GoM Filter bool :=
  bf ← getS;
  match bf with
  | None => mret false
  | Some m => lift (matches_loop (Z.to_nat (fl_HashFuncs m)) 0 m data)
  end.

Definition set_bit (idx : Z) (m : FilterLoad) : outcome FilterLoad :=
  b ← or_panic (fl_Filter m !! Z.to_nat (Z.shiftr idx 3));
  Ok (mkFilterLoad
        (<[Z.to_nat (Z.shiftr idx 3) := byte_of_Z (Z.lor (Z_of_byte b) (Z.shiftl 1 (Z.land 7 idx)))]> (fl_Filter m))
        (fl_HashFuncs m) (fl_Tweak m) (fl_TxTypes m)).

Fixpoint add_loop (n : nat) (i : Z) (data : bytes) (m : FilterLoad) : outcome FilterLoad :=
  match n with
  | O => Ok m
  | S n =>
      idx ← filter_hash m i data;
      m ← set_bit idx m;
      add_loop n (u32 (i + 1)) data m
  end.
(** A panic in the loop leaves the bits set so far; nothing below recovers from
    it, so the state after a panic is not tracked. *)
Definition add (data : bytes) : GoM Filter unit :=
  bf ← getS;
  match bf with
  | None => mret ()
  | Some m => m' ← lift (add_loop (Z.to_nat (fl_HashFuncs m)) 0 data m); putS (Some m')
  end.

Definition Matches := matches.
Definition Add := add.
Definition AddHash (hash : Uint256) : GoM Filter unit := add (arr_bytes hash).

Section outpoints.
Context `{E : ElaCommon}.
Definition matchesOutPoint (outpoint : OutPoint) : GoM Filter bool := matches (OutPoint_Bytes outpoint).
Definition MatchesOutPoint := matchesOutPoint.
Definition addOutPoint (outpoint : OutPoint) : GoM Filter unit := add (OutPoint_Bytes outpoint).
Definition AddOutPoint := addOutPoint.
End outpoints.

Definition GetFilterLoadMsg : GoM Filter Filter := getS.

#[export] Instance bloom_FilterI : FilterI Filter := { FilterAdd := Add; FilterMatches := Matches }.

(** ** [NewFilter] *)

(** [math.Log], and the conversion of a [float64] outside the range of
    [uint32], which the language leaves to the implementation. *)
Class GoFloat := {
  math_Log : spec_float → spec_float;
  f64_to_u32_oob : spec_float → Z;
  f64_to_u32_oob_fits f : fits 32 (f64_to_u32_oob f);
}.

Definition f64_of_u32 (z : Z) : spec_float := binary_normalize 53 1024 z 0 false.
Notation F64mul := (SFmul 53 1024).
Notation F64div := (SFdiv 53 1024).

Section newfilter.
Context `{GoFloat}.

(** [uint32(f)]: the fraction is discarded. *)
Definition f64_to_u32 (f : spec_float) : Z :=
  match f with
  | S754_zero _ => 0
  | S754_finite s m e =>
      let z := if e <? 0 then Z.pos m / 2 ^ (- e) else Z.pos m * 2 ^ e in
      let z := if s then - z else z in
      if decide (fits 32 z) then z else f64_to_u32_oob f
  | _ => f64_to_u32_oob f
  end.

Definition f64_1e_9 : spec_float := S754_finite false 0x112e0be826d695 (-82).
Definition f64_1 : spec_float := S754_finite false 0x10000000000000 (-52).
Definition f64_m1 : spec_float := S754_finite true 0x10000000000000 (-52).
Definition f64_Ln2 : spec_float := S754_finite false 0x162e42fefa39ef (-53).
Definition ln2Squared : spec_float := S754_finite false 0x1ebfbdff82c58f (-54).

Definition NewFilter (elements tweak : Z) (fprate : spec_float) (txTypes : list Z) : Filter :=
  let fprate := if SFltb f64_1 fprate then f64_1 else fprate in
  let fprate := if SFltb fprate f64_1e_9 then f64_1e_9 else fprate in
  let dataLen := f64_to_u32 (F64div (F64mul (F64mul f64_m1 (f64_of_u32 elements)) (math_Log fprate)) ln2Squared) in
  let dataLen := minUint32 dataLen (MaxFilterLoadFilterSize * 8) / 8 in
  let hashFuncs := f64_to_u32 (F64mul (F64div (f64_of_u32 (u32 (dataLen * 8))) (f64_of_u32 elements)) f64_Ln2) in
  let hashFuncs := minUint32 hashFuncs MaxFilterLoadHashFuncs in
  LoadFilter (mkFilterLoad (replicate (Z.to_nat dataLen) x00) hashFuncs tweak txTypes).
End newfilter.

(** ** What was added matches *)

(** The filter has some bits, and their number fits a [uint32]. *)
Definition filter_ok (m : FilterLoad) : Prop := 0 < Z.of_nat (length (fl_Filter m)) < 2 ^ 29.
Definition same_shape (m m' : FilterLoad) : Prop :=
  length (fl_Filter m') = length (fl_Filter m) ∧ fl_HashFuncs m' = fl_HashFuncs m ∧
  fl_Tweak m' = fl_Tweak m.

(** Bit [idx] of the filter. *)
Definition bit_at (m : FilterLoad) (idx : Z) : bool :=
  match fl_Filter m !! Z.to_nat (Z.shiftr idx 3) with
  | Some b => negb (Z.land (Z_of_byte b) (Z.shiftl 1 (Z.land idx 7)) =? 0)
  | None => false
  end.

(** The bits of one element. *)
Definition index_of (m : FilterLoad) (i : Z) (data : bytes) : Z :=
  MurmurHash3 (u32 (u32 (i * 0xfba4c795) + fl_Tweak m)) data mod (8 * Z.of_nat (length (fl_Filter m))).

Lemma filter_hash_ok m i data : filter_ok m →
  filter_hash m i data = Ok (index_of m i data) ∧
  0 ≤ index_of m i data < 8 * Z.of_nat (length (fl_Filter m)).
Proof.
  unfold filter_ok, filter_hash, index_of. intros Hok.
  rewrite u32_small by (unfold fits; lia). unfold shl32. rewrite Z.shiftl_mul_pow2 by lia.
  rewrite u32_small by (unfold fits; lia).
  rewrite (proj2 (Z.eqb_neq _ 0)) by lia. change (2 ^ 3) with 8. rewrite (Z.mul_comm _ 8).
  split; [done|]. apply Z.mod_pos_bound. lia.
Qed.
Lemma filter_byte m idx : 0 ≤ idx < 8 * Z.of_nat (length (fl_Filter m)) →
  ∃ b, fl_Filter m !! Z.to_nat (Z.shiftr idx 3) = Some b.
Proof.
  intros Hi. apply lookup_lt_is_Some_2. rewrite Z.shiftr_div_pow2 by lia. change (2 ^ 3) with 8.
  pose proof (Z.div_lt_upper_bound idx 8 (Z.of_nat (length (fl_Filter m)))). lia.
Qed.

(** The numbers of [n] hash functions. *)
Fixpoint indexes (n : nat) (i : Z) : list Z :=
  match n with O => [] | S n => i :: indexes n (u32 (i + 1)) end.

Definition member (m : FilterLoad) (data : bytes) : bool :=
  forallb (λ i, bit_at m (index_of m i data)) (indexes (Z.to_nat (fl_HashFuncs m)) 0).

Lemma matches_loop_spec n i m data : filter_ok m →
  matches_loop n i m data = Ok (forallb (λ i, bit_at m (index_of m i data)) (indexes n i)).
Proof.
  intros Hok. revert i. induction n as [|n IH]; intros i; [done|]. cbn [matches_loop indexes forallb].
  destruct (filter_hash_ok m i data Hok) as [-> Hr]. cbn [mbind outcome_bind].
  destruct (filter_byte m _ Hr) as (b & Hb). unfold bit_at at 1. rewrite Hb. cbn [or_panic mbind outcome_bind].
  destruct (_ =? 0); cbn [negb andb]; [done|]. by rewrite IH.
Qed.

Lemma bit_test x t : 0 ≤ t → negb (Z.land x (Z.shiftl 1 t) =? 0) = Z.testbit x t.
Proof.
  intros Ht. rewrite shl1_pow2 by done.
  assert (Hl : Z.land x (2 ^ t) = if Z.testbit x t then 2 ^ t else 0).
  { apply Z.bits_inj'. intros n Hn. rewrite Z.land_spec, Z.pow2_bits_eqb by lia.
    destruct (Z.eqb_spec t n) as [<-|Hne].
    - destruct (Z.testbit x t); [by rewrite Z.pow2_bits_true by lia|by rewrite Z.bits_0].
    - rewrite andb_false_r. destruct (Z.testbit x t); [|by rewrite Z.bits_0].
      by rewrite Z.pow2_bits_false by lia. }
  rewrite Hl. destruct (Z.testbit x t); [|done].
  rewrite (proj2 (Z.eqb_neq _ 0)); [done|]. apply Z.pow_nonzero; lia.
Qed.

Lemma bit_at_testbit m idx :
  bit_at m idx = match fl_Filter m !! Z.to_nat (Z.shiftr idx 3) with
                 | Some b => Z.testbit (Z_of_byte b) (Z.land idx 7) | None => false end.
Proof.
  unfold bit_at. destruct (_ !! _); [|done]. apply bit_test.
  change 7 with (Z.ones 3). rewrite Z.land_ones by lia. apply Z.mod_pos_bound. lia.
Qed.

Lemma testbit_set b t u : 0 ≤ t < 8 → 0 ≤ u < 8 →
  Z.testbit (Z_of_byte (byte_of_Z (Z.lor (Z_of_byte b) (Z.shiftl 1 t)))) u =
    Z.testbit (Z_of_byte b) u || (t =? u).
Proof.
  intros Ht Hu. rewrite Z_of_byte_of_Z. change 256 with (2 ^ 8).
  rewrite Z.mod_pow2_bits_low by lia. rewrite Z.lor_spec, shl1_pow2 by lia.
  by rewrite Z.pow2_bits_eqb by lia.
Qed.
Lemma land7 x : 0 ≤ Z.land x 7 < 8.
Proof. change 7 with (Z.ones 3). rewrite Z.land_ones by lia. apply Z.mod_pos_bound. lia. Qed.

Lemma set_bit_spec m idx : 0 ≤ idx < 8 * Z.of_nat (length (fl_Filter m)) →
  ∃ m', set_bit idx m = Ok m' ∧ same_shape m m' ∧ bit_at m' idx = true ∧
    ∀ j, bit_at m j = true → bit_at m' j = true.
Proof.
  intros Hi. destruct (filter_byte m idx Hi) as (b & Hb). unfold set_bit. rewrite Hb.
  cbn [or_panic mbind outcome_bind]. eexists. split; [reflexivity|].
  pose proof (lookup_lt_Some _ _ _ Hb). rewrite (Z.land_comm 7 idx).
  split; [split; [apply length_insert|done]|]. split.
  - rewrite bit_at_testbit. cbn [fl_Filter]. rewrite list_lookup_insert_eq by done.
    rewrite testbit_set, Z.eqb_refl by apply land7. apply orb_true_r.
  - intros j. rewrite !bit_at_testbit. cbn [fl_Filter].
    destruct (decide (Z.to_nat (Z.shiftr idx 3) = Z.to_nat (Z.shiftr j 3))) as [E|Hne].
    + rewrite <-E, list_lookup_insert_eq by done. rewrite Hb, testbit_set by apply land7.
      intros ->. done.
    + by rewrite list_lookup_insert_ne.
Qed.

Lemma same_shape_refl m : same_shape m m.
Proof. done. Qed.
Lemma same_shape_trans m1 m2 m3 : same_shape m1 m2 → same_shape m2 m3 → same_shape m1 m3.
Proof. intros (? & ? & ?) (? & ? & ?). split_and!; congruence. Qed.
Lemma same_shape_ok m m' : same_shape m m' → filter_ok m → filter_ok m'.
Proof. intros (Hl & _). unfold filter_ok. by rewrite Hl. Qed.
Lemma same_shape_index m m' i data : same_shape m m' → index_of m' i data = index_of m i data.
Proof. intros (Hl & _ & Ht). unfold index_of. by rewrite Hl, Ht. Qed.

Lemma add_loop_spec n i data m : filter_ok m →
  ∃ m', add_loop n i data m = Ok m' ∧ same_shape m m' ∧
    (∀ j, bit_at m j = true → bit_at m' j = true) ∧
    forallb (λ i, bit_at m' (index_of m' i data)) (indexes n i) = true.
Proof.
  revert i m. induction n as [|n IH]; intros i m Hok; [by exists m|]. cbn [add_loop indexes forallb].
  destruct (filter_hash_ok m i data Hok) as [-> Hr]. cbn [mbind outcome_bind].
  destruct (set_bit_spec m _ Hr) as (m1 & -> & Hs1 & Hb1 & Hm1). cbn [mbind outcome_bind].
  destruct (IH (u32 (i + 1)) m1 (same_shape_ok _ _ Hs1 Hok)) as (m' & Hr' & Hs' & Hm' & Hall).
  exists m'. split; [done|]. split; [by eapply same_shape_trans|].
  split; [by intros j Hj; apply Hm', Hm1|].
  rewrite Hall, andb_true_r. rewrite (same_shape_index m1 m' _ _ Hs'), (same_shape_index m m1 _ _ Hs1).
  by apply Hm'.
Qed.

(** ** The contract of a filter *)

(** A filter answers [true] for every element added to it, now and later. *)
Class FilterLaws (F : Type) `{FilterI F} := {
  f_ok : F → Prop;
  f_in : F → bytes → bool;
  FilterMatches_law f d : f_ok f → FilterMatches d f = (Ok (f_in f d), f);
  FilterAdd_law f d : f_ok f →
    ∃ f', FilterAdd d f = (Ok (), f') ∧ f_ok f' ∧ f_in f' d = true ∧
      ∀ x, f_in f x = true → f_in f' x = true;
}.

#[export] Instance bloom_FilterLaws : FilterLaws Filter.
Proof.
  refine {| f_ok bf := match bf with Some m => filter_ok m | None => False end;
            f_in bf d := match bf with Some m => member m d | None => false end |}.
  - intros [m|] d Hok; [|done]. unfold FilterMatches, bloom_FilterI, Matches, matches.
    change ((getS ≫= ?f) ?s) with (f s s). cbv beta. unfold lift. by rewrite matches_loop_spec.
  - intros [m|] d Hok; [|done]. unfold FilterAdd, bloom_FilterI, Add, add.
    change ((getS ≫= ?f) ?s) with (f s s). cbv beta.
    destruct (add_loop_spec (Z.to_nat (fl_HashFuncs m)) 0 d m Hok) as (m' & Hr & Hs & Hmono & Hall).
    exists (Some m'). split_and!.
    + unfold lift, mbind, GoM_bind. by rewrite Hr.
    + by eapply same_shape_ok.
    + unfold member. destruct Hs as (_ & -> & _). done.
    + intros x. unfold member. rewrite !forallb_forall. destruct Hs as (Hl & Hh & Ht). rewrite Hh.
      intros Hx i Hi. rewrite (same_shape_index m m') by done. by apply Hmono, Hx.
Defined.

(** on a loaded filter of 1 to 2^29 - 1 bytes, [Add] and [Matches] never
    index out of range nor divide by zero; what was added matches, and what
    matched before still does. *)
Theorem Filter_no_false_negatives (m : FilterLoad) (data : bytes) :
  filter_ok m →
  ∃ m', Add data (Some m) = (Ok (), Some m') ∧ filter_ok m' ∧
    Matches data (Some m') = (Ok true, Some m') ∧
    ∀ x, (Matches x (Some m)).1 = Ok true → Matches x (Some m') = (Ok true, Some m').
Proof.
  intros Hok. assert (Hokm : f_ok (Some m : Filter)) by exact Hok.
  destruct (FilterAdd_law (F := Filter) (Some m) data Hokm) as ([m'|] & Hr & Hok' & Hin & Hmono); [|done].
  exists m'. split; [exact Hr|]. split; [exact Hok'|]. split.
  - pose proof (FilterMatches_law (F := Filter) (Some m') data Hok') as Hm. rewrite Hin in Hm. exact Hm.
  - intros x Hx. pose proof (FilterMatches_law (F := Filter) (Some m) x Hokm) as Hm.
    pose proof (FilterMatches_law (F := Filter) (Some m') x Hok') as Hm'.
    change (FilterMatches x (Some m)) with (Matches x (Some m)) in Hm. rewrite Hm in Hx.
    cbn [fst] in Hx. injection Hx as Hx. rewrite (Hmono x Hx) in Hm'. exact Hm'.
Qed.

(** A loaded filter without bytes and with at least one hash function makes
    [Add] and [Matches] divide by zero. *)
Theorem Filter_empty_panics (m : FilterLoad) (data : bytes) :
  fl_Filter m = [] → 0 < fl_HashFuncs m →
  (Add data (Some m)).1 = Panic ∧ (Matches data (Some m)).1 = Panic.
Proof.
  intros He Hh. destruct (Z.to_nat (fl_HashFuncs m)) as [|n] eqn:Hn; [lia|].
  unfold Add, add, Matches, matches, mbind, GoM_bind, getS, lift. rewrite Hn.
  cbn [add_loop matches_loop]. unfold filter_hash. by rewrite He.
Qed.

(** [NewFilter] never makes a filter larger than 36000 bytes or with more
    than 50 hash functions, whatever the number of elements and the rate. *)
Theorem NewFilter_bounds `{GoFloat} elements tweak fprate txTypes :
  ∃ m, NewFilter elements tweak fprate txTypes = Some m ∧
    Z.of_nat (length (fl_Filter m)) ≤ MaxFilterLoadFilterSize ∧
    0 ≤ fl_HashFuncs m ≤ MaxFilterLoadHashFuncs ∧ fl_Tweak m = tweak ∧
    ∀ b, b ∈ fl_Filter m → b = x00.
Proof.
  assert (Hf : ∀ f, 0 ≤ f64_to_u32 f).
  { intros f. unfold f64_to_u32. pose proof (f64_to_u32_oob_fits f) as [? _].
    destruct f; try lia. case_decide as Hd; [apply Hd|done]. }
  assert (Hmin : ∀ a b, 0 ≤ a → 0 ≤ b → 0 ≤ minUint32 a b ≤ b).
  { intros a b Ha Hb. unfold minUint32. destruct (Z.ltb_spec a b); lia. }
  eexists. split; [reflexivity|]. cbn [fl_Filter fl_HashFuncs fl_Tweak].
  split; [|split; [apply Hmin; [apply Hf|done]|split; [done|]]].
  - rewrite length_replicate. set (d := f64_to_u32 _).
    pose proof (Hmin d (MaxFilterLoadFilterSize * 8) (Hf _) ltac:(done)).
    unfold MaxFilterLoadFilterSize in *. pose proof (Z.div_le_upper_bound (minUint32 d (36000 * 8)) 8 36000).
    pose proof (Z.div_pos (minUint32 d (36000 * 8)) 8). lia.
  - intros b Hb. by apply elem_of_replicate in Hb as [? _].
Qed.

(** ** Matching a transaction *)
Section matching.
Context {F} `{FilterI F} `{!FilterLaws F} {T} `{ElaTransaction T} `{E : ElaCommon}.

Definition outpoint_of (tx : T) (n : nat) : bytes :=
  OutPoint_Bytes (NewOutPoint (etx_Hash tx) (u16 (Z.of_nat n))).

Lemma match_outputs_spec tx i outs b f : f_ok f →
  ∃ b' f', match_outputs tx (Z.of_nat i) outs b f = (Ok b', f') ∧ f_ok f' ∧
    (∀ x, f_in f x = true → f_in f' x = true) ∧ (b = true → b' = true) ∧
    ∀ n o, outs !! n = Some o → f_in f (arr_bytes (ProgramHash o)) = true →
      b' = true ∧ f_in f' (outpoint_of tx (i + n)) = true.
Proof.
  revert i b f. induction outs as [|o outs IH]; intros i b f Hok; [exists b, f; by split_and!|].
  cbn [match_outputs]. rewrite (bind_run _ _ f _ f (FilterMatches_law f _ Hok)).
  replace (Z.of_nat i + 1) with (Z.of_nat (S i)) by lia.
  destruct (f_in f (arr_bytes (ProgramHash o))) eqn:Hm; cbn [negb].
  - destruct (FilterAdd_law f (outpoint_of tx i) Hok) as (f1 & Ha & Hok1 & Hin1 & Hmono1).
    rewrite (bind_run _ _ f () f1) by done.
    destruct (IH (S i) true f1 Hok1) as (b' & f' & Hr & Hok' & Hmono & Hb & Hall).
    exists b', f'. specialize (Hb eq_refl). split_and!; try done; [by intros x Hx; apply Hmono, Hmono1|].
    intros [|n] o' Ho Ho'; [rewrite Nat.add_0_r; split; [done|by apply Hmono]|].
    rewrite Nat.add_succ_r. apply (Hall n o' Ho). by apply Hmono1.
  - destruct (IH (S i) b f Hok) as (b' & f' & Hr & Hok' & Hmono & Hb & Hall).
    exists b', f'. split_and!; try done. intros [|n] o' Ho Ho'; [cbn in Ho; congruence|].
    rewrite Nat.add_succ_r. by apply (Hall n o').
Qed.

Lemma match_inputs_spec ins f : f_ok f →
  match_inputs ins f = (Ok (existsb (λ '(t, i), f_in f (OutPoint_Bytes (NewOutPoint t i))) ins), f).
Proof.
  intros Hok. induction ins as [|[t i] ins IH]; [done|]. cbn [match_inputs existsb].
  rewrite (bind_run _ _ f _ f (FilterMatches_law f _ Hok)). by destruct (f_in f _).
Qed.

Lemma MatchFilter_run (tx : T) (f : F) : f_ok f →
  ∃ b f', iutil_MatchFilter tx f = (Ok b, f') ∧ f_ok f' ∧
    (∀ x, f_in f x = true → f_in f' x = true) ∧
    (f_in f (arr_bytes (etx_Hash tx)) = true → b = true) ∧
    (∀ n o, etx_Outputs tx !! n = Some o → f_in f (arr_bytes (ProgramHash o)) = true →
       b = true ∧ f_in f' (outpoint_of tx n) = true) ∧
    (∀ t i, (t, i) ∈ etx_Inputs tx → f_in f (OutPoint_Bytes (NewOutPoint t i)) = true → b = true).
Proof.
  intros Hok. unfold iutil_MatchFilter.
  rewrite (bind_run _ _ f _ f (FilterMatches_law f _ Hok)).
  destruct (match_outputs_spec tx 0 (etx_Outputs tx) (f_in f (arr_bytes (etx_Hash tx))) f Hok)
    as (b & f' & Hr & Hok' & Hmono & Hb & Hall).
  rewrite (bind_run _ _ f b f' Hr). destruct b.
  - exists true, f'. by split_and!.
  - rewrite match_inputs_spec by done. eexists _, f'. split_and!; [done|done|done|..].
    + intros Hh. by apply Hb in Hh.
    + intros n o Ho Hf. by destruct (Hall n o Ho Hf).
    + intros t i Hin Hf. apply existsb_exists. exists (t, i).
      split; [by apply list_elem_of_In|]. by apply Hmono.
Qed.

(** C39: a filter that honours its contract never misses a transaction: when it
    holds the transaction's id, the program hash of one of its outputs or an
    outpoint it spends, [MatchFilter] answers true; and every output of interest
    adds its outpoint, so that the transaction that spends it matches later. *)
Theorem MatchFilter_complete (tx : T) (f : F) : f_ok f →
  ∃ b f', iutil_MatchFilter tx f = (Ok b, f') ∧ f_ok f' ∧
    (∀ x, f_in f x = true → f_in f' x = true) ∧
    (f_in f (arr_bytes (etx_Hash tx)) = true → b = true) ∧
    (∀ n o, etx_Outputs tx !! n = Some o → f_in f (arr_bytes (ProgramHash o)) = true →
       b = true ∧ f_in f' (outpoint_of tx n) = true) ∧
    (∀ t i, (t, i) ∈ etx_Inputs tx → f_in f (OutPoint_Bytes (NewOutPoint t i)) = true → b = true).
Proof. apply MatchFilter_run. Qed.
End matching.
