(* ===== verification/BloomDemo.v ===== *)
(** * Witnesses of the bloom filter *)
From S2P Require Import Demo Samples Bloom.

Definition demo_filter : FilterLoad := mkFilterLoad (replicate 16 x00) 5 7 [].
Definition demo_tx : sample_tx := simple_tx 1 [21; 22] [(8, 0)].

Lemma demo_filter_ok : filter_ok demo_filter.
Proof. split; vm_compute; reflexivity. Qed.

Lemma Filter_no_false_negatives_witness :
  ∃ m', Add [x01; x02] (Some demo_filter) = (Ok (), Some m') ∧ filter_ok m' ∧
    Matches [x01; x02] (Some m') = (Ok true, Some m') ∧
    ∀ x, (Matches x (Some demo_filter)).1 = Ok true → Matches x (Some m') = (Ok true, Some m').
Proof. exact (Filter_no_false_negatives demo_filter [x01; x02] demo_filter_ok). Defined.

Lemma Filter_empty_panics_witness :
  (Add [x01] (Some (mkFilterLoad [] 1 0 []))).1 = Panic ∧
  (Matches [x01] (Some (mkFilterLoad [] 1 0 []))).1 = Panic.
Proof. apply Filter_empty_panics; reflexivity. Defined.

(** A filter that holds the program hash of the first output of [demo_tx]. *)
Definition demo_watching : Filter := (Add (arr_bytes (h168 21)) (Some demo_filter)).2.
Lemma demo_watching_ok : f_ok demo_watching.
Proof.
  destruct (Filter_no_false_negatives demo_filter (arr_bytes (h168 21)) demo_filter_ok) as (m' & Hr & Hok & _).
  unfold demo_watching. rewrite Hr. exact Hok.
Qed.
(** It matches [demo_tx], and what it has become matches the transaction that
    spends that output; it matched neither the transaction's id nor its input. *)
Definition demo_spender : sample_tx := simple_tx 2 [23] [(1, 0)].
Lemma MatchFilter_complete_witness :
  ∃ f' f2, iutil_MatchFilter demo_tx demo_watching = (Ok true, f') ∧ iutil_MatchFilter demo_spender f' = (Ok true, f2) ∧
    f_in demo_watching (arr_bytes (etx_Hash demo_tx)) = false ∧ f_in demo_watching (outpoint_of demo_tx 0) = false.
Proof.
  assert (Hin : f_in demo_watching (arr_bytes (h168 21)) = true) by (vm_compute; reflexivity).
  destruct (MatchFilter_complete demo_tx demo_watching demo_watching_ok) as (b & f' & Hr & Hok & _ & _ & Hout & _).
  destruct (Hout 0%nat (mkOutput (h168 21) 10 0 OTOther OutputPayloadOther) eq_refl Hin) as [-> Hop].
  destruct (MatchFilter_complete demo_spender f' Hok) as (b2 & f2 & Hr2 & _ & _ & _ & _ & Hins).
  exists f', f2. split; [exact Hr|]. split; [|split; vm_compute; reflexivity].
  rewrite (Hins (h256 1) 0) in Hr2; [exact Hr2|left|exact Hop].
Defined.
