(* ===== verification/MerkleProof.v ===== *)
(** * Merkle proofs

    [bloom/merkleproof.go]: the proof handed to listeners, its serialization
    and the limits on its parts.  The theorem: what [Serialize] accepts,
    [Deserialize] reads back. *)
From S2P Require Export Util.

Section merkleproof.
Context `{E : ElaCommon}.

(** [pact.MaxTxPerBlock / 8] on [uint32]. *)
Definition maxFlagsPerMerkleProof : Z := MaxTxPerBlock / 8.

Record MerkleProof := mkMerkleProof {
  mp_BlockHash : Uint256;
  mp_Height : Z;
  mp_Transactions : Z;
  mp_Hashes : list Uint256;
  mp_Flags : bytes;
}.

(** A call that fails before it writes. *)
Definition fails (e : string) : Writer := throw (ErrStr e).

Definition MerkleProof_Serialize (p : MerkleProof) : Writer :=
  let numHashes := Z.of_nat (length (mp_Hashes p)) in
  if MaxTxPerBlock <? numHashes then fails "MerkleProof.Serialize: too many transaction hashes for message"
  else if maxFlagsPerMerkleProof <? Z.of_nat (length (mp_Flags p))
  then fails "MerkleProof.Serialize: too many flag bytes for message"
  else
    wr ElemHashC (mp_BlockHash p) ≫= λ _,
    wr Elem32C (mp_Height p) ≫= λ _,
    wr Elem32C (mp_Transactions p) ≫= λ _,
    wr Elem32C (u32 numHashes) ≫= λ _,
    forM (mp_Hashes p) (wr Hash256C) ≫= λ _,
    WriteVarBytes (mp_Flags p).

Definition MerkleProof_Deserialize : Reader MerkleProof :=
  blockHash ← rd ElemHashC;
  height ← rd Elem32C;
  transactions ← rd Elem32C;
  numHashes ← rd Elem32C;
  if MaxTxPerBlock <? numHashes
  then throw (ErrStr "MerkleProof.Deserialize too many transaction hashes for message")
  else
    hashes ← readN (Z.to_nat numHashes) (rd Hash256C);
    flags ← ReadVarBytes maxFlagsPerMerkleProof;
    mret (mkMerkleProof blockHash height transactions hashes flags).

Definition MerkleProof_wf (p : MerkleProof) : Prop := fits 32 (mp_Height p) ∧ fits 32 (mp_Transactions p).

Context `{!ElaCommonLaws E}.

Lemma maxFlags_fits : fits 32 maxFlagsPerMerkleProof.
Proof.
  pose proof MaxTxPerBlock_fits as [H1 H2]. unfold fits, maxFlagsPerMerkleProof.
  split; [apply Z.div_pos; lia|]. apply Z.div_lt_upper_bound; lia.
Qed.

(** [Serialize] either refuses a proof without writing a byte, because it has
    more than [MaxTxPerBlock] hashes or more flag bytes than the limit, or
    writes bytes from which [Deserialize] reads back the same proof and leaves
    what follows them. *)
Theorem MerkleProof_roundtrip (p : MerkleProof) : MerkleProof_wf p →
  if bool_decide (Z.of_nat (length (mp_Hashes p)) ≤ MaxTxPerBlock ∧
                  Z.of_nat (length (mp_Flags p)) ≤ maxFlagsPerMerkleProof)
  then ∃ bs, writes (MerkleProof_Serialize p) bs ∧ reads MerkleProof_Deserialize bs p
  else ∃ e, ∀ buf, MerkleProof_Serialize p buf = (Err e, buf).
Proof.
  intros [Hh Ht]. pose proof MaxTxPerBlock_fits as [Hm1 Hm2].
  case_bool_decide as Hl.
  - destruct Hl as [Hl1 Hl2]. destruct p as [b h t hs fl]; cbn [mp_BlockHash mp_Height mp_Transactions mp_Hashes mp_Flags] in *.
    assert (Hn : fits 32 (Z.of_nat (length hs))) by (unfold fits; lia).
    destruct (ElemHashC_ok b I) as (b0 & Hw0 & Hr0).
    destruct (Elem32C_ok h Hh) as (b1 & Hw1 & Hr1).
    destruct (Elem32C_ok t Ht) as (b2 & Hw2 & Hr2).
    destruct (Elem32C_ok _ Hn) as (b3 & Hw3 & Hr3).
    destruct (hashes_ok Hash256C hs Hash256C_ok) as (b4 & Hw4 & Hr4).
    destruct (VarBytes_ok _ maxFlags_fits fl Hl2) as (b5 & Hw5 & Hr5).
    exists (b0 ++ b1 ++ b2 ++ b3 ++ b4 ++ b5). split.
    + unfold MerkleProof_Serialize; cbn [mp_BlockHash mp_Height mp_Transactions mp_Hashes mp_Flags].
      rewrite (proj2 (Z.ltb_ge _ _) Hl1), (proj2 (Z.ltb_ge _ _) Hl2), u32_small by done.
      write_fields. done.
    + unfold MerkleProof_Deserialize. do 4 read_field.
      rewrite (proj2 (Z.ltb_ge _ _) Hl1), Nat2Z.id. read_field. read_last. apply reads_ret.
  - unfold MerkleProof_Serialize. destruct (Z.ltb_spec MaxTxPerBlock (Z.of_nat (length (mp_Hashes p)))); [by eexists|].
    destruct (Z.ltb_spec maxFlagsPerMerkleProof (Z.of_nat (length (mp_Flags p)))); [by eexists|]. lia.
Qed.
End merkleproof.
