(* ===== verification/MerkleBranch.v ===== *)
(** * Merkle branches

    [bloom/merklebranch.go]: the authentication path of one transaction, cut out
    of a Merkle block.  [getNodes] runs the stack machine of [CheckMerkleBlock]
    once more and keeps every node it fills, by position; the transaction is
    looked for among them and the nodes next to its way to the root make the
    branch. *)
From S2P Require Import Ela Util Merkle Txs.

Record MerkleBranch := mkMerkleBranch { Branches : list Uint256; mbr_Index : Z }.

(** [SetBits]: the bits of the flags, the lowest of each byte first. *)
Definition SetBits (flags : bytes) : list Z :=
  (λ i, Z.land (Z.shiftr (Z_of_byte (nth (Z.to_nat (i / 8)) flags x00)) (i mod 8)) 1) <$>
    seqZ 0 (u32 (u32 (Z.of_nat (length flags)) * 8)).

(** ** [getNodes] *)

(** The stack (its top first), the nodes filled, the position, and what is left
    of the hashes and the bits. *)
Record gnState := mkGN {
  gn_s : list merkleNode;
  gn_r : gmap Z merkleNode;
  gn_pos : Z;
  gn_hashes : list Uint256;
  gn_bits : list Z;
}.

Section nodes.
Context `{Sha}.

Definition gn_dead (st : gnState) : outcome gnState :=
  match gn_s st with
  | [] => Panic
  | t :: s =>
      h ← MakeMerkleParent (node_h t) None;
      match s with
      | [] => Panic
      | q :: s =>
          let n := mkNode (node_p q) (Some h) in
          Ok (mkGN (n :: s) (<[node_p q := n]> (gn_r st)) (Z.lor (node_p q) 1) (gn_hashes st) (gn_bits st))
      end
  end.

Definition gn_combine (st : gnState) (t l q : merkleNode) (s : list merkleNode) : outcome gnState :=
  h ← MakeMerkleParent (node_h l) (node_h t);
  let n := mkNode (node_p q) (Some h) in
  Ok (mkGN (n :: s) (<[node_p q := n]> (gn_r st)) (Z.lor (node_p q) 1) (gn_hashes st) (gn_bits st)).

Definition gn_push (numTxs msb : Z) (st : gnState) : outcome gnState :=
  match gn_hashes st with
  | [] => Err (ErrStr "Ran out of hashes at position %d.")
  | h :: hs =>
    match gn_bits st with
    | [] => Err (ErrStr "Ran out of bits.")
    | b :: bits =>
      let pos := gn_pos st in
      if negb (Z.land pos msb =? 0) then
        if b =? 0 then
          let n := mkNode pos (Some h) in
          Ok (mkGN (n :: gn_s st) (<[pos := n]> (gn_r st))
                (if negb (Z.land pos 1 =? 0) then Z.lor (Z.shiftr pos 1) msb else Z.lor pos 1)
                hs bits)
        else
          Ok (mkGN (mkNode pos None :: gn_s st) (gn_r st) (shl32 (Z.lxor pos msb) 1) (h :: hs) bits)
      else if numTxs <=? pos then Err (ErrStr "got into an invalid txid node")
      else
        let n := mkNode pos (Some h) in
        Ok (mkGN (n :: gn_s st) (<[pos := n]> (gn_r st))
              (if Z.land pos 1 =? 0 then Z.lor pos 1 else pos) hs bits)
    end
  end.

(** The body of the main loop; [inr] when it returns. *)
Definition gn_step (root : Uint256) (numTxs msb : Z) (st : gnState) :
    option (outcome (gnState + gmap Z merkleNode)) :=
  match gn_s st with
  | [mkNode _ (Some h)] =>
      Some (if decide (h = root) then Ok (inr (gn_r st))
            else Err (ErrStr "computed root %s but expect %s"))
  | _ =>
      dead ← inDeadZone (gn_pos st) numTxs;
      Some (inl <$>
        (if (dead : bool) then gn_dead st
         else match gn_s st with
              | (mkNode _ (Some _) as t) :: (mkNode _ (Some _) as l) :: q :: s => gn_combine st t l q s
              | _ => gn_push numTxs msb st
              end))
  end.

Fixpoint gn_run (fuel : nat) (root : Uint256) (numTxs msb : Z) (st : gnState) :
    option (outcome (gmap Z merkleNode)) :=
  match fuel with
  | O => None
  | S fuel =>
      r ← gn_step root numTxs msb st;
      match r with
      | Ok (inl st) => gn_run fuel root numTxs msb st
      | Ok (inr res) => Some (Ok res)
      | Err e => Some (Err e)
      | Panic => Some Panic
      end
  end.

(** As for [CheckMerkleBlock], two iterations for each bit are enough. *)
Definition getNodes (root : Uint256) (numTxs : Z) (hashes : list Uint256) (bits : list Z) :
    option (outcome (gmap Z merkleNode)) :=
  if numTxs =? 0 then Some (Err (ErrStr "No transactions in merkleblock"))
  else match bits with
  | [] => Some (Err (ErrStr "No flag bits"))
  | _ =>
      msb ← nextPowerOfTwo numTxs;
      gn_run (2 * length bits + 2) root numTxs msb (mkGN [] ∅ (u32 (shl32 msb 1 - 2)) hashes bits)
  end.
End nodes.

(** ** The branch *)
Section branch.
Context `{!MapOrder}.

(** The loop of [calcTxIndex]; [None]: the error "tx index not found". *)
Fixpoint calcTxIndex_loop (width : Z) (txId : Uint256) (l : list (Z * merkleNode)) : outcome (option Z) :=
  match l with
  | [] => Ok None
  | (_, node) :: l =>
      if width <? node_p node then calcTxIndex_loop width txId l
      else
        h ← or_panic (node_h node);
        if decide (h = txId) then Ok (Some (node_p node)) else calcTxIndex_loop width txId l
  end.
Definition calcTxIndex (numTxs : Z) (txId : Uint256) (allNodes : gmap Z merkleNode) : outcome (option Z) :=
  calcTxIndex_loop (calcTreeWidth numTxs 0) txId (range allNodes).

(** The method [inDeadZone] of [merkleNodes]. *)
Definition nodes_inDeadZone (numTxs txIndex height : Z) : bool :=
  let index := Z.shiftr txIndex height in
  (index =? u32 (calcTreeWidth numTxs height - 1)) && (index mod 2 =? 0).
Definition isLeftLeaf (txIndex height : Z) : bool := Z.shiftr txIndex height mod 2 =? 0.

Definition calcNodeIndex (numTxs height pos : Z) : option Z :=
  p ← nextPowerOfTwo numTxs;
  depth ← treeDepth numTxs;
  let msb := u32 (shl32 p 1 - 2) in
  let height := u32 (depth - height) in
  Some (u32 (foldl (λ msb i, u32 (msb - shl32 1 i)) msb (seqZ 1 height) + pos)).

(** The position a height adds to the route. *)
Definition routeAt (numTxs txIndex height : Z) : option Z :=
  let index := Z.shiftr txIndex height in
  if nodes_inDeadZone numTxs txIndex height then calcNodeIndex numTxs height index
  else if isLeftLeaf txIndex height then calcNodeIndex numTxs height (u32 (index + 1))
  else calcNodeIndex numTxs height (u32 (index - 1)).
Definition calcBranchRoute (numTxs txIndex : Z) : option (list Z) :=
  depth ← treeDepth numTxs;
  mapM (routeAt numTxs txIndex) (seqZ 0 depth).

(** A position that was not filled reads as the zero node, whose hash is nil. *)
Fixpoint branchLoop (allNodes : gmap Z merkleNode) (i : Z) (route : list Z) (mb : MerkleBranch) : outcome MerkleBranch :=
  match route with
  | [] => Ok mb
  | index :: route =>
      h ← or_panic (n ← allNodes !! index; node_h n);
      branchLoop allNodes (i + 1) route
        (mkMerkleBranch (Branches mb ++ [h])
           (if index mod 2 =? 0 then mbr_Index mb + Z.shiftl 1 i else mbr_Index mb))
  end.

(** The error of [calcTxIndex] is dropped: [txIndex] stays 0. *)
Definition GetMerkleBranch (numTxs : Z) (txId : Uint256) (allNodes : gmap Z merkleNode) :
    option (outcome MerkleBranch) :=
  match calcTxIndex numTxs txId allNodes with
  | Ok txIndex =>
      route ← calcBranchRoute numTxs (default 0 txIndex);
      Some (branchLoop allNodes 0 route (mkMerkleBranch [] 0))
  | Err e => Some (Err e)
  | Panic => Some Panic
  end.

(** [None]: the call does not return. *)
Definition GetTxMerkleBranch `{!Sha} {H} `{!BlockHeader H} (m : MerkleBlock H) (txId : Uint256) :
    option (outcome MerkleBranch) :=
  r ← getNodes (MerkleRoot (mb_Header m)) (mb_Transactions m) (mb_Hashes m) (SetBits (mb_Flags m));
  match r with
  | Ok allNodes => GetMerkleBranch (mb_Transactions m) txId allNodes
  | Err e => Some (Err e)
  | Panic => Some Panic
  end.
End branch.
