(* ===== verification/MerkleBranchSpec.v ===== *)
(** * What a Merkle branch proves

    The branch cut out of an accepted Merkle block leads from the transaction to
    the root of the header.  [grown] says what [getNodes] has kept of a subtree:
    every node of it but the top is linked to its parent.  The machine is
    followed along the reference parser [parse]. *)
From S2P Require Import Ela Util Merkle MerkleSpec MerkleSound MerkleBuild MerkleBranch Txs.

Section positions.
Context (N : Z) (HN : 1 ≤ N ≤ 2 ^ 31).
Notation D := (depth N).
Notation enc := (enc D).

(** The node [j1] of row [k1] is in the subtree of the node [j] of row [k]. *)
Definition below (k j k1 j1 : Z) : Prop := 0 ≤ k1 ≤ k ∧ 0 ≤ j1 ∧ j1 / 2 ^ (k - k1) = j.

Lemma below_self k j : 0 ≤ k → 0 ≤ j → below k j k j.
Proof. intros. split_and!; [lia..|]. by rewrite Z.sub_diag, Z.div_1_r. Qed.
Lemma below_valid k j k1 j1 : k ≤ D → 0 ≤ j < 2 ^ (D - k) → below k j k1 j1 →
  0 ≤ k1 ≤ D ∧ 0 ≤ j1 < 2 ^ (D - k1).
Proof.
  intros Hk Hj (Hk1 & Hj1 & Hd). split; [lia|]. split; [lia|].
  replace (D - k1) with ((k - k1) + (D - k)) by lia. rewrite Z.pow_add_r by lia.
  assert (0 < 2 ^ (k - k1)) by (apply Z.pow_pos_nonneg; lia).
  pose proof (Z.div_mod j1 (2 ^ (k - k1)) ltac:(lia)).
  pose proof (Z.mod_pos_bound j1 (2 ^ (k - k1)) ltac:(lia)). nia.
Qed.
(** Below one of the children, or the node itself. *)
Lemma below_cases k j k1 j1 : below (k + 1) j k1 j1 →
  (k1 = k + 1 ∧ j1 = j) ∨ below k (2 * j) k1 j1 ∨ below k (2 * j + 1) k1 j1.
Proof.
  intros (Hk1 & Hj1 & Hd). destruct (decide (k1 = k + 1)) as [->|Hne].
  { left. by rewrite Z.sub_diag, Z.div_1_r in Hd. }
  right. replace (k + 1 - k1) with ((k - k1) + 1) in Hd by lia.
  rewrite Z.pow_add_r, <-Z.div_div in Hd by (try apply Z.pow_nonzero; lia). change (2 ^ 1) with 2 in Hd.
  pose proof (Z.div_mod (j1 / 2 ^ (k - k1)) 2 ltac:(lia)).
  pose proof (Z.mod_pos_bound (j1 / 2 ^ (k - k1)) 2 ltac:(lia)).
  destruct (decide ((j1 / 2 ^ (k - k1)) mod 2 = 0)); [left|right]; (split_and!; [lia..|]); lia.
Qed.
Lemma below_child k j j' k1 j1 : j' / 2 = j → below k j' k1 j1 → below (k + 1) j k1 j1.
Proof.
  intros <- (Hk1 & Hj1 & <-). split_and!; [lia..|].
  replace (k + 1 - k1) with ((k - k1) + 1) by lia.
  rewrite Z.pow_add_r, <-Z.div_div by (try apply Z.pow_nonzero; lia). done.
Qed.

(** The rows are consecutive ranges of positions. *)
Lemma enc_row k j : 0 ≤ k ≤ D → 0 ≤ j < 2 ^ (D - k) →
  2 * 2 ^ D - 2 * 2 ^ (D - k) ≤ enc k j < 2 * 2 ^ D - 2 ^ (D - k).
Proof. intros Hk Hj. unfold MerkleSpec.enc, MerkleSpec.half. lia. Qed.
Lemma enc_inj k j k1 j1 : 0 ≤ k ≤ D → 0 ≤ j < 2 ^ (D - k) → 0 ≤ k1 ≤ D → 0 ≤ j1 < 2 ^ (D - k1) →
  enc k j = enc k1 j1 → k = k1 ∧ j = j1.
Proof.
  intros Hk Hj Hk1 Hj1 He. pose proof (enc_row k j Hk Hj). pose proof (enc_row k1 j1 Hk1 Hj1).
  assert (Hlt : ∀ a b, 0 ≤ a → a < b → b ≤ D → 2 * 2 ^ (D - b) ≤ 2 ^ (D - a)).
  { intros a b ???. rewrite <-Z.pow_succ_r by lia. apply Z.pow_le_mono_r; lia. }
  assert (k = k1) as ->.
  { destruct (Z.lt_trichotomy k k1) as [Hl|[?|Hl]]; [|done|].
    - specialize (Hlt k k1 ltac:(lia) Hl ltac:(lia)). lia.
    - specialize (Hlt k1 k ltac:(lia) Hl ltac:(lia)). lia. }
  split; [done|]. unfold MerkleSpec.enc in He. lia.
Qed.
End positions.

Section nodes.
Context `{Sha} (N : Z) (HN : 1 ≤ N ≤ 2 ^ 31).
Notation D := (depth N).
Notation enc := (enc D).
Notation nodes := (gmap Z merkleNode).

Definition node_at (r : nodes) (k j : Z) (h : Uint256) : Prop :=
  r !! enc k j = Some (mkNode (enc k j) (Some h)).
(** The parent's hash [hp] is made of the node's and its neighbour's. *)
Definition linked_at (r : nodes) (k j : Z) (h hp : Uint256) : Prop :=
  if j mod 2 =? 0 then
    if alive N k (j + 1) then ∃ s, node_at r k (j + 1) s ∧ hp = HashMerkleBranches h s
    else hp = HashMerkleBranches h h
  else ∃ s, node_at r k (j - 1) s ∧ hp = HashMerkleBranches s h.

(** [r'] is [r] with nodes of the subtree [j] of row [k], whose hash is [h]. *)
Record grown (k j : Z) (h : Uint256) (r r' : nodes) : Prop := {
  gr_top : node_at r' k j h;
  gr_old : r ⊆ r';
  gr_new : ∀ p n, r' !! p = Some n → r !! p = Some n ∨
    ∃ k1 j1 h1, below k j k1 j1 ∧ alive N k1 j1 = true ∧ p = enc k1 j1 ∧ n = mkNode p (Some h1);
  gr_link : ∀ k1 j1 h1, below k j k1 j1 → k1 < k → node_at r' k1 j1 h1 →
    ∃ hp, node_at r' (k1 + 1) (j1 / 2) hp ∧ linked_at r' k1 j1 h1 hp;
}.
Definition fresh_below (r : nodes) (k j : Z) : Prop := ∀ k1 j1, below k j k1 j1 → r !! enc k1 j1 = None.

Lemma node_at_mono r r' k j h : r ⊆ r' → node_at r k j h → node_at r' k j h.
Proof. intros Hs Hn. by eapply lookup_weaken. Qed.
Lemma linked_at_mono r r' k j h hp : r ⊆ r' → linked_at r k j h hp → linked_at r' k j h hp.
Proof.
  intros Hs. unfold linked_at. destruct (j mod 2 =? 0); [destruct (alive N k (j + 1)); [|done]|].
  all: intros (s & Hn & ->); exists s; split; [by eapply node_at_mono|done].
Qed.

(** A single new node: filled from the message. *)
Lemma grown_fill k j h r : 0 ≤ k ≤ D → 0 ≤ j < 2 ^ (D - k) → alive N k j = true → fresh_below r k j →
  grown k j h r (<[enc k j := mkNode (enc k j) (Some h)]> r).
Proof.
  intros Hk Hj Ha Hf. pose proof (below_self k j ltac:(lia) ltac:(lia)) as Hb. split.
  - apply lookup_insert_eq.
  - apply insert_subseteq. by apply Hf.
  - intros p n [[<- <-]|[_ Hp]]%lookup_insert_Some; [right; by exists k, j, h|by left].
  - intros k1 j1 h1 Hb1 Hlt Hn. exfalso. destruct (below_valid N k j k1 j1 ltac:(lia) Hj Hb1) as [Hk1 Hj1].
    apply lookup_insert_Some in Hn as [[He _]|[_ Hn]]; [|by rewrite Hf in Hn].
    destruct (enc_inj N k j k1 j1 Hk Hj Hk1 Hj1 He). lia.
Qed.

(** The subtrees of two children share no position. *)
Lemma children_disjoint k j k1 j1 k2 j2 : 0 ≤ k → k + 1 ≤ D → 0 ≤ j < 2 ^ (D - (k + 1)) →
  below k (2 * j) k1 j1 → below k (2 * j + 1) k2 j2 → enc k1 j1 ≠ enc k2 j2.
Proof.
  intros Hk HkD Hj Hb1 Hb2 He.
  assert (Hj' : 2 * j + 1 < 2 ^ (D - k)).
  { replace (D - k) with (Z.succ (D - (k + 1))) by lia. rewrite Z.pow_succ_r by lia. lia. }
  destruct (below_valid N k (2 * j) k1 j1 ltac:(lia) ltac:(lia) Hb1).
  destruct (below_valid N k (2 * j + 1) k2 j2 ltac:(lia) ltac:(lia) Hb2).
  edestruct (enc_inj N k1 j1 k2 j2) as [-> ->]; [done..|].
  destruct Hb1 as (_ & _ & ?), Hb2 as (_ & _ & ?). lia.
Qed.
Lemma fresh_left r k j : 0 ≤ j → fresh_below r (k + 1) j → fresh_below r k (2 * j).
Proof. intros Hj Hf k1 j1 Hb. apply Hf, (below_child k j (2 * j)); [apply half_left|done]. Qed.
Lemma fresh_right r r' k j h : 0 ≤ k → k + 1 ≤ D → 0 ≤ j < 2 ^ (D - (k + 1)) →
  fresh_below r (k + 1) j → grown k (2 * j) h r r' → fresh_below r' k (2 * j + 1).
Proof.
  intros Hk HkD Hj Hf Hg k1 j1 Hb. destruct (r' !! enc k1 j1) as [n|] eqn:Hn; [exfalso|done].
  destruct (gr_new _ _ _ _ _ Hg _ _ Hn) as [Ho|(k2 & j2 & h2 & Hb2 & _ & He & _)].
  - rewrite Hf in Ho; [done|]. apply (below_child k j (2 * j + 1)); [apply half_right|done].
  - by eapply (children_disjoint k j k2 j2 k1 j1).
Qed.

(** The parent of one child, or of two, put on top. *)
Section parent.
Context (k j : Z) (l p : Uint256) (r r1 r2 : nodes).
Context (Hk : 0 ≤ k) (HkD : k + 1 ≤ D) (Hj : 0 ≤ j < 2 ^ (D - (k + 1))) (Ha : alive N (k + 1) j = true).
Context (Hf : fresh_below r (k + 1) j) (Hl : grown k (2 * j) l r r1) (Hs : r1 ⊆ r2).
Context (Hnew : ∀ q n, r2 !! q = Some n → r1 !! q = Some n ∨
  ∃ k1 j1 h1, below k (2 * j + 1) k1 j1 ∧ alive N k1 j1 = true ∧ q = enc k1 j1 ∧ n = mkNode q (Some h1)).
Context (Hlink : linked_at r2 k (2 * j) l p).
Context (Hright : ∀ k1 j1 h1, below k (2 * j + 1) k1 j1 → node_at r2 k1 j1 h1 →
  k1 = k ∧ linked_at r2 k (2 * j + 1) h1 p ∨
  k1 < k ∧ ∃ hp, node_at r2 (k1 + 1) (j1 / 2) hp ∧ linked_at r2 k1 j1 h1 hp).
Notation r3 := (<[enc (k + 1) j := mkNode (enc (k + 1) j) (Some p)]> r2).

Lemma parent_new : r2 !! enc (k + 1) j = None.
Proof.
  destruct (r2 !! enc (k + 1) j) as [n|] eqn:Hn; [exfalso|done].
  assert (Hself : ∀ j' k1 j1, j' / 2 = j → 0 ≤ j' < 2 ^ (D - k) → below k j' k1 j1 → enc (k + 1) j ≠ enc k1 j1).
  { intros j' k1 j1 _ Hj' Hb He. destruct (below_valid N k j' k1 j1 ltac:(lia) Hj' Hb).
    destruct (enc_inj N (k + 1) j k1 j1) as [Hke _]; [lia|done|done|done|done|]. destruct Hb. lia. }
  assert (Hj2 : 2 * j + 1 < 2 ^ (D - k)).
  { replace (D - k) with (Z.succ (D - (k + 1))) by lia. rewrite Z.pow_succ_r by lia. lia. }
  destruct (Hnew _ _ Hn) as [H1|(k1 & j1 & h1 & Hb & _ & He & _)].
  - destruct (gr_new _ _ _ _ _ Hl _ _ H1) as [H0|(k1 & j1 & h1 & Hb & _ & He & _)].
    + rewrite Hf in H0; [done|]. by apply below_self; lia.
    + apply (Hself (2 * j) k1 j1); [apply half_left|lia|done|done].
  - apply (Hself (2 * j + 1) k1 j1); [apply half_right|lia|done|done].
Qed.
Lemma grown_parent : grown (k + 1) j p r r3.
Proof.
  assert (Hs3 : r2 ⊆ r3) by apply insert_subseteq, parent_new. split.
  - apply lookup_insert_eq.
  - etrans; [exact (gr_old _ _ _ _ _ Hl)|]. by etrans.
  - intros q n [[<- <-]|[_ Hq]]%lookup_insert_Some.
    { right. exists (k + 1), j, p. split_and!; [apply below_self; lia|done..]. }
    destruct (Hnew _ _ Hq) as [Hq1|(k1 & j1 & h1 & Hb & ? & ? & ?)].
    + destruct (gr_new _ _ _ _ _ Hl _ _ Hq1) as [?|(k1 & j1 & h1 & Hb & ? & ? & ?)]; [by left|right].
      exists k1, j1, h1. split_and!; [|done..]. apply (below_child k j (2 * j)); [apply half_left|done].
    + right. exists k1, j1, h1. split_and!; [|done..]. apply (below_child k j (2 * j + 1)); [apply half_right|done].
  - intros k1 j1 h1 Hb Hlt Hn. assert (Hn2 : node_at r2 k1 j1 h1).
    { apply lookup_insert_Some in Hn as [[He _]|[_ Hn]]; [exfalso|exact Hn].
      destruct (below_valid N (k + 1) j k1 j1 ltac:(lia) Hj Hb).
      destruct (enc_inj N (k + 1) j k1 j1) as [? _]; [lia|done..|lia]. }
    assert (Hup : ∀ hp, node_at r2 (k1 + 1) (j1 / 2) hp ∧ linked_at r2 k1 j1 h1 hp →
      ∃ hp, node_at r3 (k1 + 1) (j1 / 2) hp ∧ linked_at r3 k1 j1 h1 hp).
    { intros hp [? ?]. exists hp. split; [by eapply node_at_mono|by eapply linked_at_mono]. }
    destruct (below_cases k j k1 j1 Hb) as [[? _]|[Hbl|Hbr]]; [lia| |].
    + assert (Hn1 : node_at r1 k1 j1 h1).
      { destruct (Hnew _ _ Hn2) as [?|(k2 & j2 & h2 & Hb2 & _ & He & _)]; [done|exfalso].
        by eapply (children_disjoint k j k1 j1 k2 j2). }
      destruct (decide (k1 = k)) as [->|].
      * destruct Hbl as (_ & _ & Hd). rewrite Z.sub_diag, Z.div_1_r in Hd. subst j1.
        exists p. rewrite half_left. split; [apply lookup_insert_eq|].
        pose proof (gr_top _ _ _ _ _ Hl) as Ht. unfold node_at in Hn1, Ht.
        assert (h1 = l) as -> by congruence. by eapply linked_at_mono.
      * destruct (gr_link _ _ _ _ _ Hl k1 j1 h1 Hbl ltac:(lia) Hn1) as (hp & Hp1 & Hp2). apply (Hup hp).
        split; [by eapply node_at_mono|by eapply linked_at_mono].
    + destruct (Hright k1 j1 h1 Hbr Hn2) as [[-> Hlk]|[_ (hp & Hhp)]]; [|by apply (Hup hp)].
      destruct Hbr as (_ & _ & Hd). rewrite Z.sub_diag, Z.div_1_r in Hd. subst j1.
      exists p. rewrite half_right. split; [apply lookup_insert_eq|by eapply linked_at_mono].
Qed.
End parent.
End nodes.

(** ** The machine follows the parser *)
Section simulation.
Context `{Sha} (root : Uint256) (N : Z) (HN : 1 ≤ N ≤ 2 ^ 31).
Notation D := (depth N).
Notation enc := (enc D).
Notation msb := (2 ^ depth N).
Let HD : 0 ≤ D ≤ 31 := D_range N HN.

Definition turn (a b : gnState) : Prop := gn_step root N msb a = Some (Ok (inl b)).

Lemma gn_run_turns n a b fuel : nsteps turn n a b → gn_run (n + fuel) root N msb a = gn_run fuel root N msb b.
Proof. induction 1 as [|n x y z Hxy _ IH]; [done|]. cbn. unfold turn in Hxy. by rewrite Hxy. Qed.

Lemma turn_push st st' : ready (gn_s st) → inDeadZone (gn_pos st) N = Some false →
  gn_push N msb st = Ok st' → turn st st'.
Proof.
  intros Hs Hd Hp. unfold turn, gn_step. rewrite Hd. cbn [mbind option_bind].
  destruct (gn_s st) as [|[pt [ht|]] [|[pl [hl|]] [|q s]]]; simpl in Hs |- *; rewrite ?Hp; try done.
  all: by destruct Hs.
Qed.
Lemma turn_dead st st' t q s : gn_s st = t :: q :: s → inDeadZone (gn_pos st) N = Some true →
  gn_dead st = Ok st' → turn st st'.
Proof.
  intros Hs Hd Hp. unfold turn, gn_step. rewrite Hs, Hd. cbn [mbind option_bind]. rewrite Hp.
  by destruct t as [? [|]], s.
Qed.
Lemma turn_combine st st' pt ht pl hl q s :
  gn_s st = mkNode pt (Some ht) :: mkNode pl (Some hl) :: q :: s → inDeadZone (gn_pos st) N = Some false →
  gn_combine st (mkNode pt (Some ht)) (mkNode pl (Some hl)) q s = Ok st' → turn st st'.
Proof. intros Hs Hd Hp. unfold turn, gn_step. rewrite Hs, Hd. cbn [mbind option_bind]. by rewrite Hp. Qed.

(** The three ways a node is made. *)
Lemma gn_push_leaf s r j h hs b bits : 0 ≤ j < 2 ^ D → alive N 0 j = true →
  gn_push N msb (mkGN s r (enc 0 j) (h :: hs) (b :: bits)) =
    Ok (mkGN (mkNode (enc 0 j) (Some h) :: s) (<[enc 0 j := mkNode (enc 0 j) (Some h)]> r)
         (if j mod 2 =? 0 then enc 0 (j + 1) else enc 0 j) hs bits).
Proof.
  intros Hj Ha. unfold gn_push. cbn [gn_hashes gn_bits gn_pos gn_s gn_r].
  rewrite (enc_msb_leaf D HD) by done. cbn [Z.eqb negb].
  unfold alive in Ha. apply Z.leb_le in Ha. rewrite Z.pow_0_r, Z.div_1_r in Ha.
  rewrite (proj2 (Z.leb_gt _ _)) by (rewrite (enc_leaf D); lia).
  rewrite even_test. destruct (Z.eqb_spec (j mod 2) 0) as [He|]; [|done]. by rewrite enc_lor_even by done.
Qed.
Lemma gn_push_fill s r k j h hs bits : 0 < k ≤ D → 0 ≤ j < 2 ^ (D - k) →
  gn_push N msb (mkGN s r (enc k j) (h :: hs) (0 :: bits)) =
    Ok (mkGN (mkNode (enc k j) (Some h) :: s) (<[enc k j := mkNode (enc k j) (Some h)]> r)
         (if j mod 2 =? 0 then enc k (j + 1) else Z.lor (Z.shiftr (enc k j) 1) msb) hs bits).
Proof.
  intros Hk Hj. unfold gn_push. cbn [gn_hashes gn_bits gn_pos gn_s gn_r].
  rewrite (enc_msb_upper D HD) by done.
  pose proof (pow_D_bound D HD). rewrite (proj2 (Z.eqb_neq _ 0)) by lia. cbn [negb].
  rewrite even_test. cbn [Z.eqb]. destruct (Z.eqb_spec (j mod 2) 0) as [He|]; [|done]. by rewrite enc_lor_even by done.
Qed.
Lemma gn_push_descend s r k j h hs bits : 0 < k ≤ D → 0 ≤ j < 2 ^ (D - k) →
  gn_push N msb (mkGN s r (enc k j) (h :: hs) (1 :: bits)) =
    Ok (mkGN (mkNode (enc k j) None :: s) r (enc (k - 1) (2 * j)) (h :: hs) bits).
Proof.
  intros Hk Hj. unfold gn_push. cbn [gn_hashes gn_bits gn_pos gn_s gn_r].
  rewrite (enc_msb_upper D HD) by done.
  pose proof (pow_D_bound D HD). rewrite (proj2 (Z.eqb_neq _ 0)) by lia. cbn [negb Z.eqb].
  by rewrite (enc_child D HD) by done.
Qed.

(** What a run over a subtree that [parse] accepts leaves. *)
Definition followed (k j : Z) (h : Uint256) (ms : list Uint256) (s : list merkleNode) (r : gmap Z merkleNode)
    (hs hs' : list Uint256) (bits bits' : list bool) : Prop :=
  ∃ n pos r', (length bits' < length bits)%nat ∧ (n ≤ 2 * (length bits - length bits'))%nat ∧
    after N k j pos ∧
    nsteps turn n (mkGN s r (enc k j) hs (Z.b2z <$> bits))
      (mkGN (mkNode (enc k j) (Some h) :: s) r' pos hs' (Z.b2z <$> bits')) ∧
    grown N k j h r r' ∧ ∀ x, x ∈ ms → ∃ i, below k j 0 i ∧ node_at N r' 0 i x.

Lemma followed_fill k j h ms s r hs bits b pos : 0 ≤ k ≤ D → 0 ≤ j < 2 ^ (D - k) → alive N k j = true →
  ready s → fresh_below N r k j → after N k j pos →
  gn_push N msb (mkGN s r (enc k j) (h :: hs) (Z.b2z b :: (Z.b2z <$> bits))) =
    Ok (mkGN (mkNode (enc k j) (Some h) :: s) (<[enc k j := mkNode (enc k j) (Some h)]> r) pos hs (Z.b2z <$> bits)) →
  (∀ x, x ∈ ms → k = 0 ∧ x = h) → followed k j h ms s r (h :: hs) hs (b :: bits) bits.
Proof.
  intros Hk Hj Ha Hs Hf Hp Hpush Hms. eexists 1%nat, pos, _. split_and!; [cbn; lia|cbn; lia|done| | |].
  - apply nsteps_once, turn_push; [done|by apply live_pos|exact Hpush].
  - by apply grown_fill.
  - intros x [-> ->]%Hms. exists j. split; [by apply below_self; lia|]. apply lookup_insert_eq.
Qed.

Section inner.
Context (k' : nat) (j : Z) (l : Uint256) (ml : list Uint256) (s : list merkleNode) (r : gmap Z merkleNode).
Context (h0 : Uint256) (hs hs1 : list Uint256) (bits bits1 : list bool).
Notation k := (Z.of_nat k').
Notation top := (mkNode (enc (k + 1) j) None).
Context (HkD : k + 1 ≤ D) (Hj : 0 ≤ j < 2 ^ (D - (k + 1))) (Ha : alive N (k + 1) j = true).
Context (Hs : ready s) (Hf : fresh_below N r (k + 1) j).
Context (HL : followed k (2 * j) l ml (top :: s) r (h0 :: hs) hs1 bits bits1).

(** Push the parent without a hash and go down to the left. *)
Lemma turn_descend : turn (mkGN s r (enc (k + 1) j) (h0 :: hs) (1 :: (Z.b2z <$> bits)))
  (mkGN (top :: s) r (enc k (2 * j)) (h0 :: hs) (Z.b2z <$> bits)).
Proof.
  apply turn_push; [done|by apply live_pos; [done|lia|..]|].
  rewrite gn_push_descend by (done || lia). by replace (k + 1 - 1) with k by lia.
Qed.

Lemma followed_single : alive N k (2 * j + 1) = false →
  followed (k + 1) j (HashMerkleBranches l l) ml s r (h0 :: hs) hs1 (true :: bits) bits1.
Proof.
  intros Hal. destruct HL as (n & pos & r1 & Hlt & Hn & Haf & Hst & Hg & Hm).
  destruct (children N k j ltac:(lia) HkD Hj Ha) as (? & ? & Hal0).
  unfold after in Haf. rewrite Z.mul_comm, Z_mod_mult in Haf. cbn in Haf. rewrite (Z.mul_comm j 2) in Haf. subst pos.
  set (n1 := mkNode (enc (k + 1) j) (Some (HashMerkleBranches l l))).
  exists (1 + n + 1)%nat, (Z.lor (enc (k + 1) j) 1), (<[enc (k + 1) j := n1]> r1).
  split_and!; [cbn; lia|cbn; lia|by apply after_parent; [|lia|..]| | |].
  - eapply nsteps_trans; [eapply nsteps_trans; [apply nsteps_once, turn_descend|exact Hst]|].
    apply nsteps_once. eapply turn_dead; [done| |done]. cbn [gn_pos].
    rewrite (inDeadZone_enc N HN) by lia. by rewrite Hal.
  - apply (grown_parent N k j l _ r r1 r1); [lia|done|done|done|done|done|done|by left| |].
    + unfold linked_at. rewrite Z.mul_comm, Z_mod_mult. cbn. by rewrite (Z.mul_comm j 2), Hal.
    + intros k1 j1 h1 Hb Hn1. exfalso. assert (Hfr : fresh_below N r1 k (2 * j + 1)) by (by eapply fresh_right; [lia|..]).
      unfold node_at in Hn1. by rewrite (Hfr k1 j1 Hb) in Hn1.
  - intros x (i & Hb & Hi)%Hm. exists i. split; [apply (below_child k j (2 * j)); [apply half_left|done]|].
    eapply node_at_mono; [|exact Hi]. apply insert_subseteq.
    eapply (parent_new N k j l r r1 r1); try done; [lia|by left].
Qed.

Lemma followed_both rt mr hs2 bits2 p : alive N k (2 * j + 1) = true →
  (∀ r1, grown N k (2 * j) l r r1 →
    followed k (2 * j + 1) rt mr (mkNode (enc k (2 * j)) (Some l) :: top :: s) r1 hs1 hs2 bits1 bits2) →
  MakeMerkleParent (Some l) (Some rt) = Ok p →
  followed (k + 1) j p (ml ++ mr) s r (h0 :: hs) hs2 (true :: bits) bits2.
Proof.
  intros Hal HR Hmk. destruct HL as (n & pos & r1 & Hlt & Hn & Haf & Hst & Hg & Hm).
  destruct (children N k j ltac:(lia) HkD Hj Ha) as (? & ? & Hal0).
  unfold after in Haf. rewrite Z.mul_comm, Z_mod_mult in Haf. cbn in Haf. rewrite (Z.mul_comm j 2) in Haf. subst pos.
  destruct (HR r1 Hg) as (n2 & pos2 & r2 & Hlt2 & Hn2 & Haf2 & Hst2 & Hg2 & Hm2).
  unfold after in Haf2. rewrite <-Zplus_mod_idemp_l, (Z.mul_comm 2 j), Z_mod_mult in Haf2. cbn in Haf2.
  assert (Hp : p = HashMerkleBranches l rt).
  { unfold MakeMerkleParent in Hmk. destruct (decide (l = rt)); [done|]. by injection Hmk as <-. }
  set (n1 := mkNode (enc (k + 1) j) (Some p)).
  assert (Hold : r2 ⊆ <[enc (k + 1) j := n1]> r2).
  { apply insert_subseteq. eapply (parent_new N k j l r r1 r2); try done; [lia|exact (gr_new _ _ _ _ _ _ Hg2)]. }
  exists (1 + n + n2 + 1)%nat, (Z.lor (enc (k + 1) j) 1), (<[enc (k + 1) j := n1]> r2).
  split_and!; [cbn; lia|cbn; lia|by apply after_parent; [|lia|..]| | |].
  - eapply nsteps_trans; [eapply nsteps_trans; [eapply nsteps_trans; [apply nsteps_once, turn_descend|exact Hst]|exact Hst2]|].
    apply nsteps_once. eapply turn_combine; [done|exact Haf2|].
    unfold gn_combine. cbn [node_h node_p]. by rewrite Hmk.
  - apply (grown_parent N k j l p r r1 r2); [lia|done|done|done|done|done|exact (gr_old _ _ _ _ _ _ Hg2)|exact (gr_new _ _ _ _ _ _ Hg2)| |].
    + unfold linked_at. rewrite Z.mul_comm, Z_mod_mult. cbn. rewrite (Z.mul_comm j 2), Hal.
      exists rt. split; [exact (gr_top _ _ _ _ _ _ Hg2)|done].
    + intros k1 j1 h1 Hb Hn1. destruct (decide (k1 = k)) as [->|].
      * left. split; [done|]. destruct Hb as (_ & _ & Hd). rewrite Z.sub_diag, Z.div_1_r in Hd. subst j1.
        pose proof (gr_top _ _ _ _ _ _ Hg2) as Ht. unfold node_at in Hn1, Ht. assert (h1 = rt) as -> by congruence.
        unfold linked_at. rewrite <-Zplus_mod_idemp_l, (Z.mul_comm 2 j), Z_mod_mult. cbn.
        exists l. split; [|done]. replace (j * 2 + 1 - 1) with (2 * j) by lia.
        eapply node_at_mono; [exact (gr_old _ _ _ _ _ _ Hg2)|exact (gr_top _ _ _ _ _ _ Hg)].
      * right. pose proof Hb as (Hb1 & _). split; [lia|].
        apply (gr_link _ _ _ _ _ _ Hg2); [exact Hb|lia|done].
  - intros x [(i & Hb & Hi)%Hm|(i & Hb & Hi)%Hm2]%elem_of_app; exists i.
    + split; [apply (below_child k j (2 * j)); [apply half_left|done]|].
      eapply node_at_mono; [|exact Hi]. etrans; [exact (gr_old _ _ _ _ _ _ Hg2)|exact Hold].
    + split; [apply (below_child k j (2 * j + 1)); [apply half_right|done]|]. by eapply node_at_mono.
Qed.
End inner.

Lemma parse_followed k' j s r hs hs' bits bits' h ms :
  parse N k' j bits hs = Ok (h, ms, bits', hs') →
  Z.of_nat k' ≤ D → 0 ≤ j < 2 ^ (D - Z.of_nat k') → alive N (Z.of_nat k') j = true → ready s →
  fresh_below N r (Z.of_nat k') j → followed (Z.of_nat k') j h ms s r hs hs' bits bits'.
Proof.
  revert j s r hs hs' bits bits' h ms.
  induction k' as [|k' IH]; intros j s r hs hs' bits bits' h ms Hp Hk Hj Ha Hs Hf.
  all: destruct hs as [|h0 hs], bits as [|b bits]; try done; cbn [parse] in Hp.
  - injection Hp as <- <- <- <-. rewrite Z.sub_0_r in Hj.
    eapply followed_fill; try done; [by rewrite Z.sub_0_r| |by apply gn_push_leaf|].
    + unfold after. destruct (j mod 2 =? 0) eqn:He; [done|]. apply live_pos; [done|lia|by rewrite Z.sub_0_r|done].
    + intros x Hx. destruct b; [by apply list_elem_of_singleton in Hx|by apply not_elem_of_nil in Hx].
  - rewrite Nat2Z.inj_succ in *. unfold Z.succ in *. destruct b; cbn [negb] in Hp.
    2: { injection Hp as <- <- <- <-. eapply followed_fill; try done; [lia| |by apply gn_push_fill; [lia|]|by intros x Hx%not_elem_of_nil].
         apply after_fill; [done|lia|done..]. }
    destruct (children N (Z.of_nat k') j ltac:(lia) Hk Hj Ha) as (? & ? & Hal0).
    apply outcome_bind_Ok in Hp as ([[[l ml] bits1] hs1] & HL & Hp).
    assert (HFL : followed (Z.of_nat k') (2 * j) l ml (mkNode (enc (Z.of_nat k' + 1) j) None :: s) r (h0 :: hs) hs1 bits bits1).
    { apply IH; [done|lia|lia|done| |by apply fresh_left; [lia|]]. destruct s as [|? [|]]; simpl; auto. }
    destruct (alive N (Z.of_nat k') (2 * j + 1)) eqn:Hal.
    + apply outcome_bind_Ok in Hp as ([[[rt mr] bits2] hs2] & HR & Hp).
      apply outcome_bind_Ok in Hp as (p & Hm & Hp). injection Hp as <- <- <- <-.
      eapply followed_both; try done. intros r1 Hg. apply IH; [done|lia|lia|done|by right|].
      eapply fresh_right; [lia|done..].
    + cbn [MakeMerkleParent mbind outcome_bind] in Hp. injection Hp as <- <- <- <-. by apply followed_single.
Qed.
End simulation.

(** ** The bits of the flags *)
Lemma byte_SetBits f : (λ i, Z.land (Z.shiftr (Z_of_byte f) (i mod 8)) 1) <$> seqZ 0 8 = Z.b2z <$> byte_bits f.
Proof. destruct f; reflexivity. Qed.
Lemma SetBits_flag_bits flags : Z.of_nat (length flags) < 2 ^ 29 → SetBits flags = Z.b2z <$> flag_bits 0 flags.
Proof.
  intros Hl. unfold SetBits, flag_bits. rewrite (u32_small (Z.of_nat _)) by (unfold fits; lia).
  rewrite u32_small by (unfold fits; lia). rewrite drop_0. clear Hl.
  induction flags as [|f flags IH]; [done|]. cbn [length]. rewrite bind_cons, fmap_app, <-IH, <-byte_SetBits.
  replace (Z.of_nat (S (length flags)) * 8) with (8 + Z.of_nat (length flags) * 8) by lia.
  rewrite seqZ_app, fmap_app by lia. apply (f_equal2 app).
  - apply list_fmap_ext. intros p i Hi. apply lookup_seqZ in Hi as [-> Hi].
    rewrite (Z.div_small (0 + Z.of_nat p)) by lia. done.
  - change (0 + 8) with (8 + 0). rewrite <-fmap_add_seqZ, <-list_fmap_compose.
    apply list_fmap_ext. intros p i Hi. apply lookup_seqZ in Hi as [-> Hi]. cbn [compose].
    replace (8 + (0 + Z.of_nat p)) with (Z.of_nat p + 1 * 8) by lia. rewrite Z.div_add, Z_mod_plus_full by lia.
    rewrite Z.add_0_l. do 3 f_equal. assert (0 ≤ Z.of_nat p / 8) by (apply Z.div_pos; lia).
    replace (Z.to_nat (Z.of_nat p / 8 + 1)) with (S (Z.to_nat (Z.of_nat p / 8))) by lia. done.
Qed.

(** ** From the nodes to the branch *)
Section branch.
Context `{!Sha, !MapOrder} (root : Uint256) (N : Z) (HN : 1 ≤ N ≤ 2 ^ 31).
Notation D := (depth N).
Notation enc := (enc D).
Let HD : 0 ≤ D ≤ 31 := D_range N HN.

Lemma getNodes_run hs hs' bits bits' ms :
  parse N (Z.to_nat D) 0 bits hs = Ok (root, ms, bits', hs') →
  ∃ r, getNodes root N hs (Z.b2z <$> bits) = Some (Ok r) ∧ grown N D 0 root ∅ r ∧
    ∀ x, x ∈ ms → ∃ i, below D 0 0 i ∧ node_at N r 0 i x.
Proof.
  intros Hp. destruct (parse_followed root N HN (Z.to_nat D) 0 [] ∅ hs hs' bits bits' root ms Hp)
    as (n & pos & r & Hlt & Hn & _ & Hst & Hg & Hm).
  - lia.
  - rewrite Z2Nat.id by lia. rewrite Z.sub_diag. lia.
  - unfold alive. apply Z.leb_le, Z.div_pos; lia.
  - done.
  - by intros k1 j1 _.
  - rewrite Z2Nat.id in * by lia. exists r. split_and!; [|done|done].
    unfold getNodes. rewrite (proj2 (Z.eqb_neq _ _)) by lia.
    destruct bits as [|b bits]; [cbn in Hlt; lia|].
    change (Z.b2z <$> b :: bits) with (Z.b2z b :: (Z.b2z <$> bits)) at 1. cbv iota.
    rewrite (nextPowerOfTwo_depth N HN). cbn [mbind option_bind]. rewrite (root_pos D HD).
    rewrite length_fmap.
    replace (2 * length (b :: bits) + 2)%nat with (n + S (2 * length (b :: bits) + 1 - n))%nat by lia.
    rewrite (gn_run_turns root N n _ _ _ Hst). cbn [gn_run]. unfold gn_step. cbn [gn_s].
    by rewrite decide_True.
Qed.

(** *** The index *)
Definition kept_node (p : Z) (n : merkleNode) : Prop := ∃ h, n = mkNode p (Some h).
Lemma calcTxIndex_loop_run width txId l : (∀ p n, (p, n) ∈ l → kept_node p n) →
  ∃ o, calcTxIndex_loop width txId l = Ok o ∧
    match o with
    | Some p => (p, mkNode p (Some txId)) ∈ l ∧ p ≤ width
    | None => ∀ p, p ≤ width → (p, mkNode p (Some txId)) ∉ l
    end.
Proof.
  induction l as [|[p n] l IH]; intros Hl; cbn [calcTxIndex_loop].
  { exists None. split; [done|]. intros p _. apply not_elem_of_nil. }
  destruct IH as (o & Ho & Hspec); [intros; apply Hl; by right|].
  destruct (Hl p n) as [h ->]; [left|]. cbn [node_p node_h or_panic mbind outcome_bind].
  assert (Hskip : (p ≤ width → h ≠ txId) → ∃ o, calcTxIndex_loop width txId l = Ok o ∧
    match o with
    | Some q => (q, mkNode q (Some txId)) ∈ (p, mkNode p (Some h)) :: l ∧ q ≤ width
    | None => ∀ q, q ≤ width → (q, mkNode q (Some txId)) ∉ (p, mkNode p (Some h)) :: l
    end).
  { intros Hne. exists o. split; [done|]. destruct o as [q|]; [split; [right; apply Hspec|apply Hspec]|].
    intros q Hq [Heq|Hin]%elem_of_cons; [|by apply (Hspec q)].
    injection Heq as -> Heq. by apply Hne. }
  destruct (Z.ltb_spec width p); [apply Hskip; lia|]. destruct (decide (h = txId)) as [->|]; [|by apply Hskip].
  exists (Some p). split; [done|]. split; [left|lia].
Qed.
Lemma width_0 : calcTreeWidth N 0 = N.
Proof. rewrite (calcTreeWidth_alive N HN) by lia. rewrite Z.pow_0_r, Z.div_1_r. lia. Qed.

(** *** The route *)
Lemma depth_some : treeDepth N = Some D.
Proof. by apply treeDepth_depth. Qed.
Lemma msb_loop (n : nat) x : Z.of_nat n ≤ 31 → 2 * 2 ^ Z.of_nat n - 2 ≤ x < 2 ^ 32 →
  foldl (λ msb i, u32 (msb - shl32 1 i)) x (seqZ 1 (Z.of_nat n)) = x - (2 * 2 ^ Z.of_nat n - 2).
Proof.
  induction n as [|n IH]; intros Hn Hx; [change (seqZ 1 (Z.of_nat 0)) with (@nil Z); cbn [foldl]; change (2 ^ Z.of_nat 0) with 1; lia|].
  assert (He : 2 ^ Z.of_nat (S n) = 2 * 2 ^ Z.of_nat n) by (rewrite Nat2Z.inj_succ; apply Z.pow_succ_r; lia).
  assert (0 < 2 ^ Z.of_nat n) by (apply Z.pow_pos_nonneg; lia).
  rewrite seqZ_S, foldl_app, IH by lia. cbn [foldl].
  replace (1 + Z.of_nat n) with (Z.of_nat (S n)) by lia. rewrite shl32_1 by lia.
  rewrite u32_small; [lia|unfold fits; lia].
Qed.
Lemma calcNodeIndex_enc t j : 0 ≤ t < D → 0 ≤ j < 2 ^ (D - t) → calcNodeIndex N t j = Some (enc t j).
Proof.
  intros Ht Hj. unfold calcNodeIndex. rewrite (nextPowerOfTwo_depth N HN), depth_some.
  cbn [mbind option_bind]. rewrite (root_pos D HD), (enc_root D).
  pose proof (pow_D_bound D HD). rewrite (u32_small (D - t)) by (unfold fits; lia).
  assert (Hp : 2 ^ (D - t) ≤ 2 ^ D) by (apply Z.pow_le_mono_r; lia).
  assert (0 < 2 ^ (D - t)) by (apply Z.pow_pos_nonneg; lia).
  rewrite <-(Z2Nat.id (D - t)) by lia. rewrite msb_loop; rewrite Z2Nat.id by lia.
  2: lia. 2: { change (2 ^ 32) with (2 * 2 ^ 31). lia. }
  f_equal. rewrite u32_small; [unfold MerkleSpec.enc, MerkleSpec.half; lia|].
  unfold fits. change (2 ^ 32) with (2 * 2 ^ 31). lia.
Qed.

(** The neighbour of the node on the way, or the node itself at the edge. *)
Definition beside (i t : Z) : Z :=
  let j := i / 2 ^ t in
  if j mod 2 =? 0 then (if alive N t (j + 1) then enc t (j + 1) else enc t j) else enc t (j - 1).
Lemma routeAt_beside i t : 0 ≤ i < N → 0 ≤ t < D → routeAt N i t = Some (beside i t).
Proof.
  intros Hi Ht. unfold routeAt, beside, nodes_inDeadZone, isLeftLeaf. rewrite Z.shiftr_div_pow2 by lia.
  set (j := i / 2 ^ t). assert (0 < 2 ^ t) by (apply Z.pow_pos_nonneg; lia).
  assert (Hj : 0 ≤ j ≤ (N - 1) / 2 ^ t) by (split; [apply Z.div_pos; lia|apply Z.div_le_mono; lia]).
  pose proof (last_range N HN t ltac:(lia)). pose proof (Z.mod_pos_bound j 2 ltac:(lia)).
  assert (Hpow : 2 ^ (D - t) ≤ 2 ^ 31) by (apply Z.pow_le_mono_r; lia).
  rewrite (calcTreeWidth_alive N HN) by lia. rewrite Z.add_simpl_r.
  rewrite (u32_small ((N - 1) / 2 ^ t)) by (unfold fits; lia). unfold alive.
  destruct (Z.eqb_spec (j mod 2) 0) as [He|Ho]; [|rewrite andb_false_r].
  - rewrite andb_true_r. destruct (Z.eqb_spec j ((N - 1) / 2 ^ t)) as [Hjl|Hjl].
    + rewrite (proj2 (Z.leb_gt _ _)) by lia. apply calcNodeIndex_enc; lia.
    + rewrite (proj2 (Z.leb_le _ _)) by lia. rewrite u32_small by (unfold fits; lia). apply calcNodeIndex_enc; lia.
  - assert (j ≠ 0) by (intros Hj0; by rewrite Hj0 in Ho).
    rewrite u32_small by (unfold fits; lia). apply calcNodeIndex_enc; lia.
Qed.
Lemma calcBranchRoute_run i : 0 ≤ i < N → calcBranchRoute N i = Some (beside i <$> seqZ 0 D).
Proof.
  intros Hi. unfold calcBranchRoute. rewrite depth_some. cbn [mbind option_bind].
  apply mapM_Some. apply Forall2_fmap_r, Forall_Forall2_diag, Forall_forall.
  intros t Ht%elem_of_seqZ. apply routeAt_beside; lia.
Qed.
End branch.

(** *** The loop over the route *)
Section fold.
Context `{!Sha, !MapOrder} (root : Uint256) (N : Z) (HN : 1 ≤ N ≤ 2 ^ 31) (r : gmap Z merkleNode).
Context (Hg : grown N (depth N) 0 root ∅ r) (i : Z) (x : Uint256) (Hi : 0 ≤ i < N).
Notation D := (depth N).
Let HD : 0 ≤ D ≤ 31 := D_range N HN.

(** The branch so far, whatever the higher bits of the index will be. *)
Definition folds (t : Z) (mb : MerkleBranch) (h : Uint256) : Prop :=
  Z.of_nat (length (Branches mb)) = t ∧ 0 ≤ mbr_Index mb < 2 ^ t ∧
  ∀ c, 0 ≤ c → merkle_fold (mbr_Index mb + 2 ^ t * c) x (Branches mb) = h.
Lemma folds_snoc t mb h s (b : bool) : 0 ≤ t → folds t mb h →
  folds (t + 1) (mkMerkleBranch (Branches mb ++ [s]) (if b then mbr_Index mb + 2 ^ t else mbr_Index mb))
    (if b then HashMerkleBranches s h else HashMerkleBranches h s).
Proof.
  intros Ht (Hl & Hb & Hf). assert (Hp : 2 ^ (t + 1) = 2 * 2 ^ t) by (rewrite Z.pow_add_r by lia; lia).
  split_and!; cbn [Branches mbr_Index]; [rewrite length_app; cbn; lia|destruct b; lia|destruct b; lia|].
  intros c Hc. rewrite merkle_fold_snoc, Hl, Hp.
  set (e := Z.b2z b + 2 * c).
  replace ((if b then mbr_Index mb + 2 ^ t else mbr_Index mb) + 2 * 2 ^ t * c) with (mbr_Index mb + 2 ^ t * e)
    by (subst e; destruct b; cbn [Z.b2z]; lia).
  rewrite Hf by (subst e; destruct b; cbn [Z.b2z]; lia).
  rewrite (Z.mul_comm (2 ^ t) e), Z.div_add, Z.div_small, Z.add_0_l by lia. unfold merkle_step. subst e.
  destruct b; cbn [Z.b2z]; rewrite Z.mul_comm, Z_mod_plus_full; reflexivity.
Qed.

(** One turn: the parent's hash. *)
Lemma beside_step t mb h : 0 ≤ t < D → node_at N r t (i / 2 ^ t) h → folds t mb h →
  ∃ s mb' hp, (n ← r !! beside N i t; node_h n) = Some s ∧
    mb' = mkMerkleBranch (Branches mb ++ [s])
            (if beside N i t mod 2 =? 0 then mbr_Index mb + Z.shiftl 1 t else mbr_Index mb) ∧
    node_at N r (t + 1) (i / 2 ^ (t + 1)) hp ∧ folds (t + 1) mb' hp.
Proof.
  intros Ht Hn Hf. set (j := i / 2 ^ t). assert (Hj2 : i / 2 ^ (t + 1) = j / 2).
  { subst j. rewrite Z.pow_add_r, Z.div_div by (try apply Z.pow_nonzero; lia). done. }
  assert (0 < 2 ^ t) by (apply Z.pow_pos_nonneg; lia).
  assert (Hj : 0 ≤ j) by (apply Z.div_pos; lia).
  assert (Hb : below D 0 t j).
  { split_and!; [lia..|]. subst j. rewrite Z.div_div by (try apply Z.pow_pos_nonneg; lia).
    rewrite <-Z.pow_add_r by lia. replace (t + (D - t)) with D by lia.
    apply Z.div_small. pose proof (depth_le N ltac:(lia)). lia. }
  destruct (gr_link _ _ _ _ _ _ Hg t j h Hb ltac:(lia) Hn) as (hp & Hp & Hlk). rewrite Hj2.
  pose proof (Z.mod_pos_bound j 2 ltac:(lia)).
  assert (Hcase : ∃ s b, (n ← r !! beside N i t; node_h n) = Some s ∧ (beside N i t mod 2 =? 0) = b ∧
    hp = if b then HashMerkleBranches s h else HashMerkleBranches h s).
  { unfold beside. fold j. unfold linked_at in Hlk.
    destruct (Z.eqb_spec (j mod 2) 0) as [He|Ho]; [destruct (alive N t (j + 1))|].
    - destruct Hlk as (s & Hs & ->). exists s, false. unfold node_at in Hs. rewrite Hs, enc_mod.
      split_and!; [done| |done]. rewrite <-Zplus_mod_idemp_l, He. done.
    - subst hp. exists h, true. fold j in Hn. unfold node_at in Hn. rewrite Hn, enc_mod, He. done.
    - destruct Hlk as (s & Hs & ->). exists s, true. unfold node_at in Hs. rewrite Hs, enc_mod.
      split_and!; [done| |done]. assert (Ho1 : j mod 2 = 1) by lia. rewrite Zminus_mod, Ho1. done. }
  destruct Hcase as (s & b & Hs & Hbit & ->). eexists s, _, _. split_and!; [done|reflexivity|exact Hp|].
  rewrite Hbit, Z.shiftl_1_l. apply folds_snoc; [lia|done].
Qed.

Lemma branchLoop_run (n : nat) t mb h : 0 ≤ t → t + Z.of_nat n = D → node_at N r t (i / 2 ^ t) h → folds t mb h →
  ∃ b, branchLoop r t (beside N i <$> seqZ t (Z.of_nat n)) mb = Ok b ∧
    Z.of_nat (length (Branches b)) = D ∧ merkle_fold (mbr_Index b) x (Branches b) = root.
Proof.
  revert t mb h. induction n as [|n IH]; intros t mb h Ht HtD Hn Hf.
  - change (seqZ t (Z.of_nat 0)) with (@nil Z). exists mb. assert (t = D) as -> by lia.
    destruct Hf as (Hl & _ & Hf). split_and!; [done|done|]. specialize (Hf 0 ltac:(lia)).
    rewrite Z.mul_0_r, Z.add_0_r in Hf. rewrite Hf. pose proof (gr_top _ _ _ _ _ _ Hg) as Htop.
    rewrite Z.div_small in Hn; [|pose proof (depth_le N ltac:(lia)); lia].
    unfold node_at in Hn, Htop. congruence.
  - destruct (beside_step t mb h ltac:(lia) Hn Hf) as (s & mb' & hp & Hs & Hmb & Hn' & Hf').
    rewrite seqZ_cons by lia. replace (Z.pred (Z.of_nat (S n))) with (Z.of_nat n) by lia.
    cbn [fmap list_fmap branchLoop]. rewrite Hs. cbn [or_panic mbind outcome_bind]. rewrite <-Hmb.
    destruct (IH (t + 1) mb' hp ltac:(lia) ltac:(lia) Hn' Hf') as (b & Hb & Hrest). exists b.
    split; [|exact Hrest]. rewrite <-Hb. by rewrite Z.add_1_r.
Qed.
Lemma branch_of_leaf : node_at N r 0 i x →
  ∃ b, (route ← calcBranchRoute N i; Some (branchLoop r 0 route (mkMerkleBranch [] 0))) = Some (Ok b) ∧
    Z.of_nat (length (Branches b)) = D ∧ merkle_fold (mbr_Index b) x (Branches b) = root.
Proof.
  intros Hn. rewrite (calcBranchRoute_run N HN i Hi). cbn [mbind option_bind].
  destruct (branchLoop_run (Z.to_nat D) 0 (mkMerkleBranch [] 0) x) as (b & Hb & Hrest).
  - lia.
  - lia.
  - by rewrite Z.pow_0_r, Z.div_1_r.
  - split_and!; [done|cbn; lia|cbn; lia|]. intros c Hc. done.
  - exists b. split; [|exact Hrest]. rewrite Z2Nat.id in Hb by lia. by rewrite Hb.
Qed.
End fold.

(** ** [GetTxMerkleBranch] *)
Section theorems.
Context `{!Sha} {Hd : Type} `{!BlockHeader Hd} `{!MapOrder}.

(** The nodes the message fills. *)
Definition nodes_of (m : MerkleBlock Hd) : option (outcome (gmap Z merkleNode)) :=
  getNodes (MerkleRoot (mb_Header m)) (mb_Transactions m) (mb_Hashes m) (SetBits (mb_Flags m)).
(** The node after the last transaction's position, which [calcTxIndex] looks at
    too, is not taken for the transaction. *)
Definition not_inner (m : MerkleBlock Hd) (txId : Uint256) : Prop :=
  ∀ r n, nodes_of m = Some (Ok r) → r !! mb_Transactions m = Some n → node_h n ≠ Some txId.

Lemma accepted_nodes (m : MerkleBlock Hd) ms : CheckMerkleBlock m = Some (Ok ms) →
  mb_Transactions m ≤ 2 ^ 31 → Z.of_nat (length (mb_Flags m)) < 2 ^ 29 → 0 ≤ mb_Transactions m →
  1 ≤ mb_Transactions m ≤ 2 ^ 31 ∧
  ∃ r, nodes_of m = Some (Ok r) ∧ grown (mb_Transactions m) (depth (mb_Transactions m)) 0 (MerkleRoot (mb_Header m)) ∅ r ∧
    ∀ x, x ∈ ms → ∃ i, 0 ≤ i < mb_Transactions m ∧ node_at (mb_Transactions m) r 0 i x.
Proof.
  intros Hc Hle Hfl Hnn. set (N := mb_Transactions m) in *.
  assert (Hne : N ≠ 0) by (intros Hz; unfold CheckMerkleBlock in Hc; fold N in Hc; by rewrite Hz in Hc).
  assert (HN : 1 ≤ N ≤ 2 ^ 31) by lia. split; [done|].
  assert (Hf : mb_Flags m ≠ []).
  { intros Hf. unfold CheckMerkleBlock in Hc. fold N in Hc. by rewrite Hf, (proj2 (Z.eqb_neq _ 0)) in Hc by lia. }
  destruct (CheckMerkleBlock_spec_helper m HN Hf) as [Hs _]. rewrite Hs in Hc. injection Hc as Hc.
  unfold check_spec in Hc. fold N in Hc. apply outcome_bind_Ok in Hc as ([[[h ms'] b] hs] & Hp & Hc).
  destruct (decide (h = MerkleRoot (mb_Header m))) as [->|]; [|done]. injection Hc as ->.
  destruct (getNodes_run _ N HN _ _ _ _ _ Hp) as (r & Hr & Hg & Hm). exists r.
  unfold nodes_of. rewrite SetBits_flag_bits by done. split_and!; [exact Hr|done|].
  intros x (i & Hb & Hi)%Hm. exists i. split; [|done]. pose proof (D_range N HN) as HD.
  destruct (gr_new _ _ _ _ _ _ Hg _ _ Hi) as [He|(k1 & j1 & h1 & Hb1 & Ha & He & _)]; [by rewrite lookup_empty in He|].
  destruct (below_valid N (depth N) 0 0 i ltac:(lia) ltac:(rewrite Z.sub_diag; lia) Hb).
  destruct (below_valid N (depth N) 0 k1 j1 ltac:(lia) ltac:(rewrite Z.sub_diag; lia) Hb1).
  destruct (enc_inj N 0 i k1 j1) as [<- <-]; [lia|done..|].
  unfold alive in Ha. apply Z.leb_le in Ha. rewrite Z.pow_0_r, Z.div_1_r in Ha. lia.
Qed.

Lemma nodes_kept (m : MerkleBlock Hd) N h r : grown N (depth N) 0 h ∅ r → ∀ p n, r !! p = Some n → kept_node p n.
Proof.
  intros Hg p n Hp. destruct (gr_new _ _ _ _ _ _ Hg _ _ Hp) as [He|(? & ? & h1 & _ & _ & _ & ->)].
  - by rewrite lookup_empty in He.
  - by exists h1.
Qed.

Lemma calcTxIndex_run (m : MerkleBlock Hd) N h r txId : 1 ≤ N ≤ 2 ^ 31 → grown N (depth N) 0 h ∅ r →
  ∃ o, calcTxIndex N txId r = Ok o ∧
    match o with
    | Some p => r !! p = Some (mkNode p (Some txId)) ∧ p ≤ N
    | None => ∀ p, p ≤ N → r !! p ≠ Some (mkNode p (Some txId))
    end.
Proof.
  intros HN Hg. destruct (calcTxIndex_loop_run (calcTreeWidth N 0) txId (range r)) as (o & Ho & Hspec).
  { intros p n Hp%range_elem. by eapply nodes_kept. }
  exists o. split; [exact Ho|]. rewrite (width_0 N HN) in Hspec. destruct o as [p|].
  - destruct Hspec as [Hp%range_elem Hle]. done.
  - intros p Hle Hp. apply (Hspec p Hle). by apply range_elem.
Qed.

(** C20: for every transaction that [CheckMerkleBlock] returns,
    [GetTxMerkleBranch] returns a branch as long as the tree is deep, and hashing
    the transaction's id up along it, on the sides its index says, gives the
    Merkle root of the header. *)
Theorem GetTxMerkleBranch_audits (m : MerkleBlock Hd) ms txId : CheckMerkleBlock m = Some (Ok ms) →
  0 ≤ mb_Transactions m ≤ 2 ^ 31 → Z.of_nat (length (mb_Flags m)) < 2 ^ 29 →
  txId ∈ ms → not_inner m txId →
  ∃ b, GetTxMerkleBranch m txId = Some (Ok b) ∧
    Z.of_nat (length (Branches b)) = depth (mb_Transactions m) ∧
    merkle_fold (mbr_Index b) txId (Branches b) = MerkleRoot (mb_Header m).
Proof.
  intros Hc [Hnn Hle] Hfl Hin Hni. destruct (accepted_nodes m ms Hc Hle Hfl Hnn) as (HN & r & Hr & Hg & Hm).
  set (N := mb_Transactions m) in *. pose proof (D_range N HN) as HD. destruct (Hm txId Hin) as (i & Hi & Hleaf).
  destruct (calcTxIndex_run m N _ r txId HN Hg) as (o & Ho & Hspec).
  destruct o as [p|]; [|exfalso; unfold node_at in Hleaf; rewrite enc_leaf in Hleaf; apply (Hspec i); [lia|done]].
  destruct Hspec as [Hp Hple]. assert (HpN : p ≠ N). { intros ->. exact (Hni r _ Hr Hp eq_refl). }
  assert (Hpos : 0 ≤ p ∧ node_at N r 0 p txId).
  { destruct (gr_new _ _ _ _ _ _ Hg _ _ Hp) as [He|(k1 & j1 & h1 & Hb1 & _ & He & _)]; [by rewrite lookup_empty in He|].
    destruct (below_valid N (depth N) 0 k1 j1 ltac:(lia) ltac:(rewrite Z.sub_diag; lia) Hb1) as [Hk1 Hj1].
    destruct (decide (k1 = 0)) as [->|Hk].
    - rewrite enc_leaf in He. subst p. split; [lia|]. unfold node_at. by rewrite enc_leaf.
    - exfalso. pose proof (enc_row N k1 j1 Hk1 Hj1) as Hrow. pose proof (depth_le N ltac:(lia)).
      assert (2 * 2 ^ (depth N - k1) ≤ 2 ^ depth N).
      { rewrite <-Z.pow_succ_r by lia. apply Z.pow_le_mono_r; lia. } lia. }
  destruct (branch_of_leaf _ N HN r Hg p txId ltac:(lia) (proj2 Hpos)) as (b & Hb & Hrest).
  exists b. split; [|exact Hrest]. unfold GetTxMerkleBranch. fold (nodes_of m). rewrite Hr. cbn [mbind option_bind].
  unfold GetMerkleBranch. fold N. rewrite Ho. exact Hb.
Qed.

(** asked for a transaction that is not in the block, [GetTxMerkleBranch]
    does not report that it was not found: it returns the branch of the first
    transaction, when the message holds it. *)
Theorem GetTxMerkleBranch_absent (m : MerkleBlock Hd) ms r x0 txId : CheckMerkleBlock m = Some (Ok ms) →
  0 ≤ mb_Transactions m ≤ 2 ^ 31 → Z.of_nat (length (mb_Flags m)) < 2 ^ 29 →
  nodes_of m = Some (Ok r) → r !! 0 = Some (mkNode 0 (Some x0)) →
  (∀ p n, r !! p = Some n → node_h n ≠ Some txId) →
  ∃ b, GetTxMerkleBranch m txId = Some (Ok b) ∧
    merkle_fold (mbr_Index b) x0 (Branches b) = MerkleRoot (mb_Header m).
Proof.
  intros Hc [Hnn Hle] Hfl Hr Hx0 Habs. destruct (accepted_nodes m ms Hc Hle Hfl Hnn) as (HN & r' & Hr' & Hg & _).
  assert (r' = r) as -> by congruence. set (N := mb_Transactions m) in *.
  destruct (calcTxIndex_run m N _ r txId HN Hg) as (o & Ho & Hspec).
  destruct o as [p|]; [by destruct (Habs p _ (proj1 Hspec))|].
  assert (Hleaf : node_at N r 0 0 x0) by (unfold node_at; by rewrite enc_leaf).
  destruct (branch_of_leaf _ N HN r Hg 0 x0 ltac:(lia) Hleaf) as (b & Hb & _ & Hf).
  exists b. split; [|exact Hf]. unfold GetTxMerkleBranch. fold (nodes_of m). rewrite Hr. cbn [mbind option_bind].
  unfold GetMerkleBranch. fold N. rewrite Ho. exact Hb.
Qed.
End theorems.
