(* ===== verification/MerkleBranchDemo.v ===== *)
(** * Witnesses of the Merkle branches, on the sample message of three transactions *)
From S2P Require Import Ela Util Samples Merkle MerkleSpec MerkleSound MerkleBuild MerkleBranchSpec MerkleBranch Txs TxsDemo.

Definition sample_nodes : gmap Z merkleNode :=
  match nodes_of sample_message with Some (Ok r) => r | _ => ∅ end.
Lemma sample_accepted : CheckMerkleBlock sample_message = Some (Ok [h256 2]).
Proof. vm_compute. reflexivity. Qed.

Lemma GetTxMerkleBranch_audits_witness :
  ∃ b, GetTxMerkleBranch sample_message (h256 2) = Some (Ok b) ∧ Z.of_nat (length (Branches b)) = 2 ∧
    merkle_fold (mbr_Index b) (h256 2) (Branches b) = MerkleRoot (mb_Header sample_message).
Proof.
  apply (GetTxMerkleBranch_audits sample_message [h256 2] (h256 2) sample_accepted).
  - vm_compute. split; congruence.
  - vm_compute. reflexivity.
  - left.
  - intros r n Hr Hn. exfalso.
    assert (Hno : match nodes_of sample_message with Some (Ok r) => r !! 3 | _ => None end = None) by (vm_compute; reflexivity).
    rewrite Hr in Hno. change (mb_Transactions sample_message) with 3 in Hn. congruence.
Defined.

Lemma GetTxMerkleBranch_absent_witness :
  ∃ b, GetTxMerkleBranch sample_message (h256 9) = Some (Ok b) ∧
    merkle_fold (mbr_Index b) (h256 1) (Branches b) = MerkleRoot (mb_Header sample_message).
Proof.
  apply (GetTxMerkleBranch_absent sample_message [h256 2] sample_nodes (h256 1) (h256 9) sample_accepted).
  - vm_compute. split; congruence.
  - vm_compute. reflexivity.
  - vm_compute. reflexivity.
  - vm_compute. reflexivity.
  - intros p n Hp. apply elem_of_map_to_list in Hp.
    assert (Hall : Forall (λ pn : Z * merkleNode, node_h pn.2 ≠ Some (h256 9)) (map_to_list sample_nodes)).
    { apply (bool_decide_unpack _). vm_compute. exact I. }
    exact (proj1 (Forall_forall _ _) Hall _ Hp).
Defined.
