(* ===== verification/Keeps.v ===== *)
(** * Invariants of stateful calls

    [inv I m Q]: started in a state with [I], the call [m] ends in a state with
    [I], whether it returns, fails or panics, and a value it returns satisfies
    [Q].  The rules follow the calls, and the hints [keeps] apply them. *)
From S2P Require Export Ela.

Definition inv {S A} (I : S → Prop) (m : GoM S A) (Q : A → Prop) : Prop :=
  ∀ s, I s → I (m s).2 ∧ ∀ a, (m s).1 = Ok a → Q a.
Notation keeps I m := (inv I m (λ _, True)).

Section rules.
Context {S : Type} (I : S → Prop).

Lemma inv_ret {A} (a : A) (Q : A → Prop) : Q a → inv I (mret a) Q.
Proof. intros Ha s Hs. split; [done|]. by intros b [= <-]. Qed.
Lemma inv_weaken {A} (m : GoM S A) (Q R : A → Prop) : inv I m Q → (∀ a, Q a → R a) → inv I m R.
Proof. intros Hm HQ s Hs. destruct (Hm s Hs). eauto. Qed.
Lemma inv_bind {A B} (m : GoM S A) (f : A → GoM S B) Q R :
  inv I m Q → (∀ a, Q a → inv I (f a) R) → inv I (m ≫= f) R.
Proof.
  intros Hm Hf s Hs. destruct (Hm s Hs) as [H1 H2]. unfold mbind, GoM_bind.
  destruct (m s) as [[a|e|] s']; [|done..]. apply Hf; [by apply H2|done].
Qed.
Lemma keeps_ret {A} (a : A) : keeps I (mret a).
Proof. by apply inv_ret. Qed.
Lemma keeps_bind {A B} (m : GoM S A) (f : A → GoM S B) :
  keeps I m → (∀ a, keeps I (f a)) → keeps I (m ≫= f).
Proof. intros Hm Hf. eapply inv_bind; [exact Hm|auto]. Qed.
Lemma keeps_of {A} (m : GoM S A) Q : inv I m Q → keeps I m.
Proof. intros Hm. by eapply inv_weaken. Qed.
(** The state read satisfies the invariant. *)
Lemma inv_getS : inv I getS I.
Proof. intros s Hs. split; [done|]. by intros a [= <-]. Qed.
Lemma keeps_getS : keeps I getS.
Proof. by intros s Hs. Qed.
Lemma keeps_modify (f : S → S) : (∀ s, I s → I (f s)) → keeps I (modify f).
Proof. intros Hf s Hs. split; [by apply Hf|done]. Qed.
Lemma keeps_throw {A} e : keeps I (throw e : GoM S A).
Proof. by intros s Hs. Qed.
Lemma keeps_lift {A} (o : outcome A) : keeps I (lift o).
Proof. by intros s Hs. Qed.
Lemma keeps_try {A} (m : GoM S A) : keeps I m → keeps I (try m).
Proof.
  intros Hm s Hs. destruct (Hm s Hs) as [H1 _]. unfold try.
  destruct (m s) as [[a|e|] s']; done.
Qed.
Lemma keeps_forM {A} (l : list A) (f : A → GoM S unit) :
  (∀ x, x ∈ l → keeps I (f x)) → keeps I (forM l f).
Proof.
  intros Hf s Hs. split; [|done]. apply forM_invariant; [|done]. intros x t Hx Ht. by apply Hf.
Qed.
Lemma inv_zoom {T A} (J : T → Prop) (get : S → T) (set : T → S → S) (m : GoM T A) Q :
  (∀ s, I s → J (get s)) → (∀ s t, I s → J t → I (set t s)) → inv J m Q → inv I (zoom get set m) Q.
Proof.
  intros Hg Hs Hm s HI. unfold zoom. destruct (Hm (get s) (Hg s HI)) as [H1 H2].
  destruct (m (get s)) as [o t]. cbn in *. eauto.
Qed.
End rules.

Create HintDb keeps.
#[export] Hint Resolve keeps_ret keeps_getS keeps_throw keeps_lift : keeps.

(** One step of following a call. *)
Ltac keep1 :=
  match goal with
  | |- ∀ _, _ => intros
  | |- inv _ (let '(_, _) := ?x in _) _ => destruct x
  | |- inv _ (match ?x with _ => _ end) _ => destruct x
  | |- inv _ (try _) _ => apply keeps_try
  | |- inv _ (forM _ _) _ => apply keeps_forM
  | |- inv _ (_ ≫= _) _ => apply keeps_bind
  | |- inv _ _ _ => solve [eauto with keeps]
  end.
Ltac keep := repeat keep1.

(** ** Calls that return

    [total I m Q]: started in a state with [I], the call returns a value with
    [Q] in a state with [I]: it neither fails nor panics. *)
Definition total {S A} (I : S → Prop) (m : GoM S A) (Q : A → Prop) : Prop :=
  ∀ s, I s → ∃ a s', m s = (Ok a, s') ∧ I s' ∧ Q a.
Notation returns_in I m := (total I m (λ _, True)).

Section total_rules.
Context {S : Type} (I : S → Prop).
Lemma total_ret {A} (a : A) (Q : A → Prop) : Q a → total I (mret a) Q.
Proof. intros Ha s Hs. by exists a, s. Qed.
Lemma total_bind {A B} (m : GoM S A) (f : A → GoM S B) Q R :
  total I m Q → (∀ a, Q a → total I (f a) R) → total I (m ≫= f) R.
Proof.
  intros Hm Hf s Hs. destruct (Hm s Hs) as (a & s1 & Hr & H1 & Ha).
  destruct (Hf a Ha s1 H1) as (b & s2 & Hr2 & H2 & Hb). exists b, s2. by rewrite (bind_run _ _ _ _ _ Hr).
Qed.
Lemma total_weaken {A} (m : GoM S A) (Q R : A → Prop) : total I m Q → (∀ a, Q a → R a) → total I m R.
Proof. intros Hm HQ s Hs. destruct (Hm s Hs) as (a & s' & ? & ? & ?). exists a, s'. auto. Qed.
Lemma total_getS : total I getS I.
Proof. intros s Hs. by exists s, s. Qed.
Lemma total_modify (f : S → S) (Q : unit → Prop) : (∀ s, I s → I (f s)) → Q () → total I (modify f) Q.
Proof. intros Hf HQ s Hs. exists (), (f s). auto. Qed.
Lemma total_forM {A} (l : list A) (f : A → GoM S unit) :
  (∀ x, x ∈ l → returns_in I (f x)) → returns_in I (forM l f).
Proof.
  induction l as [|x l IH]; intros Hf; [by apply total_ret|]. cbn.
  eapply total_bind; [apply Hf; left|]. intros _ _. apply IH. intros y Hy. apply Hf. by right.
Qed.
Lemma total_zoom {T A} (J : T → Prop) (get : S → T) (set : T → S → S) (m : GoM T A) Q :
  (∀ s, I s → J (get s)) → (∀ s t, I s → J t → I (set t s)) → total J m Q → total I (zoom get set m) Q.
Proof.
  intros Hg Hs Hm s HI. destruct (Hm (get s) (Hg s HI)) as (a & t & Hr & Ht & Ha).
  exists a, (set t s). split_and!; [by apply zoom_run|by apply Hs|done].
Qed.
(** Calls with a loop: the loop ends. *)
Lemma total_bindL {A B} (m : GoL S A) (f : A → GoL S B) (Q : A → Prop) R :
  total I m (λ o, ∃ a, o = Some a ∧ Q a) → (∀ a, Q a → total I (f a) R) → total I (bindL m f) R.
Proof. intros Hm Hf. eapply total_bind; [exact Hm|]. intros o (a & -> & Ha). by apply Hf. Qed.
Lemma total_done {A} (m : GoM S A) (Q : A → Prop) : total I m Q → total I (done_ m) (λ o, ∃ a, o = Some a ∧ Q a).
Proof. intros Hm. eapply total_bind; [exact Hm|]. intros a Ha. apply total_ret. by exists a. Qed.
End total_rules.
Notation ends := (λ o, ∃ a, o = Some a ∧ True).
Notation endsL I m := (total I m (λ o, is_Some o)).
