(* ===== verification/DataStore.v ===== *)
(** * The data store and its batch

    [interface/store/datastore.go] and [interface/store/databatch.go]: the
    tables of the service over one LevelDB handle, and the batch that collects
    the changes of a block.  The tables keep their caches in memory; the handle
    they share is the field [ds_db], put into the component for the duration of
    a call. *)
From S2P Require Export CustomId.

(** The readers of [core/transaction] ([GetTransactionByBytes] picks the
    version and the type, [Deserialize] reads the rest), the copy of the first
    one in [core/types/functions], and [NewOutPoint(..).Bytes()] of
    [core/types/common]. *)
Class TxReader (T : Type) := {
  GetTransactionByBytes : Reader T;
  functions_GetTransactionByBytes : Reader T;
  tx_Deserialize : T → Reader T;
  elacommon_OutPoint_Bytes : Uint256 → Z → bytes;
}.

(** [err.Error()]: the texts of the two sentinels, and of a fresh error. *)
Definition goerr_Error (e : goerr) : string :=
  match e with
  | ErrVar name =>
      if decide (e = EOF) then "EOF" else if decide (e = ErrNotFound) then "leveldb: not found" else name
  | ErrStr text => text
  end.
(** [fmt.Errorf(format + "%s", err.Error())] *)
Definition Errorf (format : string) (e : goerr) : goerr := ErrStr (format +:+ goerr_Error e).

(** [if err != nil { return f(err) }] *)
Definition mapErr {S A} (f : goerr → goerr) (m : GoM S A) : GoM S A :=
  r ← try m;
  match r with inl e => throw (f e) | inr a => mret a end.

Lemma mapErr_run {S A} f (m : GoM S A) s :
  mapErr f m s = match m s with (Err e, s') => (Err (f e), s') | r => r end.
Proof. unfold mapErr, try, mbind, GoM_bind. by destruct (m s) as [[a|e|] s']. Qed.

(** ** [dataStore] *)
Record dataStore (DB : Type) := mkDataStore {
  ds_db : DB;
  ds_addrs : AddrFilter;
  ds_tps : TxTypesFilter;
  ds_ars : arbiters DB;
  ds_cid : customID DB;
}.
Arguments mkDataStore {DB}.
Arguments ds_db {DB}.
Arguments ds_addrs {DB}.
Arguments ds_tps {DB}.
Arguments ds_ars {DB}.
Arguments ds_cid {DB}.

Section datastore.
Context {DB} `{!LevelDB DB} `{E : ElaCommon} `{!Uint168Bytes} `{!MapOrder}.
Notation Ds := (dataStore DB).

Definition NewDataStore (db : DB) (originArbiters : list bytes) (arbitersCount : Z)
    (GenesisBlockAddress : bytes) : outcome Ds :=
  addrs ← NewAddrs db;
  tps ← NewTxTypes db;
  Ok (mkDataStore db (a_filter addrs) (tt_filter tps) (NewArbiters db originArbiters arbitersCount)
    (NewCustomID db GenesisBlockAddress)).

Definition ds_set_db (db : DB) (d : Ds) : Ds :=
  mkDataStore db (ds_addrs d) (ds_tps d) (ds_ars d) (ds_cid d).

(** The components, each with the shared handle in it. *)
Definition comp_addrs (d : Ds) : addrs DB := mkAddrs (ds_db d) (ds_addrs d).
Definition comp_txTypes (d : Ds) : txTypes DB := mkTxTypes (ds_db d) (ds_tps d).
Definition comp_arbiters (d : Ds) : arbiters DB := ar_set_db (ds_db d) (ds_ars d).
Definition comp_customID (d : Ds) : customID DB := cid_set_db (ds_db d) (ds_cid d).
Definition set_arbiters (a : arbiters DB) (d : Ds) : Ds :=
  mkDataStore (ar_db a) (ds_addrs d) (ds_tps d) a (ds_cid d).
Definition set_customID (c : customID DB) (d : Ds) : Ds :=
  mkDataStore (cid_db c) (ds_addrs d) (ds_tps d) (ds_ars d) c.

(** [d.txs], [d.ops] and [d.que] have no state but the handle. *)
Definition onDS {A} (m : GoM DB A) : GoM Ds A := zoom ds_db ds_set_db m.
Definition dataStore_Addrs {A} (m : GoM (addrs DB) A) : GoM Ds A :=
  zoom comp_addrs (λ a d, mkDataStore (a_db a) (a_filter a) (ds_tps d) (ds_ars d) (ds_cid d)) m.
Definition dataStore_TxTypes {A} (m : GoM (txTypes DB) A) : GoM Ds A :=
  zoom comp_txTypes (λ t d, mkDataStore (tt_db t) (ds_addrs d) (tt_filter t) (ds_ars d) (ds_cid d)) m.
Definition dataStore_Arbiters {A} (m : GoM (arbiters DB) A) : GoM Ds A := zoom comp_arbiters set_arbiters m.
Definition dataStore_CID {A} (m : GoM (customID DB) A) : GoM Ds A := zoom comp_customID set_customID m.

(** Every key of the database; the caches of the components stay. *)
Definition dataStore_Clear : GoM Ds unit :=
  _ ← try (onDS que_Clear);
  entries ← onDS (dbIterate []);
  onDS (dbWrite (deleteKeys entries)).
End datastore.

(** ** [dataBatch] *)
Section databatch.
Context {DB} `{!LevelDB DB} `{E : ElaCommon} `{!Uint168Bytes} `{!MapOrder} `{!DposState}.
Context {T} `{!ElaTransaction T} `{!TxReader T}.
Notation Ds := (dataStore DB).
Notation Bs := (dataStore DB * batch)%type.

Definition onBDS {A} (m : GoM Ds A) : GoM Bs A := zoom fst (λ d s, (d, s.2)) m.
Definition bs_record (ops : batch) : GoM Bs unit := modify (λ s, (s.1, s.2 ++ ops)).
(** The naked batch handed to a table with the handle alone, and to the two
    tables that keep caches. *)
Definition dataBatch_tables {A} (m : GoM (DB * batch) A) : GoM Bs A :=
  zoom (λ s, (ds_db s.1, s.2)) (λ t s, (ds_set_db t.1 s.1, t.2)) m.
Definition dataBatch_arbiters {A} (m : GoM (arbiters DB * batch) A) : GoM Bs A :=
  zoom (λ s, (comp_arbiters s.1, s.2)) (λ t s, (set_arbiters t.1 s.1, t.2)) m.
Definition dataBatch_customID {A} (m : GoM (customID DB * batch) A) : GoM Bs A :=
  zoom (λ s, (comp_customID s.1, s.2)) (λ t s, (set_customID t.1 s.1, t.2)) m.

(** [b.Txs()] is a new [txsBatch] at every call: it shares the LevelDB batch,
    and its list of added transactions is lost with it. *)
Definition dataBatch_Txs {A} (m : GoM (DB * txsBatch) A) : GoM Bs A :=
  zoom (λ s, (ds_db s.1, mkTxsBatch s.2 [] [])) (λ t s, (ds_set_db t.1 s.1, tb_Batch t.2)) m.
Definition dataBatch_Ops {A} := @dataBatch_tables A.
Definition dataBatch_Que {A} := @dataBatch_tables A.

(** [b.customID.reservedCustomIDs = existed], when the cache is empty, and the
    same for the received ones. *)
Definition delResult (r : ProposalResultItem) : GoM (customID DB * batch) unit :=
  match pr_ProposalType r with
  | ReserveCustomID =>
      onCid loadReserved ≫= λ _,
      if pr_Result r then
        ids ← onCid (getControversialReservedCustomIDsFromDB (pr_ProposalHash r));
        onCid (modify (λ c, set_reserved
          (foldl (λ m (kv : bytes * unit), delete kv.1 m) (reservedCustomIDs c) (range ids)) c)) ≫= λ _,
        batchPutReservedCustomIDs
      else mret ()
  | ReceiveCustomID =>
      onCid loadReceived ≫= λ _,
      if pr_Result r then
        ids ← onCid (getControversialReceivedCustomIDsFromDB (pr_ProposalHash r));
        onCid (modify (λ c, set_received
          (foldl (λ m (kv : bytes * Uint168), delete kv.1 m) (receivedCustomIDs c) (range ids)) c)) ≫= λ _,
        batchPutReceivedCustomIDs
      else mret ()
  | ChangeCustomIDFee | ProposalOther => mret ()
  end.

Definition DeleteCustomID (tx : T) : GoM (customID DB * batch) unit :=
  match etx_TxType tx with
  | ReturnSideChainDepositCoin =>
      match etx_Payload tx with
      | PReturnSideChainDepositCoin =>
          _ ← try (BatchDeleteRetSideChainDepositCoinTx (etx_Outputs tx)); mret ()
      | _ => throw (ErrStr "invalid ReturnSideChainDepositCoin tx")
      end
  | CRCProposal =>
      match etx_Payload tx with
      | PCRCProposal p =>
          let hash := cp_Hash p (etx_PayloadVersion tx) in
          match cp_ProposalType p with
          | ReserveCustomID => BatchDeleteControversialReservedCustomIDs hash
          | ReceiveCustomID => BatchDeleteControversialReceivedCustomIDs hash
          | ChangeCustomIDFee => BatchDeleteControversialChangeCustomIDFee hash
          | ProposalOther => mret ()
          end
      | _ => throw (ErrStr "invalid crc proposal tx")
      end
  | ProposalResult =>
      match etx_Payload tx with
      | PRecordProposalResult results => forM results delResult
      | _ => throw (ErrStr "invalid custom ID result tx")
      end
  | _ => mret ()
  end.

(** [GetTransactionByBytes] and [Deserialize] on the raw data of a stored
    transaction. *)
Definition readRaw (raw : bytes) : outcome T :=
  ((tx ← mapErr (Errorf "deseralize transaction file failed, error ") GetTransactionByBytes;
   tx_Deserialize tx) raw).1.

Definition outputKey (hash : Uint256) (index : nat) : bytes :=
  toKey BKTOps (elacommon_OutPoint_Bytes hash (u16 (Z.of_nat index))).

(** The body of the loop of [DelAll]. *)
Definition delOne (txId : Uint256) : GoM Bs unit :=
  data ← onBDS (onDS (dbGet (txKey txId)));
  utx ← lift (Tx_Deserialize data).1;
  tx ← lift (readRaw (RawData utx));
  dataBatch_customID (DeleteCustomID tx) ≫= λ _,
  bs_record ((λ index, BDelete (outputKey (Tx_Hash utx) index)) <$> seq 0 (length (etx_Outputs tx))) ≫= λ _,
  bs_record [BDelete (txKey txId)].

Definition dataBatch_DelAll (height : Z) : GoM Bs unit :=
  data ← onBDS (onDS (getOrNil (heightKey height)));
  ids ← lift (getTxIds data);
  forM ids delOne ≫= λ _,
  bs_record [BDelete (heightKey height)] ≫= λ _,
  dataBatch_Que (queBatch_DelAll height).

Definition dataBatch_Commit : GoM Bs unit := s ← getS; onBDS (onDS (dbWrite s.2)).
Definition dataBatch_Rollback : GoM Bs unit := modify (λ s, (s.1, [])).

(** [batch := d.Batch()] for the length of a call. *)
Definition dataStore_Batch {A} (m : GoM Bs A) : GoM Ds A := zoom (λ d, (d, [])) (λ s _, s.1) m.
End databatch.
