(* ===== verification/SpvService.v ===== *)
(** * The SPV service

    [interface/spvservice.go]: what the service does with the transactions of a
    block, how it gives them back, rolls a height back, verifies a proof and
    notifies the listeners.  The service is the [database.TxsDB] of the chain
    ([chainDB]) and the [StateNotifier] of the SDK; a callback of the
    application is an event of the state. *)
From Stdlib Require Import Floats.SpecFloat.
From S2P Require Export DataStore Headers Merkle MerkleProof Bloom.

(** Callbacks of the application. *)
Inductive event (H T : Type) : Type :=
  | EvNotify (notifyId : Uint256) (proof : MerkleProof) (tx : T)
  | EvRevertToPow (tx : T)
  | EvRevertToDPOS (tx : T)
  | EvBlock (block : Block H T)
  | EvRollback (height : Z).
Arguments EvNotify {H T}.
Arguments EvRevertToPow {H T}.
Arguments EvRevertToDPOS {H T}.
Arguments EvBlock {H T}.
Arguments EvRollback {H T}.

(** [TransactionListener]: the data its methods return. *)
Record TransactionListener := mkListener { l_Address : bytes; l_Type : TxType; l_Flags : Z }.

(** [common.Uint168FromAddress], [None] for an error and a nil pointer, and
    [common.WriteElements] on the elements [getListenerKey] gives it. *)
Class ListenerLib := {
  Uint168FromAddress : bytes → option Uint168;
  ElemBytes : bytes → Writer;
  ElemTxType : TxType → Writer;
  ElemUint64 : Z → Writer;
}.

(** [msg.TxFilterLoad], and [Serialize] of the bloom filter's message. *)
Record TxFilterLoad := mkTxFilterLoad { tf_Type : byte; tf_Data : bytes }.
Class FilterSerialize := { FilterLoad_Serialize : FilterLoad → Writer }.

Definition FlagNotifyConfirmed : Z := 1.
Definition FlagNotifyInSyncing : Z := 2.
Definition SPV_DPOS : byte := x00.
Definition SPV_POW : byte := x01.
(** [notifyTimeout], in nanoseconds. *)
Definition notifyTimeout : Z := 10 * 10 ^ 9.

Record spvservice (DB OM H T : Type) := mkSpv {
  sv_headers : headerStore DB OM H;
  sv_db : dataStore DB;
  sv_rollback : bool;                       (* rollback != nil *)
  sv_listeners : gmap Uint256 TransactionListener;
  sv_revertListener : bool;                 (* revertListener != nil *)
  sv_blockListener : bool;                  (* blockListener != nil *)
  sv_filterType : byte;
  sv_IsCurrent : bool;                      (* what IService.IsCurrent() answers *)
  sv_now : Z;                               (* the clock, in nanoseconds *)
  sv_events : list (event H T);             (* callbacks made, oldest first *)
}.
Arguments mkSpv {DB OM H T}.
Arguments sv_headers {DB OM H T}.
Arguments sv_db {DB OM H T}.
Arguments sv_rollback {DB OM H T}.
Arguments sv_listeners {DB OM H T}.
Arguments sv_revertListener {DB OM H T}.
Arguments sv_blockListener {DB OM H T}.
Arguments sv_filterType {DB OM H T}.
Arguments sv_IsCurrent {DB OM H T}.
Arguments sv_now {DB OM H T}.
Arguments sv_events {DB OM H T}.

Section service.
Context {DB OM H T : Type} `{!LevelDB DB} `{!BlockHeader H} `{!OrderedMap OM Uint256 (Header H)} `{E : ElaCommon}.
Context `{!Uint168Bytes} `{!Uint256Bytes} `{!MapOrder} `{!DposState} `{!Sha}.
Context `{!ElaTransaction T} `{!TxReader T} `{!ListenerLib}.
Notation Sv := (spvservice DB OM H T).
Notation Bs := (dataStore DB * batch)%type.

Definition set_headers (h : headerStore DB OM H) (s : Sv) : Sv :=
  mkSpv h (sv_db s) (sv_rollback s) (sv_listeners s) (sv_revertListener s) (sv_blockListener s)
    (sv_filterType s) (sv_IsCurrent s) (sv_now s) (sv_events s).
Definition set_store (d : dataStore DB) (s : Sv) : Sv :=
  mkSpv (sv_headers s) d (sv_rollback s) (sv_listeners s) (sv_revertListener s) (sv_blockListener s)
    (sv_filterType s) (sv_IsCurrent s) (sv_now s) (sv_events s).
Definition set_listeners (l : gmap Uint256 TransactionListener) (s : Sv) : Sv :=
  mkSpv (sv_headers s) (sv_db s) (sv_rollback s) l (sv_revertListener s) (sv_blockListener s)
    (sv_filterType s) (sv_IsCurrent s) (sv_now s) (sv_events s).
Definition set_events (l : list (event H T)) (s : Sv) : Sv :=
  mkSpv (sv_headers s) (sv_db s) (sv_rollback s) (sv_listeners s) (sv_revertListener s) (sv_blockListener s)
    (sv_filterType s) (sv_IsCurrent s) (sv_now s) l.

Definition sv_onHeaders {A} (m : GoM (headerStore DB OM H) A) : GoM Sv A := zoom sv_headers set_headers m.
Definition sv_onStore {A} (m : GoM (dataStore DB) A) : GoM Sv A := zoom sv_db set_store m.
Definition sv_onTables {A} (m : GoM DB A) : GoM Sv A := sv_onStore (onDS m).
Definition emit (e : event H T) : GoM Sv unit := modify (λ s, set_events (sv_events s ++ [e]) s).

(** ** Listeners *)
(** The slice [addr[:]] of a nil pointer panics. *)
Definition getListenerKey (listener : TransactionListener) : outcome Uint256 :=
  match l_Address listener with
  | [] => Ok (Sum256 (dropErr (ElemTxType (l_Type listener) ≫= λ _, ElemUint64 (l_Flags listener)) []).2)
  | address =>
      addr ← or_panic (Uint168FromAddress address);
      Ok (Sum256 (dropErr (ElemBytes (arr_bytes addr) ≫= λ _, ElemTxType (l_Type listener) ≫= λ _,
        ElemUint64 (l_Flags listener)) []).2)
  end.

Definition RegisterTransactionListener (listener : TransactionListener) : GoM Sv unit :=
  key ← lift (getListenerKey listener);
  s ← getS;
  match sv_listeners s !! key with
  | Some _ => throw (ErrStr "listener with address: %s type: %s flags: %d already registered")
  | None =>
      modify (set_listeners (<[key := listener]> (sv_listeners s))) ≫= λ _,
      match l_Address listener with
      | [] => sv_onStore (dataStore_TxTypes (txTypes_Put (byte_of_Z (TxTypeCode (l_Type listener)))))
      | address =>
          match Uint168FromAddress address with
          | None => throw (ErrStr "address %s is not a valied address")
          | Some addr => sv_onStore (dataStore_Addrs (addrs_Put addr))
          end
      end
  end.
Definition RegisterRevertListener : GoM Sv unit :=
  modify (λ s, mkSpv (sv_headers s) (sv_db s) (sv_rollback s) (sv_listeners s) true (sv_blockListener s)
    (sv_filterType s) (sv_IsCurrent s) (sv_now s) (sv_events s)).
Definition RegisterBlockListener : GoM Sv unit :=
  modify (λ s, mkSpv (sv_headers s) (sv_db s) (sv_rollback s) (sv_listeners s) (sv_revertListener s) true
    (sv_filterType s) (sv_IsCurrent s) (sv_now s) (sv_events s)).
Definition SubmitTransactionReceipt (notifyId txHash : Uint256) : GoM Sv unit :=
  sv_onTables (que_Del notifyId txHash).

(** ** Reading *)
Definition VerifyTransaction (proof : MerkleProof) (tx : T) : GoM Sv unit :=
  header ← try (sv_onHeaders (headers_Get (mp_BlockHash proof)));
  match header with
  | inl _ => throw (ErrStr "can not get block from main chain")
  | inr header =>
      let merkleBlock := mkMerkleBlock (BlockHeaderOf header) (mp_Transactions proof)
                           (mp_Hashes proof) (mp_Flags proof) in
      txIds ← try (lift (default Panic (CheckMerkleBlock merkleBlock)));
      match txIds with
      | inl err => throw (Errorf "check merkle branch failed, " err)
      | inr [] => throw (ErrStr "invalid transaction proof, no transactions found")
      | inr txIds =>
          if bool_decide (etx_Hash tx ∈ txIds) then mret ()
          else throw (ErrStr "transaction hash not match proof")
      end
  end.

Definition GetTransaction (txId : Uint256) : GoM Sv T :=
  utx ← sv_onTables (txs_Get txId);
  lift ((tx ← mapErr (λ _, ErrStr "invalid transaction") functions_GetTransactionByBytes;
         tx_Deserialize tx) (RawData utx)).1.
Definition GetArbiters (height : Z) : GoM Sv (list bytes * list bytes) :=
  sv_onStore (dataStore_Arbiters (arbiters_GetByHeight height)).
Definition GetNextArbiters : GoM Sv (Z * (list bytes * list bytes)) :=
  sv_onStore (dataStore_Arbiters arbiters_GetNext).
Definition GetConsensusAlgorithm (height : Z) : GoM Sv byte :=
  sv_onStore (dataStore_Arbiters (GetConsensusAlgorithmByHeight height)).
Definition spv_GetReservedCustomIDs (height : Z) : GoM Sv (gmap bytes unit) :=
  info ← sv_onStore (dataStore_Arbiters GetRevertInfo);
  sv_onStore (dataStore_CID (GetReservedCustomIDs height info)).
Definition spv_GetReceivedCustomIDs (height : Z) : GoM Sv (gmap bytes Uint168) :=
  info ← sv_onStore (dataStore_Arbiters GetRevertInfo);
  sv_onStore (dataStore_CID (GetReceivedCustomIDs height info)).
Definition GetRateOfCustomIDFee (height : Z) : GoM Sv Z :=
  sv_onStore (dataStore_CID (GetCustomIDFeeRate height)).
Definition spv_HaveRetSideChainDepositCoinTx (txHash : Uint256) : GoM Sv bool :=
  sv_onStore (dataStore_CID (HaveRetSideChainDepositCoinTx txHash)).
Definition GetTransactionIds (height : Z) : GoM Sv (list Uint256) := sv_onTables (txs_GetIds height).

(** [f.ToTxFilterMsg(s.filterType)] *)
Definition ToTxFilterMsg `{!FilterSerialize} (bf : Filter) (typ : byte) : outcome TxFilterLoad :=
  m ← or_panic bf;
  Ok (mkTxFilterLoad typ (dropErr (FilterLoad_Serialize m) []).2).

Definition GetFilter `{!GoFloat} `{!FilterSerialize} : GoM Sv TxFilterLoad :=
  addrs ← sv_onStore (dataStore_Addrs addrs_GetAll);
  txTypes ← sv_onStore (dataStore_TxTypes txTypes_GetAll);
  let f := NewFilter (u32 (Z.of_nat (length addrs))) (2 ^ 32 - 1) (S754_zero false)
             (Z_of_byte <$> txTypes) in
  let '(o, f) := forM addrs (λ address, Add (arr_bytes address)) f in
  lift o ≫= λ _,
  s ← getS;
  lift (ToTxFilterMsg f (sv_filterType s)).

(** ** Writing *)
Definition onBatch {A} (m : GoM Bs A) : GoM (Sv * batch) A :=
  zoom (λ s, (sv_db s.1, s.2)) (λ t s, (set_store t.1 s.1, t.2)) m.
Definition onService {A} (m : GoM Sv A) : GoM (Sv * batch) A := zoom fst (λ d s, (d, s.2)) m.

(** The payload switch of [putTx]: a type assertion without [ok] panics. *)
Definition putPayload (tx : T) (height : Z) : GoM Bs unit :=
  match etx_TxType tx with
  | RevertToPOW =>
      match etx_Payload tx with
      | PRevertToPOW workingHeight => dataBatch_arbiters (BatchPutRevertTransaction workingHeight SPV_POW)
      | _ => lift Panic
      end
  | RevertToDPOS =>
      match etx_Payload tx with
      | PRevertToDPOS interval => dataBatch_arbiters (BatchPutRevertTransaction (u32 (height + interval)) SPV_DPOS)
      | _ => lift Panic
      end
  | NextTurnDPOSInfo =>
      match etx_Payload tx with
      | PNextTurnDPOSInfo workingHeight cr dpos => dataBatch_arbiters (arbiters_BatchPut workingHeight cr dpos)
      | _ => lift Panic
      end
  | ReturnSideChainDepositCoin =>
      match etx_Payload tx with
      | PReturnSideChainDepositCoin => dataBatch_customID (BatchPutRetSideChainDepositCoinTx (etx_Outputs tx))
      | _ => throw (ErrStr "invalid ReturnSideChainDepositCoin tx")
      end
  | CRCProposal =>
      match etx_Payload tx with
      | PCRCProposal p =>
          let hash := cp_Hash p (etx_PayloadVersion tx) in
          match cp_ProposalType p with
          | ReserveCustomID =>
              dataBatch_customID (BatchPutControversialReservedCustomIDs (cp_ReservedCustomIDList p) hash)
          | ReceiveCustomID =>
              dataBatch_customID (BatchPutControversialReceivedCustomIDs (cp_ReceivedCustomIDList p) (cp_ReceiverDID p) hash)
          | ChangeCustomIDFee =>
              dataBatch_customID (BatchPutControversialChangeCustomIDFee (cp_RateOfCustomIDFee p) hash (cp_EIDEffectiveHeight p))
          | ProposalOther => mret ()
          end
      | _ => throw (ErrStr "invalid crc proposal tx")
      end
  | ProposalResult =>
      match etx_Payload tx with
      | PRecordProposalResult results => dataBatch_customID (BatchPutCustomIDProposalResults results height)
      | _ => throw (ErrStr "invalid custom ID result tx")
      end
  | _ => mret ()
  end.

(** [hits], and [ops] by the position of the output: its keys are fresh
    pointers. *)
Definition outputHits (filter : AddrFilter) (tx : T) : gmap Uint168 unit * gmap nat (OutPoint * Uint168) :=
  foldl (λ '(hits, ops) '(index, output),
    if AddrFilter_ContainAddr (ProgramHash output) filter
    then (<[ProgramHash output := ()]> hits,
          <[index := (NewOutPoint (etx_Hash tx) (u16 (Z.of_nat index)), ProgramHash output)]> ops)
    else (hits, ops)) (∅, ∅) (imap pair (etx_Outputs tx)).

Fixpoint inputHits (ins : list (Uint256 * Z)) (hits : gmap Uint168 unit) : GoM DB (gmap Uint168 unit) :=
  match ins with
  | [] => mret hits
  | (txid, index) :: ins =>
      addr ← ops_HaveOp (NewOutPoint txid index);
      inputHits ins (match addr with Some addr => <[addr := ()]> hits | None => hits end)
  end.

(** [hash, _ := Uint168FromAddress(address); hits[*hash]] *)
Definition listenerWants (listener : TransactionListener) (tx : T) (hits : gmap Uint168 unit) : outcome bool :=
  if decide (l_Type listener = etx_TxType tx) then
    match l_Address listener with
    | [] => Ok true
    | address => hash ← or_panic (Uint168FromAddress address); Ok (bool_decide (is_Some (hits !! hash)))
    end
  else Ok false.

Definition queueListener (tx : T) (height : Z) (hits : gmap Uint168 unit) (listener : TransactionListener) : GoM Bs unit :=
  wants ← lift (listenerWants listener tx hits);
  if (wants : bool) then
    key ← lift (getListenerKey listener);
    dataBatch_Que (queBatch_Put (mkQueItem key (etx_Hash tx) height 0))
  else mret ().

(** True: a false positive of the filter. *)
Definition putTx (tx : T) (height : Z) : GoM (Sv * batch) bool :=
  onBatch (putPayload tx height) ≫= λ _,
  s ← getS;
  let '(hits, ops) := outputHits (ds_addrs (sv_db s.1)) tx in
  hits ← onService (sv_onTables (inputHits (etx_Inputs tx) hits));
  let tps := ds_tps (sv_db s.1) in
  let txTypesHit := TxTypesFilter_IsLoaded tps &&
                    TxTypesFilter_ContainTxType (byte_of_Z (TxTypeCode (etx_TxType tx))) tps in
  let addrsHit := negb (bool_decide (size hits = 0%nat)) in
  if negb txTypesHit && negb addrsHit then mret true
  else
    onBatch (forM (range ops) (λ kv, dataBatch_Ops (opsBatch_Put kv.2.1 kv.2.2))) ≫= λ _,
    onBatch (forM (range (sv_listeners s.1)) (λ kv, queueListener tx height hits kv.2)) ≫= λ _,
    onBatch (dataBatch_Txs (txsBatch_Put (NewTx (sv_now s.1 / 10 ^ 9) tx height))) ≫= λ _,
    mret false.

(** [batch := s.db.Batch(); defer batch.Rollback()] *)
Definition sv_withBatch {A} (m : GoM (Sv * batch) A) : GoM Sv A :=
  zoom (λ s, (s, [])) (λ t _, t.1) m.

Fixpoint putTxs (txs : list T) (height fps : Z) : GoM (Sv * batch) Z :=
  match txs with
  | [] => mret fps
  | tx :: txs => fp ← putTx tx height; putTxs txs height (if (fp : bool) then u32 (fps + 1) else fps)
  end.
Definition PutTxs (txs : list T) (height : Z) : GoM Sv Z :=
  sv_withBatch (fps ← putTxs txs height 0; onBatch dataBatch_Commit ≫= λ _, mret fps).

Definition PutForkTxs (txs : list T) (hash : Uint256) : GoM Sv unit :=
  s ← getS;
  sv_onTables (txs_PutForkTxs ((λ tx, NewTx (sv_now s / 10 ^ 9) tx 0) <$> txs) hash).

Definition HaveTx (txId : Uint256) : GoM Sv bool := _ ← sv_onTables (txs_Get txId); mret true.

(** [newTransaction]: the error is dropped, and [Deserialize] on the nil
    transaction panics. *)
Definition newTransaction (raw : bytes) : outcome T :=
  match GetTransactionByBytes raw with
  | (Ok tx, r) => (tx_Deserialize tx r).1
  | _ => Panic
  end.
Fixpoint readTxs (utxs : list Tx) : outcome (list T) :=
  match utxs with
  | [] => Ok []
  | utx :: utxs => tx ← newTransaction (RawData utx); txs ← readTxs utxs; Ok (tx :: txs)
  end.

Fixpoint getTxs (ids : list Uint256) : GoM Sv (list T) :=
  match ids with
  | [] => mret []
  | id :: ids =>
      utx ← sv_onTables (txs_Get id);
      tx ← lift (newTransaction (RawData utx));
      txs ← getTxs ids;
      mret (tx :: txs)
  end.
Definition GetTxs (height : Z) : GoM Sv (list T) :=
  txIDs ← sv_onTables (txs_GetIds height);
  getTxs txIDs.
Definition GetForkTxs (hash : Uint256) : GoM Sv (list T) :=
  ftxs ← sv_onTables (txs_GetForkTxs hash);
  lift (readTxs ftxs).

Definition DelTxs (height : Z) : GoM Sv unit :=
  sv_withBatch (onBatch (dataBatch_DelAll (T := T) height) ≫= λ _, onBatch dataBatch_Commit) ≫= λ _,
  s ← getS;
  if sv_rollback s then emit (EvRollback height) else mret ().

Definition ClearData : GoM Sv unit :=
  _ ← try (sv_onHeaders headers_Clear);
  _ ← try (sv_onStore dataStore_Clear);
  mret ().
Definition spv_Clear : GoM Sv unit := sv_onStore dataStore_Clear.

(** ** Notifications *)
Definition getConfirmations (tx : T) : Z :=
  if decide (etx_TxType tx = CoinBase) then 100 else DefaultConfirmations.
Definition hasFlag (listener : TransactionListener) (flag : Z) : bool := Z.land (l_Flags listener) flag =? flag.

(** [s.db.Que().Del(..)], its error dropped. *)
Definition dropItem (notifyId txId : Uint256) : GoM Sv unit := _ ← try (sv_onTables (que_Del notifyId txId)); mret ().

Definition notifyTransaction (notifyId : Uint256) (proof : MerkleProof) (tx : T) (confirmations : Z) :
    GoM Sv bool :=
  s ← getS;
  match sv_listeners s !! notifyId with
  | None => mret false
  | Some listener =>
      let confirmed := getConfirmations tx <=? confirmations in
      if negb (sv_IsCurrent s) && negb (hasFlag listener FlagNotifyInSyncing) then
        (if hasFlag listener FlagNotifyConfirmed
         then if confirmed then dropItem notifyId (etx_Hash tx) else mret ()
         else dropItem notifyId (etx_Hash tx)) ≫= λ _,
        mret false
      else if hasFlag listener FlagNotifyConfirmed then mret confirmed
      else emit (EvNotify notifyId proof tx) ≫= λ _, mret true
  end.

(** The body of the loop of [BlockCommitted] after the transaction is read. *)
Definition notifyItem (height : Z) (item : QueItem) (header : Header H) (tx : T) : GoM Sv unit :=
  let proof := mkMerkleProof (hdrHash header) (Height header) (NumTxs header) (Hashes header) (Flags header) in
  let confirmCount := if qi_Height item <? height then u32 (height - qi_Height item) else 0 in
  ok ← notifyTransaction (NotifyId item) proof tx confirmCount;
  (if (ok : bool) then
     s ← getS;
     _ ← try (sv_onTables (que_Put (mkQueItem (NotifyId item) (TxId item) (qi_Height item) (sv_now s / 10 ^ 9))));
     emit (EvNotify (NotifyId item) proof tx)
   else mret ()) ≫= λ _,
  s ← getS;
  (if sv_revertListener s && bool_decide (etx_TxType tx = RevertToPOW)
   then emit (EvRevertToDPOS tx) else mret ()) ≫= λ _,
  (if sv_revertListener s && bool_decide (etx_TxType tx = RevertToDPOS)
   then emit (EvRevertToDPOS tx) else mret ()).

(** One queued item: an error of any read skips it. *)
Definition commitItem (height : Z) (item : QueItem) : GoM Sv unit :=
  s ← getS;
  if sv_now s <? LastNotify item * 10 ^ 9 + notifyTimeout then mret ()
  else
    header ← try (sv_onHeaders (headers_GetByHeight (qi_Height item)));
    match header with
    | inl _ => mret ()
    | inr header =>
        tx ← try (GetTransaction (TxId item));
        match tx with
        | inl _ => mret ()
        | inr tx => notifyItem height item header tx
        end
    end.

Definition BlockCommitted (block : Block H T) : GoM Sv unit :=
  items ← try (sv_onTables que_GetAll);
  match items with
  | inl _ => mret ()
  | inr items =>
      forM items (commitItem (Height (BlockHdr block))) ≫= λ _,
      s ← getS;
      if sv_blockListener s && sv_IsCurrent s then emit (EvBlock block) else mret ()
  end.
End service.

(** The service as the transaction database of the chain. *)
#[export] Instance spv_TxsDB {DB OM H T} `{!LevelDB DB} `{!BlockHeader H}
    `{!OrderedMap OM Uint256 (Header H)} `{E : ElaCommon} `{!Uint168Bytes} `{!Uint256Bytes} `{!MapOrder}
    `{!DposState} `{!Sha} `{!ElaTransaction T} `{!TxReader T} `{!ListenerLib} :
    TxsDB (spvservice DB OM H T) T := {
  tdPutTxs := PutTxs;
  tdPutForkTxs := PutForkTxs;
  tdHaveTx := HaveTx;
  tdGetTxs := GetTxs;
  tdGetForkTxs := GetForkTxs;
  tdDelTxs := DelTxs;
  tdClear := spv_Clear;
  tdClose := mret ();
}.
