(* ===== verification/SpvSpec.v ===== *)
(** * The height index of the data store

    The lists of transaction ids by height are written by [txs.Put] and by
    [txsBatch.Commit] only, and the service uses neither: the calls of the
    service keep an empty height index empty. *)
From S2P Require Export SpvService Keeps TxsBatch QueueSpec.

(** Not a key of the height index. *)
Definition off_index (k : bytes) : Prop := ¬ BKTHeightTxs `prefix_of` k.
Definition op_key (o : batch_op) : bytes := match o with BPut k _ => k | BDelete k => k end.
(** A recorded operation that puts nothing into the height index. *)
Definition op_off (o : batch_op) : Prop := match o with BPut k _ => off_index k | BDelete _ => True end.
Definition unindexed (m : gmap bytes bytes) : Prop := ∀ k, BKTHeightTxs `prefix_of` k → m !! k = None.

Lemma off_toKey b x c d : head b = Some c → head BKTHeightTxs = Some d → c ≠ d → off_index (toKey b x).
Proof.
  intros Hb Hd Hne [k Hk]. unfold toKey in Hk. destruct b as [|c' b]; [done|].
  injection Hb as ->. cbn in Hd. injection Hd as <-. cbn in Hk. by injection Hk.
Qed.
Ltac off := first [eapply off_toKey; [reflexivity|reflexivity|discriminate]
                  | let H := fresh in intros [? H]; discriminate H].

Lemma unindexed_put m k v : off_index k → unindexed m → unindexed (<[k := v]> m).
Proof. intros Hk Hm k' Hp. rewrite lookup_insert_ne; [by apply Hm|]. by intros ->. Qed.
Lemma unindexed_delete m k : unindexed m → unindexed (delete k m).
Proof. intros Hm k' Hp. apply lookup_delete_None. right. by apply Hm. Qed.
Lemma unindexed_apply b m : Forall op_off b → unindexed m → unindexed (apply_batch b m).
Proof.
  intros Hb. revert m. induction Hb as [|[k v|k] b Ho _ IH]; intros m Hm; [done|..]; apply IH.
  - by apply unindexed_put.
  - by apply unindexed_delete.
Qed.

Section db.
Context {DB} `{!LevelDB DB} `{!LevelDBLaws DB} `{E : ElaCommon}.
Definition db_unindexed (db : DB) : Prop := unindexed (db_view db).
(** Reading changes nothing. *)
Lemma keeps_dbGet (I : DB → Prop) k : keeps I (dbGet k).
Proof. by intros db Hdb. Qed.
Lemma keeps_dbIterate (I : DB → Prop) p : keeps I (dbIterate p).
Proof. by intros db Hdb. Qed.
Lemma keeps_dbPut k v : off_index k → keeps db_unindexed (dbPut k v).
Proof.
  intros Hk db Hdb. split; [|done]. destruct (dbPut_view db k v) as (db' & -> & Hv). cbn.
  unfold db_unindexed. rewrite Hv. by apply unindexed_put.
Qed.
Lemma keeps_dbWrite b : Forall op_off b → keeps db_unindexed (dbWrite b).
Proof.
  intros Hb db Hdb. split; [|done]. destruct (dbWrite_view db b) as (db' & -> & Hv). cbn.
  unfold db_unindexed. rewrite Hv. by apply unindexed_apply.
Qed.
Lemma op_off_deletes entries : Forall op_off (deleteKeys entries).
Proof. unfold deleteKeys. apply Forall_fmap, Forall_true. by intros []. Qed.
End db.
#[export] Hint Resolve keeps_dbGet keeps_dbIterate op_off_deletes : keeps.

(** ** The tables

    [I] is any property of the database: until the batch is committed the calls
    only read it. *)
Section tables.
Context {DB} (I : DB → Prop) `{!LevelDB DB} `{E : ElaCommon} `{!Uint168Bytes} `{!Uint256Bytes} `{!MapOrder}.
Context `{!DposState} `{!Sha} {T} `{!ElaTransaction T} `{!TxReader T}.

Definition batch_off (s : DB * batch) : Prop := I s.1 ∧ Forall op_off s.2.
Definition arI (c : arbiters DB) : Prop := I (ar_db c).
Definition arB (s : arbiters DB * batch) : Prop := arI s.1 ∧ Forall op_off s.2.
Definition cidI (c : customID DB) : Prop := I (cid_db c).
Definition cidB (s : customID DB * batch) : Prop := cidI s.1 ∧ Forall op_off s.2.
Definition dsI (d : dataStore DB) : Prop := I (ds_db d).
Definition dsB (s : dataStore DB * batch) : Prop := dsI s.1 ∧ Forall op_off s.2.

(** Calls on a part of the state. *)
Ltac part := intros; eapply inv_zoom; [| |eassumption];
  unfold arB, cidB, dsB, batch_off, arI, cidI, dsI; simpl; tauto.

Lemma keeps_ar_onDB {A} (m : GoM DB A) : keeps I m → keeps arI (ar_onDB m).
Proof. part. Qed.
Lemma keeps_onAr {A} (m : GoM (arbiters DB) A) : keeps arI m → keeps arB (onAr m).
Proof. part. Qed.
Lemma keeps_cid_onDB {A} (m : GoM DB A) : keeps I m → keeps cidI (cid_onDB m).
Proof. part. Qed.
Lemma keeps_onCid {A} (m : GoM (customID DB) A) : keeps cidI m → keeps cidB (onCid m).
Proof. part. Qed.
Lemma keeps_onDS {A} (m : GoM DB A) : keeps I m → keeps dsI (onDS m).
Proof. part. Qed.
Lemma keeps_onBDS {A} (m : GoM (dataStore DB) A) : keeps dsI m → keeps dsB (onBDS m).
Proof. part. Qed.
Lemma keeps_onSt {A} (m : GoM DB A) : keeps I m → keeps batch_off (onSt m).
Proof. part. Qed.
Lemma keeps_dsArbiters {A} (m : GoM (arbiters DB) A) : keeps arI m → keeps dsI (dataStore_Arbiters m).
Proof. part. Qed.
Lemma keeps_dsCID {A} (m : GoM (customID DB) A) : keeps cidI m → keeps dsI (dataStore_CID m).
Proof. part. Qed.
Lemma keeps_bArbiters {A} (m : GoM (arbiters DB * batch) A) : keeps arB m → keeps dsB (dataBatch_arbiters m).
Proof. part. Qed.
Lemma keeps_bCid {A} (m : GoM (customID DB * batch) A) : keeps cidB m → keeps dsB (dataBatch_customID m).
Proof. part. Qed.
Lemma keeps_bTables {A} (m : GoM (DB * batch) A) : keeps batch_off m → keeps dsB (dataBatch_tables m).
Proof. part. Qed.

(** Recording operations. *)
Ltac recorded := intros Hops; apply keeps_modify; intros [c b] [Hc Hb]; split; [exact Hc|]; cbn;
  apply Forall_app; by split.
Lemma keeps_ar_record ops : Forall op_off ops → keeps arB (ar_record (DB := DB) ops).
Proof. recorded. Qed.
Lemma keeps_cid_record ops : Forall op_off ops → keeps cidB (cid_record (DB := DB) ops).
Proof. recorded. Qed.
Lemma keeps_bs_record ops : Forall op_off ops → keeps dsB (bs_record (DB := DB) ops).
Proof. recorded. Qed.
Lemma keeps_record ops : Forall op_off ops → keeps batch_off (record (DB := DB) ops).
Proof. recorded. Qed.
End tables.
#[export] Hint Resolve keeps_ar_onDB keeps_onAr keeps_cid_onDB keeps_onCid keeps_onDS keeps_onBDS keeps_onSt
  keeps_dsArbiters keeps_dsCID keeps_bArbiters keeps_bCid keeps_bTables
  keeps_ar_record keeps_cid_record keeps_bs_record keeps_record keeps_dbPut keeps_dbWrite : keeps.

(** Operations recorded on keys whose prefix is another one. *)
Ltac ops_off :=
  match goal with
  | |- Forall op_off (deleteKeys _) => apply op_off_deletes
  | |- Forall op_off (_ ++ _) => apply Forall_app; split; ops_off
  | |- Forall op_off (_ :: _) => constructor; [first [exact I|unfold op_off; off]|ops_off]
  | |- Forall op_off [] => constructor
  end.
#[export] Hint Extern 4 (Forall op_off _) => ops_off : keeps.
#[export] Hint Extern 4 (off_index _) => off : keeps.
#[export] Hint Extern 3 (keeps _ (modify _)) => apply keeps_modify; intros; assumption : keeps.
#[export] Hint Extern 8 (inv _ (_ ≫= _) _) => progress keep : keeps.
#[export] Hint Extern 8 (inv _ (match _ with _ => _ end) _) => progress keep : keeps.
#[export] Hint Extern 8 (inv _ (try _) _) => progress keep : keeps.
#[export] Hint Extern 8 (inv _ (forM _ _) _) => progress keep : keeps.

Section calls.
Context {DB} (I : DB → Prop) `{!LevelDB DB} `{E : ElaCommon} `{!Uint168Bytes} `{!Uint256Bytes} `{!MapOrder}.
Context `{!DposState} `{!Sha} {T} `{!ElaTransaction T} `{!TxReader T}.

Notation arI := (arI I).
Notation arB := (arB I).
Notation cidI := (cidI I).
Notation cidB := (cidB I).
Notation dsB := (dsB I).
Notation batch_off := (batch_off I).

Lemma keeps_getCurrentPositions : keeps arI (getCurrentPositions (DB := DB)).
Proof. unfold getCurrentPositions. keep. Qed.
Lemma keeps_BatchPut h c n : keeps arB (arbiters_BatchPut (DB := DB) h c n).
Proof. unfold arbiters_BatchPut, batchPut. pose proof keeps_getCurrentPositions. keep. Qed.
Lemma keeps_BatchPutRevert h m : keeps arB (BatchPutRevertTransaction (DB := DB) h m).
Proof.
  unfold BatchPutRevertTransaction, getCurrentRevertPosition, getCurrentRevertPositions. keep.
Qed.

Lemma keeps_loadReserved : keeps cidI (loadReserved (DB := DB)).
Proof. unfold loadReserved, getReservedCustomIDsFromDB. keep. Qed.
Lemma keeps_loadReceived : keeps cidI (loadReceived (DB := DB)).
Proof. unfold loadReceived, getReceivedCustomIDsFromDB. keep. Qed.
Lemma keeps_putReserved : keeps cidB (batchPutReservedCustomIDs (DB := DB)).
Proof. unfold batchPutReservedCustomIDs. keep. Qed.
Lemma keeps_putReceived : keeps cidB (batchPutReceivedCustomIDs (DB := DB)).
Proof. unfold batchPutReceivedCustomIDs. keep. Qed.
Lemma keeps_getReserved h : keeps cidI (getControversialReservedCustomIDsFromDB (DB := DB) h).
Proof. unfold getControversialReservedCustomIDsFromDB. keep. Qed.
Lemma keeps_getReceived h : keeps cidI (getControversialReceivedCustomIDsFromDB (DB := DB) h).
Proof. unfold getControversialReceivedCustomIDsFromDB. keep. Qed.
Lemma keeps_putFee r h : keeps cidB (batchPutChangeCustomIDFee (DB := DB) r h).
Proof. unfold batchPutChangeCustomIDFee, getCurrentCustomIDFeePositions. keep. Qed.
#[local] Hint Resolve keeps_loadReserved keeps_loadReceived keeps_putReserved keeps_putReceived
  keeps_getReserved keeps_getReceived keeps_putFee : keeps.
Lemma keeps_putResults results h : keeps cidB (BatchPutCustomIDProposalResults (DB := DB) results h).
Proof.
  unfold BatchPutCustomIDProposalResults, batchPutCustomIDProposalResults, putResult,
    getControversialCustomIDFeeRateByProposalHash. keep.
Qed.
Lemma keeps_delResult r : keeps cidB (delResult (DB := DB) r).
Proof. unfold delResult. keep. Qed.
Lemma keeps_onDeposits f outs :
  (∀ h, op_off (f h)) → keeps cidB (onDeposits (DB := DB) f outs).
Proof. intros Hf. unfold onDeposits. keep. Qed.
Lemma keeps_putDeposits outs : keeps cidB (BatchPutRetSideChainDepositCoinTx (DB := DB) outs).
Proof. apply keeps_onDeposits. intros h. cbn. off. Qed.
Lemma keeps_delDeposits outs : keeps cidB (BatchDeleteRetSideChainDepositCoinTx (DB := DB) outs).
Proof. by apply keeps_onDeposits. Qed.
#[local] Hint Resolve keeps_putResults keeps_delResult keeps_putDeposits keeps_delDeposits
  keeps_BatchPut keeps_BatchPutRevert : keeps.
Lemma keeps_DeleteCustomID (tx : T) : keeps cidB (DeleteCustomID (DB := DB) tx).
Proof.
  unfold DeleteCustomID, BatchDeleteControversialReservedCustomIDs, BatchDeleteControversialReceivedCustomIDs,
    BatchDeleteControversialChangeCustomIDFee. keep.
Qed.
Lemma keeps_queBatch_Put item : keeps batch_off (queBatch_Put (DB := DB) item).
Proof. unfold queBatch_Put. keep. Qed.
Lemma keeps_queBatch_DelAll h : keeps batch_off (queBatch_DelAll (DB := DB) h).
Proof. unfold queBatch_DelAll. keep. Qed.
#[local] Hint Resolve keeps_DeleteCustomID keeps_queBatch_Put keeps_queBatch_DelAll : keeps.
Lemma keeps_getOrNil k : keeps I (getOrNil (DB := DB) k).
Proof. unfold getOrNil. keep. Qed.
#[local] Hint Resolve keeps_getOrNil : keeps.
Lemma op_off_BDelete {A} (f : A → bytes) l : Forall op_off ((λ x, BDelete (f x)) <$> l).
Proof. apply Forall_fmap, Forall_true. by intros x. Qed.
#[local] Hint Resolve op_off_BDelete : keeps.
Lemma keeps_delOne txId : keeps dsB (delOne (DB := DB) (T := T) txId).
Proof. unfold delOne. keep. Qed.
#[local] Hint Resolve keeps_delOne : keeps.
Lemma keeps_DelAll h : keeps dsB (dataBatch_DelAll (DB := DB) (T := T) h).
Proof. unfold dataBatch_DelAll, dataBatch_Que. keep. Qed.
Lemma keeps_txsBatch_Put t : keeps dsB (dataBatch_Txs (DB := DB) (txsBatch_Put t)).
Proof.
  eapply (inv_zoom dsB (λ s : DB * txsBatch, I s.1 ∧ Forall op_off (tb_Batch s.2))); [done|done|].
  unfold txsBatch_Put. keep.
  - unfold addOps. apply keeps_modify. intros s [? ?]. split; [done|]. cbn.
    apply Forall_app. split; [done|]. ops_off.
Qed.
End calls.
Section commit.
Context {DB} `{!LevelDB DB} `{!LevelDBLaws DB}.
Lemma keeps_Commit : keeps (dsB db_unindexed) (dataBatch_Commit (DB := DB)).
Proof.
  unfold dataBatch_Commit. eapply inv_bind; [apply inv_getS|]. intros s [_ Hb].
  by apply keeps_onBDS, keeps_onDS, keeps_dbWrite.
Qed.
End commit.

(** ** The service *)
Section reads.
Context {DB OM H T : Type} (I : DB → Prop) `{!LevelDB DB} `{!BlockHeader H}
  `{!OrderedMap OM Uint256 (Header H)} `{E : ElaCommon}.
Context `{!Uint168Bytes} `{!Uint256Bytes} `{!MapOrder} `{!DposState} `{!Sha}.
Context `{!ElaTransaction T} `{!TxReader T} `{!ListenerLib}.
Notation Sv := (spvservice DB OM H T).

Definition svI (s : Sv) : Prop := dsI I (sv_db s).
Definition svB (s : Sv * batch) : Prop := svI s.1 ∧ Forall op_off s.2.
Notation dsI := (dsI I).
Notation dsB := (dsB I).

Ltac part := intros; eapply inv_zoom; [| |eassumption];
  unfold svB, svI, SpvSpec.dsI, SpvSpec.dsB; simpl; tauto.
Lemma keeps_svHeaders {A} (m : GoM (headerStore DB OM H) A) : keeps svI (sv_onHeaders m).
Proof. eapply (inv_zoom svI (λ _, True)); [done|done|]. by intros s _. Qed.
Lemma keeps_svStore {A} (m : GoM (dataStore DB) A) : keeps dsI m → keeps svI (sv_onStore (T := T) (H := H) (OM := OM) m).
Proof. part. Qed.
Lemma keeps_svTables {A} (m : GoM DB A) : keeps I m → keeps svI (sv_onTables (T := T) (H := H) (OM := OM) m).
Proof. intros. by apply keeps_svStore, keeps_onDS. Qed.
Lemma keeps_onBatch {A} (m : GoM (dataStore DB * batch) A) : keeps dsB m → keeps svB (onBatch (T := T) (H := H) (OM := OM) m).
Proof. part. Qed.
Lemma keeps_onService {A} (m : GoM Sv A) : keeps svI m → keeps svB (onService m).
Proof. part. Qed.
Lemma keeps_withBatch {A} (m : GoM (Sv * batch) A) : keeps svB m → keeps svI (sv_withBatch m).
Proof.
  intros Hm. eapply (inv_zoom svI svB); [|by intros s t _ []|done]. intros s Hs. by split; [|constructor].
Qed.
Lemma keeps_emit e : keeps svI (emit e).
Proof. by apply keeps_modify. Qed.
#[local] Hint Resolve keeps_svHeaders keeps_svStore keeps_svTables keeps_onBatch keeps_onService
  keeps_withBatch keeps_emit : keeps.
#[local] Hint Resolve keeps_BatchPut keeps_BatchPutRevert keeps_putDeposits keeps_putResults
  keeps_queBatch_Put keeps_getOrNil keeps_txsBatch_Put keeps_DelAll : keeps.

Lemma keeps_putPayload tx h : keeps dsB (putPayload (DB := DB) (T := T) tx h).
Proof.
  unfold putPayload, BatchPutControversialReservedCustomIDs, batchPutControversialReservedCustomIDs,
    BatchPutControversialReceivedCustomIDs, batchPutControversialReceivedCustomIDs,
    BatchPutControversialChangeCustomIDFee, batchPutControversialChangeCustomIDFee. keep.
Qed.
Lemma keeps_inputHits ins hits : keeps I (inputHits (DB := DB) ins hits).
Proof.
  revert hits. induction ins as [|[txid i] ins IH]; intros hits; cbn [inputHits]; [apply keeps_ret|].
  apply keeps_bind; [|auto]. unfold ops_HaveOp. keep.
Qed.
#[local] Hint Resolve keeps_putPayload keeps_inputHits : keeps.
Lemma keeps_putTx tx h : keeps svB (putTx tx h).
Proof.
  unfold putTx, queueListener, dataBatch_Ops, dataBatch_Que, opsBatch_Put. keep;
    apply keeps_onBatch; keep.
Qed.
Lemma keeps_putTxs txs h n : keeps svB (putTxs txs h n).
Proof.
  revert n. induction txs as [|tx txs IH]; intros n; cbn [putTxs]; [apply keeps_ret|].
  apply keeps_bind; [apply keeps_putTx|auto].
Qed.
End reads.

Section service.
Context {DB OM H T : Type} `{!LevelDB DB} `{!LevelDBLaws DB} `{!BlockHeader H}
  `{!OrderedMap OM Uint256 (Header H)} `{E : ElaCommon}.
Context `{!Uint168Bytes} `{!Uint256Bytes} `{!MapOrder} `{!DposState} `{!Sha}.
Context `{!ElaTransaction T} `{!TxReader T} `{!ListenerLib}.
Notation Sv := (spvservice DB OM H T).
Notation svI := (svI (OM := OM) (H := H) (T := T) db_unindexed).
Notation svB := (svB (OM := OM) (H := H) (T := T) db_unindexed).
Notation dsI := (dsI db_unindexed).
#[local] Hint Resolve keeps_svHeaders keeps_svStore keeps_svTables keeps_onBatch keeps_onService
  keeps_withBatch keeps_emit : keeps.
#[local] Hint Resolve keeps_BatchPut keeps_BatchPutRevert keeps_putDeposits keeps_putResults
  keeps_queBatch_Put keeps_getOrNil keeps_txsBatch_Put keeps_DelAll keeps_Commit keeps_putTxs : keeps.

Lemma keeps_PutTxs txs h : keeps svI (PutTxs txs h).
Proof.
  unfold PutTxs. apply keeps_withBatch, keeps_bind; [|intros; keep]. apply keeps_putTxs.
Qed.
Lemma keeps_PutForkTxs txs hash : keeps svI (PutForkTxs txs hash).
Proof.
  unfold PutForkTxs. keep. apply keeps_svTables. unfold txs_PutForkTxs. keep.
Qed.
Lemma keeps_DelTxs h : keeps svI (DelTxs h).
Proof. unfold DelTxs. keep. Qed.
Lemma keeps_que_Put item : keeps db_unindexed (que_Put (DB := DB) item).
Proof. unfold que_Put. keep. Qed.
Lemma keeps_que_Del n t : keeps db_unindexed (que_Del (DB := DB) n t).
Proof. unfold que_Del. keep. Qed.
Lemma keeps_que_GetAll : keeps db_unindexed (que_GetAll (DB := DB)).
Proof. unfold que_GetAll. keep. Qed.
#[local] Hint Resolve keeps_que_Put keeps_que_Del keeps_que_GetAll : keeps.
Lemma keeps_txs_Get k : keeps db_unindexed (txs_Get (DB := DB) k).
Proof. unfold txs_Get. keep. Qed.
#[local] Hint Resolve keeps_txs_Get : keeps.
Lemma keeps_BlockCommitted b : keeps svI (BlockCommitted b).
Proof.
  unfold BlockCommitted, commitItem, GetTransaction, notifyItem, notifyTransaction, dropItem. keep.
Qed.
Lemma keeps_Register l : keeps svI (RegisterTransactionListener l).
Proof.
  unfold RegisterTransactionListener. keep.
  - apply keeps_svStore. eapply (inv_zoom dsI (λ t, db_unindexed (tt_db t))); [done|done|].
    unfold txTypes_Put, txTypes_onDB. keep.
    eapply (inv_zoom _ db_unindexed); [done|done|]. keep.
  - apply keeps_svStore. eapply (inv_zoom dsI (λ t, db_unindexed (a_db t))); [done|done|].
    unfold addrs_Put, addrs_onDB. keep.
    eapply (inv_zoom _ db_unindexed); [done|done|]. keep.
Qed.
End service.

(** ** Reachable states *)
Section reachable.
Context {DB OM H T : Type} `{!LevelDB DB} `{!LevelDBLaws DB} `{!BlockHeader H}
  `{!OrderedMap OM Uint256 (Header H)} `{E : ElaCommon}.
Context `{!Uint168Bytes} `{!Uint256Bytes} `{!MapOrder} `{!DposState} `{!Sha}.
Context `{!ElaTransaction T} `{!TxReader T} `{!ListenerLib}.
Notation Sv := (spvservice DB OM H T).
Notation svI := (svI (OM := OM) (H := H) (T := T) db_unindexed).

(** A call of the chain, the SDK or the application, however it ends, a change
    of the clock and of the sync state, or of the headers by the chain. *)
Inductive spv_step : Sv → Sv → Prop :=
  | step_PutTxs s txs height : spv_step s (PutTxs txs height s).2
  | step_PutForkTxs s txs hash : spv_step s (PutForkTxs txs hash s).2
  | step_DelTxs s height : spv_step s (DelTxs height s).2
  | step_BlockCommitted s block : spv_step s (BlockCommitted block s).2
  | step_Register s listener : spv_step s (RegisterTransactionListener listener s).2
  | step_Submit s n t : spv_step s (SubmitTransactionReceipt n t s).2
  | step_env s headers current now :
      spv_step s (mkSpv headers (sv_db s) (sv_rollback s) (sv_listeners s) (sv_revertListener s)
        (sv_blockListener s) (sv_filterType s) current now (sv_events s)).

Lemma spv_step_unindexed s s' : spv_step s s' → svI s → svI s'.
Proof.
  intros Hstep Hs. destruct Hstep.
  - by apply keeps_PutTxs.
  - by apply keeps_PutForkTxs.
  - by apply keeps_DelTxs.
  - by apply keeps_BlockCommitted.
  - by apply keeps_Register.
  - by apply (keeps_svTables _ _ (keeps_que_Del n t)).
  - done.
Qed.
Lemma spv_reach_unindexed s s' : rtc spv_step s s' → svI s → svI s'.
Proof. induction 1; eauto using spv_step_unindexed. Qed.

Definition sv_view (s : Sv) : gmap bytes bytes := db_view (ds_db (sv_db s)).

Lemma getOrNil_unindexed db h : db_unindexed db → getOrNil (DB := DB) (heightKey h) db = (Ok [], db).
Proof.
  intros Hu. unfold getOrNil. rewrite (bind_run _ _ db (inl ErrNotFound) db); [done|].
  apply try_run_err. rewrite dbGet_view, Hu; [done|]. by apply prefix_app_r.
Qed.
Lemma GetIds_unindexed (s : Sv) h : svI s → sv_onTables (txs_GetIds h) s = (Ok [], s).
Proof.
  intros Hu. unfold sv_onTables, sv_onStore, onDS, zoom, txs_GetIds.
  rewrite (bind_run _ _ _ _ _ (getOrNil_unindexed _ h Hu)). cbn. by destruct s as [? [] ????????].
Qed.

(** Rolling back a height without ids records no deletion of a transaction. *)
Lemma DelTxs_unindexed s h : svI s → ∃ s', DelTxs h s = (Ok (), s') ∧
  ∀ k, BKTTxs `prefix_of` k → sv_view s' !! k = sv_view s !! k.
Proof.
  intros Hu. set (d := sv_db s). set (b0 := [BDelete (heightKey h)]).
  destruct (queBatch_DelAll_run (ds_db d) b0 h) as (keys & Hq & _ & Hkeys).
  assert (Hdel : dataBatch_DelAll (T := T) h (d, []) = (Ok (), (d, b0 ++ (BDelete <$> keys)))).
  { unfold dataBatch_DelAll.
    rewrite (bind_run (onBDS _) _ (d, []) [] (d, [])).
    2: { unfold onBDS, onDS, zoom. cbn [fst snd]. rewrite getOrNil_unindexed by done. by destruct d. }
    rewrite (bind_run (lift (getTxIds [])) _ (d, []) [] (d, []) eq_refl).
    rewrite (bind_run (forM [] _) _ (d, []) () (d, []) eq_refl).
    rewrite (bind_run (bs_record _) _ (d, []) () (d, b0) eq_refl).
    unfold dataBatch_Que, dataBatch_tables, zoom. cbn [fst snd]. rewrite Hq. by destruct d. }
  destruct (dbWrite_view (ds_db d) (b0 ++ (BDelete <$> keys))) as (db' & Hw & Hv).
  assert (Hrun : sv_withBatch (onBatch (dataBatch_DelAll (T := T) h) ≫= λ _, onBatch dataBatch_Commit) s
                 = (Ok (), set_store (ds_set_db db' d) s)).
  { unfold sv_withBatch. rewrite (zoom_run _ _ _ s (Ok ()) (set_store (ds_set_db db' d) s, b0 ++ (BDelete <$> keys))); [done|].
    rewrite (bind_run _ _ (s, []) () (s, b0 ++ (BDelete <$> keys))).
    2: { unfold onBatch, zoom. cbn [fst snd]. fold d. rewrite Hdel. subst d. by destruct s. }
    unfold onBatch, zoom, dataBatch_Commit. cbn [fst snd].
    rewrite (bind_run getS _ _ _ _ eq_refl). unfold onBDS, onDS, zoom. cbn [fst snd]. fold d. by rewrite Hw. }
  unfold DelTxs. rewrite (bind_run _ _ _ _ _ Hrun), (bind_run getS _ _ _ _ eq_refl).
  assert (Hview : ∀ k, BKTTxs `prefix_of` k → db_view db' !! k = sv_view s !! k).
  { intros k Hk. rewrite Hv. change (b0 ++ (BDelete <$> keys)) with (BDelete <$> (heightKey h :: keys)).
    rewrite apply_batch_deletes, decide_False; [done|]. destruct Hk as [r ->].
    intros [Hk|Hk]%elem_of_cons; [discriminate Hk|]. by destruct (Hkeys _ Hk) as [[r' Hr]|[r' Hr]]. }
  destruct (sv_rollback _); eexists; split; [reflexivity|exact Hview|reflexivity|exact Hview].
Qed.

(** whatever calls the service has served since it was opened on an empty data
    store, the height index is empty: the ids and the transactions of every
    height read as empty, and rolling a height back succeeds but leaves every
    stored transaction in place. *)
Theorem spv_index_never_written (s0 s : Sv) h : sv_view s0 = ∅ → rtc spv_step s0 s →
  GetTransactionIds h s = (Ok [], s) ∧ GetTxs h s = (Ok [], s) ∧
  ∃ s', DelTxs h s = (Ok (), s') ∧ ∀ k, sv_view s' !! txKey k = sv_view s !! txKey k.
Proof.
  intros Hemp Hr. assert (Hu : svI s).
  { eapply spv_reach_unindexed; [done|]. intros k _. unfold sv_view in Hemp. by rewrite Hemp. }
  split_and!; [by apply GetIds_unindexed| |].
  - unfold GetTxs. by rewrite (bind_run _ _ _ _ _ (GetIds_unindexed s h Hu)).
  - destruct (DelTxs_unindexed s h Hu) as (s' & Hd & Hk). exists s'. split; [done|].
    intros k. by apply Hk, prefix_app_r.
Qed.
End reachable.
