(* ===== verification/SpvBlocks.v ===== *)
(** * What the service keeps of a transaction

    [putTx] and [PutTxs] on the transactions of a block, when none has a payload
    the service reads: which count as false positives, and what is written of
    the others. *)
From S2P Require Export SpvSpec.

(** ** Batches of puts *)
(** The last operation on a key decides; puts of one value need no order. *)
Lemma apply_batch_put (b : batch) m k v :
  BPut k v ∈ b → (∀ o, o ∈ b → op_key o = k → o = BPut k v) → apply_batch b m !! k = Some v.
Proof.
  induction b as [|o b IH] using rev_ind; [set_solver|]. intros Hin Hall.
  rewrite apply_batch_app. cbn [apply_batch foldl]. destruct (decide (op_key o = k)) as [He|Hne].
  - rewrite (Hall o) by set_solver. cbn. apply lookup_insert_eq.
  - assert (Hb : apply_batch b m !! k = Some v).
    { apply IH; [|set_solver]. apply elem_of_app in Hin as [|Hin%list_elem_of_singleton]; [done|].
      subst o. done. }
    destruct o as [k' v'|k']; cbn in *; [by rewrite lookup_insert_ne|by rewrite lookup_delete_ne].
Qed.
Lemma apply_batch_other (b : batch) m k :
  (∀ o, o ∈ b → op_key o ≠ k) → apply_batch b m !! k = m !! k.
Proof.
  revert m. induction b as [|o b IH]; intros m Hb; [done|]. cbn [apply_batch foldl].
  change (apply_batch b (apply_op m o) !! k = m !! k). rewrite IH by set_solver.
  assert (op_key o ≠ k) by set_solver.
  destruct o; cbn in *; [by rewrite lookup_insert_ne|by rewrite lookup_delete_ne].
Qed.

Lemma list_elem_of_concat {A} (l : list (list A)) y : y ∈ concat l ↔ ∃ x, x ∈ l ∧ y ∈ x.
Proof. rewrite list_elem_of_In, in_concat. by setoid_rewrite list_elem_of_In. Qed.

(** ** The hits of the outputs *)
Section hits.
Context {T} `{!ElaTransaction T} (filter : AddrFilter) (tx : T).
Definition opOf (index : nat) : OutPoint := NewOutPoint (etx_Hash tx) (u16 (Z.of_nat index)).
Definition hitStep (acc : gmap Uint168 unit * gmap nat (OutPoint * Uint168)) (x : nat * Output) :=
  let '(hits, ops) := acc in
  if AddrFilter_ContainAddr (ProgramHash x.2) filter
  then (<[ProgramHash x.2 := ()]> hits, <[x.1 := (opOf x.1, ProgramHash x.2)]> ops) else (hits, ops).
Lemma outputHits_fold : outputHits filter tx = foldl hitStep (∅, ∅) (imap pair (etx_Outputs tx)).
Proof.
  unfold outputHits. generalize ((∅, ∅) : gmap Uint168 unit * gmap nat (OutPoint * Uint168)).
  induction (imap pair (etx_Outputs tx)) as [|[i o] l IH]; intros [h p]; [done|]. cbn. by rewrite IH.
Qed.
(** An entry of the two maps comes from a watched output, and back. *)
Definition hits_of (l : list (nat * Output)) (acc : gmap Uint168 unit * gmap nat (OutPoint * Uint168)) : Prop :=
  (∀ a, is_Some (acc.1 !! a) ↔ ∃ i o, (i, o) ∈ l ∧ ProgramHash o = a ∧ AddrFilter_ContainAddr a filter = true) ∧
  (∀ i x, acc.2 !! i = Some x ↔ ∃ o, (i, o) ∈ l ∧ AddrFilter_ContainAddr (ProgramHash o) filter = true ∧
     x = (opOf i, ProgramHash o)).
Lemma hits_of_fold l : NoDup l.*1 → hits_of l (foldl hitStep (∅, ∅) l).
Proof.
  induction l as [|[i o] l IH] using rev_ind; intros Hnd.
  { split; [intros a|intros i x]; cbn; rewrite lookup_empty.
    - split; [by intros []|]. intros (? & ? & []%elem_of_nil & _).
    - split; [done|]. intros (? & []%elem_of_nil & _). }
  rewrite fmap_app in Hnd. apply NoDup_app in Hnd as (Hnd & Hdis & _). destruct (IH Hnd) as [H1 H2].
  assert (Hi : ∀ o', (i, o') ∉ l).
  { intros o' Hin. apply (Hdis i); [|set_solver]. by apply (list_elem_of_fmap_2 fst l (i, o')). }
  rewrite foldl_app. cbn [foldl]. destruct (foldl hitStep (∅, ∅) l) as [hits ops]. cbn [fst snd] in *.
  unfold hitStep. cbn [fst snd]. destruct (AddrFilter_ContainAddr (ProgramHash o) filter) eqn:Hc.
  - split.
    + intros a. cbn [fst]. rewrite lookup_insert_is_Some', H1. split.
      * intros [<-|(j & o' & ? & ? & ?)]; [exists i, o; set_solver|exists j, o'; set_solver].
      * intros (j & o' & [Hin|[= -> ->]%list_elem_of_singleton]%elem_of_app & Ha & Hw); [right|by left].
        by exists j, o'.
    + intros j x. cbn [snd]. rewrite lookup_insert_Some. split.
      * intros [[<- <-]|[Hne (o' & ? & ? & ?)%H2]]; [exists o; set_solver|exists o'; set_solver].
      * intros (o' & [Hin|[= -> ->]%list_elem_of_singleton]%elem_of_app & Hw & ->); [|by left].
        right. split; [intros <-; by apply (Hi o')|]. apply H2. by exists o'.
  - split.
    + intros a. cbn [fst]. rewrite H1. split.
      * intros (j & o' & ? & ? & ?). exists j, o'. set_solver.
      * intros (j & o' & [Hin|[= -> ->]%list_elem_of_singleton]%elem_of_app & Ha & Hw); [by exists j, o'|congruence].
    + intros j x. cbn [snd]. rewrite H2. split.
      * intros (o' & ? & ? & ?). exists o'. set_solver.
      * intros (o' & [Hin|[= -> ->]%list_elem_of_singleton]%elem_of_app & Hw & ->); [by exists o'|congruence].
Qed.
Lemma imap_pair_elem {A} (l : list A) i x : (i, x) ∈ imap pair l ↔ l !! i = Some x.
Proof.
  rewrite list_elem_of_lookup. setoid_rewrite list_lookup_imap. split.
  - intros (j & Hj). destruct (l !! j) eqn:Hl; [|done]. by injection Hj as <- <-.
  - intros Hl. exists i. by rewrite Hl.
Qed.
Lemma imap_pair_NoDup {A} (l : list A) : NoDup (imap pair l).*1.
Proof.
  rewrite fmap_imap. apply NoDup_alt. intros i j x.
  rewrite !list_lookup_imap. destruct (l !! i), (l !! j); cbn; congruence.
Qed.
Lemma outputHits_spec : hits_of (imap pair (etx_Outputs tx)) (outputHits filter tx).
Proof. rewrite outputHits_fold. apply hits_of_fold, imap_pair_NoDup. Qed.
End hits.

(** ** [putTx] *)
Section put.
Context {DB OM H T : Type} `{!LevelDB DB} `{!LevelDBLaws DB} `{!BlockHeader H}
  `{!OrderedMap OM Uint256 (Header H)} `{E : ElaCommon} `{!ElaCommonLaws E}.
Context `{!Uint168Bytes} `{!Uint168BytesLaws} `{!Uint256Bytes} `{!MapOrder} `{!DposState} `{!Sha}.
Context `{!ElaTransaction T} `{!TxReader T} `{!ListenerLib}.
Context (Hmax : fits 32 MaxBlockContextSize).
Notation Sv := (spvservice DB OM H T).

(** A transaction whose payload the service does not look at. *)
Definition plain (tx : T) : Prop :=
  etx_TxType tx = CoinBase ∨ ∃ code, etx_TxType tx = TxTypeOther code.
Lemma putPayload_plain tx h (s : dataStore DB * batch) : plain tx → putPayload tx h s = (Ok (), s).
Proof. intros [Ht|[c Ht]]; unfold putPayload; by rewrite Ht. Qed.

(** An address of the filter the transaction pays, or whose output it spends. *)
Definition pays (s : Sv) (tx : T) (a : Uint168) : Prop :=
  ∃ i o, etx_Outputs tx !! i = Some o ∧ ProgramHash o = a ∧ AddrFilter_ContainAddr a (ds_addrs (sv_db s)) = true.
Definition spends (s : Sv) (tx : T) (a : Uint168) : Prop :=
  ∃ txid i, (txid, i) ∈ etx_Inputs tx ∧ (ops_HaveOp (NewOutPoint txid i) (ds_db (sv_db s))).1 = Ok (Some a).
Definition hit (s : Sv) (tx : T) (a : Uint168) : Prop := pays s tx a ∨ spends s tx a.
Definition typeHit (s : Sv) (tx : T) : bool :=
  TxTypesFilter_IsLoaded (ds_tps (sv_db s)) &&
  TxTypesFilter_ContainTxType (byte_of_Z (TxTypeCode (etx_TxType tx))) (ds_tps (sv_db s)).
(** The listener asked for the type, and for one of the addresses or for none. *)
Definition wanted (s : Sv) (tx : T) (l : TransactionListener) : Prop :=
  l_Type l = etx_TxType tx ∧
  (l_Address l = [] ∨ ∃ a, Uint168FromAddress (l_Address l) = Some a ∧ hit s tx a).
(** Every registered listener is under its key, with an address that parses. *)
Definition listeners_ok (s : Sv) : Prop := ∀ k l, sv_listeners s !! k = Some l →
  getListenerKey l = Ok k ∧ (l_Address l = [] ∨ is_Some (Uint168FromAddress (l_Address l))).

Lemma inputHits_run (db : DB) ins hits : ops_ok db → (∀ txid i, (txid, i) ∈ ins → fits 16 i) →
  ∃ hits', inputHits ins hits db = (Ok hits', db) ∧ ∀ a, is_Some (hits' !! a) ↔
    is_Some (hits !! a) ∨ ∃ txid i, (txid, i) ∈ ins ∧ (ops_HaveOp (NewOutPoint txid i) db).1 = Ok (Some a).
Proof.
  intros Hok. revert hits. induction ins as [|[txid i] ins IH]; intros hits Hwf.
  { exists hits. split; [done|]. intros a. split; [by left|]. intros [?|(? & ? & []%elem_of_nil & _)]; done. }
  pose proof (ops_HaveOp_view db (NewOutPoint txid i) Hok (Hwf txid i ltac:(set_solver))) as Hh.
  cbn [inputHits]. rewrite (bind_run _ _ _ _ _ Hh).
  set (r := v ← _; _) in Hh |- *.
  destruct (IH (match r with Some addr => <[addr := ()]> hits | None => hits end)) as (hits' & Hr & Hs); [set_solver|].
  exists hits'. split; [exact Hr|]. intros a. rewrite Hs. clear Hs Hr IH.
  assert (Hr1 : is_Some (match r with Some addr => <[addr := ()]> hits | None => hits end !! a) ↔
    is_Some (hits !! a) ∨ r = Some a).
  { destruct r as [a'|]; [rewrite lookup_insert_is_Some'; naive_solver|]. naive_solver. }
  rewrite Hr1. split.
  - intros [[?|Hra]|(t & j & ? & ?)]; [by left| |right; exists t, j; set_solver].
    right. exists txid, i. rewrite Hh. cbn. rewrite Hra. set_solver.
  - intros [?|(t & j & [[= -> ->]|Hin]%elem_of_cons & Ho)]; [by left; left| |right; by exists t, j].
    left. right. rewrite Hh in Ho. by injection Ho.
Qed.

Lemma onBatch_run {A} (m : GoM (dataStore DB * batch) A) (s : Sv) b o d b' :
  m (sv_db s, b) = (o, (d, b')) → onBatch m (s, b) = (o, (set_store d s, b')).
Proof. intros Hm. unfold onBatch, zoom. cbn [fst snd]. by rewrite Hm. Qed.
Lemma set_store_same (s : Sv) : set_store (sv_db s) s = s.
Proof. by destruct s. Qed.
Lemma ds_same (d : dataStore DB) : ds_set_db (ds_db d) d = d.
Proof. by destruct d. Qed.

(** A loop of calls that only record. *)
Lemma forM_records {A} (l : list A) (f : A → GoM (dataStore DB * batch) unit) (g : A → batch) d b :
  (∀ x b, x ∈ l → f x (d, b) = (Ok (), (d, b ++ g x))) → forM l f (d, b) = (Ok (), (d, b ++ (l ≫= g))).
Proof.
  revert b. induction l as [|x l IH]; intros b Hf; [by rewrite app_nil_r|]. cbn [forM].
  rewrite (bind_run _ _ _ _ _ (Hf x b ltac:(set_solver))), IH by set_solver.
  by rewrite bind_cons, app_assoc.
Qed.

(** What the queue gets for a listener that wants the transaction. *)
Definition queOps (tx : T) (h : Z) (key : Uint256) : batch :=
  [BPut (queKey key (etx_Hash tx)) (be_bytes 4 h); BPut (queIdxKey (be_bytes 4 h) key (etx_Hash tx)) []].

Lemma listenerWants_run s tx (hits : gmap Uint168 unit) k l :
  (∀ a, is_Some (hits !! a) ↔ hit s tx a) → listeners_ok s → sv_listeners s !! k = Some l →
  ∃ w, listenerWants l tx hits = Ok w ∧ (w = true ↔ wanted s tx l).
Proof.
  intros Hh Hl Hk. destruct (Hl k l Hk) as [_ Ha]. unfold listenerWants, wanted.
  destruct (decide (l_Type l = etx_TxType tx)) as [Ht|Ht]; [|exists false; naive_solver].
  destruct (l_Address l) as [|c cs] eqn:Hadr; [exists true; naive_solver|].
  destruct Ha as [Hn|[a Ha]]; [discriminate Hn|]. rewrite Ha. cbn. eexists. split; [done|].
  rewrite bool_decide_eq_true, Hh. split; [intros; split; [done|]; right; by exists a|].
  intros [_ [Hn|(a' & [= <-] & ?)]]; [discriminate Hn|done].
Qed.

Definition qops (tx : T) (h : Z) (hits : gmap Uint168 unit) (kl : Uint256 * TransactionListener) : batch :=
  match listenerWants kl.2 tx hits with Ok true => queOps tx h kl.1 | _ => [] end.
Lemma queueListener_run s tx h (hits : gmap Uint168 unit) k l b :
  (∀ a, is_Some (hits !! a) ↔ hit s tx a) → listeners_ok s → sv_listeners s !! k = Some l →
  queueListener tx h hits l (sv_db s, b) = (Ok (), (sv_db s, b ++ qops tx h hits (k, l))).
Proof.
  intros Hh Hl Hk. destruct (listenerWants_run s tx hits k l Hh Hl Hk) as (w & Hw & _).
  destruct (Hl k l Hk) as [Hkey _]. unfold queueListener, qops. cbn [fst snd]. rewrite Hw, Hkey.
  destruct w; [|by rewrite app_nil_r]. unfold queOps.
  change (b ++ [?x; ?y]) with (b ++ ([x] ++ [y])). rewrite app_assoc.
  unfold dataBatch_Que, dataBatch_tables, zoom, queBatch_Put. cbn. by destruct (sv_db s).
Qed.

(** What [putTx] records for a transaction that is not a false positive. *)
Inductive put_op (s : Sv) (tx : T) (h : Z) (v : bytes) : batch_op → Prop :=
  | put_output i o : etx_Outputs tx !! i = Some o →
      AddrFilter_ContainAddr (ProgramHash o) (ds_addrs (sv_db s)) = true →
      put_op s tx h v (BPut (opKey (opOf tx i)) (arr_bytes (ProgramHash o)))
  | put_item k l o : sv_listeners s !! k = Some l → wanted s tx l → o ∈ queOps tx h k → put_op s tx h v o
  | put_record : put_op s tx h v (BPut (txKey (etx_Hash tx)) v).

Definition storedTx (s : Sv) (tx : T) (h : Z) : Tx := NewTx (sv_now s / 10 ^ 9) tx h.

Lemma putRecord_run (d : dataStore DB) t : Tx_wf t →
  ∃ v, tx_stored v t ∧ ∀ b, dataBatch_Txs (txsBatch_Put t) (d, b) = (Ok (), (d, b ++ [BPut (txKey (Tx_Hash t)) v])).
Proof.
  intros Hwf. destruct (serializeTx_stored Hmax t Hwf) as (v & Hser & Hst). exists v. split; [done|].
  intros b. unfold dataBatch_Txs, zoom, txsBatch_Put. cbn [fst snd]. rewrite Hser.
  rewrite (bind_run (lift _) _ _ v _ eq_refl). cbn. by destruct d.
Qed.
Definition opsRecord (kv : nat * (OutPoint * Uint168)) : batch := [BPut (opKey kv.2.1) (arr_bytes kv.2.2)].
(** What [putTx] records, in its order. *)
Definition put_ops (s : Sv) (tx : T) (h : Z) (hits : gmap Uint168 unit) ops0 (v : bytes) : batch :=
  (range ops0 ≫= opsRecord) ++ (range (sv_listeners s) ≫= qops tx h hits) ++ [BPut (txKey (etx_Hash tx)) v].
Lemma put_ops_elem s tx h (hits : gmap Uint168 unit) v o :
  (∀ a, is_Some (hits !! a) ↔ hit s tx a) → listeners_ok s →
  o ∈ put_ops s tx h hits (outputHits (ds_addrs (sv_db s)) tx).2 v ↔ put_op s tx h v o.
Proof.
  intros Hh Hl. pose proof (outputHits_spec (ds_addrs (sv_db s)) tx) as [_ Hout].
  unfold put_ops. rewrite !elem_of_app, !list_elem_of_bind, list_elem_of_singleton. split.
  - intros [(kv & Ho & Hkv)|Ho]; [|destruct Ho as [(kv & Ho & Hkv)|Ho]; [|subst o; apply put_record] ].
    + destruct kv as [i x]. apply range_elem, Hout in Hkv as (out & Hi%imap_pair_elem & Hc & ->).
      apply list_elem_of_singleton in Ho as ->. by constructor.
    + destruct kv as [k l]. apply range_elem in Hkv. unfold qops in Ho. cbn [fst snd] in Ho.
      destruct (listenerWants_run s tx hits k l Hh Hl Hkv) as (w & Hw & Hiff). rewrite Hw in Ho.
      destruct w; [|set_solver]. eapply put_item; [done| |done]. by apply Hiff.
  - intros Ho. inversion Ho as [i out Hi Hc|k l o' Hk Hwa Hin|]; subst.
    + left. exists (i, (opOf tx i, ProgramHash out)). split; [unfold opsRecord; set_solver|].
      apply range_elem, Hout. exists out. by rewrite imap_pair_elem.
    + right; left. exists (k, l). split; [|by apply range_elem]. unfold qops. cbn [fst snd].
      destruct (listenerWants_run s tx hits k l Hh Hl Hk) as (w & -> & Hiff).
      by rewrite (proj2 Hiff Hwa).
    + by right; right.
Qed.
Lemma putOutputs_run ops0 (s : Sv) b :
  onBatch (forM (range ops0) (λ kv, dataBatch_Ops (opsBatch_Put kv.2.1 kv.2.2))) (s, b) =
    (Ok (), (s, b ++ (range ops0 ≫= opsRecord))).
Proof.
  rewrite (onBatch_run _ s b (Ok ()) (sv_db s) (b ++ (range ops0 ≫= opsRecord))); [by rewrite set_store_same|].
  apply forM_records. intros [k [op a]] b' _. unfold dataBatch_Ops, dataBatch_tables, zoom. cbn. by destruct (sv_db s).
Qed.
Lemma queueListeners_run tx h (hits : gmap Uint168 unit) (s : Sv) b :
  (∀ a, is_Some (hits !! a) ↔ hit s tx a) → listeners_ok s →
  onBatch (forM (range (sv_listeners s)) (λ kv, queueListener tx h hits kv.2)) (s, b) =
    (Ok (), (s, b ++ (range (sv_listeners s) ≫= qops tx h hits))).
Proof.
  intros Hh Hl. rewrite (onBatch_run _ s b (Ok ()) (sv_db s) (b ++ (range (sv_listeners s) ≫= qops tx h hits)));
    [by rewrite set_store_same|].
  apply forM_records. intros [k l] b' Hkl%range_elem. by apply queueListener_run.
Qed.

(** A transaction is kept when it has a watched type, pays a watched address or
    spends a known output. *)
Definition counted (s : Sv) (tx : T) : Prop := typeHit s tx = true ∨ ∃ a, hit s tx a.
Record tx_ok (s : Sv) (h : Z) (tx : T) : Prop := {
  to_plain : plain tx;
  to_inputs : ∀ txid i, (txid, i) ∈ etx_Inputs tx → fits 16 i;
  to_outputs : Z.of_nat (length (etx_Outputs tx)) < 2 ^ 16;
  to_wf : Tx_wf (storedTx s tx h);
}.
(** What becomes of a transaction: nothing, or its record and what goes with it. *)
Definition put_result (s : Sv) (h : Z) (tx : T) (ops : batch) : Prop :=
  (¬ counted s tx ∧ ops = []) ∨
  (counted s tx ∧ ∃ v, tx_stored v (storedTx s tx h) ∧ ∀ o, o ∈ ops ↔ put_op s tx h v o).

Lemma putTx_run (s : Sv) tx h b : listeners_ok s → ops_ok (ds_db (sv_db s)) → tx_ok s h tx →
  ∃ fp ops, putTx tx h (s, b) = (Ok fp, (s, b ++ ops)) ∧ put_result s h tx ops ∧ (fp = true ↔ ¬ counted s tx).
Proof.
  intros Hl Hops [Hpl Hins _ Hwf]. unfold putTx.
  rewrite (bind_run _ _ (s, b) () (s, b)).
  2: { rewrite (onBatch_run _ s b (Ok ()) (sv_db s) b) by by apply putPayload_plain. by rewrite set_store_same. }
  rewrite (bind_run getS _ _ _ _ eq_refl). cbn [fst].
  pose proof (outputHits_spec (ds_addrs (sv_db s)) tx) as [Hout1 _].
  pose proof (λ hits v o, put_ops_elem s tx h hits v o) as Helem.
  destruct (outputHits _ tx) as [hits0 ops0]. cbn [fst snd] in Hout1, Helem.
  destruct (inputHits_run (ds_db (sv_db s)) (etx_Inputs tx) hits0 Hops Hins) as (hits & Hr & Hhits).
  rewrite (bind_run _ _ (s, b) hits (s, b)).
  2: { unfold onService, sv_onTables, sv_onStore, onDS, zoom. cbn [fst snd]. rewrite Hr. cbn [fst snd].
       by rewrite ds_same, set_store_same. }
  assert (Hh : ∀ a, is_Some (hits !! a) ↔ hit s tx a).
  { intros a. rewrite Hhits, Hout1. unfold hit, pays, spends. setoid_rewrite imap_pair_elem. done. }
  fold (typeHit s tx). assert (Hsz : bool_decide (size hits = 0%nat) = true ↔ ∀ a, ¬ hit s tx a).
  { rewrite bool_decide_eq_true, map_size_empty_iff. setoid_rewrite <-Hh. split; [intros -> a []; done|].
    intros He. apply map_empty. intros a. apply eq_None_not_Some, He. }
  destruct (negb (typeHit s tx) && negb (negb (bool_decide (size hits = 0%nat)))) eqn:Hb.
  - apply andb_true_iff in Hb as [Ht Hz]. rewrite negb_involutive in Hz. apply negb_true_iff in Ht.
    assert (Hno : ¬ counted s tx) by (intros [?|[a Ha]]; [congruence|by apply (proj1 Hsz Hz a)]).
    exists true, []. rewrite app_nil_r. split_and!; [done|by left|done].
  - assert (Hyes : counted s tx).
    { apply andb_false_iff in Hb as [Ht|Hz]; [left; by apply negb_false_iff in Ht|].
      rewrite negb_involutive, bool_decide_eq_false in Hz. right. destruct (map_choose hits) as (a & u & Ha).
      { intros ->. by apply Hz, map_size_empty. } exists a. apply Hh. by rewrite Ha. }
    destruct (putRecord_run (sv_db s) _ Hwf) as (v & Hst & Hrec).
    exists false, (put_ops s tx h hits ops0 v). split_and!; [|right; split; [done|]; exists v; split; [done|]; intros o; by apply Helem
      |split; [done|intros []; done] ].
    rewrite (bind_run _ _ _ _ _ (putOutputs_run ops0 s b)).
    rewrite (bind_run _ _ _ _ _ (queueListeners_run tx h hits s _ Hh Hl)).
    rewrite (bind_run _ _ _ _ _ (onBatch_run _ s _ _ _ _ (Hrec _))), set_store_same.
    unfold put_ops. by rewrite <-!app_assoc.
Qed.

(** Keys of different tables differ. *)
Lemma opKey_wf_inj tx i j : Z.of_nat i < 2 ^ 16 → Z.of_nat j < 2 ^ 16 →
  opKey (opOf tx i) = opKey (opOf (T := T) tx j) → i = j.
Proof.
  intros Hi Hj Heq. apply opKey_inj in Heq; [|apply u16_fits..]. unfold opOf in Heq. injection Heq as Heq.
  rewrite !u16_small in Heq by (unfold fits; lia). lia.
Qed.
Lemma queOps_key tx h k o n t : o ∈ queOps tx h k → op_key o = queKey n t →
  k = n ∧ etx_Hash tx = t ∧ o = BPut (queKey k (etx_Hash tx)) (be_bytes 4 h).
Proof.
  intros Ho Hk. apply elem_of_cons in Ho as [->|Ho%list_elem_of_singleton].
  - apply (queKey_inj (k, etx_Hash tx) (n, t)) in Hk. by injection Hk.
  - subst o. by apply (queIdxKey_queKey _ _ _ (n, t)) in Hk.
Qed.
Lemma queOps_prefix tx h k o : o ∈ queOps tx h k → BKTQue `prefix_of` op_key o ∨ BKTQueIdx `prefix_of` op_key o.
Proof.
  intros Ho. apply elem_of_cons in Ho as [->|Ho%list_elem_of_singleton]; [left|subst o; right]; by apply prefix_app_r.
Qed.

(** The transactions of a block, each with its operations. *)
Lemma putTxs_run (s : Sv) txs h n b : listeners_ok s → ops_ok (ds_db (sv_db s)) → (∀ tx, tx ∈ txs → tx_ok s h tx) →
  0 ≤ n → n + Z.of_nat (length txs) < 2 ^ 32 →
  ∃ fps opss, putTxs txs h n (s, b) = (Ok (n + Z.of_nat (length fps)), (s, b ++ concat opss)) ∧
    Forall2 (put_result s h) txs opss ∧ fps `sublist_of` txs ∧ ∀ tx, tx ∈ fps ↔ tx ∈ txs ∧ ¬ counted s tx.
Proof.
  intros Hl Hops. revert n b. induction txs as [|tx txs IH]; intros n b Htx Hn Hlen.
  { exists [], []. rewrite app_nil_r. cbn. rewrite Z.add_0_r. split_and!; [done|constructor|done|set_solver]. }
  destruct (putTx_run s tx h b Hl Hops (Htx tx ltac:(left))) as (fp & ops & Hr & Hres & Hfp).
  cbn [putTxs length] in *. rewrite (bind_run _ _ _ _ _ Hr).
  destruct (IH (if fp then u32 (n + 1) else n) (b ++ ops)) as (fps & opss & -> & Hall & Hsub & Hin).
  { intros t Ht. apply Htx. by right. }
  { destruct fp; [apply u32_fits|done]. }
  { destruct fp; [rewrite u32_small by (unfold fits; lia)|]; lia. }
  exists (if fp then tx :: fps else fps), (ops :: opss). cbn [concat]. rewrite app_assoc. split_and!.
  - destruct fp; [|done]. rewrite u32_small by (unfold fits; lia). cbn [length]. do 2 f_equal. lia.
  - by constructor.
  - destruct fp; by constructor.
  - intros t. destruct fp.
    + assert (¬ counted s tx) by by apply Hfp. rewrite !elem_of_cons, Hin. naive_solver.
    + assert (Hc : ¬ ¬ counted s tx) by (intros ?%Hfp; done). rewrite elem_of_cons, Hin. naive_solver.
Qed.

(** What the database holds after the operations of a block. *)
Section view.
Context (s : Sv) (h : Z) (txs : list T) (opss : list batch).
Context (Hres : Forall2 (put_result s h) txs opss) (Hnd : NoDup (etx_Hash <$> txs))
        (Hout : ∀ tx, tx ∈ txs → Z.of_nat (length (etx_Outputs tx)) < 2 ^ 16).

(** An operation of the block belongs to a transaction that is kept; transactions
    with one hash have one record. *)
Lemma block_op o : o ∈ concat opss → ∃ tx v, tx ∈ txs ∧ counted s tx ∧ put_op s tx h v o ∧
  (∀ v' ops i, txs !! i = Some tx → opss !! i = Some ops → (∀ o, o ∈ ops ↔ put_op s tx h v' o) → v' = v).
Proof.
  intros (ops & Hops & Ho)%list_elem_of_concat. apply list_elem_of_lookup in Hops as [i Hi].
  destruct (Forall2_lookup_r _ _ _ _ _ Hres Hi) as (tx & Ht & [[_ ->]|(Hc & v & _ & Hall)]); [by apply not_elem_of_nil in Ho|].
  exists tx, v. split_and!; [by eapply list_elem_of_lookup_2|done|by apply Hall|]. intros v' ops' j Hj Hj' Hall'.
  assert (j = i) as ->.
  { eapply (NoDup_lookup (etx_Hash <$> txs)); [done|by rewrite list_lookup_fmap, Hj|by rewrite list_lookup_fmap, Ht]. }
  assert (ops' = ops) as -> by congruence. pose proof (proj2 (Hall' _) (put_record s tx h v')) as Hin.
  apply Hall in Hin. inversion Hin as [| |]; [|done]. subst.
  match goal with Hq : _ ∈ queOps _ _ _ |- _ => by destruct (queOps_prefix _ _ _ _ Hq) as [[r Hr]|[r Hr]] end.
Qed.
Lemma same_hash tx tx' : tx ∈ txs → tx' ∈ txs → etx_Hash tx = etx_Hash tx' → tx = tx'.
Proof.
  intros [i Hi]%list_elem_of_lookup [j Hj]%list_elem_of_lookup He.
  assert (i = j) as ->; [|congruence].
  eapply (NoDup_lookup (etx_Hash <$> txs)); [done|by rewrite list_lookup_fmap, Hi|by rewrite list_lookup_fmap, Hj, He].
Qed.

Lemma block_view m tx : tx ∈ txs → counted s tx →
  (∃ v, tx_stored v (storedTx s tx h) ∧ apply_batch (concat opss) m !! txKey (etx_Hash tx) = Some v) ∧
  (∀ i o, etx_Outputs tx !! i = Some o → AddrFilter_ContainAddr (ProgramHash o) (ds_addrs (sv_db s)) = true →
     apply_batch (concat opss) m !! opKey (opOf tx i) = Some (arr_bytes (ProgramHash o))) ∧
  (∀ k l, sv_listeners s !! k = Some l → wanted s tx l →
     apply_batch (concat opss) m !! queKey k (etx_Hash tx) = Some (be_bytes 4 h)).
Proof.
  intros Htx Hc. pose proof Htx as [n Hn]%list_elem_of_lookup.
  destruct (Forall2_lookup_l _ _ _ _ _ Hres Hn) as (ops & Hops & [[Hno _]|(_ & v & Hst & Hall)]); [done|].
  assert (Hin : ∀ o, put_op s tx h v o → o ∈ concat opss).
  { intros o Ho. apply list_elem_of_concat. exists ops. split; [by eapply list_elem_of_lookup_2|by apply Hall]. }
  split_and!.
  - exists v. split; [done|]. apply apply_batch_put; [apply Hin, put_record|].
    intros o (tx' & v' & Htx' & _ & Ho & Hone)%block_op Hk.
    inversion Ho as [i out Hi Hc'|k l o' Hkl Hwa Hq|]; subst; [discriminate Hk| |].
    + by destruct (queOps_prefix _ _ _ _ Hq) as [[r Hr]|[r Hr]]; rewrite Hk in Hr.
    + apply txKey_inj in Hk. apply same_hash in Hk; [|done..]. subst tx'. by rewrite (Hone v ops n Hn Hops Hall).
  - intros i out Hi Hw. apply apply_batch_put; [by apply Hin, put_output|].
    intros o (tx' & v' & Htx' & _ & Ho & _)%block_op Hk.
    inversion Ho as [j out' Hj Hc'|k l o' Hkl Hwa Hq|]; subst; [| |discriminate Hk].
    + assert (tx' = tx) as ->.
      { apply same_hash; [done..|]. cbn [op_key] in Hk. apply opKey_inj in Hk; [|apply u16_fits..].
        unfold opOf in Hk. by injection Hk. }
      apply lookup_lt_Some in Hi as Hil. apply lookup_lt_Some in Hj as Hjl. pose proof (Hout tx Htx).
      apply opKey_wf_inj in Hk; [|lia..]. subst j. congruence.
    + by destruct (queOps_prefix _ _ _ _ Hq) as [[r Hr]|[r Hr]]; rewrite Hk in Hr.
  - intros k l Hk Hwa. apply apply_batch_put; [apply Hin; eapply put_item; [done..|]; by left|].
    intros o (tx' & v' & Htx' & _ & Ho & _)%block_op Hkey.
    inversion Ho as [j out' Hj Hc'|k' l' o' Hkl Hwa' Hq|]; subst; [discriminate Hkey| |discriminate Hkey].
    destruct (queOps_key _ _ _ _ _ _ Hq Hkey) as (-> & He & ->). by rewrite He.
Qed.
(** What they leave alone. *)
Lemma block_view_other m k :
  (∀ tx v o, tx ∈ txs → counted s tx → put_op s tx h v o → op_key o ≠ k) →
  apply_batch (concat opss) m !! k = m !! k.
Proof. intros Hk. apply apply_batch_other. intros o (tx & v & Htx & Hc & Ho & _)%block_op. by eapply Hk. Qed.
Lemma block_view_tables m k :
  ¬ BKTTxs `prefix_of` k → ¬ BKTOps `prefix_of` k → ¬ BKTQue `prefix_of` k → ¬ BKTQueIdx `prefix_of` k →
  apply_batch (concat opss) m !! k = m !! k.
Proof.
  intros Hn1 Hn2 Hn3 Hn4. apply block_view_other. intros tx v o _ _ Ho <-.
  inversion Ho as [j out' Hj Hc'|k' l' o' Hkl Hwa' Hin|]; subst; cbn [op_key] in *.
  - apply Hn2. by apply prefix_app_r.
  - by destruct (queOps_prefix _ _ _ _ Hin).
  - apply Hn1. by apply prefix_app_r.
Qed.
Lemma block_view_record m tx : tx ∈ txs → ¬ counted s tx →
  apply_batch (concat opss) m !! txKey (etx_Hash tx) = m !! txKey (etx_Hash tx).
Proof.
  intros Htx Hno. apply block_view_other. intros tx' v o Htx' Hc Ho Hk.
  inversion Ho as [j out' Hj Hc'|k' l' o' Hkl Hwa' Hin|]; subst; cbn [op_key] in *; [discriminate Hk| |].
  - by destruct (queOps_prefix _ _ _ _ Hin) as [[r Hr]|[r Hr]]; rewrite Hk in Hr.
  - apply txKey_inj in Hk. apply same_hash in Hk; [|done..]. by subst.
Qed.
Lemma block_view_queue m tx k : tx ∈ txs →
  ¬ (counted s tx ∧ ∃ l, sv_listeners s !! k = Some l ∧ wanted s tx l) →
  apply_batch (concat opss) m !! queKey k (etx_Hash tx) = m !! queKey k (etx_Hash tx).
Proof.
  intros Htx Hno. apply block_view_other. intros tx' v o Htx' Hc Ho Hk.
  inversion Ho as [j out' Hj Hc'|k' l' o' Hkl Hwa' Hin|]; subst; cbn [op_key] in *; [discriminate Hk| |discriminate Hk].
  destruct (queOps_key _ _ _ _ _ _ Hin Hk) as (-> & He & _). apply same_hash in He; [|done..]. subst tx'.
  apply Hno. split; [done|]. by exists l'.
Qed.
End view.

Lemma GetTransaction_run (s : Sv) tx h v : sv_view s !! txKey (etx_Hash tx) = Some v →
  tx_stored v (storedTx s tx h) →
  ((t ← functions_GetTransactionByBytes; tx_Deserialize t) (etx_Serialize tx []).2).1 = Ok tx →
  GetTransaction (etx_Hash tx) s = (Ok tx, s).
Proof.
  intros Hv Hst Hraw. unfold GetTransaction.
  rewrite (bind_run _ _ s (storedTx s tx h) s).
  - unfold lift. f_equal. rewrite <-Hraw. cbn [storedTx NewTx RawData SerializeTx iutil_Tx].
    unfold mbind, GoM_bind in *. rewrite mapErr_run.
    destruct (functions_GetTransactionByBytes _) as [[a|e|] r]; [done|discriminate Hraw|done].
  - unfold sv_onTables, sv_onStore, onDS, zoom, txs_Get.
    rewrite (bind_run _ _ _ v (ds_db (sv_db s))) by (unfold sv_view in Hv; by rewrite dbGet_view, Hv).
    rewrite (tx_stored_decode Hmax v _ Hst). cbn. by destruct s as [? [] ????????].
Qed.
End put.


(** ** [PutTxs] *)
Section puttxs.
Context {DB OM H T : Type} `{!LevelDB DB} `{!LevelDBLaws DB} `{!BlockHeader H}
  `{!OrderedMap OM Uint256 (Header H)} `{E : ElaCommon} `{!ElaCommonLaws E}.
Context `{!Uint168Bytes} `{!Uint168BytesLaws} `{!Uint256Bytes} `{!MapOrder} `{!DposState} `{!Sha}.
Context `{!ElaTransaction T} `{!TxReader T} `{!ListenerLib}.
Notation Sv := (spvservice DB OM H T).

(** Its commit writes what was recorded. *)
Lemma written_run (s : Sv) txs h n ops : putTxs txs h 0 (s, []) = (Ok n, (s, ops)) → ∃ s',
  PutTxs txs h s = (Ok n, s') ∧ sv_view s' = apply_batch ops (sv_view s) ∧ sv_now s' = sv_now s.
Proof.
  intros Hput. destruct (dbWrite_view (ds_db (sv_db s)) ops) as (db' & Hw & Hv).
  exists (set_store (ds_set_db db' (sv_db s)) s). split_and!; [|exact Hv|done].
  unfold PutTxs, sv_withBatch.
  rewrite (zoom_run _ _ _ s (Ok n) (set_store (ds_set_db db' (sv_db s)) s, ops)); [done|].
  rewrite (bind_run _ _ (s, []) n (s, ops) Hput).
  rewrite (bind_run (onBatch dataBatch_Commit) _ (s, ops) () (set_store (ds_set_db db' (sv_db s)) s, ops)); [done|].
  apply onBatch_run. unfold dataBatch_Commit. rewrite (bind_run getS _ _ _ _ eq_refl).
  unfold onBDS, onDS, zoom. cbn [fst snd]. by rewrite Hw.
Qed.

(** C21: [PutTxs] on the transactions of a block, with ids of their own and none
    with a payload the service reads.  A transaction that has no watched type, pays no
    watched address and spends no known output is counted as a false positive:
    it is not stored and reaches no queue.  Of each of the others the record can be
    read back, every output that pays a watched address is a known outpoint, and
    exactly the listeners that asked for its type, and for no address or for one it
    touches, have it in their queue at that height.  The other tables are untouched. *)
Theorem PutTxs_spec (s : Sv) txs h :
  fits 32 MaxBlockContextSize → listeners_ok s → ops_ok (ds_db (sv_db s)) → (∀ tx, tx ∈ txs → tx_ok s h tx) →
  NoDup (etx_Hash <$> txs) → Z.of_nat (length txs) < 2 ^ 32 →
  ∃ s' fps, PutTxs txs h s = (Ok (Z.of_nat (length fps)), s') ∧
    fps `sublist_of` txs ∧ (∀ tx, tx ∈ fps ↔ tx ∈ txs ∧ ¬ counted s tx) ∧
    (∀ tx, tx ∈ fps → sv_view s' !! txKey (etx_Hash tx) = sv_view s !! txKey (etx_Hash tx)) ∧
    (∀ tx, tx ∈ txs → counted s tx →
      (((t ← functions_GetTransactionByBytes; tx_Deserialize t) (etx_Serialize tx []).2).1 = Ok tx →
         GetTransaction (etx_Hash tx) s' = (Ok tx, s')) ∧
      (∀ i o, etx_Outputs tx !! i = Some o → AddrFilter_ContainAddr (ProgramHash o) (ds_addrs (sv_db s)) = true →
         sv_view s' !! opKey (NewOutPoint (etx_Hash tx) (Z.of_nat i)) = Some (arr_bytes (ProgramHash o))) ∧
      (∀ k l, sv_listeners s !! k = Some l → wanted s tx l →
         sv_view s' !! queKey k (etx_Hash tx) = Some (be_bytes 4 h))) ∧
    (∀ tx k, tx ∈ txs → ¬ (counted s tx ∧ ∃ l, sv_listeners s !! k = Some l ∧ wanted s tx l) →
      sv_view s' !! queKey k (etx_Hash tx) = sv_view s !! queKey k (etx_Hash tx)) ∧
    ∀ k, ¬ BKTTxs `prefix_of` k → ¬ BKTOps `prefix_of` k → ¬ BKTQue `prefix_of` k → ¬ BKTQueIdx `prefix_of` k →
      sv_view s' !! k = sv_view s !! k.
Proof.
  intros Hmax Hl Hops Htx Hnd Hlen.
  destruct (putTxs_run Hmax s txs h 0 [] Hl Hops Htx ltac:(lia) ltac:(lia)) as (fps & opss & Hput & Hres & Hsub & Hfps).
  destruct (written_run s txs h _ _ Hput) as (s' & Hr & Hv & Hnow). cbn [app] in Hv.
  assert (Hout : ∀ tx, tx ∈ txs → Z.of_nat (length (etx_Outputs tx)) < 2 ^ 16) by (intros tx Hin; apply (Htx tx Hin)).
  exists s', fps. rewrite !Hv. split_and!; [done|done|done| | | |].
  - intros tx [Hin Hno]%Hfps. by eapply block_view_record.
  - intros tx Hin Hc. destruct (block_view s h txs opss Hres Hnd Hout (sv_view s) tx Hin Hc) as ((v & Hst & Hrec) & Hop & Hque).
    split_and!.
    + intros Hraw. eapply (GetTransaction_run Hmax s' tx h v); [by rewrite Hv| |done]. unfold storedTx. by rewrite Hnow.
    + intros i o Hi Hc'. rewrite <-(Hop i o Hi Hc'). unfold opOf. apply lookup_lt_Some in Hi. pose proof (Hout tx Hin).
      by rewrite u16_small by (unfold fits; lia).
    + exact Hque.
  - intros tx k Hin Hno. by eapply block_view_queue.
  - intros k. by eapply block_view_tables.
Qed.
End puttxs.
