(* ===== verification/SpvNotify.v ===== *)
(** * Proofs and notifications

    [VerifyTransaction] accepts only transactions of the block the proof names,
    and [notifyItem], the part of [BlockCommitted] after an item is read, makes
    a fixed list of callbacks. *)
From S2P Require Export SpvBlocks MerkleSound.

Section verify.
Context {DB OM H T : Type} `{!LevelDB DB} `{!BlockHeader H}
  `{!OrderedMap OM Uint256 (Header H)} `{E : ElaCommon}.
Context `{!Uint168Bytes} `{!Uint256Bytes} `{!MapOrder} `{!DposState} `{!Sha}.
Context `{!ElaTransaction T} `{!TxReader T} `{!ListenerLib}.
Notation Sv := (spvservice DB OM H T).

(** The Merkle block [VerifyTransaction] makes of a proof. *)
Definition proofBlock (header : Header H) (proof : MerkleProof) : MerkleBlock H :=
  mkMerkleBlock (BlockHeaderOf header) (mp_Transactions proof) (mp_Hashes proof) (mp_Flags proof).

(** C22: a proof that [VerifyTransaction] accepts names a stored header, and when
    the header commits to the transactions [txids] and the proof has their
    number, the transaction is one of them.  The only way out is a collision
    that can be read off: one of the strings hashed for the proof and another
    one, a node of the block's own tree, with the same hash. *)
Theorem VerifyTransaction_authentic (s s' : Sv) proof tx :
  VerifyTransaction proof tx s = (Ok (), s') →
  ∃ header hs, headers_Get (mp_BlockHash proof) (sv_headers s) = (Ok header, hs) ∧
    ∀ txids, MerkleRoot (BlockHeaderOf header) = merkle_root txids →
      mp_Transactions proof = Z.of_nat (length txids) → Z.of_nat (length txids) ≤ 2 ^ 31 →
      etx_Hash tx ∈ txids ∨ collide (check_inputs (proofBlock header proof)) (block_inputs txids).
Proof.
  intros Hv. unfold VerifyTransaction in Hv. apply GoM_bind_Ok in Hv as (r & s1 & Hg & Hv).
  destruct r as [e|header]; [done|]. unfold try, sv_onHeaders, zoom in Hg.
  destruct (headers_Get (mp_BlockHash proof) (sv_headers s)) as [[h|e|] hs] eqn:Hget; simplify_eq.
  exists header, hs. split; [done|]. intros txids Hroot Hn Hle.
  apply GoM_bind_Ok in Hv as (r & s2 & Hc & Hv). unfold try, lift in Hc.
  fold (proofBlock header proof) in Hc. set (m := proofBlock header proof) in *.
  destruct (CheckMerkleBlock m) as [[ms|e|]|] eqn:Hcm; cbn [default from_option id] in Hc; simplify_eq.
  destruct ms as [|x ms]; [done|]. case_bool_decide as Hin; [|done].
  destruct (CheckMerkleBlock_authentic_run m txids (x :: ms) Hcm Hn Hle Hroot) as [(idx & _ & Hall)|]; [left|by right].
  apply list_elem_of_lookup in Hin as [i Hi].
  destruct (Forall2_lookup_l _ _ _ _ _ Hall Hi) as (z & _ & Hz). by eapply list_elem_of_lookup_2.
Qed.

(** ** The callbacks of a queued item *)
(** In what order, and how often, a listener is called. *)
Definition notifyEvents (s : Sv) (item : QueItem) (proof : MerkleProof) (tx : T) (confirmations : Z) : list (event H T) :=
  match sv_listeners s !! NotifyId item with
  | None => []
  | Some l =>
      if negb (sv_IsCurrent s) && negb (hasFlag l FlagNotifyInSyncing) then []
      else if hasFlag l FlagNotifyConfirmed
      then if getConfirmations tx <=? confirmations then [EvNotify (NotifyId item) proof tx] else []
      else [EvNotify (NotifyId item) proof tx; EvNotify (NotifyId item) proof tx]
  end.
Definition revertEvents (s : Sv) (tx : T) : list (event H T) :=
  if sv_revertListener s &&
     (bool_decide (etx_TxType tx = RevertToPOW) || bool_decide (etx_TxType tx = RevertToDPOS))
  then [EvRevertToDPOS tx] else [].
Definition itemProof (header : Header H) : MerkleProof :=
  mkMerkleProof (hdrHash header) (Height header) (NumTxs header) (Hashes header) (Flags header).
Definition confirmCount (height : Z) (item : QueItem) : Z :=
  if qi_Height item <? height then u32 (height - qi_Height item) else 0.
End verify.

Section notify.
Context {DB OM H T : Type} `{!LevelDB DB} `{!LevelDBLaws DB} `{!BlockHeader H}
  `{!OrderedMap OM Uint256 (Header H)} `{E : ElaCommon}.
Context `{!Uint168Bytes} `{!Uint256Bytes} `{!MapOrder} `{!DposState} `{!Sha}.
Context `{!ElaTransaction T} `{!TxReader T} `{!ListenerLib}.
Notation Sv := (spvservice DB OM H T).

(** The fields no call on the tables changes. *)
Definition same_service (s s' : Sv) : Prop :=
  sv_listeners s' = sv_listeners s ∧ sv_revertListener s' = sv_revertListener s ∧
  sv_IsCurrent s' = sv_IsCurrent s ∧ sv_now s' = sv_now s.
Lemma sv_onTables_frame {A} (m : GoM DB A) (s : Sv) : same_service s (sv_onTables m s).2 ∧
  sv_events (sv_onTables m s).2 = sv_events s.
Proof.
  unfold sv_onTables, sv_onStore, onDS, zoom. destruct (m _) as [o db]. by destruct s.
Qed.
(** A call whose error is dropped and that does not panic. *)
Lemma try_tables {A} (m : GoM DB A) (s : Sv) : (m (ds_db (sv_db s))).1 ≠ Panic →
  ∃ r s', try (sv_onTables m) s = (Ok r, s') ∧ same_service s s' ∧ sv_events s' = sv_events s.
Proof.
  intros Hp. destruct (sv_onTables_frame m s) as [Hs He]. unfold try.
  assert (Hne : (sv_onTables m s).1 ≠ Panic).
  { unfold sv_onTables, sv_onStore, onDS, zoom. by destruct (m _). }
  destruct (sv_onTables m s) as [[a|e|] s'] eqn:Hr; cbn in *; [by eexists _, _..|done].
Qed.
Lemma que_Put_no_panic item (db : DB) : (que_Put item db).1 ≠ Panic.
Proof. unfold que_Put. match goal with |- context [dbWrite ?b _] => destruct (dbWrite_view db b) as (? & -> & _) end. done. Qed.
Lemma que_Del_no_panic n t (db : DB) : (que_Del n t db).1 ≠ Panic.
Proof.
  unfold que_Del. pose proof (dbGet_view db (queKey n t)) as Hg.
  destruct (db_view db !! queKey n t).
  - rewrite (bind_run _ _ _ _ _ Hg).
    match goal with |- context [dbWrite ?b _] => destruct (dbWrite_view db b) as (? & -> & _) end. done.
  - by rewrite (bind_run_err _ _ _ _ _ Hg).
Qed.
Lemma dropItem_run n t (s : Sv) : ∃ s', dropItem n t s = (Ok (), s') ∧ same_service s s' ∧ sv_events s' = sv_events s.
Proof.
  destruct (try_tables (que_Del n t) s) as (r & s' & Hr & Hs & He); [apply que_Del_no_panic|].
  exists s'. split; [|done]. unfold dropItem. by rewrite (bind_run _ _ _ _ _ Hr).
Qed.

Lemma emit_run (e : event H T) (s : Sv) : emit e s = (Ok (), set_events (sv_events s ++ [e]) s).
Proof. done. Qed.
(** What [notifyTransaction] returns and calls. *)
Lemma notifyTransaction_run (item : QueItem) proof tx c (s : Sv) : ∃ s' ok,
  notifyTransaction (NotifyId item) proof tx c s = (Ok ok, s') ∧ same_service s s' ∧
  notifyEvents s item proof tx c =
    (if ok then drop (length (sv_events s)) (sv_events s') ++ [EvNotify (NotifyId item) proof tx] else []) ∧
  sv_events s' = sv_events s ++ drop (length (sv_events s)) (sv_events s') ∧
  (ok = false → sv_events s' = sv_events s).
Proof.
  unfold notifyTransaction, notifyEvents. rewrite (bind_run getS _ _ _ _ eq_refl).
  assert (Hsame : ∀ s1 : Sv, sv_events s1 = sv_events s →
    sv_events s1 = sv_events s ++ drop (length (sv_events s)) (sv_events s1)).
  { intros s1 ->. by rewrite drop_all, app_nil_r. }
  destruct (sv_listeners s !! NotifyId item) as [l|]; [|exists s, false; split_and!; auto; done].
  destruct (negb (sv_IsCurrent s) && negb (hasFlag l FlagNotifyInSyncing)).
  - destruct (dropItem_run (NotifyId item) (etx_Hash tx) s) as (s1 & Hr & Hs1 & He1).
    assert (Hd : ∃ s1, (if hasFlag l FlagNotifyConfirmed
       then if getConfirmations tx <=? c then dropItem (NotifyId item) (etx_Hash tx) else mret ()
       else dropItem (NotifyId item) (etx_Hash tx)) s = (Ok (), s1) ∧ same_service s s1 ∧ sv_events s1 = sv_events s).
    { destruct (hasFlag _ _), (getConfirmations tx <=? c); by eexists. }
    destruct Hd as (s2 & Hr2 & Hs2 & He2). exists s2, false. rewrite (bind_run _ _ _ _ _ Hr2).
    split_and!; auto.
  - destruct (hasFlag l FlagNotifyConfirmed).
    + exists s, (getConfirmations tx <=? c). split_and!; auto; [done|].
      destruct (_ <=? _); [by rewrite drop_all|done].
    + exists (set_events (sv_events s ++ [EvNotify (NotifyId item) proof tx]) s), true.
      rewrite (bind_run _ _ _ _ _ (emit_run _ _)). cbn. rewrite drop_app_length. by split_and!.
Qed.


(** the callbacks of a queued item.  The listener of the item is called not at
    all when it is not registered, when the service is behind and the listener
    does not want to hear of that, or when it waits for confirmations the
    transaction does not have; once when the confirmations are there; and twice
    when it does not wait for confirmations.  The revert listener is told
    [NotifyRevertToDPOS] for both kinds of revert transactions. *)
Theorem notifyItem_events height item header tx (s : Sv) : ∃ s',
  notifyItem height item header tx s = (Ok (), s') ∧
  sv_events s' = sv_events s ++
    notifyEvents s item (itemProof header) tx (confirmCount height item) ++ revertEvents s tx.
Proof.
  destruct (notifyTransaction_run item (itemProof header) tx (confirmCount height item) s)
    as (s1 & ok & Hr & Hs1 & Hev & Hpre & Hno).
  unfold notifyItem. fold (itemProof header) (confirmCount height item).
  rewrite (bind_run _ _ _ _ _ Hr).
  assert (Hmid : ∃ s2, (if ok then
      (s ← getS;
       _ ← try (sv_onTables (que_Put (mkQueItem (NotifyId item) (TxId item) (qi_Height item) (sv_now s / 10 ^ 9))));
       emit (EvNotify (NotifyId item) (itemProof header) tx))
    else mret ()) s1 = (Ok (), s2) ∧ same_service s s2 ∧
    sv_events s2 = sv_events s ++ notifyEvents s item (itemProof header) tx (confirmCount height item)).
  { destruct ok.
    - rewrite (bind_run getS _ _ _ _ eq_refl).
      destruct (try_tables (que_Put (mkQueItem (NotifyId item) (TxId item) (qi_Height item) (sv_now s1 / 10 ^ 9))) s1)
        as (r & s2 & Hp & Hs2 & He2); [apply que_Put_no_panic|].
      rewrite (bind_run _ _ _ _ _ Hp). eexists. split_and!; [apply emit_run| |].
      + destruct Hs1 as (?&?&?&?), Hs2 as (?&?&?&?). unfold same_service. cbn. split_and!; congruence.
      + cbn. by rewrite He2, Hev, app_assoc, <-Hpre.
    - exists s1. split_and!; [done|done|]. by rewrite Hev, app_nil_r, Hno. }
  destruct Hmid as (s2 & Hm & (Hs2 & Hrev & _) & He2). rewrite (bind_run _ _ _ _ _ Hm).
  rewrite (bind_run getS _ _ _ _ eq_refl). unfold revertEvents. rewrite Hrev.
  destruct (sv_revertListener s); cbn [andb].
  - destruct (bool_decide_reflect (etx_TxType tx = RevertToPOW)) as [Ht|Ht].
    + rewrite (bind_run _ _ _ _ _ (emit_run _ _)). rewrite bool_decide_false by congruence.
      eexists. split; [done|]. cbn. by rewrite He2, app_assoc.
    + rewrite (bind_run (mret ()) _ s2 () s2 eq_refl). cbn [orb].
      case_bool_decide; eexists; (split; [done|]); cbn; by rewrite He2, ?app_assoc, ?app_nil_r.
  - rewrite (bind_run (mret ()) _ s2 () s2 eq_refl). eexists. split; [done|]. by rewrite He2, app_nil_r.
Qed.
End notify.
