(* ===== verification/SpvDemo.v ===== *)
(** * Witnesses of the SPV service

    A service over an empty store that watches one address and has one
    listener, and a transaction that pays the address. *)
From Stdlib Require Import Floats.SpecFloat.
From S2P Require Import Demo Samples StoreDemo TxsDemo TablesDemo ArbitersDemo CustomIdDemo SpvNotify.

(** Every transaction read back pays the address 5. *)
Definition demo_pay (id : Uint256) : sample_tx :=
  mkST id (TxTypeOther 2) POther [mkOutput (h168 5) 10 0 OTOther OutputPayloadOther] [].
#[export] Instance demo_reader : TxReader sample_tx := {
  GetTransactionByBytes := id ← rd (array_codec 32); mret (demo_pay id);
  functions_GetTransactionByBytes := id ← rd (array_codec 32); mret (demo_pay id);
  tx_Deserialize t := mret t;
  elacommon_OutPoint_Bytes id i := OutPoint_Bytes (NewOutPoint id i);
}.
#[export] Instance demo_listenerlib : ListenerLib := {
  SpvService.Uint168FromAddress a := if decide (a = [x05]) then Some (h168 5) else None;
  ElemBytes b := λ buf, (Ok (), buf ++ b);
  ElemTxType t := λ buf, (Ok (), buf ++ le_bytes 1 (TxTypeCode (T := sample_tx) t));
  ElemUint64 z := λ buf, (Ok (), buf ++ le_bytes 8 z);
}.

Notation demo_spv := (spvservice (gmap bytes bytes) (list (Uint256 * Header sample_header)) sample_header sample_tx).
Definition demo_listener : TransactionListener := mkListener [x05] (TxTypeOther 2) 2.
Definition demo_listenerKey : Uint256 :=
  match getListenerKey demo_listener with Ok k => k | _ => zeroHash end.
Definition demo_ds : dataStore (gmap bytes bytes) :=
  mkDataStore ∅ {[h168 5 := h168 5]} ∅ (NewArbiters ∅ [] 36) (NewCustomID ∅ []).
Definition demo_verifyHeader : Header sample_header := mkHeader (mksh (h256 0) (h256 77) 5 0) 3 1 [h256 77] [x01] 9.
Definition demo_service : demo_spv :=
  mkSpv (mkHS ∅ None [(hdrHash demo_verifyHeader, demo_verifyHeader)]) demo_ds true
    {[demo_listenerKey := demo_listener]} true false x00 true (50 * 10 ^ 9) [].

Lemma spv_index_never_written_witness :
  GetTransactionIds 7 (PutTxs [demo_pay (h256 77)] 7 demo_service).2 =
    (Ok [], (PutTxs [demo_pay (h256 77)] 7 demo_service).2) ∧
  GetTxs 7 (PutTxs [demo_pay (h256 77)] 7 demo_service).2 =
    (Ok [], (PutTxs [demo_pay (h256 77)] 7 demo_service).2) ∧
  ∃ s', DelTxs 7 (PutTxs [demo_pay (h256 77)] 7 demo_service).2 = (Ok (), s') ∧
    ∀ k, sv_view s' !! txKey k = sv_view (PutTxs [demo_pay (h256 77)] 7 demo_service).2 !! txKey k.
Proof.
  apply (spv_index_never_written demo_service); [done|]. apply rtc_once, step_PutTxs.
Defined.

Lemma demo_listeners_ok : listeners_ok demo_service.
Proof.
  intros k l Hk. cbn [sv_listeners demo_service] in Hk. apply lookup_singleton_Some in Hk as [<- <-].
  split; [vm_compute; reflexivity|right; by eexists].
Qed.
Lemma demo_hit : hit demo_service (demo_pay (h256 77)) (h168 5).
Proof. left. exists 0%nat, (mkOutput (h168 5) 10 0 OTOther OutputPayloadOther). vm_compute. done. Qed.

(** A transaction that pays the address, one that does not, and one that does. *)
Definition demo_stray : sample_tx := mkST (h256 78) (TxTypeOther 2) POther [mkOutput (h168 6) 10 0 OTOther OutputPayloadOther] [].
Definition demo_block3 : list sample_tx := [demo_pay (h256 77); demo_stray; demo_pay (h256 79)].
Lemma demo_counted id : counted demo_service (demo_pay id).
Proof. right. exists (h168 5). left. exists 0%nat, (mkOutput (h168 5) 10 0 OTOther OutputPayloadOther). split_and!; vm_compute; reflexivity. Qed.
Lemma demo_not_counted : ¬ counted demo_service demo_stray.
Proof.
  intros [Ht|(a & [(i & o & Ho & <- & Hc)|(txid & i & Hin & _)])]; [vm_compute in Ht; congruence| |by apply not_elem_of_nil in Hin].
  destruct i as [|i]; [|discriminate Ho]. injection Ho as <-. vm_compute in Hc. congruence.
Qed.
Lemma demo_block3_ok tx : tx ∈ demo_block3 → tx_ok demo_service 7 tx.
Proof.
  intros Hin. unfold demo_block3 in Hin. rewrite !elem_of_cons in Hin.
  destruct Hin as [->|[->|[->|[]%not_elem_of_nil] ] ]; (split; [right; by exists 2|intros txid i []%not_elem_of_nil|done
    |split_and!; vm_compute; try (split; congruence); congruence]).
Qed.
Lemma PutTxs_spec_witness : ∃ s', PutTxs demo_block3 7 demo_service = (Ok 1, s') ∧
  GetTransaction (h256 79) s' = (Ok (demo_pay (h256 79)), s') ∧
  sv_view s' !! opKey (NewOutPoint (h256 77) 0) = Some (arr_bytes (h168 5)) ∧
  sv_view s' !! queKey demo_listenerKey (h256 79) = Some (be_bytes 4 7) ∧
  sv_view s' !! queKey demo_listenerKey (h256 78) = None ∧ sv_view s' !! txKey (h256 78) = None.
Proof.
  assert (Hn : (PutTxs demo_block3 7 demo_service).1 = Ok 1) by (vm_compute; reflexivity).
  destruct (PutTxs_spec demo_service demo_block3 7) as (s' & fps & Hr & _ & Hfps & Hrec & Hyes & Hque & _).
  - vm_compute. split; congruence.
  - exact demo_listeners_ok.
  - intros k v Hk. done.
  - exact demo_block3_ok.
  - apply (bool_decide_unpack _). vm_compute. exact I.
  - done.
  - assert (H77 : demo_pay (h256 77) ∈ demo_block3) by left. assert (H79 : demo_pay (h256 79) ∈ demo_block3) by (right; right; left).
    assert (H78 : demo_stray ∈ demo_block3) by (right; left).
    rewrite Hr in Hn. cbn [fst] in Hn. exists s'. rewrite <-Hn. split_and!.
    + exact Hr.
    + apply (Hyes _ H79 (demo_counted _)). vm_compute. reflexivity.
    + exact (proj1 (proj2 (Hyes _ H77 (demo_counted _))) 0%nat (mkOutput (h168 5) 10 0 OTOther OutputPayloadOther) eq_refl ltac:(vm_compute; reflexivity)).
    + apply (Hyes _ H79 (demo_counted _)) with demo_listener; [apply lookup_singleton_eq|].
      split; [reflexivity|]. right. exists (h168 5). split; [reflexivity|].
      left. exists 0%nat, (mkOutput (h168 5) 10 0 OTOther OutputPayloadOther). split_and!; vm_compute; reflexivity.
    + exact (Hque _ demo_listenerKey H78 (λ Hc, demo_not_counted (proj1 Hc))).
    + apply (Hrec demo_stray), Hfps. split; [exact H78|exact demo_not_counted].
Defined.

Definition demo_proof : MerkleProof := mkMerkleProof (hdrHash demo_verifyHeader) 3 1 [h256 77] [x01].
Lemma VerifyTransaction_authentic_witness :
  ∃ header hs, headers_Get (mp_BlockHash demo_proof) (sv_headers demo_service) = (Ok header, hs) ∧
    ∀ txids, MerkleRoot (BlockHeaderOf header) = merkle_root txids →
      mp_Transactions demo_proof = Z.of_nat (length txids) → Z.of_nat (length txids) ≤ 2 ^ 31 →
      etx_Hash (demo_pay (h256 77)) ∈ txids ∨ collide (check_inputs (proofBlock header demo_proof)) (block_inputs txids).
Proof.
  apply (VerifyTransaction_authentic demo_service (VerifyTransaction demo_proof (demo_pay (h256 77)) demo_service).2).
  vm_compute. reflexivity.
Defined.

Lemma MerkleProof_roundtrip_witness :
  ∃ bs, writes (MerkleProof_Serialize demo_proof) bs ∧ reads MerkleProof_Deserialize bs demo_proof.
Proof.
  pose proof (MerkleProof_roundtrip demo_proof ltac:(vm_compute; repeat split; congruence)) as Hr.
  rewrite bool_decide_true in Hr; [exact Hr|]. vm_compute. split; congruence.
Defined.
