(* ===== verification/Peer.v ===== *)
(** * The peer

    [peer/peer.go]: the wrapper around a connection that assembles a merkle
    block and its transactions into one block, watches for stalled requests and
    filters duplicate getblocks requests.  Each goroutine is a step function:
    [handleMessage] on a message of the connection, [blockHandler] on an item of
    the block queue, [stallHandler] on a control message or a tick.  What the
    wrapper sends, the callbacks it makes and the disconnection are events. *)
From S2P Require Export Merkle Txs.

(** ** Messages: [p2p/msg] *)
Inductive InvType := InvTypeTx | InvTypeBlock | InvTypeFilteredBlock | InvTypeOther (code : Z).
#[global] Instance InvType_eq_dec : EqDecision InvType.
Proof. solve_decision. Defined.
Record InvVect := mkInvVect { iv_Type : InvType; iv_Hash : Uint256 }.
#[global] Instance InvVect_eq_dec : EqDecision InvVect.
Proof. solve_decision. Defined.

(** [msg.Reject]: the command it answers and the hash. *)
Record Reject := mkReject { rj_Cmd : bytes; rj_Hash : Uint256 }.

Inductive Message (H T : Type) : Type :=
  | MVersion
  | MInv (InvList : list InvVect)
  | MMerkleBlock (m : MerkleBlock H)
  | MTx (tx : option T)                 (* None: not an Elastos transaction *)
  | MNotFound (InvList : list InvVect)
  | MReject (r : Reject)
  | MGetBlocks (Locator : list Uint256) (HashStop : Uint256)
  | MGetData (InvList : list InvVect)
  | MTxFilterLoad (Type_ : byte) (Data : bytes)
  | MStallClear                         (* stallClearMsg, on the control channel *)
  | MOther.
Arguments MVersion {H T}.
Arguments MInv {H T}.
Arguments MMerkleBlock {H T}.
Arguments MTx {H T}.
Arguments MNotFound {H T}.
Arguments MReject {H T}.
Arguments MGetBlocks {H T}.
Arguments MGetData {H T}.
Arguments MTxFilterLoad {H T}.
Arguments MStallClear {H T}.
Arguments MOther {H T}.

(** What a peer does to the rest of the program. *)
Inductive PeerEvent (H T : Type) : Type :=
  | OnVersion
  | OnInv (InvList : list InvVect)
  | OnBlock (block : Block H T)
  | OnTx (tx : T)
  | OnNotFound (InvList : list InvVect)
  | OnReject (r : Reject)
  | QueueMessage (m : Message H T)
  | Disconnect.
Arguments OnVersion {H T}.
Arguments OnInv {H T}.
Arguments OnBlock {H T}.
Arguments OnTx {H T}.
Arguments OnNotFound {H T}.
Arguments OnReject {H T}.
Arguments QueueMessage {H T}.
Arguments Disconnect {H T}.

(** [Uint256.String()] and [p2p.CmdInv], the keys of the pending responses. *)
Class PeerLib := { Hash_String : Uint256 → bytes; CmdInv : bytes }.

(** [stallResponseTimeout], in nanoseconds. *)
Definition stallResponseTimeout : Z := 15 * 10 ^ 9.

(** [blockQueue] is a channel with room for one message: the goroutine that reads
    the connection blocks on the next one, and what comes after stays on the
    connection.  [p_blockQueue] is all of them, in that order: the message in the
    channel, the one its reader is about to send and those still unread. *)
Record Peer (H T : Type) : Type := mkPeer {
  p_Connected : bool;
  p_prevGetBlocksBegin : option Uint256;
  p_prevGetBlocksStop : option Uint256;
  p_blockQueue : list (Message H T);       (* what is handed over and not yet handled, oldest first *)
  (* the variables of blockHandler *)
  p_header : option (Header H);
  p_pendingTxs : gset Uint256;
  p_txs : list T;
  (* the variables of stallHandler *)
  p_lastActive : Z;
  p_pendingResponses : gset bytes;
  p_events : list (PeerEvent H T);
}.
Arguments mkPeer {H T}.
Arguments p_Connected {H T}.
Arguments p_prevGetBlocksBegin {H T}.
Arguments p_prevGetBlocksStop {H T}.
Arguments p_blockQueue {H T}.
Arguments p_header {H T}.
Arguments p_pendingTxs {H T}.
Arguments p_txs {H T}.
Arguments p_lastActive {H T}.
Arguments p_pendingResponses {H T}.
Arguments p_events {H T}.

Section peer.
Context {H T : Type} `{!BlockHeader H} `{!Transaction T} `{!Sha} `{!PeerLib}.
Notation P := (Peer H T).

Definition NewPeer : P := mkPeer true None None [] None ∅ [] 0 ∅ [].

Definition set_queue (q : list (Message H T)) (p : P) : P :=
  mkPeer (p_Connected p) (p_prevGetBlocksBegin p) (p_prevGetBlocksStop p) q (p_header p) (p_pendingTxs p)
    (p_txs p) (p_lastActive p) (p_pendingResponses p) (p_events p).
Definition set_download (header : option (Header H)) (pending : gset Uint256) (txs : list T) (p : P) : P :=
  mkPeer (p_Connected p) (p_prevGetBlocksBegin p) (p_prevGetBlocksStop p) (p_blockQueue p) header pending
    txs (p_lastActive p) (p_pendingResponses p) (p_events p).
Definition set_stall (now : Z) (pending : gset bytes) (p : P) : P :=
  mkPeer (p_Connected p) (p_prevGetBlocksBegin p) (p_prevGetBlocksStop p) (p_blockQueue p) (p_header p)
    (p_pendingTxs p) (p_txs p) now pending (p_events p).
Definition set_prev (b e : option Uint256) (p : P) : P :=
  mkPeer (p_Connected p) b e (p_blockQueue p) (p_header p)
    (p_pendingTxs p) (p_txs p) (p_lastActive p) (p_pendingResponses p) (p_events p).
Definition post (e : PeerEvent H T) : GoM P unit :=
  modify (λ p, mkPeer (p_Connected p) (p_prevGetBlocksBegin p) (p_prevGetBlocksStop p) (p_blockQueue p) (p_header p)
    (p_pendingTxs p) (p_txs p) (p_lastActive p) (p_pendingResponses p) (p_events p ++ [e])).

(** [p.Disconnect()] *)
Definition disconnect : GoM P unit :=
  modify (λ p, mkPeer false (p_prevGetBlocksBegin p) (p_prevGetBlocksStop p) (p_blockQueue p) (p_header p)
    (p_pendingTxs p) (p_txs p) (p_lastActive p) (p_pendingResponses p) (p_events p)) ≫= λ _,
  post Disconnect.

(** ** [handleMessage] *)
Definition handleMessage (message : Message H T) : GoM P unit :=
  p ← getS;
  if negb (p_Connected p) then mret ()
  else
    match message with
    | MVersion => post OnVersion
    | MInv l => post (OnInv l)
    | MMerkleBlock _ | MTx _ => modify (λ p, set_queue (p_blockQueue p ++ [message]) p)
    | MNotFound l => post (OnNotFound l)
    | MReject r => post (OnReject r)
    | _ => mret ()
    end.

(** ** [blockHandler] *)
Definition notifyBlock : GoM P unit :=
  p ← getS;
  if negb (p_Connected p) then mret ()
  else
    header ← lift (or_panic (p_header p));
    post (OnBlock (mkBlock header (p_txs p))) ≫= λ _,
    modify (set_download None ∅ []).

Definition blockMessage (bmsg : Message H T) : GoM P unit :=
  p ← getS;
  match bmsg with
  | MMerkleBlock m =>
      match p_header p with
      | Some _ => disconnect
      | None =>
          txIds ← try (lift (default Panic (CheckMerkleBlock m)));
          match txIds with
          | inl _ => disconnect
          | inr txIds =>
              let header := mkHeader (mb_Header m) 0 (mb_Transactions m) (mb_Hashes m) (mb_Flags m) 0 in
              modify (λ p, set_download (Some header) (p_pendingTxs p) (p_txs p) p) ≫= λ _,
              match txIds with
              | [] => notifyBlock
              | _ => modify (λ p, set_download (p_header p) (list_to_set txIds) [] p)
              end
          end
      end
  | MTx None => mret ()
  | MTx (Some utx) =>
      match p_header p with
      | None => post (OnTx utx)
      | Some _ =>
          let txId := TxHash utx in
          if bool_decide (txId ∈ p_pendingTxs p) then
            modify (λ p, set_download (p_header p) (p_pendingTxs p ∖ {[txId]}) (p_txs p ++ [utx]) p) ≫= λ _,
            p ← getS;
            if bool_decide (size (p_pendingTxs p) = 0%nat) then notifyBlock else mret ()
          else disconnect
      end
  | _ => mret ()
  end.

(** One turn of the loop: wait for an item of the queue. *)
Definition blockHandler : GoM P unit :=
  p ← getS;
  match p_blockQueue p with
  | [] => mret ()
  | bmsg :: q => modify (set_queue q) ≫= λ _, blockMessage bmsg
  end.

(** ** [stallHandler] *)
(** The time of the last activity, then the responses still expected; the type
    assertion on a transaction panics when it is not an Elastos one. *)
Definition stallControl (now : Z) (ctrMsg : Message H T) : GoM P unit :=
  modify (λ p, set_stall now (p_pendingResponses p) p) ≫= λ _,
  pending ← (p ← getS; mret (p_pendingResponses p));
  pending ← (match ctrMsg with
    | MGetBlocks _ _ => mret ({[CmdInv]} ∪ pending)
    | MInv _ => mret (pending ∖ {[CmdInv]})
    | MGetData l => mret (list_to_set ((λ iv, Hash_String (iv_Hash iv)) <$> l) ∪ pending)
    | MMerkleBlock m => mret (pending ∖ {[Hash_String (Hash (mb_Header m))]})
    | MTx (Some tx) => mret (pending ∖ {[Hash_String (TxHash tx)]})
    | MTx None => lift Panic
    | MNotFound l => mret (pending ∖ list_to_set ((λ iv, Hash_String (iv_Hash iv)) <$> l))
    | MStallClear => mret ∅
    | _ => mret pending
    end);
  modify (set_stall now pending).

Definition stallTick (now : Z) : GoM P unit :=
  p ← getS;
  if bool_decide (size (p_pendingResponses p) = 0%nat) then mret ()
  else if now <? p_lastActive p + stallResponseTimeout then mret ()
  else disconnect.

Definition StallClear (now : Z) : GoM P unit := stallControl now MStallClear.

(** ** [PushGetBlocksMsg]; the locator's hashes are not nil. *)
Definition PushGetBlocksMsg (locator : list Uint256) (stopHash : Uint256) : GoM P unit :=
  let beginHash := head locator in
  p ← getS;
  let isDuplicate := bool_decide (is_Some (p_prevGetBlocksStop p)) && bool_decide (is_Some (p_prevGetBlocksBegin p)) &&
    bool_decide (is_Some beginHash) && bool_decide (p_prevGetBlocksStop p = Some stopHash) &&
    bool_decide (beginHash = p_prevGetBlocksBegin p) in
  if isDuplicate then mret ()
  else
    post (QueueMessage (MGetBlocks locator stopHash)) ≫= λ _,
    modify (set_prev beginHash (Some stopHash)).
End peer.
