(* ===== verification/PeerSpec.v ===== *)
(** * What a peer delivers

    The invariant of the download state, over every sequence of turns of the
    three goroutines: a delivered block has exactly the transactions its merkle
    tree proves.  And the download makes progress: when the transactions arrive
    the block is delivered. *)
From S2P Require Export Peer Keeps.

Section spec.
Context {H T : Type} `{!BlockHeader H} `{!Transaction T} `{!Sha} `{!PeerLib}.
Notation P := (Peer H T).

(** The message a header was taken from. *)
Definition messageOf (h : Header H) : MerkleBlock H :=
  mkMerkleBlock (BlockHeaderOf h) (NumTxs h) (Hashes h) (Flags h).
Definition hashes_of (txs : list T) : list Uint256 := TxHash <$> txs.

(** The header's tree proves [ids]; [txs] are some of them, each once, and
    [pending] the others. *)
Definition downloading (h : Header H) (pending : gset Uint256) (txs : list T) : Prop :=
  ∃ ids, CheckMerkleBlock (messageOf h) = Some (Ok ids) ∧ NoDup (hashes_of txs) ∧
    (∀ x, x ∈ hashes_of txs → x ∉ pending) ∧ (∀ x, x ∈ ids ↔ x ∈ hashes_of txs ∨ x ∈ pending).
(** A block that is complete. *)
Definition complete (b : Block H T) : Prop :=
  ∃ ids, CheckMerkleBlock (messageOf (BlockHdr b)) = Some (Ok ids) ∧
    NoDup (hashes_of (Transactions b)) ∧ ∀ x, x ∈ hashes_of (Transactions b) ↔ x ∈ ids.

Record peer_ok (p : P) : Prop := {
  po_download : match p_header p with
                | None => p_pendingTxs p = ∅ ∧ p_txs p = []
                | Some h => downloading h (p_pendingTxs p) (p_txs p)
                end;
  po_events : ∀ b, OnBlock b ∈ p_events p → complete b;
}.

Lemma NewPeer_ok : peer_ok NewPeer.
Proof. split; [done|]. by intros b ?%elem_of_nil. Qed.

Lemma post_ok e (p : P) : peer_ok p → (∀ b, e = OnBlock b → complete b) → peer_ok (post e p).2.
Proof.
  intros [Hd Hev] He. split; [exact Hd|]. intros b [?|Hb%list_elem_of_singleton]%elem_of_app; [by apply Hev|by apply He].
Qed.
Lemma keeps_post e : (∀ b, e = OnBlock b → complete b) → keeps peer_ok (post e).
Proof. intros He p Hp. split; [by apply post_ok|done]. Qed.
Lemma keeps_disconnect : keeps peer_ok disconnect.
Proof.
  unfold disconnect. apply keeps_bind; [|intros; by apply keeps_post]. apply keeps_modify. by intros p [? ?].
Qed.
#[local] Hint Resolve keeps_disconnect : keeps.
#[local] Hint Extern 2 (keeps _ (post _)) => by apply keeps_post : keeps.

(** [notifyBlock] is called when nothing is pending. *)
Lemma notifyBlock_ok (p : P) h : peer_ok p → p_header p = Some h → p_pendingTxs p = ∅ → peer_ok (notifyBlock p).2.
Proof.
  intros Hp Hh Hpe. unfold notifyBlock. rewrite (bind_run getS _ _ _ _ eq_refl).
  destruct (p_Connected p); [|exact Hp]. cbn [negb]. rewrite Hh.
  rewrite (bind_run (lift _) _ p h p eq_refl).
  rewrite (bind_run (post _) _ p () _ eq_refl). destruct Hp as [Hd He]. rewrite Hh in Hd.
  destruct Hd as (ids & Hc & Hnd & _ & Hall). rewrite Hpe in Hall. split; [done|]. cbn.
  intros b [?|Hb%list_elem_of_singleton]%elem_of_app; [by apply He|]. injection Hb as ->.
  exists ids. split_and!; [done|done|]. cbn. intros x. rewrite Hall. set_solver.
Qed.

Lemma blockMessage_ok bmsg (p : P) : peer_ok p → peer_ok (blockMessage bmsg p).2.
Proof.
  intros Hp. unfold blockMessage. rewrite (bind_run getS _ _ _ _ eq_refl).
  destruct bmsg as [| |m|[utx|]| | | | | | |]; try exact Hp.
  - destruct (p_header p) as [h|] eqn:Hh; [by apply keeps_disconnect|].
    pose proof (po_download p Hp) as Hd. rewrite Hh in Hd. destruct Hd as [Hpe Htx].
    destruct (CheckMerkleBlock m) as [[ids|e|]|] eqn:Hc; cbn [default from_option id]; [|by apply keeps_disconnect|done..].
    rewrite (bind_run (try _) _ p (inr ids) p) by done.
    set (h := mkHeader _ _ _ _ _ _).
    rewrite (bind_run (modify _) _ p () _ eq_refl).
    assert (Hm : CheckMerkleBlock (messageOf h) = Some (Ok ids)) by (by destruct m).
    destruct ids as [|i ids].
    + apply (notifyBlock_ok _ h); [|done|done]. split; [|apply Hp]. cbn. rewrite Htx, Hpe.
      exists []. split_and!; [done|constructor|set_solver|set_solver].
    + split; [|apply Hp]. cbn [p_header p_pendingTxs p_txs set_download modify snd].
      exists (i :: ids). split_and!; [done|constructor|set_solver|].
      intros x. rewrite elem_of_list_to_set. set_solver.
  - destruct (p_header p) as [h|] eqn:Hh; [|by apply keeps_post].
    case_bool_decide as Hin; [|by apply keeps_disconnect].
    rewrite (bind_run (modify _) _ p () _ eq_refl). rewrite (bind_run getS _ _ _ _ eq_refl).
    pose proof (po_download p Hp) as Hd. rewrite Hh in Hd. destruct Hd as (ids & Hc & Hnd & Hdis & Hall).
    set (p1 := set_download _ _ _ p).
    assert (Hp1 : peer_ok p1).
    { split; [|apply Hp]. cbn. rewrite Hh. exists ids. unfold hashes_of. rewrite fmap_app. cbn [fmap list_fmap]. split_and!; [done| | |].
      - apply NoDup_app. split_and!; [done| |apply NoDup_singleton].
        intros x Hx ->%list_elem_of_singleton. by apply (Hdis (TxHash utx)).
      - intros x. rewrite elem_of_app, list_elem_of_singleton. intros [Hx| ->]; [|set_solver].
        specialize (Hdis x Hx). set_solver.
      - intros x. rewrite Hall, elem_of_app, list_elem_of_singleton.
        destruct (decide (x = TxHash utx)); set_solver. }
    case_bool_decide as Hz; [|exact Hp1]. apply (notifyBlock_ok p1 h); [done|exact Hh|]. by apply size_empty_inv, leibniz_equiv in Hz.
Qed.

(** A turn of one of the goroutines, or a request of the sync manager. *)
Inductive peer_step : P → P → Prop :=
  | step_message p m : peer_step p (handleMessage m p).2
  | step_block p : peer_step p (blockHandler p).2
  | step_control p now m : peer_step p (stallControl now m p).2
  | step_tick p now : peer_step p (stallTick now p).2
  | step_getblocks p locator stop : peer_step p (PushGetBlocksMsg locator stop p).2.

Lemma peer_step_ok p p' : peer_step p p' → peer_ok p → peer_ok p'.
Proof.
  intros [p0 m|p0|p0 now m|p0 now|p0 locator stop] Hp.
  - unfold handleMessage. eapply (keeps_bind peer_ok); [apply keeps_getS| |exact Hp].
    intros q. keep; apply keeps_modify; by intros ? [].
  - unfold blockHandler. rewrite (bind_run getS _ _ _ _ eq_refl). destruct (p_blockQueue p0) as [|b q]; [done|].
    rewrite (bind_run (modify _) _ p0 () _ eq_refl). apply blockMessage_ok. by destruct Hp.
  - unfold stallControl. eapply (keeps_of peer_ok); [|exact Hp]. keep; try (apply keeps_modify; by intros ? []).
  - unfold stallTick. eapply (keeps_of peer_ok); [|exact Hp]. keep.
  - unfold PushGetBlocksMsg. eapply (keeps_of peer_ok); [|exact Hp]. keep; try (apply keeps_modify; by intros ? []).
Qed.
Lemma peer_reach_ok p p' : rtc peer_step p p' → peer_ok p → peer_ok p'.
Proof. induction 1; eauto using peer_step_ok. Qed.

(** C13: whatever a new peer receives, in whatever order its goroutines run, every
    block it delivers has exactly the transactions that the merkle tree of its
    header proves, each of them once. *)
Theorem peer_blocks_complete (p : P) b : rtc peer_step NewPeer p → OnBlock b ∈ p_events p →
  ∃ ids, CheckMerkleBlock (messageOf (BlockHdr b)) = Some (Ok ids) ∧
    NoDup (hashes_of (Transactions b)) ∧ ∀ x, x ∈ hashes_of (Transactions b) ↔ x ∈ ids.
Proof. intros Hr. apply po_events. eapply peer_reach_ok; [exact Hr|apply NewPeer_ok]. Qed.

(** ** Progress *)
(** [n] turns of the loop of [blockHandler]. *)
Fixpoint turns (n : nat) (p : P) : P :=
  match n with O => p | S n => turns n (blockHandler p).2 end.
(** The header [blockHandler] makes of a message. *)
Definition headerOf (m : MerkleBlock H) : Header H :=
  mkHeader (mb_Header m) 0 (mb_Transactions m) (mb_Hashes m) (mb_Flags m) 0.

(** In the middle of a download, the rest of the transactions arrives. *)
Lemma turns_txs ts (p : P) h q :
  p_Connected p = true → p_header p = Some h → p_blockQueue p = ((MTx ∘ Some) <$> ts) ++ q →
  ts ≠ [] → NoDup (hashes_of ts) → (∀ x, x ∈ hashes_of ts ↔ x ∈ p_pendingTxs p) →
  let p' := turns (length ts) p in
  p_events p' = p_events p ++ [OnBlock (mkBlock h (p_txs p ++ ts))] ∧ p_blockQueue p' = q ∧
  p_header p' = None ∧ p_Connected p' = true.
Proof.
  revert p. induction ts as [|t ts IH]; intros p Hc Hh Hq Hne Hnd Hall; [done|]. clear Hne.
  cbn [length turns]. unfold blockHandler. rewrite (bind_run getS _ _ _ _ eq_refl). rewrite Hq.
  cbn [fmap list_fmap app]. rewrite (bind_run (modify _) _ p () _ eq_refl).
  set (p1 := set_queue _ p). unfold blockMessage. rewrite (bind_run getS _ _ _ _ eq_refl).
  cbn [compose]. assert (Hh1 : p_header p1 = Some h) by exact Hh. rewrite Hh1.
  rewrite bool_decide_true by (apply Hall; left).
  rewrite (bind_run (modify _) _ p1 () _ eq_refl). rewrite (bind_run getS _ _ _ _ eq_refl).
  set (p2 := set_download _ _ _ p1).
  assert (Hpend : p_pendingTxs p2 = p_pendingTxs p ∖ {[TxHash t]}) by done.
  apply NoDup_cons in Hnd as [Hnin Hnd]. assert (Hrest : ∀ x, x ∈ hashes_of ts ↔ x ∈ p_pendingTxs p2).
  { intros x. rewrite Hpend, elem_of_difference, <-Hall, elem_of_singleton. cbn. rewrite elem_of_cons.
    split; [|naive_solver]. intros Hx. split; [by right|]. intros ->. done. }
  destruct ts as [|t' ts'].
  - rewrite bool_decide_true.
    2: { apply size_empty_iff. intros x. rewrite <-Hrest. set_solver. }
    unfold notifyBlock. rewrite (bind_run getS _ _ _ _ eq_refl).
    assert (Hc2 : p_Connected p2 = true) by exact Hc. rewrite Hc2. cbn [negb].
    assert (Hh2 : p_header p2 = Some h) by (cbn; exact Hh). rewrite Hh2.
    rewrite (bind_run (lift _) _ p2 h p2 eq_refl).
    rewrite (bind_run (post _) _ p2 () _ eq_refl). cbn. split_and!; done.
  - rewrite bool_decide_false.
    2: { intros Hz%size_empty_inv. apply (not_elem_of_empty (C := gset Uint256) (TxHash t')). rewrite <-Hz. apply Hrest. left. }
    destruct (IH p2) as (He & Hq' & Hh' & Hc'); [exact Hc|cbn; exact Hh|done|done|done|exact Hrest|].
    split_and!; [|done..]. etrans; [exact He|]. cbn [p_events p_txs p2 p1 set_download set_queue].
    by rewrite <-app_assoc.
Qed.

(** C19: an idle peer that gets an acceptable merkle block followed by its
    transactions, in any order, delivers the block after one turn for each
    message: it makes no other callback, stays connected, and is idle again. *)
Theorem peer_download_completes (p : P) m ids ts q :
  rtc peer_step NewPeer p → p_Connected p = true → p_header p = None →
  CheckMerkleBlock m = Some (Ok ids) → NoDup (hashes_of ts) → (∀ x, x ∈ hashes_of ts ↔ x ∈ ids) →
  p_blockQueue p = MMerkleBlock m :: ((MTx ∘ Some) <$> ts) ++ q →
  let p' := turns (S (length ts)) p in
  p_events p' = p_events p ++ [OnBlock (mkBlock (headerOf m) ts)] ∧ p_blockQueue p' = q ∧
  p_header p' = None ∧ p_Connected p' = true.
Proof.
  intros Hr Hc Hh Hm Hnd Hall Hq. pose proof (peer_reach_ok _ _ Hr NewPeer_ok) as Hok.
  pose proof (po_download p Hok) as Hd. rewrite Hh in Hd. destruct Hd as [Hpe Htx].
  cbn [turns]. unfold blockHandler. rewrite (bind_run getS _ _ _ _ eq_refl). rewrite Hq.
  rewrite (bind_run (modify _) _ p () _ eq_refl). set (p1 := set_queue _ p).
  unfold blockMessage. rewrite (bind_run getS _ _ _ _ eq_refl).
  assert (Hh1 : p_header p1 = None) by exact Hh. rewrite Hh1. rewrite Hm. cbn [default from_option id].
  rewrite (bind_run (try _) _ p1 (inr ids) p1) by done. fold (headerOf m).
  rewrite (bind_run (modify _) _ p1 () _ eq_refl).
  destruct ids as [|i ids].
  - assert (ts = []) as ->. { destruct ts as [|t ts]; [done|]. exfalso. eapply not_elem_of_nil, Hall. left. }
    unfold notifyBlock. rewrite (bind_run getS _ _ _ _ eq_refl). cbn [p_Connected set_download p1 set_queue].
    rewrite Hc. cbn [negb]. rewrite (bind_run (lift _) _ _ (headerOf m) _ eq_refl).
    rewrite (bind_run (post _) _ _ () _ eq_refl). cbn. by rewrite Htx.
  - set (p2 := (modify _ _).2).
    destruct (turns_txs ts p2 (headerOf m) q) as (He & Hq' & Hh' & Hc'); [exact Hc|done|done| |done| |].
    + intros ->. eapply not_elem_of_nil, Hall. left.
    + intros x. rewrite Hall. cbn. set_solver.
    + split_and!; done.
Qed.
End spec.
