(* ===== verification/FpRate.v ===== *)
(** * The false positive rate

    [fprate/fprate.go]: moving averages of the transactions of a block and of
    the filter's false positives, in IEEE double precision without fused
    operations. *)
From Stdlib Require Import Floats.SpecFloat.
From S2P Require Export Bloom.

Notation F64add := (SFadd 53 1024).
Notation F64sub := (SFsub 53 1024).

(** The constants, rounded to double precision: 0.0005, 0.00005, 0.999, 0.001,
    0.01 and 1400. *)
Definition DefaultFalsePositiveRate : spec_float := S754_finite false 0x10624dd2f1a9fc (-63).
Definition ReducedFalsePositiveRate : spec_float := S754_finite false 0x1a36e2eb1c432d (-67).
Definition f64_0_999 : spec_float := S754_finite false 0x1ff7ced916872b (-53).
Definition f64_0_001 : spec_float := S754_finite false 0x10624dd2f1a9fc (-62).
Definition f64_0_01 : spec_float := S754_finite false 0x147ae147ae147b (-59).
Definition f64_1400 : spec_float := S754_finite false 0x15e00000000000 (-42).

Record FpRate := mkFpRate { averageTxPerBlock : spec_float; fpRate : spec_float }.

Definition NewFpRate : FpRate := mkFpRate f64_1400 ReducedFalsePositiveRate.

(** [numTxs] is [block.NumTxs]. *)
Definition FpRate_Update (numTxs fps : Z) : GoM FpRate spec_float :=
  r ← getS;
  let average := F64add (F64mul (averageTxPerBlock r) f64_0_999) (F64mul (f64_of_u32 numTxs) f64_0_001) in
  let rate := F64add
    (F64mul (fpRate r) (F64sub f64_1 (F64div (F64mul f64_0_01 (f64_of_u32 numTxs)) average)))
    (F64div (F64mul f64_0_01 (f64_of_u32 fps)) average) in
  putS (mkFpRate average rate) ≫= λ _,
  mret rate.

Definition FpRate_Reset : GoM FpRate unit := modify (λ r, mkFpRate (averageTxPerBlock r) ReducedFalsePositiveRate).

(** [DefaultFalsePositiveRate * 10], a constant. *)
Definition tenfoldRate : spec_float := S754_finite false 0x147ae147ae147b (-60).
Example tenfoldRate_eq : F64mul DefaultFalsePositiveRate (f64_of_u32 10) = tenfoldRate.
Proof. reflexivity. Qed.

(** Blocks of average size without false positives do not raise the rate to the
    default one, whatever their number up to a thousand. *)
Definition rate_after (n : nat) (numTxs fps : Z) : spec_float :=
  fpRate (Nat.iter n (λ r, (FpRate_Update numTxs fps r).2) NewFpRate).
Example rate_quiet : SFltb (rate_after 1000 1400 0) ReducedFalsePositiveRate = true.
Proof. vm_compute. reflexivity. Qed.
(** A block of average size whose transactions are all false positives exceeds
    the limit at once. *)
Example rate_flood : SFltb tenfoldRate (rate_after 1 1400 1400) = true.
Proof. vm_compute. reflexivity. Qed.
