(* ===== verification/Sync.v ===== *)
(** * The sync manager

    [sync/manager.go]: the peers that can be synced from, the inventory that is
    asked of each, and the handlers of the message loop.  Peers are pointers:
    the state holds the objects they point to, and the maps are keyed by the
    pointer.  The loop handles one message at a time, so a message is a function
    of the state. *)
From Stdlib Require Import Floats.SpecFloat.
From S2P Require Export Peer FpRate Chain.

(** [msg.MaxInvPerMsg], an untyped constant. *)
Class MsgConsts := { MaxInvPerMsg : nat }.
Definition minInFlightBlocks : nat := 10.
(** 0.001 *)
Definition maxBadBlockRate : spec_float := f64_0_001.

Notation PeerPtr := nat.

(** A peer of the network layer with its wrapper. *)
Record netPeer (H T : Type) := mkNetPeer {
  np_peer : Peer H T; np_Height : Z; np_Services : Z; np_ID : Z;
}.
Arguments mkNetPeer {H T}.
Arguments np_peer {H T}.
Arguments np_Height {H T}.
Arguments np_Services {H T}.
Arguments np_ID {H T}.

Record peerSyncState := mkPeerSyncState {
  syncCandidate : bool;
  requestQueue : list InvVect;
  ps_requestedTxns : gmap Uint256 unit;
  ps_requestedBlocks : gmap Uint256 unit;
  receivedBlocks : Z;
  badBlocks : Z;
  ps_fpRate : FpRate;
}.

Definition badBlockRate (s : peerSyncState) : spec_float :=
  F64div (f64_of_u32 (badBlocks s)) (f64_of_u32 (receivedBlocks s)).

(** The calls on [Config.Chain] and the callbacks of [Config]; [C] is the state
    behind them. *)
Class SyncConfig (C H T : Type) := {
  chain_BestHeight : GoM C Z;
  chain_HaveBlock : Uint256 → GoM C bool;
  chain_LatestBlockLocator : GoL C (list Uint256);
  chain_CommitBlock : Block H T → GoL C (commitResult * Block H T);
  cfg_CandidateFlags : list Z;
  cfg_GetTxFilter : GoM C (Message H T);
  cfg_TransactionAnnounce : T → GoM C unit;
}.

Record SyncManager (C H T : Type) := mkSyncManager {
  sm_shutdown : bool;
  sm_cfg : C;
  sm_requestedTxns : gmap Uint256 unit;
  sm_requestedBlocks : gmap Uint256 unit;
  txMemPool : gmap Uint256 unit;
  syncPeer : option PeerPtr;
  peerStates : gmap PeerPtr peerSyncState;
  sm_peers : gmap PeerPtr (netPeer H T);      (* the objects the pointers point to *)
}.
Arguments mkSyncManager {C H T}.
Arguments sm_shutdown {C H T}.
Arguments sm_cfg {C H T}.
Arguments sm_requestedTxns {C H T}.
Arguments sm_requestedBlocks {C H T}.
Arguments txMemPool {C H T}.
Arguments syncPeer {C H T}.
Arguments peerStates {C H T}.
Arguments sm_peers {C H T}.

Section sync.
Context {C H T : Type} `{!BlockHeader H} `{!Transaction T} `{!Sha} `{!PeerLib} `{!MsgConsts} `{!MapOrder}.
Context `{!SyncConfig C H T}.
Notation SM := (SyncManager C H T).

Definition minPendingRequests : nat := MaxInvPerMsg.
Definition maxRequestedBlocks : nat := MaxInvPerMsg.
Definition maxRequestedTxns : nat := MaxInvPerMsg.

Definition sync_New (cfg : C) : SM := mkSyncManager false cfg ∅ ∅ ∅ None ∅ ∅.

(** ** Fields *)
Definition set_cfg (c : C) (s : SM) : SM :=
  mkSyncManager (sm_shutdown s) c (sm_requestedTxns s) (sm_requestedBlocks s) (txMemPool s) (syncPeer s) (peerStates s) (sm_peers s).
Definition set_txns (m : gmap Uint256 unit) (s : SM) : SM :=
  mkSyncManager (sm_shutdown s) (sm_cfg s) m (sm_requestedBlocks s) (txMemPool s) (syncPeer s) (peerStates s) (sm_peers s).
Definition set_blocks (m : gmap Uint256 unit) (s : SM) : SM :=
  mkSyncManager (sm_shutdown s) (sm_cfg s) (sm_requestedTxns s) m (txMemPool s) (syncPeer s) (peerStates s) (sm_peers s).
Definition set_mempool (m : gmap Uint256 unit) (s : SM) : SM :=
  mkSyncManager (sm_shutdown s) (sm_cfg s) (sm_requestedTxns s) (sm_requestedBlocks s) m (syncPeer s) (peerStates s) (sm_peers s).
Definition set_syncPeer (p : option PeerPtr) (s : SM) : SM :=
  mkSyncManager (sm_shutdown s) (sm_cfg s) (sm_requestedTxns s) (sm_requestedBlocks s) (txMemPool s) p (peerStates s) (sm_peers s).
Definition set_states (m : gmap PeerPtr peerSyncState) (s : SM) : SM :=
  mkSyncManager (sm_shutdown s) (sm_cfg s) (sm_requestedTxns s) (sm_requestedBlocks s) (txMemPool s) (syncPeer s) m (sm_peers s).
Definition set_peers (m : gmap PeerPtr (netPeer H T)) (s : SM) : SM :=
  mkSyncManager (sm_shutdown s) (sm_cfg s) (sm_requestedTxns s) (sm_requestedBlocks s) (txMemPool s) (syncPeer s) (peerStates s) m.

Definition ps_set_queue (q : list InvVect) (p : peerSyncState) : peerSyncState :=
  mkPeerSyncState (syncCandidate p) q (ps_requestedTxns p) (ps_requestedBlocks p) (receivedBlocks p) (badBlocks p) (ps_fpRate p).
Definition ps_set_txns (m : gmap Uint256 unit) (p : peerSyncState) : peerSyncState :=
  mkPeerSyncState (syncCandidate p) (requestQueue p) m (ps_requestedBlocks p) (receivedBlocks p) (badBlocks p) (ps_fpRate p).
Definition ps_set_blocks (m : gmap Uint256 unit) (p : peerSyncState) : peerSyncState :=
  mkPeerSyncState (syncCandidate p) (requestQueue p) (ps_requestedTxns p) m (receivedBlocks p) (badBlocks p) (ps_fpRate p).
Definition ps_set_candidate (b : bool) (p : peerSyncState) : peerSyncState :=
  mkPeerSyncState b (requestQueue p) (ps_requestedTxns p) (ps_requestedBlocks p) (receivedBlocks p) (badBlocks p) (ps_fpRate p).
Definition ps_set_counts (received bad : Z) (p : peerSyncState) : peerSyncState :=
  mkPeerSyncState (syncCandidate p) (requestQueue p) (ps_requestedTxns p) (ps_requestedBlocks p) received bad (ps_fpRate p).
Definition ps_set_fpRate (f : FpRate) (p : peerSyncState) : peerSyncState :=
  mkPeerSyncState (syncCandidate p) (requestQueue p) (ps_requestedTxns p) (ps_requestedBlocks p) (receivedBlocks p) (badBlocks p) f.

Definition onCfg {A} (m : GoM C A) : GoM SM A := zoom sm_cfg set_cfg m.
(** A nil or unknown pointer panics. *)
Definition getPeer (p : PeerPtr) : GoM SM (netPeer H T) := s ← getS; lift (or_panic (sm_peers s !! p)).
Definition getState (p : PeerPtr) : GoM SM peerSyncState := s ← getS; lift (or_panic (peerStates s !! p)).
Definition updState (p : PeerPtr) (f : peerSyncState → peerSyncState) : GoM SM unit :=
  modify (λ s, set_states (alter f p (peerStates s)) s).
(** A call on the wrapper of a peer. *)
Definition onPeer (p : PeerPtr) (m : GoM (Peer H T) unit) : GoM SM unit :=
  np ← getPeer p;
  let '(o, w) := m (np_peer np) in
  modify (λ s, set_peers (<[p := mkNetPeer w (np_Height np) (np_Services np) (np_ID np)]> (sm_peers s)) s) ≫= λ _,
  lift o.
Definition UpdateHeight (p : PeerPtr) (height : Z) : GoM SM unit :=
  np ← getPeer p;
  modify (λ s, set_peers (<[p := mkNetPeer (np_peer np) height (np_Services np) (np_ID np)]> (sm_peers s)) s).
Definition queueMessage (p : PeerPtr) (m : Message H T) : GoM SM unit := onPeer p (post (QueueMessage m)).

(** ** Choosing a peer *)
Definition current : GoM SM bool :=
  s ← getS;
  match syncPeer s with
  | None => mret true
  | Some p =>
      best ← onCfg chain_BestHeight;
      np ← getPeer p;
      mret (negb (best <? np_Height np))
  end.

Definition syncWith (p : PeerPtr) : GoL SM unit :=
  _ ←ₗ done_ (modify (set_blocks ∅));
  locator ←ₗ onCfg chain_LatestBlockLocator;
  _ ←ₗ done_ (onPeer p (PushGetBlocksMsg locator zeroHash));
  done_ (modify (set_syncPeer (Some p))).

(** The loop of [startSync]: candidates behind the chain are struck off until
    one is found that is not. *)
Fixpoint pickPeer (bestHeight : Z) (l : list (PeerPtr * peerSyncState)) : GoM SM (option PeerPtr) :=
  match l with
  | [] => mret None
  | (p, state) :: l =>
      if negb (syncCandidate state) then pickPeer bestHeight l
      else
        np ← getPeer p;
        if np_Height np <? bestHeight
        then updState p (ps_set_candidate false) ≫= λ _, pickPeer bestHeight l
        else mret (Some p)
  end.

Definition startSync : GoL SM unit :=
  s ← getS;
  match syncPeer s with
  | Some _ => mret (Some ())
  | None =>
      bestHeight ← onCfg chain_BestHeight;
      bestPeer ← pickPeer bestHeight (range (peerStates s));
      match bestPeer with
      | None => mret (Some ())
      | Some p =>
          np ← getPeer p;
          if np_Height np =? bestHeight then mret (Some ()) else syncWith p
      end
  end.

Definition isSyncCandidate (p : PeerPtr) : GoM SM bool :=
  np ← getPeer p;
  mret (forallb (λ flag, Z.land (np_Services np) flag =? flag) cfg_CandidateFlags).

(** Copies of the candidates. *)
Definition getSyncCandidates : GoM SM (list (netPeer H T)) :=
  s ← getS;
  mret (omap (λ x : PeerPtr * peerSyncState, if syncCandidate x.2 then sm_peers s !! x.1 else None) (range (peerStates s))).

Definition pushBloomFilter (p : PeerPtr) : GoM SM unit :=
  m ← onCfg cfg_GetTxFilter;
  queueMessage p m.

(** ** Peers come and go *)
Definition handleNewPeerMsg (p : PeerPtr) : GoL SM unit :=
  s ← getS;
  if sm_shutdown s then mret (Some ())
  else
    candidate ← isSyncCandidate p;
    modify (λ s, set_states (<[p := mkPeerSyncState candidate [] ∅ ∅ 0 0 NewFpRate]> (peerStates s)) s) ≫= λ _,
    if (candidate : bool) then
      pushBloomFilter p ≫= λ _,
      s ← getS;
      match syncPeer s with None => startSync | Some _ => mret (Some ()) end
    else mret (Some ()).

(** [for hash := range from { delete(m, hash) }] *)
Definition deleteAll (from m : gmap Uint256 unit) : gmap Uint256 unit :=
  foldl (λ m (kv : Uint256 * unit), delete kv.1 m) m (range from).

Definition handleDonePeerMsg (p : PeerPtr) : GoL SM unit :=
  s ← getS;
  match peerStates s !! p with
  | None => mret (Some ())
  | Some state =>
      modify (λ s, set_states (delete p (peerStates s)) s) ≫= λ _,
      modify (λ s, set_txns (deleteAll (ps_requestedTxns state) (sm_requestedTxns s)) s) ≫= λ _,
      modify (λ s, set_blocks (deleteAll (ps_requestedBlocks state) (sm_requestedBlocks s)) s) ≫= λ _,
      if decide (syncPeer s = Some p) then modify (set_syncPeer None) ≫= λ _, startSync
      else mret (Some ())
  end.

(** ** Requests *)
(** Evict the entry a range over the map starts with. *)
Definition limitMap (limit : nat) (m : gmap Uint256 unit) : gmap Uint256 unit :=
  if decide (limit < size m + 1)%nat then
    match range m with [] => m | (txHash, _) :: _ => delete txHash m end
  else m.

Definition haveInventory (iv : InvVect) : GoM SM bool :=
  match iv_Type iv with
  | InvTypeBlock => onCfg (chain_HaveBlock (iv_Hash iv))
  | InvTypeTx => s ← getS; mret (bool_decide (is_Some (txMemPool s !! iv_Hash iv)))
  | _ => mret true
  end.

(** What one entry of the queue adds to the request. *)
Definition requestOne (p : PeerPtr) (iv : InvVect) : GoM SM (list InvVect) :=
  s ← getS;
  match iv_Type iv with
  | InvTypeBlock =>
      match sm_requestedBlocks s !! iv_Hash iv with
      | Some _ => mret []
      | None =>
          modify (λ s, set_blocks (limitMap maxRequestedBlocks (<[iv_Hash iv := ()]> (sm_requestedBlocks s))) s) ≫= λ _,
          updState p (λ st, ps_set_blocks (<[iv_Hash iv := ()]> (ps_requestedBlocks st)) st) ≫= λ _,
          mret [mkInvVect InvTypeFilteredBlock (iv_Hash iv)]
      end
  | InvTypeTx =>
      match sm_requestedTxns s !! iv_Hash iv with
      | Some _ => mret []
      | None =>
          modify (λ s, set_txns (limitMap maxRequestedTxns (<[iv_Hash iv := ()]> (sm_requestedTxns s))) s) ≫= λ _,
          updState p (λ st, ps_set_txns (<[iv_Hash iv := ()]> (ps_requestedTxns st)) st) ≫= λ _,
          mret [iv]
      end
  | _ => mret []
  end.

(** The loop over the queue: the list requested and the rest of the queue. *)
Fixpoint requestLoop (p : PeerPtr) (requestQueue gdmsg : list InvVect) : GoM SM (list InvVect * list InvVect) :=
  match requestQueue with
  | [] => mret (gdmsg, [])
  | iv :: requestQueue =>
      l ← requestOne p iv;
      let gdmsg := gdmsg ++ l in
      if (MaxInvPerMsg <=? length gdmsg)%nat then mret (gdmsg, requestQueue)
      else requestLoop p requestQueue gdmsg
  end.

Definition requestQueuedInv (p : PeerPtr) : GoM SM unit :=
  state ← getState p;
  '(gdmsg, rest) ← requestLoop p (requestQueue state) [];
  updState p (ps_set_queue rest) ≫= λ _,
  match gdmsg with [] => mret () | _ => queueMessage p (MGetData gdmsg) end.

(** ** Handlers *)
Definition handleTxMsg (p : PeerPtr) (tx : T) : GoM SM unit :=
  s ← getS;
  match peerStates s !! p with
  | None => mret ()
  | Some state =>
      let txHash := TxHash tx in
      match ps_requestedTxns state !! txHash with
      | None => onPeer p disconnect
      | Some _ =>
          modify (λ s, set_mempool (<[txHash := ()]> (txMemPool s)) s) ≫= λ _,
          updState p (λ st, ps_set_txns (delete txHash (ps_requestedTxns st)) st) ≫= λ _,
          modify (λ s, set_txns (delete txHash (sm_requestedTxns s)) s) ≫= λ _,
          onCfg (cfg_TransactionAnnounce tx)
      end
  end.

(** [state.requestQueue = []; state.requestedBlocks = {}; sm.requestedBlocks = {}] *)
Definition clearRequests (p : PeerPtr) : GoM SM unit :=
  updState p (λ st, ps_set_blocks ∅ (ps_set_queue [] st)) ≫= λ _,
  modify (set_blocks ∅).

(** What follows a block that was added to the chain. *)
Definition blockAdded (p : PeerPtr) (block : Block H T) (r : commitResult) (now : Z) : GoM SM unit :=
  state ← getState p;
  let '(o, f) := FpRate_Update (NumTxs (BlockHdr block)) (cr_fps r) (ps_fpRate state) in
  rate ← lift o;
  updState p (ps_set_fpRate f) ≫= λ _,
  if SFltb tenfoldRate rate then onPeer p disconnect
  else
    np ← getPeer p;
    (if (u32 (cr_newHeight r + 500) <? np_Height np) && SFltb DefaultFalsePositiveRate rate then
       pushBloomFilter p ≫= λ _,
       updState p (λ st, ps_set_fpRate (FpRate_Reset (ps_fpRate st)).2 st)
     else mret ()) ≫= λ _,
    (if cr_reorg r then
       cur ← current;
       if (cur : bool) then clearRequests p else mret ()
     else mret ()) ≫= λ _,
    modify (set_mempool ∅) ≫= λ _,
    cur ← current;
    if (cur : bool) then
      onPeer p (StallClear now) ≫= λ _,
      UpdateHeight p (cr_newHeight r)
    else
      state ← getState p;
      if (size (ps_requestedBlocks state) <? minInFlightBlocks)%nat then requestQueuedInv p else mret ().

(** The block with the header [CommitBlock] filled in. *)
Definition handleBlockMsg (p : PeerPtr) (block : Block H T) (now : Z) : GoL SM (Block H T) :=
  s ← getS;
  ignore ← (if decide (syncPeer s = Some p) then mret false else cur ← current; mret (negb cur));
  if (ignore : bool) then mret (Some block)
  else
    match peerStates s !! p with
    | None => onPeer p disconnect ≫= λ _, mret (Some block)
    | Some state =>
        let blockHash := hdrHash (BlockHdr block) in
        match ps_requestedBlocks state !! blockHash with
        | None => onPeer p disconnect ≫= λ _, mret (Some block)
        | Some _ =>
            updState p (λ st, ps_set_counts (u32 (receivedBlocks st + 1)) (badBlocks st)
              (ps_set_blocks (delete blockHash (ps_requestedBlocks st)) st)) ≫= λ _,
            modify (λ s, set_blocks (delete blockHash (sm_requestedBlocks s)) s) ≫= λ _,
            rb ←ₗ onCfg (chain_CommitBlock block);
            let '(r, block) := (rb : commitResult * Block H T) in
            match cr_err r with
            | Some err =>
                if decide (err = OrphanBlockError) then
                  cur ← current;
                  if (cur : bool) then
                    clearRequests p ≫= λ _,
                    _ ←ₗ syncWith p;
                    mret (Some block)
                  else
                    updState p (λ st, ps_set_counts (receivedBlocks st) (u32 (badBlocks st + 1)) st) ≫= λ _,
                    state ← getState p;
                    (if SFltb maxBadBlockRate (badBlockRate state) then onPeer p disconnect else mret ()) ≫= λ _,
                    mret (Some block)
                else mret (Some block)
            | None =>
                if negb (cr_newTip r) then mret (Some block)
                else blockAdded p block r now ≫= λ _, mret (Some block)
            end
        end
    end.

(** The last block of the list. *)
Definition lastBlockOf (invVects : list InvVect) : option InvVect :=
  last (filter (λ iv, iv_Type iv = InvTypeBlock) invVects).

Definition queueInv (p : PeerPtr) (iv : InvVect) : GoM SM unit :=
  match iv_Type iv with
  | InvTypeBlock | InvTypeTx =>
      have ← haveInventory iv;
      if (have : bool) then mret ()
      else updState p (λ st, ps_set_queue (requestQueue st ++ [iv]) st)
  | _ => mret ()
  end.

Definition handleInvMsg (p : PeerPtr) (invVects : list InvVect) : GoM SM unit :=
  s ← getS;
  match peerStates s !! p with
  | None => mret ()
  | Some _ =>
      let lastBlock := lastBlockOf invVects in
      ignore ← (if decide (syncPeer s = Some p) then mret false else cur ← current; mret (negb cur));
      if (ignore : bool) then mret ()
      else
        forM invVects (queueInv p) ≫= λ _,
        cur ← current;
        state ← getState p;
        (if negb cur && (length (requestQueue state) <? minPendingRequests)%nat then
           match lastBlock with
           | Some iv => onPeer p (PushGetBlocksMsg [iv_Hash iv] zeroHash)
           | None => mret ()
           end
         else mret ()) ≫= λ _,
        requestQueuedInv p
  end.

(** ** The message loop *)
Inductive syncMsg :=
  | newPeerMsg (p : PeerPtr)
  | txMsg (tx : T) (p : PeerPtr)
  | blockMsg (block : Block H T) (p : PeerPtr) (now : Z)
  | invMsg (l : list InvVect) (p : PeerPtr)
  | donePeerMsg (p : PeerPtr)
  | getSyncPeerMsg
  | isCurrentMsg
  | pauseMsg.

Inductive syncReply := Done | Processed (block : option (Block H T)) | PeerID (id : Z) | IsCurrent (b : bool).

Definition sync_blockHandler (m : syncMsg) : GoL SM syncReply :=
  match m with
  | newPeerMsg p => _ ←ₗ handleNewPeerMsg p; mret (Some Done)
  | txMsg tx p => handleTxMsg p tx ≫= λ _, mret (Some (Processed None))
  | blockMsg block p now => b ←ₗ handleBlockMsg p block now; mret (Some (Processed (Some b)))
  | invMsg l p => handleInvMsg p l ≫= λ _, mret (Some Done)
  | donePeerMsg p => _ ←ₗ handleDonePeerMsg p; mret (Some Done)
  | getSyncPeerMsg =>
      s ← getS;
      match syncPeer s with
      | None => mret (Some (PeerID 0))
      | Some p => np ← getPeer p; mret (Some (PeerID (np_ID np)))
      end
  | isCurrentMsg => b ← current; mret (Some (IsCurrent b))
  | pauseMsg => mret (Some Done)
  end.

(** [NewPeer], [QueueTx], [QueueBlock], [QueueInv] and [DonePeer] drop the message
    when the manager is shutting down; [SyncPeerID], [IsCurrent] and [Pause] do
    not look. *)
Definition queued (m : syncMsg) (s : SM) : option syncMsg :=
  match m with
  | getSyncPeerMsg | isCurrentMsg | pauseMsg => Some m
  | _ => if sm_shutdown s then None else Some m
  end.
Definition sync_Stop : GoM SM unit :=
  modify (λ s, mkSyncManager true (sm_cfg s) (sm_requestedTxns s) (sm_requestedBlocks s) (txMemPool s)
    (syncPeer s) (peerStates s) (sm_peers s)).
End sync.
Arguments syncMsg : clear implicits.
Arguments newPeerMsg {H T}.
Arguments txMsg {H T}.
Arguments blockMsg {H T}.
Arguments invMsg {H T}.
Arguments donePeerMsg {H T}.
Arguments getSyncPeerMsg {H T}.
Arguments isCurrentMsg {H T}.
Arguments pauseMsg {H T}.
