(* ===== verification/SyncSpec.v ===== *)
(** * The sync manager keeps its tables in order

    Every message about a connected peer is processed to the end, whatever was
    processed before; the tables of requests stay below their limits; and the
    chain is only given blocks that were asked for. *)
From Stdlib Require Import Floats.SpecFloat.
From S2P Require Export Sync Keeps.

(** What the handlers rely on: the reads of the chain return without changing it,
    committing an admissible block ends and keeps the chain's invariant, and the
    callbacks return. *)
Class SyncConfigLaws {C H T} `{!SyncConfig C H T} (cI : C → Prop) (commit_pre : C → Block H T → Prop) : Prop := {
  best_read : ∀ c, cI c → ∃ h, chain_BestHeight c = (Ok h, c);
  have_read : ∀ h c, cI c → ∃ b, chain_HaveBlock h c = (Ok b, c);
  locator_read : ∀ c, cI c → ∃ l, chain_LatestBlockLocator c = (Ok (Some l), c);
  commit_ends : ∀ b c, cI c → commit_pre c b → ∃ r c', chain_CommitBlock b c = (Ok (Some r), c') ∧ cI c';
  filter_returns : ∀ c, cI c → ∃ m c', cfg_GetTxFilter c = (Ok m, c') ∧ cI c' ∧ ∀ l, m ≠ MGetData l;
  announce_returns : ∀ tx c, cI c → ∃ c', cfg_TransactionAnnounce tx c = (Ok (), c') ∧ cI c';
}.

Section spec.
Context {C H T : Type} `{!BlockHeader H} `{!Transaction T} `{!Sha} `{!PeerLib} `{!MsgConsts} `{!MapOrder}.
Context `{!SyncConfig C H T}.
Context (Hmax : (0 < MaxInvPerMsg)%nat).
Notation SM := (SyncManager C H T).

(** The requests queued on a peer are not too long. *)
Definition requests_ok (w : Peer H T) : Prop :=
  ∀ l, QueueMessage (MGetData l) ∈ p_events w → (length l ≤ MaxInvPerMsg)%nat.

Record sync_ok (s : SM) : Prop := {
  so_peers : ∀ p, is_Some (peerStates s !! p) → is_Some (sm_peers s !! p);
  so_sync : ∀ p, syncPeer s = Some p → is_Some (peerStates s !! p);
  so_blocks : (size (sm_requestedBlocks s) < MaxInvPerMsg)%nat;
  so_txns : (size (sm_requestedTxns s) < MaxInvPerMsg)%nat;
  so_msgs : ∀ p np, sm_peers s !! p = Some np → requests_ok (np_peer np);
}.

Lemma limitMap_size (m : gmap Uint256 unit) h :
  (size m < MaxInvPerMsg)%nat → (size (limitMap MaxInvPerMsg (<[h := ()]> m)) < MaxInvPerMsg)%nat.
Proof.
  intros Hm. assert (Hi : (size (<[h := ()]> m) ≤ S (size m))%nat).
  { rewrite map_size_insert. destruct (m !! h); unfold id; lia. }
  unfold limitMap. case_decide as Hd; [|lia].
  destruct (range (<[h:=()]> m)) as [|[k u] l] eqn:Hr.
  - exfalso. pose proof (range_lookup (<[h:=()]> m)) as He. rewrite Hr in He. cbn in He.
    symmetry in He. by apply insert_non_empty in He.
  - assert (Hk : <[h:=()]> m !! k = Some u) by (apply range_elem; rewrite Hr; left).
    rewrite map_size_delete, Hk. cbn. lia.
Qed.
Lemma delete_size k (m : gmap Uint256 unit) : (size (delete k m) ≤ size m)%nat.
Proof. rewrite map_size_delete. destruct (m !! k); cbn; unfold id; lia. Qed.
Lemma deleteAll_size from (m : gmap Uint256 unit) : (size (deleteAll from m) ≤ size m)%nat.
Proof.
  unfold deleteAll. generalize (range from) as l. intros l. revert m.
  induction l as [|[k u] l IH]; intros m; [done|]. cbn. etrans; [apply IH|apply delete_size].
Qed.

(** ** Invariants of a handler: the tables, the chain, and some known peers *)
Context (cI : C → Prop) (commit_pre : C → Block H T → Prop) `{!SyncConfigLaws cI commit_pre}.

Definition known (ps : gset PeerPtr) (s : SM) : Prop :=
  sync_ok s ∧ cI (sm_cfg s) ∧ ∀ p, p ∈ ps → is_Some (peerStates s !! p).

Lemma known_peer ps s p : known ps s → p ∈ ps → is_Some (sm_peers s !! p).
Proof. intros (Hok & _ & Hp) Hin. by apply (so_peers s Hok), Hp. Qed.

Lemma best_total : returns_in cI chain_BestHeight.
Proof. intros c Hc. destruct (best_read c Hc) as [h Hr]. by exists h, c. Qed.
Lemma have_total h : returns_in cI (chain_HaveBlock h).
Proof. intros c Hc. destruct (have_read h c Hc) as [b Hr]. by exists b, c. Qed.
Lemma locator_total : endsL cI chain_LatestBlockLocator.
Proof. intros c Hc. destruct (locator_read c Hc) as [l Hr]. exists (Some l), c. by split_and!. Qed.
Lemma filter_total : total cI cfg_GetTxFilter (λ m, ∀ l, m ≠ MGetData l).
Proof. intros c Hc. destruct (filter_returns c Hc) as (m & c' & ? & ? & ?). by exists m, c'. Qed.
Lemma announce_total tx : returns_in cI (cfg_TransactionAnnounce tx).
Proof. intros c Hc. destruct (announce_returns tx c Hc) as (c' & ? & ?). by exists (), c'. Qed.

Section rules.
Context (ps : gset PeerPtr).
Notation I := (known ps).

Lemma total_onCfg {A} (m : GoM C A) Q : total cI m Q → total I (onCfg m) Q.
Proof.
  intros Hm. eapply total_zoom; [| |exact Hm]; [by intros s (_ & ? & _)|].
  intros s c ([] & _ & Hp) Hc. split; [by constructor|done].
Qed.
Lemma total_getPeer p : p ∈ ps → returns_in I (getPeer p).
Proof.
  intros Hin s Hs. destruct (known_peer ps s p Hs Hin) as [np Hnp]. exists np, s.
  unfold getPeer. rewrite (bind_run getS _ _ _ _ eq_refl). by rewrite Hnp.
Qed.
Lemma total_getState p : p ∈ ps → returns_in I (getState p).
Proof.
  intros Hin s Hs. destruct (proj2 (proj2 Hs) p Hin) as [st Hst]. exists st, s.
  unfold getState. rewrite (bind_run getS _ _ _ _ eq_refl). by rewrite Hst.
Qed.
Lemma total_updState p f : returns_in I (updState p f).
Proof.
  apply total_modify; [|done]. intros s ([] & Hc & Hp).
  assert (Hi : ∀ q, is_Some (alter f p (peerStates s) !! q) ↔ is_Some (peerStates s !! q)).
  { intros q. destruct (decide (p = q)) as [<-|]; [|by rewrite lookup_alter_ne].
    by rewrite lookup_alter_eq, fmap_is_Some. }
  split; [|split; [exact Hc|intros q Hq; by apply Hi, Hp]].
  constructor; cbn; [intros q Hq%Hi; auto|intros q Hq; apply Hi; auto|done..].
Qed.
Lemma total_setBlocks (f : SM → gmap Uint256 unit) :
  (∀ s, sync_ok s → (size (f s) < MaxInvPerMsg)%nat) → returns_in I (modify (λ s, set_blocks (f s) s)).
Proof.
  intros Hf. apply total_modify; [|done]. intros s (Hok & Hc & Hp). split; [|done].
  pose proof (Hf s Hok). destruct Hok. by constructor.
Qed.
Lemma total_setTxns (f : SM → gmap Uint256 unit) :
  (∀ s, sync_ok s → (size (f s) < MaxInvPerMsg)%nat) → returns_in I (modify (λ s, set_txns (f s) s)).
Proof.
  intros Hf. apply total_modify; [|done]. intros s (Hok & Hc & Hp). split; [|done].
  pose proof (Hf s Hok). destruct Hok. by constructor.
Qed.
Lemma total_setMempool (f : SM → gmap Uint256 unit) : returns_in I (modify (λ s, set_mempool (f s) s)).
Proof. apply total_modify; [|done]. intros s ([] & Hc & Hp). split; [by constructor|done]. Qed.
Lemma total_setSync p : p ∈ ps → returns_in I (modify (set_syncPeer (Some p))).
Proof.
  intros Hin. apply total_modify; [|done]. intros s ([] & Hc & Hp).
  split; [constructor; try done|done]. cbn. intros q [= <-]. by apply Hp.
Qed.

(** The wrappers' calls of the manager. *)
Definition peer_call (m : GoM (Peer H T) unit) : Prop :=
  ∀ w, requests_ok w → ∃ w', m w = (Ok (), w') ∧ requests_ok w'.
Lemma onPeer_run s p m : I s → is_Some (sm_peers s !! p) → peer_call m →
  ∃ s', onPeer p m s = (Ok (), s') ∧ I s'.
Proof.
  intros (Hok & Hc & Hp) [np Hnp] Hm. destruct (Hm (np_peer np) (so_msgs s Hok p np Hnp)) as (w & Hw & Hr).
  exists (set_peers (<[p := mkNetPeer w (np_Height np) (np_Services np) (np_ID np)]> (sm_peers s)) s).
  split; [|split; [|done]].
  - unfold onPeer, getPeer. rewrite (bind_run _ _ s np s); [by rewrite Hw|].
    rewrite (bind_run getS _ _ _ _ eq_refl). by rewrite Hnp.
  - destruct Hok as [H1' H2' H3' H4' H5']. constructor; cbn; [| |done..|].
    + intros q Hq. rewrite lookup_insert_is_Some'. auto.
    + done.
    + intros q np' [[<- <-]|[_ Hq]]%lookup_insert_Some; [done|by eapply H5'].
Qed.
Lemma total_onPeer p m : p ∈ ps → peer_call m → returns_in I (onPeer p m).
Proof.
  intros Hin Hm s Hs. destruct (onPeer_run s p m Hs (known_peer ps s p Hs Hin) Hm) as (s' & Hr & Hs').
  by exists (), s'.
Qed.

(** ** The parts of the handlers *)
Lemma peer_call_post e : (∀ l, e = QueueMessage (MGetData l) → (length l ≤ MaxInvPerMsg)%nat) → peer_call (post e).
Proof.
  intros He w Hw. eexists. split; [done|]. intros l Hl. cbn in Hl.
  apply elem_of_app in Hl as [Hl|Hl%list_elem_of_singleton]; [by apply Hw|by apply He].
Qed.
Lemma peer_call_disconnect : peer_call disconnect.
Proof.
  intros w Hw. unfold disconnect. rewrite (bind_run (modify _) _ w () _ eq_refl). by apply peer_call_post.
Qed.
Lemma peer_call_getblocks l h : peer_call (PushGetBlocksMsg l h).
Proof.
  intros w Hw. unfold PushGetBlocksMsg. rewrite (bind_run getS _ _ _ _ eq_refl).
  destruct (_ && _ && _ && _ && _); [by exists w|].
  rewrite (bind_run (post _) _ w () _ eq_refl). eexists. split; [done|]. intros l' Hl. cbn in Hl.
  apply elem_of_app in Hl as [Hl|Hl%list_elem_of_singleton]; [by apply Hw|done].
Qed.
Lemma peer_call_StallClear now : peer_call (StallClear now).
Proof. intros w Hw. eexists. split; [reflexivity|exact Hw]. Qed.

Lemma total_disconnect p : p ∈ ps → returns_in I (onPeer p disconnect).
Proof. intros. by apply total_onPeer, peer_call_disconnect. Qed.
Lemma total_queueMessage p m : p ∈ ps → (∀ l, m = MGetData l → (length l ≤ MaxInvPerMsg)%nat) →
  returns_in I (queueMessage p m).
Proof. intros Hin Hm. apply total_onPeer, peer_call_post; [done|]. intros l [= ->]. by apply Hm. Qed.

(** The sync peer is among the known ones, if it is added. *)
Lemma current_run s : I s → ∃ b, current s = (Ok b, s).
Proof.
  intros Hs. unfold current. rewrite (bind_run getS _ _ _ _ eq_refl).
  destruct (syncPeer s) as [p|] eqn:Hsp; [|by exists true].
  destruct Hs as (Hok & Hc & _). destruct (best_read _ Hc) as [best Hr].
  rewrite (bind_run (onCfg _) _ s best s); [|unfold onCfg, zoom; rewrite Hr; by destruct s].
  destruct (so_peers s Hok p (so_sync s Hok p Hsp)) as [np Hnp].
  rewrite (bind_run (getPeer p) _ s np s); [by eexists|].
  unfold getPeer. rewrite (bind_run getS _ _ _ _ eq_refl). by rewrite Hnp.
Qed.
Lemma total_current : returns_in I current.
Proof. intros s Hs. destruct (current_run s Hs) as [b ?]. by exists b, s. Qed.

Lemma total_syncWith p : p ∈ ps → endsL I (syncWith p).
Proof.
  intros Hin. unfold syncWith.
  eapply total_bindL; [apply total_done, (total_setBlocks (λ _, ∅))|].
  { intros. rewrite map_size_empty. lia. }
  intros _ _. eapply (total_bindL _ _ _ (λ _, True)).
  { eapply total_weaken; [apply total_onCfg, locator_total|]. intros o [a ->]. by exists a. }
  intros locator _. eapply total_bindL; [apply total_done, total_onPeer; [done|apply peer_call_getblocks]|].
  intros _ _. eapply total_weaken; [apply total_done, total_setSync, Hin|]. intros o (a & -> & _). by eexists.
Qed.

Lemma total_pickPeer best l : (∀ p st, (p, st) ∈ l → p ∈ ps) →
  total I (pickPeer best l) (λ o, ∀ p, o = Some p → p ∈ ps).
Proof.
  induction l as [|[p st] l IH]; intros Hl; cbn [pickPeer]; [by apply total_ret|].
  assert (IH' := IH ltac:(set_solver)). destruct (negb (syncCandidate st)); [exact IH'|].
  assert (Hin : p ∈ ps) by (apply (Hl p st); left).
  eapply total_bind; [by apply total_getPeer|]. intros np _. destruct (np_Height np <? best).
  - eapply total_bind; [apply total_updState|]. intros _ _. exact IH'.
  - apply total_ret. by intros q [= <-].
Qed.
End rules.

(** More peers can be taken as known in a given state. *)
Lemma known_dom ps s : known ps s → known (ps ∪ dom (peerStates s)) s.
Proof.
  intros (Hok & Hc & Hp). split_and!; [done|done|]. intros p [?|?%elem_of_dom]%elem_of_union; auto.
Qed.
Lemma known_weaken ps ps' s : ps ⊆ ps' → known ps' s → known ps s.
Proof. intros Hsub (Hok & Hc & Hp). split_and!; [done|done|]. intros p Hin. by apply Hp, Hsub. Qed.

Lemma total_startSync ps : endsL (known ps) startSync.
Proof.
  intros s Hs. unfold startSync. rewrite (bind_run getS _ _ _ _ eq_refl).
  destruct (syncPeer s); [by exists (Some ()), s|].
  set (ps' := ps ∪ dom (peerStates s)). assert (Hs' : known ps' s) by by apply known_dom.
  assert (Htot : endsL (known ps') (best ← onCfg chain_BestHeight;
    bestPeer ← pickPeer best (range (peerStates s));
    match bestPeer with
    | None => mret (Some ())
    | Some p => np ← getPeer p; if np_Height np =? best then mret (Some ()) else syncWith p
    end)).
  { eapply total_bind; [apply total_onCfg, best_total|]. intros best _.
    eapply total_bind; [apply total_pickPeer|].
    { intros p st Hin%range_elem. apply elem_of_union_r, elem_of_dom. by exists st. }
    intros [p|] Hp; [|by apply total_ret]. eapply total_bind; [by apply total_getPeer, Hp|].
    intros np _. destruct (_ =? _); [by apply total_ret|]. by apply total_syncWith, Hp. }
  destruct (Htot s Hs') as (o & s' & Hr & Hk & Ho). exists o, s'. split_and!; [done| |done].
  eapply known_weaken; [|done]. set_solver.
Qed.

Create HintDb total.
#[local] Hint Resolve total_getPeer total_getState total_updState total_disconnect total_current
  total_setMempool total_syncWith total_startSync : total.
#[local] Hint Extern 2 (total _ (mret _) _) => by apply total_ret : total.
(** Follow a call whose values do not matter. *)
Ltac tot1 :=
  match goal with
  | |- ∀ _, _ => intros
  | |- True → _ => intros _
  | |- total _ (match ?x with _ => _ end) _ => destruct x
  | |- total _ (_ ≫= _) _ => eapply (total_bind _ _ _ (λ _, True))
  | |- total _ _ _ => solve [eauto with total]
  end.
Ltac tot := repeat tot1.

Section handlers.
Context (ps : gset PeerPtr) (p : PeerPtr) (Hin : p ∈ ps).
Notation I := (known ps).

Lemma total_requestOne iv : total I (requestOne p iv) (λ l, (length l ≤ 1)%nat).
Proof.
  unfold requestOne. eapply total_bind; [apply total_getS|]. intros s (Hok & _).
  destruct (iv_Type iv).
  - destruct (sm_requestedTxns s !! iv_Hash iv); [apply total_ret; cbn; lia|].
    eapply total_bind; [apply (total_setTxns ps (λ s, limitMap maxRequestedTxns (<[iv_Hash iv := ()]> (sm_requestedTxns s))))|].
    { intros s' Hs'. apply limitMap_size, Hs'. }
    intros _ _. eapply total_bind; [apply total_updState|]. intros _ _. apply total_ret. cbn. lia.
  - destruct (sm_requestedBlocks s !! iv_Hash iv); [apply total_ret; cbn; lia|].
    eapply total_bind; [apply (total_setBlocks ps (λ s, limitMap maxRequestedBlocks (<[iv_Hash iv := ()]> (sm_requestedBlocks s))))|].
    { intros s' Hs'. apply limitMap_size, Hs'. }
    intros _ _. eapply total_bind; [apply total_updState|]. intros _ _. apply total_ret. cbn. lia.
  - apply total_ret. cbn. lia.
  - apply total_ret. cbn. lia.
Qed.
Lemma total_requestLoop q gd : (length gd < MaxInvPerMsg)%nat →
  total I (requestLoop p q gd) (λ r, (length r.1 ≤ MaxInvPerMsg)%nat).
Proof.
  revert gd. induction q as [|iv q IH]; intros gd Hgd; cbn [requestLoop]; [apply total_ret; cbn; lia|].
  eapply total_bind; [apply total_requestOne|]. intros l Hl.
  destruct (Nat.leb_spec MaxInvPerMsg (length (gd ++ l))) as [Hle|Hlt].
  - apply total_ret. cbn in Hl |- *. rewrite length_app. lia.
  - by apply IH.
Qed.
Lemma total_requestQueuedInv : returns_in I (requestQueuedInv p).
Proof.
  unfold requestQueuedInv. eapply total_bind; [by apply total_getState|]. intros st _.
  eapply total_bind; [apply total_requestLoop; cbn; lia|]. intros [gd rest] Hgd. cbn in Hgd.
  eapply total_bind; [apply total_updState|]. intros _ _.
  destruct gd; [by apply total_ret|]. apply total_queueMessage; [done|]. by intros l [= <-].
Qed.
Lemma total_pushBloomFilter : returns_in I (pushBloomFilter p).
Proof.
  unfold pushBloomFilter. eapply total_bind; [apply total_onCfg, filter_total|]. intros m Hm.
  apply total_queueMessage; [done|]. intros l ->. by destruct (Hm l).
Qed.
Lemma total_clearRequests : returns_in I (clearRequests p).
Proof.
  unfold clearRequests. eapply total_bind; [apply total_updState|]. intros _ _.
  apply (total_setBlocks ps (λ _, ∅)). intros. rewrite map_size_empty. lia.
Qed.
Lemma total_UpdateHeight h : returns_in I (UpdateHeight p h).
Proof.
  intros s Hs. destruct (known_peer ps s p Hs Hin) as [np Hnp]. unfold UpdateHeight.
  rewrite (bind_run (getPeer p) _ s np s).
  2: { unfold getPeer. rewrite (bind_run getS _ _ _ _ eq_refl). by rewrite Hnp. }
  eexists (), _. split_and!; [done| |done]. destruct Hs as ([Ha Hb Hc Hd He] & Hci & Hp).
  split; [|done]. constructor; cbn; [|done..|].
  - intros q Hq. rewrite lookup_insert_is_Some'. auto.
  - intros q np' [[<- <-]|[_ Hq]]%lookup_insert_Some; [exact (He _ _ Hnp)|by eapply He].
Qed.
Lemma total_StallClear now : returns_in I (onPeer p (StallClear now)).
Proof. apply total_onPeer, peer_call_StallClear. done. Qed.
Lemma total_lift_ok {A} (a : A) : returns_in I (lift (Ok a)).
Proof. by apply total_ret. Qed.
#[local] Hint Resolve total_requestQueuedInv total_pushBloomFilter total_clearRequests total_UpdateHeight
  total_StallClear total_lift_ok : total.

Lemma total_blockAdded block r now : returns_in I (blockAdded p block r now).
Proof.
  unfold blockAdded. eapply total_bind; [by apply total_getState|]. intros st _.
  destruct (FpRate_Update _ _ _) as [o f] eqn:Hf.
  assert (∃ rate, o = Ok rate) as [rate ->].
  { unfold FpRate_Update in Hf. rewrite (bind_run getS _ _ _ _ eq_refl) in Hf.
    rewrite (bind_run (putS _) _ _ () _ eq_refl) in Hf. injection Hf as <- <-. by eexists. }
  tot.
Qed.

(** What follows the commit. *)
Definition afterCommit (r : commitResult) (block : Block H T) (now : Z) : GoL SM (Block H T) :=
  match cr_err r with
  | Some err =>
      if decide (err = OrphanBlockError) then
        cur ← current;
        if (cur : bool) then
          clearRequests p ≫= λ _,
          _ ←ₗ syncWith p;
          mret (Some block)
        else
          updState p (λ st, ps_set_counts (receivedBlocks st) (u32 (badBlocks st + 1)) st) ≫= λ _,
          state ← getState p;
          (if SFltb maxBadBlockRate (badBlockRate state) then onPeer p disconnect else mret ()) ≫= λ _,
          mret (Some block)
      else mret (Some block)
  | None =>
      if negb (cr_newTip r) then mret (Some block)
      else blockAdded p block r now ≫= λ _, mret (Some block)
  end.
Lemma total_afterCommit r b now : endsL I (afterCommit r b now).
Proof.
  unfold afterCommit. destruct (cr_err r) as [e|].
  - destruct (decide (e = OrphanBlockError)); [|by apply total_ret].
    eapply total_bind; [apply total_current|]. intros [] _.
    + eapply total_bind; [apply total_clearRequests|]. intros _ _.
      eapply (total_bindL _ _ _ (λ _, True)); [|intros; by apply total_ret].
      eapply total_weaken; [by apply total_syncWith|]. intros o [a ->]. by exists a.
    + tot.
  - destruct (negb (cr_newTip r)); [by apply total_ret|].
    eapply total_bind; [apply total_blockAdded|]. intros. by apply total_ret.
Qed.
(** The state in which the block is committed. *)
Definition forgotten (h : Uint256) (s : SM) : SM :=
  set_blocks (delete h (sm_requestedBlocks s))
    (set_states (alter (λ st, ps_set_counts (u32 (receivedBlocks st + 1)) (badBlocks st)
       (ps_set_blocks (delete h (ps_requestedBlocks st)) st)) p (peerStates s)) s).
Lemma known_forgotten h s : I s → I (forgotten h s).
Proof.
  intros Hs. destruct (total_updState ps p (λ st, ps_set_counts (u32 (receivedBlocks st + 1)) (badBlocks st)
       (ps_set_blocks (delete h (ps_requestedBlocks st)) st)) s Hs) as (u & s1 & [= <- <-] & Hs1 & _).
  destruct (total_setBlocks ps (λ s, delete h (sm_requestedBlocks s)) ltac:(intros s' Hs'; pose proof (so_blocks s' Hs');
    eapply Nat.le_lt_trans; [apply delete_size|done]) _ Hs1) as (u & s2 & [= <- <-] & Hs2 & _). exact Hs2.
Qed.

(** The three ways a block is dealt with. *)
Definition ignored (s : SM) : Prop := syncPeer s ≠ Some p ∧ current s = (Ok false, s).
Lemma handleBlockMsg_cases block now s : I s →
  ∃ st, peerStates s !! p = Some st ∧
  (handleBlockMsg p block now s = (Ok (Some block), s) ∧ ignored s ∨
   handleBlockMsg p block now s =
     match ps_requestedBlocks st !! hdrHash (BlockHdr block) with
     | None => (onPeer p disconnect ≫= λ _, mret (Some block)) s
     | Some _ => (rb ←ₗ onCfg (chain_CommitBlock block);
                  let '(r, block) := (rb : commitResult * Block H T) in afterCommit r block now)
                   (forgotten (hdrHash (BlockHdr block)) s)
     end).
Proof.
  intros Hs. destruct (proj2 (proj2 Hs) p Hin) as [st Hst]. exists st. split; [done|].
  unfold handleBlockMsg. rewrite (bind_run getS _ _ _ _ eq_refl).
  assert (Hig : ∃ ig, (if decide (syncPeer s = Some p) then mret false else cur ← current; mret (negb cur)) s = (Ok ig, s) ∧
    (ig = true → ignored s)).
  { case_decide as Hsp; [by exists false|]. destruct (current_run ps s Hs) as [b Hb]. exists (negb b).
    split; [by rewrite (bind_run _ _ _ _ _ Hb)|]. intros Hnb. split; [done|]. by destruct b. }
  destruct Hig as (ig & Hr & Hi). rewrite (bind_run _ _ _ _ _ Hr). destruct ig; [left; auto|right].
  rewrite Hst. destruct (ps_requestedBlocks st !! _); [|done].
  rewrite (bind_run (updState _ _) _ s () _ eq_refl). by rewrite (bind_run (modify _) _ _ () _ eq_refl).
Qed.

Lemma handleBlockMsg_run block now s : I s → commit_pre (sm_cfg s) block →
  ∃ b s', handleBlockMsg p block now s = (Ok (Some b), s') ∧ I s'.
Proof.
  intros Hs Hpre. destruct (handleBlockMsg_cases block now s Hs) as (st & Hst & [[Hr _]|Hr]); [by exists block, s|].
  rewrite Hr. destruct (ps_requestedBlocks st !! _).
  - pose proof (known_forgotten (hdrHash (BlockHdr block)) s Hs) as Hs1. set (s1 := forgotten _ s) in *.
    destruct (commit_ends block (sm_cfg s1) (proj1 (proj2 Hs1)) Hpre) as ([r b] & c & Hc & Hci).
    rewrite (bindL_run _ _ s1 (r, b) (set_cfg c s1)).
    2: { unfold onCfg, zoom. by rewrite Hc. }
    destruct (total_afterCommit r b now (set_cfg c s1)) as (o & s2 & Hr2 & Hs2 & [b' ->]); [|by exists b', s2].
    destruct Hs1 as ([] & _ & Hp). split; [by constructor|done].
  - destruct (total_disconnect ps p Hin s Hs) as ([] & s1 & Hd & Hs1 & _).
    rewrite (bind_run _ _ _ _ _ Hd). by exists block, s1.
Qed.

Lemma total_handleTxMsg tx : returns_in I (handleTxMsg p tx).
Proof.
  unfold handleTxMsg. eapply total_bind; [apply total_getS|]. intros s (Hok & _ & Hps).
  destruct (Hps p Hin) as [st Hst]. rewrite Hst. destruct (ps_requestedTxns st !! _); [|tot].
  eapply total_bind; [apply (total_setMempool ps (λ s, <[TxHash tx := ()]> (txMemPool s)))|]. intros _ _.
  eapply total_bind; [apply total_updState|]. intros _ _.
  eapply total_bind; [apply (total_setTxns ps (λ s, delete (TxHash tx) (sm_requestedTxns s)))|].
  { intros s' Hs'. pose proof (so_txns s' Hs'). eapply Nat.le_lt_trans; [apply delete_size|done]. }
  intros _ _. apply total_onCfg, announce_total.
Qed.

Lemma total_haveInventory iv : returns_in I (haveInventory iv).
Proof.
  unfold haveInventory. destruct (iv_Type iv); [|apply total_onCfg, have_total|by apply total_ret..].
  eapply total_bind; [apply total_getS|]. intros. by apply total_ret.
Qed.
#[local] Hint Resolve total_haveInventory : total.
Lemma total_handleInvMsg l : returns_in I (handleInvMsg p l).
Proof.
  unfold handleInvMsg. eapply total_bind; [apply total_getS|]. intros s (Hok & _ & Hps).
  destruct (Hps p Hin) as [st Hst]. rewrite Hst.
  eapply (total_bind _ _ _ (λ _, True)); [tot|]. intros [] _; [by apply total_ret|].
  eapply total_bind; [apply total_forM|].
  { intros iv _. unfold queueInv. tot. }
  intros _ _. tot. all: apply total_onPeer, peer_call_getblocks; done.
Qed.

End handlers.

(** ** Every message *)
Lemma handleNewPeerMsg_run s p : known ∅ s → is_Some (sm_peers s !! p) →
  ∃ s', handleNewPeerMsg p s = (Ok (Some ()), s') ∧ known ∅ s'.
Proof.
  intros Hs [np Hnp]. unfold handleNewPeerMsg. rewrite (bind_run getS _ _ _ _ eq_refl).
  destruct (sm_shutdown s); [by exists s|].
  rewrite (bind_run (isSyncCandidate p) _ s (forallb (λ flag, Z.land (np_Services np) flag =? flag) cfg_CandidateFlags) s).
  2: { unfold isSyncCandidate, getPeer. rewrite (bind_run _ _ s np s); [done|].
       rewrite (bind_run getS _ _ _ _ eq_refl). by rewrite Hnp. }
  set (cand := forallb _ _). rewrite (bind_run (modify _) _ s () _ eq_refl).
  set (s1 := set_states _ s). assert (Hs1 : known {[p]} s1).
  { destruct Hs as ([Ha Hb Hc Hd He] & Hci & _). split; [|split; [exact Hci|]].
    - constructor; cbn; [|intros q Hq; rewrite lookup_insert_is_Some'; auto|done..].
      intros q [<-|Hq]%lookup_insert_is_Some'; [by exists np|auto].
    - intros q ->%elem_of_singleton. cbn. rewrite lookup_insert_is_Some'. by left. }
  destruct cand; [|exists s1; split; [done|eapply known_weaken; [|exact Hs1]; set_solver]].
  assert (Htot : endsL (known {[p]}) (pushBloomFilter p ≫= λ _,
    s ← getS; match syncPeer s with None => startSync | Some _ => mret (Some ()) end)).
  { eapply total_bind; [apply total_pushBloomFilter; set_solver|]. intros _ _.
    eapply total_bind; [apply total_getS|]. intros s2 _. destruct (syncPeer s2); [by apply total_ret|].
    apply total_startSync. }
  destruct (Htot s1 Hs1) as (o & s2 & Hr & Hs2 & [[] ->]). exists s2. split; [done|].
  eapply known_weaken; [|exact Hs2]. set_solver.
Qed.

Lemma handleDonePeerMsg_run s p : known ∅ s → ∃ s', handleDonePeerMsg p s = (Ok (Some ()), s') ∧ known ∅ s'.
Proof.
  intros Hs. unfold handleDonePeerMsg. rewrite (bind_run getS _ _ _ _ eq_refl).
  destruct (peerStates s !! p) as [st|] eqn:Hst; [|by exists s].
  do 3 rewrite (bind_run (modify _) _ _ () _ eq_refl). set (s1 := set_blocks _ _).
  destruct Hs as ([Ha Hb Hc Hd He] & Hci & _).
  assert (Hok : ∀ q, (∀ r, q = Some r → r ≠ p ∧ syncPeer s = Some r) → known ∅ (set_syncPeer q s1)).
  { intros q Hq. split; [|split; [exact Hci|by intros ? ?%elem_of_empty]].
    constructor; cbn; [| |by eapply Nat.le_lt_trans; [apply deleteAll_size|..]|by eapply Nat.le_lt_trans; [apply deleteAll_size|..]|done].
    - intros r [x Hr]. apply lookup_delete_Some in Hr as [_ Hr]. apply Ha. by exists x.
    - intros r Hr. destruct (Hq r Hr) as [Hne Hsp]. rewrite lookup_delete_ne by done. by apply Hb. }
  case_decide as Hsp.
  - rewrite (bind_run (modify _) _ s1 () _ eq_refl).
    destruct (total_startSync ∅ (set_syncPeer None s1)) as (o & s2 & Hr & Hs2 & [[] ->]); [by apply Hok|].
    by exists s2.
  - exists s1. split; [done|]. replace s1 with (set_syncPeer (syncPeer s) s1) by done.
    apply Hok. intros r Hr. split; [|done]. intros ->. done.
Qed.

(** The peer of a message is a connected one, and a block is admissible. *)
Definition msg_known (s : SM) (m : syncMsg H T) : Prop :=
  match m with
  | newPeerMsg p | txMsg _ p | invMsg _ p | donePeerMsg p => is_Some (sm_peers s !! p)
  | blockMsg block p _ => is_Some (sm_peers s !! p) ∧ commit_pre (sm_cfg s) block
  | _ => True
  end.

Lemma sync_message_run s m : known ∅ s → msg_known s m →
  ∃ r s', sync_blockHandler m s = (Ok (Some r), s') ∧ known ∅ s'.
Proof.
  intros Hs Hm. pose proof Hs as (Hok & Hci & _).
  assert (Hkn : ∀ p st, peerStates s !! p = Some st → known {[p]} s).
  { intros p st Hst. split_and!; [done|done|]. intros q ->%elem_of_singleton. by exists st. }
  assert (Hun : ∀ p s', known {[p]} s' → known ∅ s').
  { intros p s' Hs'. eapply known_weaken; [|exact Hs']. set_solver. }
  destruct m as [p|tx p|block p now|l p|p| | |]; cbn [msg_known sync_blockHandler] in *.
  - destruct (handleNewPeerMsg_run s p Hs Hm) as (s' & Hr & Hs'). rewrite (bindL_run _ _ _ _ _ Hr). by eexists _, _.
  - destruct (peerStates s !! p) as [st|] eqn:Hst.
    + destruct (total_handleTxMsg {[p]} p ltac:(set_solver) tx s (Hkn p st Hst)) as ([] & s' & Hr & Hs' & _).
      rewrite (bind_run _ _ _ _ _ Hr). eexists _, _. split; [done|by eapply Hun].
    + rewrite (bind_run _ _ s () s); [by eexists _, _|].
      unfold handleTxMsg. rewrite (bind_run getS _ _ _ _ eq_refl). by rewrite Hst.
  - destruct Hm as [Hm Hpre]. destruct (peerStates s !! p) as [st|] eqn:Hst.
    + destruct (handleBlockMsg_run {[p]} p ltac:(set_solver) block now s (Hkn p st Hst) Hpre) as (b & s' & Hr & Hs').
      rewrite (bindL_run _ _ _ _ _ Hr). eexists _, _. split; [done|by eapply Hun].
    + assert (Hrun : ∃ s', handleBlockMsg p block now s = (Ok (Some block), s') ∧ known ∅ s').
      { unfold handleBlockMsg. rewrite (bind_run getS _ _ _ _ eq_refl). rewrite decide_False.
        2: { intros Hsp. destruct (so_sync s Hok p Hsp) as [? ?]. congruence. }
        destruct (current_run ∅ s Hs) as (cur & Hr).
        rewrite (bind_run _ _ s (negb cur) s); [|by rewrite (bind_run _ _ _ _ _ Hr)].
        destruct (negb cur); [by exists s|]. rewrite Hst.
        destruct (onPeer_run ∅ s p disconnect Hs Hm) as (s2 & Hd & Hs2); [apply peer_call_disconnect|].
        rewrite (bind_run _ _ _ _ _ Hd). by exists s2. }
      destruct Hrun as (s' & Hr & Hs'). rewrite (bindL_run _ _ _ _ _ Hr). by eexists _, _.
  - destruct (peerStates s !! p) as [st|] eqn:Hst.
    + destruct (total_handleInvMsg {[p]} p ltac:(set_solver) l s (Hkn p st Hst)) as ([] & s' & Hr & Hs' & _).
      rewrite (bind_run _ _ _ _ _ Hr). eexists _, _. split; [done|by eapply Hun].
    + rewrite (bind_run _ _ s () s); [by eexists _, _|].
      unfold handleInvMsg. rewrite (bind_run getS _ _ _ _ eq_refl). by rewrite Hst.
  - destruct (handleDonePeerMsg_run s p Hs) as (s' & Hr & Hs'). rewrite (bindL_run _ _ _ _ _ Hr). by eexists _, _.
  - rewrite (bind_run getS _ _ _ _ eq_refl). destruct (syncPeer s) as [p|] eqn:Hsp; [|by eexists _, _].
    destruct (so_peers s Hok p (so_sync s Hok p Hsp)) as [np Hnp].
    rewrite (bind_run (getPeer p) _ s np s); [by eexists _, _|].
    unfold getPeer. rewrite (bind_run getS _ _ _ _ eq_refl). by rewrite Hnp.
  - destruct (current_run ∅ s Hs) as (b & Hr). rewrite (bind_run _ _ _ _ _ Hr). by eexists _, _.
  - by eexists _, _.
Qed.

(** ** Reachable states *)
(** A message of a connected peer, a peer that connects or changes, the end. *)
Inductive sync_step : SM → SM → Prop :=
  | step_sync s m r s' : msg_known s m → sync_blockHandler m s = (Ok (Some r), s') → sync_step s s'
  | step_connect s p np : requests_ok (np_peer np) → sync_step s (set_peers (<[p := np]> (sm_peers s)) s)
  | step_stop s : sync_step s (sync_Stop s).2.

Lemma sync_New_known c : cI c → known ∅ (sync_New c).
Proof.
  intros Hc. split_and!; [|exact Hc|by intros ? ?%elem_of_empty].
  constructor; cbn; [by intros p []|done|by rewrite map_size_empty..|done].
Qed.
Lemma sync_step_known s s' : sync_step s s' → known ∅ s → known ∅ s'.
Proof.
  intros Hstep Hs. destruct Hstep as [s m r s' Hm Hr|s p np Hnp|s].
  - destruct (sync_message_run s m Hs Hm) as (r' & s1 & Hr' & Hs1). congruence.
  - destruct Hs as ([Ha Hb Hc Hd He] & Hci & Hp). split; [|done]. constructor; cbn; [|done..|].
    + intros q Hq. rewrite lookup_insert_is_Some'. auto.
    + intros q np' [[<- <-]|[_ Hq]]%lookup_insert_Some; [done|by eapply He].
  - destruct Hs as ([] & Hci & Hp). split; [by constructor|done].
Qed.
Lemma sync_reach_known c s : cI c → rtc sync_step (sync_New c) s → known ∅ s.
Proof.
  intros Hc Hr. apply sync_New_known in Hc. revert Hc. induction Hr; [done|].
  intros Hk. eauto using sync_step_known.
Qed.

(** C17: the manager never gets stuck: in every state reached from the start, the
    handler of a message about a connected peer runs to its end and returns its
    reply, without a nil dereference or an endless loop. *)
Theorem sync_message_processed c s m : cI c → rtc sync_step (sync_New c) s → msg_known s m →
  ∃ r s', sync_blockHandler m s = (Ok (Some r), s').
Proof.
  intros Hc Hr Hm. destruct (sync_message_run s m (sync_reach_known c s Hc Hr) Hm) as (r & s' & ? & _). by exists r, s'.
Qed.


Lemma block_not_requested_run c s p block now np : cI c → rtc sync_step (sync_New c) s →
  sm_peers s !! p = Some np →
  (∀ st, peerStates s !! p = Some st → ps_requestedBlocks st !! hdrHash (BlockHdr block) = None) →
  ∃ s', sync_blockHandler (blockMsg block p now) s = (Ok (Some (Processed (Some block))), s') ∧
    sm_cfg s' = sm_cfg s ∧
    (syncPeer s = Some p ∨ current s = (Ok true, s) →
     ∃ np', sm_peers s' !! p = Some np' ∧ p_Connected (np_peer np') = false) ∧
    (syncPeer s ≠ Some p → current s = (Ok false, s) → s' = s).
Proof.
  intros Hc Hreach Hnp Hno. pose proof (sync_reach_known c s Hc Hreach) as Hs.
  assert (Hd : onPeer p disconnect s = (Ok (), set_peers (<[p := mkNetPeer (disconnect (np_peer np)).2
    (np_Height np) (np_Services np) (np_ID np)]> (sm_peers s)) s)).
  { unfold onPeer. rewrite (bind_run (getPeer p) _ s np s); [done|].
    unfold getPeer. rewrite (bind_run getS _ _ _ _ eq_refl). by rewrite Hnp. }
  assert (Hdisc : ∃ s', (onPeer p disconnect ≫= λ _, mret (Some block)) s = (Ok (Some block), s') ∧
    sm_cfg s' = sm_cfg s ∧ ∃ np', sm_peers s' !! p = Some np' ∧ p_Connected (np_peer np') = false).
  { rewrite (bind_run _ _ _ _ _ Hd). eexists. split_and!; [done|done|]. cbn. rewrite lookup_insert_eq.
    by eexists. }
  assert (Hrun : ∃ s', handleBlockMsg p block now s = (Ok (Some block), s') ∧ sm_cfg s' = sm_cfg s ∧
    (syncPeer s = Some p ∨ current s = (Ok true, s) → ∃ np', sm_peers s' !! p = Some np' ∧ p_Connected (np_peer np') = false) ∧
    (syncPeer s ≠ Some p → current s = (Ok false, s) → s' = s)).
  { destruct (peerStates s !! p) as [st|] eqn:Hst.
    - assert (Hk : known {[p]} s).
      { destruct Hs as (Hok & Hci & _). split_and!; [done|done|]. intros q ->%elem_of_singleton. by exists st. }
      destruct (handleBlockMsg_cases {[p]} p ltac:(set_solver) block now s Hk) as (st' & Hst' & [[Hr [Hi1 Hi2]]|Hr]).
      + exists s. split_and!; [done|done| |done]. intros [Hsp|Hcur]; [done|congruence].
      + assert (st' = st) as -> by congruence. rewrite (Hno st eq_refl) in Hr.
        destruct Hdisc as (s' & Hd1 & Hd2 & Hd3). exists s'. split_and!; [congruence|done|done|].
        intros Hsp Hcur. unfold handleBlockMsg in Hr. rewrite (bind_run getS _ _ _ _ eq_refl), decide_False in Hr by done.
        rewrite (bind_run _ _ s true s) in Hr by by rewrite (bind_run _ _ _ _ _ Hcur).
        pose proof (eq_trans Hr Hd1 : (Ok (Some block), s) = _) as Hq. by injection Hq.
    - assert (Hsp : syncPeer s ≠ Some p).
      { intros Hsp. destruct (so_sync s (proj1 Hs) p Hsp) as [? ?]. congruence. }
      destruct (current_run ∅ s Hs) as (cur & Hr). unfold handleBlockMsg. rewrite (bind_run getS _ _ _ _ eq_refl).
      rewrite decide_False by done. rewrite (bind_run _ _ s (negb cur) s); [|by rewrite (bind_run _ _ _ _ _ Hr)].
      destruct cur; cbn [negb].
      + rewrite Hst. destruct Hdisc as (s' & Hd1 & Hd2 & Hd3). exists s'. split_and!; [done|done|done|congruence].
      + exists s. split_and!; [done|done| |done]. intros [?|Hcur]; [done|congruence]. }
  destruct Hrun as (s' & Hr & Hcfg & Hdis). exists s'. split_and!; [|done|apply Hdis|apply Hdis].
  cbn [sync_blockHandler]. by rewrite (bindL_run _ _ _ _ _ Hr).
Qed.

(** C18: a block reaches the chain only when it was requested from the peer that
    sends it: any other block leaves the chain as it was.  Its sender is disconnected
    if it is the sync peer or the manager is current; otherwise nothing changes at all. *)
Theorem block_not_requested c s p block now np : cI c → rtc sync_step (sync_New c) s →
  sm_peers s !! p = Some np →
  (∀ st, peerStates s !! p = Some st → ps_requestedBlocks st !! hdrHash (BlockHdr block) = None) →
  ∃ s', sync_blockHandler (blockMsg block p now) s = (Ok (Some (Processed (Some block))), s') ∧
    sm_cfg s' = sm_cfg s ∧
    (syncPeer s = Some p ∨ current s = (Ok true, s) →
     ∃ np', sm_peers s' !! p = Some np' ∧ p_Connected (np_peer np') = false) ∧
    (syncPeer s ≠ Some p → current s = (Ok false, s) → s' = s).
Proof. apply block_not_requested_run. Qed.
End spec.
