(* ===== verification/SyncStart.v ===== *)
(** * When a sync starts

    [startSync] with several candidates: it starts when some candidate is ahead
    and none is level with the chain, and it may do nothing when one is level. *)
From S2P Require Export SyncSpec.

Section start.
Context {C H T : Type} `{!BlockHeader H} `{!Transaction T} `{!Sha} `{!PeerLib} `{!MsgConsts} `{!MapOrder}.
Context `{!SyncConfig C H T}.
Context (Hmax : (0 < MaxInvPerMsg)%nat).
Context (cI : C → Prop) (commit_pre : C → Block H T → Prop) `{!SyncConfigLaws cI commit_pre}.
Notation SM := (SyncManager C H T).

(** The fields [pickPeer] leaves alone. *)
Definition same_but_states (s s' : SM) : Prop :=
  sm_peers s' = sm_peers s ∧ syncPeer s' = syncPeer s ∧ sm_cfg s' = sm_cfg s.

Lemma pickPeer_spec best l (s : SM) : (∀ p st, (p, st) ∈ l → is_Some (sm_peers s !! p)) →
  ∃ r s', pickPeer best l s = (Ok r, s') ∧ same_but_states s s' ∧
  match r with
  | Some p => ∃ st np, (p, st) ∈ l ∧ syncCandidate st = true ∧ sm_peers s !! p = Some np ∧ best ≤ np_Height np
  | None => ∀ p st np, (p, st) ∈ l → syncCandidate st = true → sm_peers s !! p = Some np → np_Height np < best
  end.
Proof.
  revert s. induction l as [|[p st] l IH]; intros s Hl; cbn [pickPeer].
  { exists None, s. split_and!; [done..|]. by intros ? ? ? ?%elem_of_nil. }
  assert (Hl' : ∀ p st, (p, st) ∈ l → is_Some (sm_peers s !! p)) by set_solver.
  destruct (syncCandidate st) eqn:Hcand; cbn [negb].
  - destruct (Hl p st) as [np Hnp]; [left|].
    rewrite (bind_run (getPeer p) _ s np s).
    2: { unfold getPeer. rewrite (bind_run getS _ _ _ _ eq_refl). by rewrite Hnp. }
    destruct (Z.ltb_spec (np_Height np) best) as [Hlt|Hge].
    + rewrite (bind_run (updState _ _) _ s () _ eq_refl). set (s1 := set_states _ s).
      destruct (IH s1 Hl') as (r & s' & Hr & Hsame & Hspec). exists r, s'. split_and!; [done|done|].
      destruct r as [q|].
      * destruct Hspec as (st' & np' & Hin & Hrest). exists st', np'. split; [by right|exact Hrest].
      * intros q st' np' [[= -> ->]|Hin]%elem_of_cons Hc Hq; [congruence|by eapply Hspec].
    + exists (Some p), s. split_and!; [done..|]. exists st, np. split_and!; [left|done|done|lia].
  - destruct (IH s Hl') as (r & s' & Hr & Hsame & Hspec). exists r, s'. split_and!; [done|done|].
    destruct r as [q|].
    * destruct Hspec as (st' & np' & Hin & Hrest). exists st', np'. split; [by right|exact Hrest].
    * intros q st' np' [[= -> ->]|Hin]%elem_of_cons Hc Hq; [congruence|by eapply Hspec].
Qed.

Definition candidate (s : SM) (p : PeerPtr) (np : netPeer H T) : Prop :=
  sm_peers s !! p = Some np ∧ ∃ st, peerStates s !! p = Some st ∧ syncCandidate st = true.

(** The last request queued for the peer began at the head of [l] and had no end. *)
Definition asked_before (w : Peer H T) (l : list Uint256) : bool :=
  bool_decide (p_prevGetBlocksStop w = Some zeroHash ∧ is_Some (head l) ∧ p_prevGetBlocksBegin w = head l).

(** [syncWith] asks the peer, unless it is the same request again. *)
Lemma PushGetBlocksMsg_run l (w : Peer H T) : ∃ w', PushGetBlocksMsg l zeroHash w = (Ok (), w') ∧
  p_events w' = p_events w ++ (if asked_before w l then [] else [QueueMessage (MGetBlocks l zeroHash)]).
Proof.
  unfold PushGetBlocksMsg, asked_before. rewrite (bind_run getS _ _ _ _ eq_refl). set (d := _ && _ && _ && _ && _).
  assert (Hd : d = bool_decide (p_prevGetBlocksStop w = Some zeroHash ∧ is_Some (head l) ∧ p_prevGetBlocksBegin w = head l)).
  { apply eq_bool_prop_intro. unfold d. rewrite !andb_True, !bool_decide_spec. split.
    - intros ((((_ & _) & ?) & ?) & ?). by split_and!.
    - intros (Hs & Hl & Hb). rewrite Hs, Hb. split_and!; [by eexists|done|done|done|done]. }
  rewrite <-Hd. destruct d; eexists; (split; [done|]); [by rewrite app_nil_r|done].
Qed.
Lemma syncWith_spec (s : SM) p np : cI (sm_cfg s) → sm_peers s !! p = Some np →
  ∃ l s', chain_LatestBlockLocator (sm_cfg s) = (Ok (Some l), sm_cfg s) ∧
    syncWith p s = (Ok (Some ()), s') ∧ syncPeer s' = Some p ∧
    ∃ np', sm_peers s' !! p = Some np' ∧
      p_events (np_peer np') = p_events (np_peer np) ++
        (if asked_before (np_peer np) l then [] else [QueueMessage (MGetBlocks l zeroHash)]).
Proof.
  intros Hc Hnp. destruct (locator_read _ Hc) as [l Hl]. exists l. unfold syncWith.
  rewrite (bindL_run _ _ s () (set_blocks ∅ s)) by done.
  rewrite (bindL_run (onCfg _) _ _ l (set_blocks ∅ s)).
  2: { unfold onCfg, zoom. cbn [sm_cfg set_blocks]. by rewrite Hl. }
  destruct (PushGetBlocksMsg_run l (np_peer np)) as (w & Hw & He).
  set (s1 := set_peers (<[p := mkNetPeer w (np_Height np) (np_Services np) (np_ID np)]> (sm_peers s)) (set_blocks ∅ s)).
  rewrite (bindL_run _ _ _ () s1).
  2: { apply done_run. unfold onPeer. rewrite (bind_run (getPeer p) _ _ np (set_blocks ∅ s)).
       - by rewrite Hw.
       - unfold getPeer. rewrite (bind_run getS _ _ _ _ eq_refl). cbn [sm_peers set_blocks]. by rewrite Hnp. }
  exists (set_syncPeer (Some p) s1). split_and!; [done|done|done|].
  eexists. split; [cbn; apply lookup_insert_eq|]. exact He.
Qed.

Lemma startSync_run (s : SM) best : known cI ∅ s → syncPeer s = None → chain_BestHeight (sm_cfg s) = (Ok best, sm_cfg s) →
  ∃ r s1, pickPeer best (range (peerStates s)) s = (Ok r, s1) ∧ same_but_states s s1 ∧
    startSync s = match r with
                  | None => (Ok (Some ()), s1)
                  | Some p => (np ← getPeer p; if np_Height np =? best then mret (Some ()) else syncWith p) s1
                  end ∧
    match r with
    | Some p => ∃ np, candidate s p np ∧ best ≤ np_Height np
    | None => ∀ p np, candidate s p np → np_Height np < best
    end.
Proof.
  intros (Hok & Hc & _) Hsp Hb.
  destruct (pickPeer_spec best (range (peerStates s)) s) as (r & s1 & Hr & Hsame & Hspec).
  { intros p st Hin%range_elem. apply (so_peers s Hok). by exists st. }
  exists r, s1. split_and!; [done|done| |].
  - unfold startSync. rewrite (bind_run getS _ _ _ _ eq_refl), Hsp.
    rewrite (bind_run (onCfg _) _ s best s) by (unfold onCfg, zoom; rewrite Hb; by destruct s).
    rewrite (bind_run _ _ _ _ _ Hr). by destruct r.
  - destruct r as [p|].
    + destruct Hspec as (st & np & Hin%range_elem & Hcand & Hnp & Hle). exists np. split; [|done].
      split; [done|]. by exists st.
    + intros p np (Hnp & st & Hst & Hcand). eapply Hspec; [by apply range_elem|done|done].
Qed.

(** C33: when no sync is running, no candidate is level with the chain and one is
    above it, [startSync] starts: the sync peer is a candidate above the chain, and
    a getblocks message with the chain's locator is queued for it, unless its last
    one began at the same hash and asked for no end either: then nothing is queued. *)
Theorem startSync_starts c (s : SM) best p np : cI c → rtc (sync_step commit_pre) (sync_New c) s →
  syncPeer s = None → chain_BestHeight (sm_cfg s) = (Ok best, sm_cfg s) →
  (∀ q nq, candidate s q nq → np_Height nq ≠ best) → candidate s p np → best < np_Height np →
  ∃ s' q nq nq' l, startSync s = (Ok (Some ()), s') ∧ syncPeer s' = Some q ∧
    candidate s q nq ∧ best < np_Height nq ∧
    chain_LatestBlockLocator (sm_cfg s) = (Ok (Some l), sm_cfg s) ∧ sm_peers s' !! q = Some nq' ∧
    p_events (np_peer nq') = p_events (np_peer nq) ++
      (if asked_before (np_peer nq) l then [] else [QueueMessage (MGetBlocks l zeroHash)]).
Proof.
  intros Hc Hreach Hsp Hb Hlevel Hp Hlt.
  pose proof (sync_reach_known Hmax cI commit_pre c s Hc Hreach) as Hs.
  destruct (startSync_run s best Hs Hsp Hb) as (r & s1 & _ & (Hpe & Hsy & Hcf) & Hrun & Hr).
  destruct r as [q|]; [|specialize (Hr p np Hp); lia].
  destruct Hr as (nq & Hq & Hle). pose proof (Hlevel q nq Hq) as Hne. pose proof Hq as [Hnq _].
  rewrite (bind_run (getPeer q) _ s1 nq s1) in Hrun.
  2: { unfold getPeer. rewrite (bind_run getS _ _ _ _ eq_refl), Hpe. by rewrite Hnq. }
  rewrite (proj2 (Z.eqb_neq _ _) Hne) in Hrun.
  destruct (syncWith_spec s1 q nq) as (l & s' & Hl & Hw & Hs' & nq' & Hnq' & He);
    [rewrite Hcf; apply Hs|by rewrite Hpe|].
  rewrite Hcf in Hl. exists s', q, nq, nq', l. split_and!; [congruence|done|done|lia|done|done|done].
Qed.

(** [startSync] does not choose the best peer: when the first candidate it
    comes to is level with the chain, it does nothing, however far ahead the
    other candidates are. *)
Theorem startSync_gives_up (s : SM) best q nq st l :
  syncPeer s = None → chain_BestHeight (sm_cfg s) = (Ok best, sm_cfg s) →
  range (peerStates s) = (q, st) :: l → syncCandidate st = true → sm_peers s !! q = Some nq →
  np_Height nq = best →
  startSync s = (Ok (Some ()), s).
Proof.
  intros Hsp Hb Hr Hst Hnq Hh. unfold startSync. rewrite (bind_run getS _ _ _ _ eq_refl), Hsp.
  rewrite (bind_run (onCfg _) _ s best s) by (unfold onCfg, zoom; rewrite Hb; by destruct s).
  assert (Hg : getPeer q s = (Ok nq, s)).
  { unfold getPeer. rewrite (bind_run getS _ _ _ _ eq_refl). by rewrite Hnq. }
  rewrite (bind_run _ _ s (Some q) s).
  - rewrite (bind_run _ _ _ _ _ Hg). by rewrite Hh, Z.eqb_refl.
  - rewrite Hr. cbn [pickPeer]. rewrite Hst. cbn [negb]. rewrite (bind_run _ _ _ _ _ Hg).
    by rewrite Hh, Z.ltb_irrefl.
Qed.
End start.
