(* ===== verification/SyncChain.v ===== *)
(** * The sync manager over the block chain

    The configuration [sync.Config] of [sync/config.go] with the [BlockChain] as
    its chain: the calls of the manager are those of [blockchain.go] over
    [chainDB].  The chain's own theorems discharge what the manager relies on,
    so through any messages with [admissible] blocks, over databases that keep
    their laws, the header tree and the transactions of the main chain stay
    consistent. *)
From S2P Require Export SyncSpec Commit Locator.

Section config.
Context {HS TS H T : Type} `{!BlockHeader H} `{!HeadersDB HS H} `{!TxsDB TS T}.
Context (flags : list Z) (filter : GoM TS (Message H T)) (announce : T → GoM TS unit).

(** [NewDefaultConfig(chain, flags, filter)]; the callbacks belong to the
    service, which is also the transaction database. *)
Definition blockChainConfig : SyncConfig (chainDB HS TS) H T := {|
  chain_BestHeight := BestHeight;
  chain_HaveBlock := HaveBlock;
  chain_LatestBlockLocator := LatestBlockLocator;
  chain_CommitBlock := CommitBlock;
  cfg_CandidateFlags := flags;
  cfg_GetTxFilter := onTxs filter;
  cfg_TransactionAnnounce tx := onTxs (announce tx);
|}.
End config.

Section laws.
Context {HS TS H T : Type} `{!BlockHeader H} `{!Transaction T} `{!HeadersDB HS H} `{!TxsDB TS T}
  `{!HeadersLaws HS H} `{!TxsLaws TS T}.
Context (flags : list Z) (filter : GoM TS (Message H T)) (announce : T → GoM TS unit).
Context (genesis : Header H) (txs_of : Uint256 → list T).
Context (Hfilter : ∀ t, ∃ m, filter t = (Ok m, t) ∧ ∀ l, m ≠ MGetData l)
        (Hannounce : ∀ tx t, announce tx t = (Ok (), t)).
Notation CS := (chainDB HS TS).

(** The headers form a tree with the tip of most work, and both stores hold the
    transactions of their blocks. *)
Definition chain_good (c : CS) : Prop :=
  ∃ best, chain_ok genesis c best ∧ txs_inv txs_of (hd_view (cd_h c)) best (cd_t c).
(** A block that may be added: its header fits the store and belongs to no other
    block, its transactions are its own, and a branch it makes the best one is
    higher than the old one. *)
Definition admissible (c : CS) (block : Block H T) : Prop := ∀ best p,
  hd_best (cd_h c) = Some best → hd_view (cd_h c) !! hdrPrevious (BlockHdr block) = Some p →
  checkProofOfWork (BlockHdr block) = true → hdrHash best ≠ hdrHash (BlockHdr block) →
  storable genesis c block p ∧ hd_view (cd_h c) !! hdrHash (BlockHdr block) = None ∧
  txs_of (hdrHash (BlockHdr block)) = Transactions block ∧ Height p + 1 < 2 ^ 32 - 1 ∧
  (TotalWork best < TotalWork (filled block p) → hdrHash best ≠ hdrHash p → Height best < Height p + 1).

Lemma CommitBlock_good c block : chain_good c → admissible c block →
  ∃ r c', CommitBlock block c = (Ok (Some r), c') ∧ chain_good c'.
Proof.
  intros (best & Hs & Hinv) Hadm. pose proof Hs as (Hok & Hb & Hc & Hbh).
  destruct (hd_view (cd_h c) !! hdrPrevious (BlockHdr block)) as [p|] eqn:Hp.
  2: { eexists _, c. split; [by eapply CommitBlock_orphan|by exists best]. }
  destruct (checkProofOfWork (BlockHdr block)) eqn:Hpow.
  2: { eexists _, c. split; [eapply CommitBlock_refused; eauto|by exists best]. }
  destruct (decide (hdrHash best = hdrHash (BlockHdr block))) as [Heq|Hne].
  { eexists _, c. split; [eapply CommitBlock_refused; eauto|by exists best]. }
  destruct (Hadm best p Hb Hp Hpow Hne) as (Hst & Hfresh & Htxs & Hlt & Hhigh).
  destruct (CommitBlock_txs_run genesis c best block p txs_of Hs Hinv Hp Hst Hpow Hfresh Htxs Hhigh)
    as (r & block' & c' & best' & Hr & _ & Hb' & Hinv').
  exists (r, block'), c'. split; [done|]. exists best'. split; [|done].
  pose proof (CommitBlock_chain_run genesis c best block Hs (txs_forks_ok _ _ _ _ Hinv)) as Hch.
  rewrite Hp, Hpow, bool_decide_false in Hch by done. cbn [negb orb] in Hch.
  destruct Hch as (fps & s' & Hr' & Hok' & _ & Hb'' & Hinv''); [by intros ? [= <-]|].
  assert (s' = c') as -> by congruence. rewrite Hb' in Hb''. injection Hb'' as ->.
  split_and!; [done|done|exact Hinv''|]. destruct (_ <? _); [cbn; lia|done].
Qed.

Lemma HaveBlock_read h c : chain_good c → ∃ b, HaveBlock h c = (Ok b, c).
Proof.
  intros (best & (Hok & _) & _). pose proof (hdGet_law (cd_h c) h Hok) as Hg. unfold HaveBlock.
  destruct (hd_view (cd_h c) !! h) as [x|].
  - rewrite (bind_run _ _ c (inr x) c) by (by apply try_run, onHeaders_read). by eexists.
  - destruct Hg as [e Hg]. rewrite (bind_run _ _ c (inl e) c) by (by apply try_run_err, onHeaders_read). by eexists.
Qed.
Lemma BestHeight_run c best : chain_ok genesis (c : CS) best → BestHeight (TS := TS) c = (Ok (Height best), c).
Proof.
  intros (Hok & Hb & _). unfold BestHeight. by rewrite (bind_run _ _ c (inr best) c) by (by apply try_run, getBest_run).
Qed.

#[local] Instance cfg : SyncConfig CS H T := blockChainConfig flags filter announce.

Lemma blockChain_laws : @SyncConfigLaws CS H T cfg chain_good admissible.
Proof.
  split.
  - intros c (best & Hs & _). eexists. by apply BestHeight_run.
  - intros h c Hc. by apply HaveBlock_read.
  - intros c (best & Hs & _). destruct (LatestBlockLocator_spec_run genesis c best Hs) as (hs & Hr & _). by eexists.
  - intros b c Hc Hpre. by apply CommitBlock_good.
  - intros c Hc. destruct (Hfilter (cd_t c)) as (m & Hm & Hl). exists m, c. split_and!; [|done|done].
    cbn. unfold onTxs, zoom. rewrite Hm. by destruct c.
  - intros tx c Hc. exists c. split; [|done]. cbn. unfold onTxs, zoom. rewrite Hannounce. by destruct c.
Qed.

Context `{!Sha} `{!PeerLib} `{!MsgConsts} `{!MapOrder}.
(** the manager over the block chain: started on a consistent chain, after any
    messages of any peers with [admissible] blocks, reorganisations included, the
    headers still form a tree whose tip has the most work, the main chain holds
    the transactions of its blocks and the fork store those of the others. *)
Theorem sync_keeps_chain (Hmax : (0 < MaxInvPerMsg)%nat) (c : CS) (s : SyncManager CS H T) : chain_good c →
  rtc (sync_step admissible) (sync_New c) s →
  ∃ best, chain_ok genesis (sm_cfg s) best ∧
    txs_inv txs_of (hd_view (cd_h (sm_cfg s))) best (cd_t (sm_cfg s)).
Proof.
  intros Hc Hr. destruct (sync_reach_known Hmax chain_good admissible (SyncConfigLaws0 := blockChain_laws) c s Hc Hr)
    as (_ & Hgood & _). exact Hgood.
Qed.
End laws.
