(* ===== verification/Service.v ===== *)
(** * The SDK service

    [sdk/service.go]: the callbacks of the peers, the messages they queue, and
    the loop that follows the transactions the application sends.  Each turn of
    [txHandler] is a function of its three maps; [onBlock] is the callback and
    the turn of the sync manager it waits for. *)
From S2P Require Export Sync.

(** ** [txHandler] *)
Definition txExpireTime : Z := 24 * 3600 * 10 ^ 9.

(** [sendTxMsg] *)
Record sendTxMsg (T : Type) := mkSendTx { tm_tx : T; tm_expire : Z }.
Arguments mkSendTx {T}.
Arguments tm_tx {T}.
Arguments tm_expire {T}.

(** Broadcasts, and calls of the [StateNotifier] (made on goroutines of their
    own). *)
Inductive txEvent (T : Type) : Type :=
  | BroadcastTx (tx : T)
  | TransactionAccepted (tx : T)
  | TransactionRejected (tx : T)
  | TransactionConfirmed (tx : Tx).
Arguments BroadcastTx {T}.
Arguments TransactionAccepted {T}.
Arguments TransactionRejected {T}.
Arguments TransactionConfirmed {T}.

Record txState (T : Type) : Type := mkTxState {
  unconfirmed : gmap Uint256 (sendTxMsg T);
  accepted : gmap Uint256 unit;
  rejected : gmap Uint256 unit;
  tx_events : list (txEvent T);
}.
Arguments mkTxState {T}.
Arguments unconfirmed {T}.
Arguments accepted {T}.
Arguments rejected {T}.
Arguments tx_events {T}.

(** What the callbacks queue. *)
Inductive txQueueMsg (H T : Type) : Type :=
  | QSend (tx : T)
  | QInv (iv : InvVect)
  | QReject (iv : InvVect)
  | QBlock (block : Block H T).
Arguments QSend {H T}.
Arguments QInv {H T}.
Arguments QReject {H T}.
Arguments QBlock {H T}.

Section txhandler.
Context {H T : Type} `{!Transaction T} `{!MapOrder}.
Context (hasNotifier : bool).
Notation Ts := (txState T).

Definition emitTx (e : txEvent T) : GoM Ts unit :=
  modify (λ s, mkTxState (unconfirmed s) (accepted s) (rejected s) (tx_events s ++ [e])).
Definition notifyTx (e : txEvent T) : GoM Ts unit := if hasNotifier then emitTx e else mret ().

Definition handleSend (now : Z) (tx : T) : GoM Ts unit :=
  let txId := TxHash tx in
  modify (λ s, mkTxState (<[txId := mkSendTx tx (now + txExpireTime)]> (unconfirmed s))
    (delete txId (accepted s)) (delete txId (rejected s)) (tx_events s)) ≫= λ _,
  emitTx (BroadcastTx tx).

Definition handleTxInv (iv : InvVect) : GoM Ts unit :=
  let txId := iv_Hash iv in
  s ← getS;
  match accepted s !! txId with
  | Some _ => mret ()
  | None =>
      match unconfirmed s !! txId with
      | None => mret ()
      | Some m =>
          modify (λ s, mkTxState (delete txId (unconfirmed s)) (<[txId := ()]> (accepted s)) (rejected s) (tx_events s)) ≫= λ _,
          notifyTx (TransactionAccepted (tm_tx m))
      end
  end.

Definition handleTxReject (iv : InvVect) : GoM Ts unit :=
  let txId := iv_Hash iv in
  s ← getS;
  match rejected s !! txId with
  | Some _ => mret ()
  | None =>
      match unconfirmed s !! txId with
      | None => mret ()
      | Some m =>
          modify (λ s, mkTxState (delete txId (unconfirmed s)) (accepted s) (<[txId := ()]> (rejected s)) (tx_events s)) ≫= λ _,
          notifyTx (TransactionRejected (tm_tx m))
      end
  end.

(** [confirmedTxs]: the transactions of the block that were sent. *)
Definition tracked (s : Ts) (txId : Uint256) : bool :=
  bool_decide (is_Some (unconfirmed s !! txId)) || bool_decide (is_Some (accepted s !! txId)) ||
  bool_decide (is_Some (rejected s !! txId)).
Definition confirmedTxs (s : Ts) (txs : list T) : gmap Uint256 T :=
  foldl (λ m tx, if tracked s (TxHash tx) then <[TxHash tx := tx]> m else m) ∅ txs.

Definition handleConfirmed (now : Z) (block : Block H T) : GoM Ts unit :=
  s ← getS;
  forM (range (confirmedTxs s (Transactions block))) (λ kv,
    modify (λ s, mkTxState (delete kv.1 (unconfirmed s)) (delete kv.1 (accepted s)) (delete kv.1 (rejected s)) (tx_events s)) ≫= λ _,
    notifyTx (TransactionConfirmed (NewTx (now / 10 ^ 9) kv.2 (Height (BlockHdr block))))).

(** The ticker: the entries range visits are those of the map when it starts. *)
Definition handleRetry (now : Z) : GoM Ts unit :=
  s ← getS;
  forM (range (unconfirmed s)) (λ kv,
    if tm_expire kv.2 <? now
    then modify (λ s, mkTxState (delete kv.1 (unconfirmed s)) (accepted s) (rejected s) (tx_events s))
    else emitTx (BroadcastTx (tm_tx kv.2))).

(** One turn of the loop on an item of the queue. *)
Definition txHandler (now : Z) (m : txQueueMsg H T) : GoM Ts unit :=
  match m with
  | QSend tx => handleSend now tx
  | QInv iv => handleTxInv iv
  | QReject iv => handleTxReject iv
  | QBlock block => handleConfirmed now block
  end.
End txhandler.

(** ** The service *)
Record service (C H T : Type) : Type := mkService {
  syncManager : SyncManager C H T;
  svc_peers : gset PeerPtr;                      (* the map of peerHandler *)
  txQueue : list (txQueueMsg H T);               (* what the channel holds, oldest first *)
  svc_tx : txState T;
  StateNotifier : bool;                          (* cfg.StateNotifier != nil *)
  BlockCommitted_calls : list (Block H T);       (* calls of the StateNotifier *)
}.
Arguments mkService {C H T}.
Arguments syncManager {C H T}.
Arguments svc_peers {C H T}.
Arguments txQueue {C H T}.
Arguments svc_tx {C H T}.
Arguments StateNotifier {C H T}.
Arguments BlockCommitted_calls {C H T}.

(** The commands of [p2p] that have a message of their own. *)
Inductive Cmd := Cmd_Inv | Cmd_GetData | Cmd_NotFound | Cmd_Tx | Cmd_MerkleBlock | Cmd_Reject | Cmd_Other (name : string).
#[global] Instance Cmd_eq_dec : EqDecision Cmd.
Proof. solve_decision. Defined.

Section service.
Context {C H T : Type} `{!BlockHeader H} `{!Transaction T} `{!Sha} `{!PeerLib} `{!MsgConsts} `{!MapOrder}.
Context `{!SyncConfig C H T}.
Notation Sv := (service C H T).

Definition onSync {A} (m : GoM (SyncManager C H T) A) : GoM Sv A :=
  zoom syncManager (λ x s, mkService x (svc_peers s) (txQueue s) (svc_tx s) (StateNotifier s) (BlockCommitted_calls s)) m.
Definition enqueue (m : txQueueMsg H T) : GoM Sv unit :=
  modify (λ s, mkService (syncManager s) (svc_peers s) (txQueue s ++ [m]) (svc_tx s) (StateNotifier s) (BlockCommitted_calls s)).
(** Queue a message for the sync manager, and its turn of the loop. *)
Definition syncTurn (m : syncMsg H T) : GoL Sv syncReply :=
  s ← getS;
  match queued m (syncManager s) with
  | None => mret (Some Done)
  | Some m => onSync (sync_blockHandler m)
  end.

(** [createMessage]: the kind of message to read, or an error. *)
Definition createMessage (cmd : Cmd) : outcome Cmd :=
  match cmd with
  | Cmd_Inv | Cmd_GetData | Cmd_NotFound | Cmd_Tx | Cmd_MerkleBlock | Cmd_Reject => Ok cmd
  | Cmd_Other name => Err (ErrStr ("Received unsupported message, CMD " +:+ name))
  end.

(** [handlePeerMsg]: a new peer gets its wrapper, a done peer is forgotten. *)
Definition handleNewPeer (p : PeerPtr) : GoM Sv unit :=
  modify (λ s, mkService (syncManager s) ({[p]} ∪ svc_peers s) (txQueue s) (svc_tx s) (StateNotifier s) (BlockCommitted_calls s)).
Definition handleDonePeer (p : PeerPtr) : GoM Sv unit :=
  modify (λ s, mkService (syncManager s) (svc_peers s ∖ {[p]}) (txQueue s) (svc_tx s) (StateNotifier s) (BlockCommitted_calls s)).

Definition svc_IsCurrent : GoL Sv bool :=
  r ←ₗ syncTurn isCurrentMsg;
  mret (match (r : syncReply (H := H) (T := T)) with IsCurrent b => Some b | _ => None end).

Definition SendTransaction (tx : T) : GoL Sv unit :=
  cur ←ₗ svc_IsCurrent;
  if negb cur then throw (ErrStr "spv service did not sync to current")
  else done_ (enqueue (QSend tx)).

Definition onVersion (p : PeerPtr) : GoL Sv unit := _ ←ₗ syncTurn (newPeerMsg p); mret (Some ()).
(** After [WaitForDisconnect]. *)
Definition handleDisconnect (p : PeerPtr) : GoL Sv unit := _ ←ₗ syncTurn (donePeerMsg p); mret (Some ()).

Definition onInv (p : PeerPtr) (invList : list InvVect) : GoL Sv unit :=
  cur ←ₗ svc_IsCurrent;
  _ ←ₗ done_ (if (cur : bool)
    then forM invList (λ iv, if decide (iv_Type iv = InvTypeTx) then enqueue (QInv iv) else mret ())
    else mret ());
  _ ←ₗ syncTurn (invMsg invList p);
  mret (Some ()).

(** The rest of [onBlock] once the token is there: the block goes to [txHandler],
    then to the notifier. *)
Definition publish (block : Block H T) : GoM Sv unit :=
  enqueue (QBlock block) ≫= λ _,
  s ← getS;
  if StateNotifier s
  then modify (λ s, mkService (syncManager s) (svc_peers s) (txQueue s) (svc_tx s) (StateNotifier s)
         (BlockCommitted_calls s ++ [block]))
  else mret ().
(** The block is the same object before and after: the chain fills its header in
    when it takes it. *)
Definition onBlock (p : PeerPtr) (block : Block H T) (now : Z) : GoL Sv unit :=
  r ←ₗ syncTurn (blockMsg block p now);
  let block := match (r : syncReply (H := H) (T := T)) with Processed (Some b) => b | _ => block end in
  done_ (publish block).

Definition onTx (p : PeerPtr) (tx : T) : GoL Sv unit := _ ←ₗ syncTurn (txMsg tx p); mret (Some ()).

Definition onNotFound (p : PeerPtr) (invList : list InvVect) : GoM Sv unit :=
  forM invList (λ iv, if decide (iv_Type iv = InvTypeTx) then mret () else onSync (onPeer p disconnect)).

(** [isTx]: the rejected command is a transaction. *)
Definition onReject (isTx : bool) (r : Reject) : GoM Sv unit :=
  if isTx then enqueue (QReject (mkInvVect InvTypeTx (rj_Hash r))) else mret ().

(** A turn of [txHandler] that takes the oldest item of the queue. *)
Definition txTurn (now : Z) : GoM Sv unit :=
  s ← getS;
  match txQueue s with
  | [] => mret ()
  | m :: q =>
      modify (λ s, mkService (syncManager s) (svc_peers s) q (svc_tx s) (StateNotifier s) (BlockCommitted_calls s)) ≫= λ _,
      zoom svc_tx (λ t s, mkService (syncManager s) (svc_peers s) (txQueue s) t (StateNotifier s) (BlockCommitted_calls s))
        (txHandler (StateNotifier s) now m)
  end.
End service.
