(* ===== verification/ServiceSpec.v ===== *)
(** * What the application is told of its transactions

    The three maps of [txHandler] exclude each other; and a block the sync
    manager turns down still confirms the transactions it carries. *)
From S2P Require Export Service SyncSpec.

Section txs.
Context {H T : Type} `{!Transaction T} `{!MapOrder}.
Notation Ts := (txState T).

(** No transaction has two states, and the sent ones are under their hash. *)
Record txs_exclusive (s : Ts) : Prop := {
  te_unaccepted : ∀ k, is_Some (unconfirmed s !! k) → accepted s !! k = None;
  te_unrejected : ∀ k, is_Some (unconfirmed s !! k) → rejected s !! k = None;
  te_accepted : ∀ k, is_Some (accepted s !! k) → rejected s !! k = None;
  te_key : ∀ k m, unconfirmed s !! k = Some m → TxHash (tm_tx m) = k;
}.

Definition emptyTx : Ts := mkTxState ∅ ∅ ∅ [].

Inductive tx_step (hasNotifier : bool) : Ts → Ts → Prop :=
  | tx_msg s now m : tx_step hasNotifier s (txHandler (H := H) hasNotifier now m s).2
  | tx_retry s now : tx_step hasNotifier s (handleRetry now s).2.

Lemma keeps_emitTx e : keeps txs_exclusive (emitTx e).
Proof. apply keeps_modify. by intros s []. Qed.
Lemma keeps_notifyTx n e : keeps txs_exclusive (notifyTx n e).
Proof. unfold notifyTx. destruct n; [apply keeps_emitTx|apply keeps_ret]. Qed.
#[local] Hint Resolve keeps_emitTx keeps_notifyTx : keeps.

(** Moving a transaction out of the sent ones, or forgetting it. *)
Lemma exclusive_accept k m s : txs_exclusive s → unconfirmed s !! k = Some m →
  txs_exclusive (mkTxState (delete k (unconfirmed s)) (<[k := ()]> (accepted s)) (rejected s) (tx_events s)).
Proof.
  intros [E1 E2 E3 E4] Hk. split; cbn.
  - intros j [x [Hne Hj]%lookup_delete_Some]. rewrite lookup_insert_ne by done. apply E1. by exists x.
  - intros j [x [Hne Hj]%lookup_delete_Some]. apply E2. by exists x.
  - intros j [<-|Hj]%lookup_insert_is_Some'; [apply E2; by exists m|by apply E3].
  - intros j x [Hne Hj]%lookup_delete_Some. by apply E4.
Qed.
Lemma exclusive_reject k m s : txs_exclusive s → unconfirmed s !! k = Some m →
  txs_exclusive (mkTxState (delete k (unconfirmed s)) (accepted s) (<[k := ()]> (rejected s)) (tx_events s)).
Proof.
  intros [E1 E2 E3 E4] Hk. split; cbn.
  - intros j [x [Hne Hj]%lookup_delete_Some]. apply E1. by exists x.
  - intros j [x [Hne Hj]%lookup_delete_Some]. rewrite lookup_insert_ne by done. apply E2. by exists x.
  - intros j Hj. destruct (decide (k = j)) as [<-|Hne].
    + exfalso. destruct Hj as [x Hj]. rewrite E1 in Hj; [done|by exists m].
    + rewrite lookup_insert_ne by done. by apply E3.
  - intros j x [Hne Hj]%lookup_delete_Some. by apply E4.
Qed.
Lemma exclusive_delete k a b s : txs_exclusive s →
  txs_exclusive (mkTxState (delete k (unconfirmed s)) (if a : bool then delete k (accepted s) else accepted s)
    (if b : bool then delete k (rejected s) else rejected s) (tx_events s)).
Proof.
  intros [E1 E2 E3 E4].
  assert (Hd : ∀ (b : bool) (m : gmap Uint256 unit) j, m !! j = None → (if b then delete k m else m) !! j = None).
  { intros [] m j Hj; [|done]. apply lookup_delete_None. by right. }
  assert (Hs : ∀ (b : bool) (m : gmap Uint256 unit) j, is_Some ((if b then delete k m else m) !! j) → is_Some (m !! j)).
  { intros [] m j; [|done]. intros [x [_ Hj]%lookup_delete_Some]. by exists x. }
  split; cbn.
  - intros j [x [Hne Hj]%lookup_delete_Some]. apply Hd, E1. by exists x.
  - intros j [x [Hne Hj]%lookup_delete_Some]. apply Hd, E2. by exists x.
  - intros j Hj%Hs. by apply Hd, E3.
  - intros j x [Hne Hj]%lookup_delete_Some. by apply E4.
Qed.

Lemma txHandler_exclusive n now m : keeps txs_exclusive (txHandler (H := H) n now m).
Proof.
  destruct m as [tx|iv|iv|block]; cbn [txHandler].
  - unfold handleSend. apply keeps_bind; [|intros; apply keeps_emitTx]. apply keeps_modify.
    intros s Hs. pose proof (exclusive_delete (TxHash tx) true true s Hs) as [E1 E2 E3 E4]. cbn in *.
    split; cbn; [intros k Hk..|].
    + destruct (decide (TxHash tx = k)) as [<-|Hne]; [apply lookup_delete_eq|].
      rewrite lookup_insert_ne in Hk by done. apply E1. by rewrite lookup_delete_ne.
    + destruct (decide (TxHash tx = k)) as [<-|Hne]; [apply lookup_delete_eq|].
      rewrite lookup_insert_ne in Hk by done. apply E2. by rewrite lookup_delete_ne.
    + by apply E3.
    + intros k x [[<- <-]|[Hne Hk]]%lookup_insert_Some; [done|]. apply E4. by rewrite lookup_delete_ne.
  - intros s Hs. unfold handleTxInv. rewrite (bind_run getS _ _ _ _ eq_refl).
    destruct (accepted s !! iv_Hash iv); [done|]. destruct (unconfirmed s !! iv_Hash iv) as [x|] eqn:Hk; [|done].
    rewrite (bind_run (modify _) _ s () _ eq_refl). by eapply keeps_notifyTx, exclusive_accept.
  - intros s Hs. unfold handleTxReject. rewrite (bind_run getS _ _ _ _ eq_refl).
    destruct (rejected s !! iv_Hash iv); [done|]. destruct (unconfirmed s !! iv_Hash iv) as [x|] eqn:Hk; [|done].
    rewrite (bind_run (modify _) _ s () _ eq_refl). by eapply keeps_notifyTx, exclusive_reject.
  - unfold handleConfirmed. apply keeps_bind; [apply keeps_getS|]. intros s. apply keeps_forM. intros kv _.
    apply keeps_bind; [|intros; apply keeps_notifyTx]. apply keeps_modify. intros s' Hs'.
    apply (exclusive_delete kv.1 true true s' Hs').
Qed.
Lemma handleRetry_exclusive now : keeps txs_exclusive (handleRetry (T := T) now).
Proof.
  unfold handleRetry. apply keeps_bind; [apply keeps_getS|]. intros s. apply keeps_forM. intros kv _.
  destruct (_ <? _); [|apply keeps_emitTx]. apply keeps_modify. intros s' Hs'.
  apply (exclusive_delete kv.1 false false s' Hs').
Qed.

(** C25: whatever the application sends, the peers announce, reject or confirm, and
    whenever the ticker runs, a transaction is at most one of unconfirmed,
    accepted and rejected, and the unconfirmed ones are filed under their hash. *)
Theorem txHandler_states n (s : Ts) k : rtc (tx_step n) emptyTx s →
  (is_Some (unconfirmed s !! k) → accepted s !! k = None ∧ rejected s !! k = None) ∧
  (is_Some (accepted s !! k) → unconfirmed s !! k = None ∧ rejected s !! k = None) ∧
  (is_Some (rejected s !! k) → unconfirmed s !! k = None ∧ accepted s !! k = None) ∧
  ∀ m, unconfirmed s !! k = Some m → TxHash (tm_tx m) = k.
Proof.
  intros Hr. assert (Hs : txs_exclusive s).
  { assert (Hemp : txs_exclusive emptyTx) by (split; cbn; [by intros k' []..|done]).
    revert Hemp. induction Hr as [|s1 s2 s3 Hstep _ IH]; [done|]. intros Hex. apply IH.
    destruct Hstep; [by apply txHandler_exclusive|by apply handleRetry_exclusive]. }
  destruct Hs as [E1 E2 E3 E4]. split_and!; [auto| | |auto].
  - intros Ha. split; [|auto]. apply eq_None_not_Some. intros Hu. rewrite E1 in Ha by done. by destruct Ha.
  - intros Hrj. split; apply eq_None_not_Some; intros Hu.
    + rewrite E2 in Hrj by done. by destruct Hrj.
    + rewrite E3 in Hrj by done. by destruct Hrj.
Qed.
End txs.

Section confirmed.
Context {H T : Type} `{!Transaction T} `{!MapOrder}.
Notation Ts := (txState T).

(** When the hashes of the block differ, the map keeps each of its tracked
    transactions. *)
Lemma confirmedTxs_lookup (s : Ts) txs tx : NoDup (TxHash <$> txs) → tx ∈ txs → tracked s (TxHash tx) = true →
  confirmedTxs s txs !! TxHash tx = Some tx.
Proof.
  unfold confirmedTxs. generalize (∅ : gmap Uint256 T) as acc. intros acc Hnd Hin Ht. revert acc Hnd Hin.
  assert (Hskip : ∀ l (acc : gmap Uint256 T), TxHash tx ∉ TxHash <$> l →
    foldl (λ m tx, if tracked s (TxHash tx) then <[TxHash tx := tx]> m else m) acc l !! TxHash tx = acc !! TxHash tx).
  { induction l as [|y l IH]; intros acc Hn; [done|]. rewrite fmap_cons, not_elem_of_cons in Hn. destruct Hn as [Hy Hn].
    cbn [foldl]. rewrite IH by done. destruct (tracked s (TxHash y)); [|done]. by rewrite lookup_insert_ne. }
  induction txs as [|y txs IH]; intros acc Hnd Hin; [by apply not_elem_of_nil in Hin|].
  rewrite fmap_cons in Hnd. apply NoDup_cons in Hnd as [Hy Hnd]. cbn [foldl].
  apply elem_of_cons in Hin as [->|Hin]; [|by apply IH].
  rewrite Hskip by done. by rewrite Ht, lookup_insert_eq.
Qed.

(** What one entry does: the transaction is forgotten and its event is posted. *)
Definition confirmOne (e : Uint256 * T → txEvent T) (kv : Uint256 * T) : GoM Ts unit :=
  modify (λ s, mkTxState (delete kv.1 (unconfirmed s)) (delete kv.1 (accepted s)) (delete kv.1 (rejected s)) (tx_events s)) ≫= λ _,
  notifyTx true (e kv).
Lemma confirm_all e l (s : Ts) : ∃ s', forM l (confirmOne e) s = (Ok (), s') ∧
  tx_events s' = tx_events s ++ (e <$> l) ∧
  ∀ k, (k ∈ l.*1 → unconfirmed s' !! k = None) ∧ (unconfirmed s !! k = None → unconfirmed s' !! k = None).
Proof.
  revert s. induction l as [|[k x] l IH]; intros s.
  { exists s. split_and!; [done|by rewrite app_nil_r|]. intros k. split; [by intros []%not_elem_of_nil|done]. }
  cbn [forM]. set (s1 := (confirmOne e (k, x) s).2).
  rewrite (bind_run (confirmOne e (k, x)) _ s () s1) by done. destruct (IH s1) as (s' & Hr & He & Hk).
  exists s'. split_and!; [done| |].
  - rewrite He. change (tx_events s1) with (tx_events s ++ [e (k, x)]). by rewrite <-app_assoc.
  - intros j. destruct (Hk j) as [Hj1 Hj2]. split.
    + cbn [fmap list_fmap fst]. intros [->|Hj]%elem_of_cons; [|by apply Hj1]. apply Hj2. cbn. apply lookup_delete_eq.
    + intros Hn. apply Hj2. cbn. apply lookup_delete_None. by right.
Qed.

Lemma handleConfirmed_run now (block : Block H T) (s : Ts) tx :
  NoDup (TxHash <$> Transactions block) → tx ∈ Transactions block → tracked s (TxHash tx) = true →
  ∃ s', handleConfirmed true now block s = (Ok (), s') ∧
    TransactionConfirmed (NewTx (now / 10 ^ 9) tx (Height (BlockHdr block))) ∈ tx_events s' ∧
    unconfirmed s' !! TxHash tx = None.
Proof.
  intros Hnd Hin Ht. unfold handleConfirmed. rewrite (bind_run getS _ _ _ _ eq_refl).
  pose proof (confirmedTxs_lookup s _ tx Hnd Hin Ht) as Hl. apply range_elem in Hl.
  set (e := λ kv : Uint256 * T, TransactionConfirmed (NewTx (now / 10 ^ 9) kv.2 (Height (BlockHdr block))) : txEvent T).
  destruct (confirm_all e (range (confirmedTxs s (Transactions block))) s) as (s' & Hr & He & Hk).
  exists s'. split_and!; [exact Hr| |].
  - rewrite He. apply elem_of_app. right. apply (list_elem_of_fmap_2 e _ _ Hl).
  - apply (proj1 (Hk _)). by apply (list_elem_of_fmap_2 fst _ _ Hl).
Qed.
End confirmed.

Section block.
Context {C H T : Type} `{!BlockHeader H} `{!Transaction T} `{!Sha} `{!PeerLib} `{!MsgConsts} `{!MapOrder}.
Context `{!SyncConfig C H T}.
Context (Hmax : (0 < MaxInvPerMsg)%nat).
Context (cI : C → Prop) (commit_pre : C → Block H T → Prop) `{!SyncConfigLaws cI commit_pre}.
Notation Sv := (service C H T).

(** The callback waits for the turn of the manager, not for its verdict. *)
Lemma onBlock_run (v : Sv) p block now sm : txQueue v = [] → StateNotifier v = true →
  syncTurn (blockMsg block p now) v =
    (Ok (Some (if sm_shutdown (syncManager v) then Done else Processed (Some block))),
     mkService sm (svc_peers v) (txQueue v) (svc_tx v) (StateNotifier v) (BlockCommitted_calls v)) →
  onBlock p block now v =
    (Ok (Some ()), mkService sm (svc_peers v) [QBlock block] (svc_tx v) true (BlockCommitted_calls v ++ [block])).
Proof.
  intros Hq Hn Hr. unfold onBlock, publish. rewrite (bindL_run _ _ _ _ _ Hr). rewrite Hq, Hn.
  by destruct (sm_shutdown (syncManager v)).
Qed.

(** C23: the service takes every block a peer sends for a committed one: a block
    that was never requested does not reach the chain, and yet the application is
    told that it was committed and that each transaction of the application in it
    is confirmed at the height the block has, which the chain did not set; the
    transaction is no longer sent again. *)
Theorem onBlock_confirms_unrequested c (v : Sv) p block now np tx t :
  cI c → rtc (sync_step commit_pre) (sync_New c) (syncManager v) →
  sm_peers (syncManager v) !! p = Some np →
  (∀ st, peerStates (syncManager v) !! p = Some st → ps_requestedBlocks st !! hdrHash (BlockHdr block) = None) →
  StateNotifier v = true → txQueue v = [] →
  NoDup (TxHash <$> Transactions block) → tx ∈ Transactions block →
  is_Some (unconfirmed (svc_tx v) !! TxHash tx) →
  ∃ v1 v2, onBlock p block now v = (Ok (Some ()), v1) ∧ txTurn t v1 = (Ok (), v2) ∧
    sm_cfg (syncManager v2) = sm_cfg (syncManager v) ∧
    BlockCommitted_calls v2 = BlockCommitted_calls v ++ [block] ∧
    TransactionConfirmed (NewTx (t / 10 ^ 9) tx (Height (BlockHdr block))) ∈ tx_events (svc_tx v2) ∧
    unconfirmed (svc_tx v2) !! TxHash tx = None.
Proof.
  intros Hc Hreach Hnp Hno Hn Hq Hnd Hin Hun.
  assert (Hturn : ∃ sm, sm_cfg sm = sm_cfg (syncManager v) ∧ syncTurn (blockMsg block p now) v =
    (Ok (Some (if sm_shutdown (syncManager v) then Done else Processed (Some block))),
     mkService sm (svc_peers v) (txQueue v) (svc_tx v) (StateNotifier v) (BlockCommitted_calls v))).
  { unfold syncTurn. rewrite (bind_run getS _ _ _ _ eq_refl). cbn [queued].
    destruct (sm_shutdown (syncManager v)); [exists (syncManager v); split; [done|by destruct v]|].
    destruct (block_not_requested_run Hmax cI commit_pre c (syncManager v) p block now np Hc Hreach Hnp Hno)
      as (sm & Hr & Hcfg & _). exists sm. split; [done|]. unfold onSync, zoom. by rewrite Hr. }
  destruct Hturn as (sm & Hcfg & Hr).
  assert (Htr : tracked (svc_tx v) (TxHash tx) = true) by (unfold tracked; by rewrite bool_decide_true).
  destruct (handleConfirmed_run t block (svc_tx v) tx Hnd Hin Htr) as (ts & Hh & He & Hk).
  eexists _, _. split_and!; [by apply onBlock_run| |..].
  - unfold txTurn. rewrite (bind_run getS _ _ _ _ eq_refl). cbn [txQueue].
    rewrite (bind_run (modify _) _ _ () _ eq_refl). unfold zoom. cbn [txHandler svc_tx StateNotifier]. by rewrite Hh.
  - exact Hcfg.
  - done.
  - exact He.
  - exact Hk.
Qed.
End block.
