(* ===== verification/Chan.v ===== *)
(** * Goroutines and channels of the service

    [sdk/service.go] and [sync/manager.go]: the goroutines of the peers put
    messages on channels of a bounded capacity and wait for answers; one goroutine
    takes them, a message at a time, until it is told to quit, and then drains its
    channel.  A step of the system is a step of one goroutine; a goroutine whose
    channel is full, or whose answer is not there, has no step. *)
From S2P Require Export Service.
#[local] Open Scope Z_scope.

(** ** A loop that answers on a channel of the sender

    [peerHandler] with [newPeer] and [donePeer]: the request carries a channel
    without a buffer, on which the sender waits. *)
Section loop.
Context {S Q : Type} (serve : Q → S → S) (capacity : nat).

Inductive loopMode := Running | Draining | Ended.
Record loop := mkLoop {
  lp_state : S;
  lp_queue : list (nat * Q);      (* the channel, with the goroutine that waits *)
  lp_waiting : gset nat;          (* goroutines in [<-reply] *)
  lp_quit : bool;
  lp_mode : loopMode;
}.

Inductive loop_step : loop → loop → Prop :=
  | lp_send s l w quit mode i q : i ∉ w → (length l < capacity)%nat →
      loop_step (mkLoop s l w quit mode) (mkLoop s (l ++ [(i, q)]) ({[i]} ∪ w) quit mode)
  | lp_turn s i q l w quit :
      loop_step (mkLoop s ((i, q) :: l) w quit Running) (mkLoop (serve q s) l (w ∖ {[i]}) quit Running)
  | lp_close s l w quit mode : loop_step (mkLoop s l w quit mode) (mkLoop s l w true mode)
  | lp_leave s l w : loop_step (mkLoop s l w true Running) (mkLoop s l w true Draining)
  | lp_drain s x l w quit : loop_step (mkLoop s (x :: l) w quit Draining) (mkLoop s l w quit Draining)
  | lp_end s w quit : loop_step (mkLoop s [] w quit Draining) (mkLoop s [] w quit Ended).
End loop.
Arguments mkLoop {S Q}.
Arguments lp_state {S Q}.
Arguments lp_queue {S Q}.
Arguments lp_waiting {S Q}.
Arguments lp_quit {S Q}.
Arguments lp_mode {S Q}.
Arguments loop : clear implicits.

(** ** [peerHandler] *)
Definition defaultMaxPeers : nat := 25.

Inductive peerMsg := NewPeerMsg (p : PeerPtr) | DonePeerMsg (p : PeerPtr).
Definition handlePeerMsg (m : peerMsg) (peers : gset PeerPtr) : gset PeerPtr :=
  match m with
  | NewPeerMsg p => {[p]} ∪ peers
  | DonePeerMsg p => peers ∖ {[p]}
  end.
Definition peerHandler_step : loop (gset PeerPtr) peerMsg → loop (gset PeerPtr) peerMsg → Prop :=
  loop_step handlePeerMsg defaultMaxPeers.

(** ** The loop of the sync manager

    [QueueBlock] and [QueueTx] are answered on two channels of the service with
    room for one token each, shared by the goroutines of all peers; [IsCurrent]
    and [SyncPeerID] on a channel of the caller. *)
Section manager.
Context {C H T : Type} `{!BlockHeader H} `{!Transaction T} `{!Sha} `{!PeerLib} `{!MsgConsts} `{!MapOrder}.
Context `{!SyncConfig C H T}.
Notation Sv := (service C H T).

(** Where a call of a goroutine stands. *)
Inductive waiter :=
  | Sending (m : syncMsg H T)           (* sm.msgChan <- m, the flag of the shutdown read before *)
  | WaitBlock (block : Block H T)       (* <-s.blockProcessed, in onBlock *)
  | WaitTx (tx : T)                     (* <-s.txProcessed, in onTx *)
  | WaitReply                           (* <-reply, in IsCurrent and SyncPeerID *)
  | Publishing (block : Block H T).     (* onBlock after the token *)

Inductive token := BlockToken | TxToken.
Inductive managerMode :=
  | NotStarted
  | Handling
  | Replying (t : token)                (* msg.reply <- struct{}{} *)
  | Paused                              (* <-msg.unpause *)
  | MDraining
  | MEnded.

Record system := mkSystem {
  sys_svc : Sv;
  sys_msgChan : list (nat * syncMsg H T);   (* with the call that sent it *)
  sys_mode : managerMode;
  sys_quit : bool;
  sys_blockProcessed : nat;                 (* tokens in the channel *)
  sys_txProcessed : nat;
  sys_wait : gmap nat waiter;
  sys_txMode : loopMode;                    (* txHandler *)
  sys_svcQuit : bool;                       (* s.quit of the service *)
}.

(** [msgChan] has room for three messages a peer, the token channels for one,
    [txQueue] for three. *)
Definition msgChan_cap : nat := 3 * defaultMaxPeers.
Definition token_cap : nat := 1.
Definition txQueue_cap : nat := 3.

(** What the sender waits for once the message is on the channel, if it has not
    returned. *)
Definition waits (m : syncMsg H T) : option waiter :=
  match m with
  | blockMsg block _ _ => Some (WaitBlock block)
  | txMsg tx _ => Some (WaitTx tx)
  | getSyncPeerMsg | isCurrentMsg => Some WaitReply
  | _ => None
  end.
Definition token_of (m : syncMsg H T) : option token :=
  match m with blockMsg _ _ _ => Some BlockToken | txMsg _ _ => Some TxToken | _ => None end.
Definition set_wait (i : nat) (w : option waiter) (wait : gmap nat waiter) : gmap nat waiter :=
  match w with Some w => <[i := w]> wait | None => delete i wait end.
(** The block of the call is the object the chain has filled in. *)
Definition refill (i : nat) (r : syncReply (H := H) (T := T)) (wait : gmap nat waiter) : gmap nat waiter :=
  match r, wait !! i with
  | Processed (Some b), Some (WaitBlock _) => <[i := WaitBlock b]> wait
  | Processed (Some b), Some (Publishing _) => <[i := Publishing b]> wait
  | _, _ => wait
  end.
(** Where a turn leaves the loop: a token to send, an answer given, a pause. *)
Definition turn_mode (m : syncMsg H T) : managerMode :=
  match m with pauseMsg => Paused | _ => match token_of m with Some t => Replying t | None => Handling end end.
Definition answered (i : nat) (m : syncMsg H T) (wait : gmap nat waiter) : gmap nat waiter :=
  match m with getSyncPeerMsg | isCurrentMsg => delete i wait | _ => wait end.

Definition tokens (t : token) (s : system) : nat :=
  match t with BlockToken => sys_blockProcessed s | TxToken => sys_txProcessed s end.
Definition set_tokens (t : token) (n : nat) (s : system) : system :=
  match t with
  | BlockToken => mkSystem (sys_svc s) (sys_msgChan s) (sys_mode s) (sys_quit s) n (sys_txProcessed s) (sys_wait s) (sys_txMode s) (sys_svcQuit s)
  | TxToken => mkSystem (sys_svc s) (sys_msgChan s) (sys_mode s) (sys_quit s) (sys_blockProcessed s) n (sys_wait s) (sys_txMode s) (sys_svcQuit s)
  end.
Definition set_mode (mode : managerMode) (s : system) : system :=
  mkSystem (sys_svc s) (sys_msgChan s) mode (sys_quit s) (sys_blockProcessed s) (sys_txProcessed s) (sys_wait s) (sys_txMode s) (sys_svcQuit s).
Definition set_waits (w : gmap nat waiter) (s : system) : system :=
  mkSystem (sys_svc s) (sys_msgChan s) (sys_mode s) (sys_quit s) (sys_blockProcessed s) (sys_txProcessed s) w (sys_txMode s) (sys_svcQuit s).
Definition set_chan (l : list (nat * syncMsg H T)) (s : system) : system :=
  mkSystem (sys_svc s) l (sys_mode s) (sys_quit s) (sys_blockProcessed s) (sys_txProcessed s) (sys_wait s) (sys_txMode s) (sys_svcQuit s).
Definition set_svc (v : Sv) (s : system) : system :=
  mkSystem v (sys_msgChan s) (sys_mode s) (sys_quit s) (sys_blockProcessed s) (sys_txProcessed s) (sys_wait s) (sys_txMode s) (sys_svcQuit s).
Definition set_tx (txm : loopMode) (s : system) : system :=
  mkSystem (sys_svc s) (sys_msgChan s) (sys_mode s) (sys_quit s) (sys_blockProcessed s) (sys_txProcessed s) (sys_wait s) txm (sys_svcQuit s).

(** [sm.Stop()] of the first call: the flag, then [close(sm.quit)]. *)
Definition stop_system (s : system) : system :=
  mkSystem (onSync sync_Stop (sys_svc s)).2 (sys_msgChan s) (sys_mode s) true (sys_blockProcessed s) (sys_txProcessed s) (sys_wait s) (sys_txMode s) (sys_svcQuit s).
(** [close(s.quit)] of [Stop], after the sync manager's. *)
Definition close_system (s : system) : system :=
  mkSystem (sys_svc s) (sys_msgChan s) (sys_mode s) (sys_quit s) (sys_blockProcessed s) (sys_txProcessed s) (sys_wait s) (sys_txMode s) true.

(** [txHandler], and the goroutines that put on its queue what does not come from
    the manager: [SendTransaction], [onInv] and [onReject]. *)
Definition from_manager (m : txQueueMsg H T) : bool := match m with QBlock _ => true | _ => false end.
Definition txTick (now : Z) (v : Sv) : outcome unit * Sv :=
  let (o, t) := handleRetry (T := T) now (svc_tx v) in
  (o, mkService (syncManager v) (svc_peers v) (txQueue v) t (StateNotifier v) (BlockCommitted_calls v)).
Definition dropTx (v : Sv) : Sv :=
  mkService (syncManager v) (svc_peers v) (tail (txQueue v)) (svc_tx v) (StateNotifier v) (BlockCommitted_calls v).
Inductive tx_step (quit : bool) : loopMode * Sv → loopMode * Sv → Prop :=
  | tx_put mode m v : from_manager m = false → (length (txQueue v) < txQueue_cap)%nat →
      tx_step quit (mode, v) (mode, (enqueue m v).2)
  | tx_turn now v v' : txQueue v ≠ [] → txTurn now v = (Ok (), v') → tx_step quit (Running, v) (Running, v')
  | tx_tick now v v' : txTick now v = (Ok (), v') → tx_step quit (Running, v) (Running, v')
  | tx_leave v : quit = true → tx_step quit (Running, v) (Draining, v)
  | tx_drain v : txQueue v ≠ [] → tx_step quit (Draining, v) (Draining, dropTx v)
  | tx_end v : txQueue v = [] → tx_step quit (Draining, v) (Ended, v).

Definition unused (i : nat) (s : system) : Prop := sys_wait s !! i = None ∧ i ∉ (sys_msgChan s).*1.
Inductive sys_step : system → system → Prop :=
  (* a goroutine calls NewPeer, QueueTx, QueueBlock, QueueInv, DonePeer, SyncPeerID, IsCurrent or
     Pause; [i] is a name for the call, not in use *)
  | s_call s i m : unused i s → queued m (syncManager (sys_svc s)) = Some m →
      sys_step s (set_waits (<[i := Sending m]> (sys_wait s)) s)
  | s_queue s i m : sys_wait s !! i = Some (Sending m) → (length (sys_msgChan s) < msgChan_cap)%nat →
      sys_step s (set_waits (set_wait i (waits m) (sys_wait s)) (set_chan (sys_msgChan s ++ [(i, m)]) s))
  (* QueueTx and QueueBlock while shutting down send the token themselves *)
  | s_refuse s i m t : unused i s → queued m (syncManager (sys_svc s)) = None → token_of m = Some t →
      (tokens t s < token_cap)%nat →
      sys_step s (set_waits (set_wait i (waits m) (sys_wait s)) (set_tokens t (S (tokens t s)) s))
  (* onTx and onBlock get a token *)
  | s_takeTx s i tx : sys_wait s !! i = Some (WaitTx tx) → (0 < sys_txProcessed s)%nat →
      sys_step s (set_waits (delete i (sys_wait s)) (set_tokens TxToken (pred (sys_txProcessed s)) s))
  | s_takeBlock s i block : sys_wait s !! i = Some (WaitBlock block) → (0 < sys_blockProcessed s)%nat →
      sys_step s (set_waits (<[i := Publishing block]> (sys_wait s)) (set_tokens BlockToken (pred (sys_blockProcessed s)) s))
  | s_publish s i block v : sys_wait s !! i = Some (Publishing block) → (length (txQueue (sys_svc s)) < txQueue_cap)%nat →
      publish block (sys_svc s) = (Ok (), v) →
      sys_step s (set_waits (delete i (sys_wait s)) (set_svc v s))
  | s_tx s mode v : tx_step (sys_svcQuit s) (sys_txMode s, sys_svc s) (mode, v) → sys_step s (set_tx mode (set_svc v s))
  (* the manager *)
  | s_start s : sys_mode s = NotStarted → sys_step s (set_mode Handling s)
  | s_turn s i m l r v : sys_mode s = Handling → sys_msgChan s = (i, m) :: l →
      onSync (sync_blockHandler m) (sys_svc s) = (Ok (Some r), v) →
      sys_step s (set_waits (answered i m (refill i r (sys_wait s))) (set_mode (turn_mode m) (set_chan l (set_svc v s))))
  | s_reply s t : sys_mode s = Replying t → (tokens t s < token_cap)%nat →
      sys_step s (set_mode Handling (set_tokens t (S (tokens t s)) s))
  | s_unpause s : sys_mode s = Paused → sys_step s (set_mode Handling s)
  | s_stop s : sys_step s (stop_system s)
  | s_close s : sm_shutdown (syncManager (sys_svc s)) = true → sys_svcQuit s = false → sys_step s (close_system s)
  | s_leave s : sys_mode s = Handling → sys_quit s = true → sys_step s (set_mode MDraining s)
  | s_drain s x l : sys_mode s = MDraining → sys_msgChan s = x :: l → sys_step s (set_chan l s)
  | s_end s : sys_mode s = MDraining → sys_msgChan s = [] → sys_step s (set_mode MEnded s).

(** [newService] has returned and [start] has started [txHandler]; the start of the
    manager is a step. *)
Definition new_system (v : Sv) : system := mkSystem v [] NotStarted false 0 0 ∅ Running false.
End manager.
