(* ===== verification/ChanSpec.v ===== *)
(** * What the goroutines may rely on

    While the manager runs, every goroutine in [onBlock] or [onTx] has a token
    coming and the manager never waits for ever to send one ([tokens_balance]);
    but the token need not be the one of its own block ([onBlock_takes_token]).
    What is on a channel when its loop ends is never answered ([stop_strands],
    [peer_request_stranded]). *)
From S2P Require Export Chan ServiceSpec.
#[local] Open Scope Z_scope.

Section manager.
Context {C H T : Type} `{!BlockHeader H} `{!Transaction T} `{!Sha} `{!PeerLib} `{!MsgConsts} `{!MapOrder}.
Context `{!SyncConfig C H T}.
Notation Sv := (service C H T).
Notation Sys := (system (C := C) (H := H) (T := T)).
Implicit Types (s : Sys).

Lemma queued_open (m : syncMsg H T) (sm : SyncManager C H T) : sm_shutdown sm = false → queued m sm = Some m.
Proof. intros Hs. destruct m; cbn; by rewrite ?Hs. Qed.

(** ** Counting *)
Definition is_waiting (t : token) (w : waiter (H := H) (T := T)) : bool :=
  match t, w with BlockToken, WaitBlock _ => true | TxToken, WaitTx _ => true | _, _ => false end.
(** Goroutines that wait for a token. *)
Definition waiting (t : token) (w : gmap nat (waiter (H := H) (T := T))) : nat :=
  size (filter (λ kw, is_waiting t kw.2) w).
(** Messages on the channel that will be answered with one. *)
#[global] Instance token_eq_dec : EqDecision token.
Proof. solve_decision. Defined.
Definition owed_by (l : list (nat * syncMsg H T)) (t : token) : nat := length (filter (λ im, token_of im.2 = Some t) l).
Definition being_sent (m : managerMode) (t : token) : nat :=
  match m with Replying t' => if decide (t' = t) then 1 else 0 | _ => 0 end.
Definition coming (t : token) s : nat := tokens t s + owed_by (sys_msgChan s) t + being_sent (sys_mode s) t.

Lemma waiting_insert t i w m : m !! i = None → waiting t (<[i := w]> m) = ((if is_waiting t w then 1 else 0) + waiting t m)%nat.
Proof.
  intros Hi. unfold waiting. rewrite map_filter_insert. cbn [snd]. destruct (is_waiting t w) eqn:Hw.
  - rewrite decide_True by done. rewrite map_size_insert_None; [done|]. apply map_lookup_filter_None. by left.
  - rewrite decide_False by by intros []. by rewrite delete_id.
Qed.
Lemma waiting_delete t i w m : m !! i = Some w → waiting t m = ((if is_waiting t w then 1 else 0) + waiting t (delete i m))%nat.
Proof. intros Hi. rewrite <-(waiting_insert t i w (delete i m)) by apply lookup_delete_eq. by rewrite insert_delete_id. Qed.
Lemma waiting_replace t i w w' m : m !! i = Some w → 
  (waiting t (<[i := w']> m) + (if is_waiting t w then 1 else 0) = waiting t m + (if is_waiting t w' then 1 else 0))%nat.
Proof.
  intros Hi. rewrite <-insert_delete_eq. rewrite waiting_insert by apply lookup_delete_eq.
  rewrite (waiting_delete t i w m Hi). lia.
Qed.
Lemma waiting_refill t i r m : waiting t (refill i r m) = waiting t m.
Proof.
  unfold refill. destruct r as [|[b|]| |]; [done| |done..]. destruct (m !! i) as [[q|b'|tx| |b']|] eqn:Hi; [done| |done..| |done].
  - pose proof (waiting_replace t i _ (WaitBlock b) m Hi) as Hw. cbn in Hw. destruct t; cbn in *; lia.
  - pose proof (waiting_replace t i _ (Publishing b) m Hi) as Hw. cbn in Hw. destruct t; cbn in *; lia.
Qed.
Lemma is_waiting_waits t m : (match waits m with Some w => if is_waiting t w then 1 else 0 | None => 0 end : nat) =
  (if decide (token_of (H := H) (T := T) m = Some t) then 1 else 0)%nat.
Proof. destruct m, t; reflexivity. Qed.
Lemma waiting_set t i m wait : wait !! i = None ∨ wait !! i = Some (Sending m) →
  waiting t (set_wait i (waits m) wait) = ((if decide (token_of m = Some t) then 1 else 0) + waiting t wait)%nat.
Proof.
  intros Hi. rewrite <-is_waiting_waits. replace (waiting t wait) with (waiting t (delete i wait)).
  2: { destruct Hi as [Hi|Hi]; [by rewrite delete_id|]. rewrite (waiting_delete t i _ _ Hi). by destruct t. }
  unfold set_wait. destruct (waits m); [|done]. rewrite <-insert_delete_eq. apply waiting_insert, lookup_delete_eq.
Qed.
Lemma owed_app l i m t : owed_by (l ++ [(i, m)]) t = (owed_by l t + (if decide (token_of m = Some t) then 1 else 0))%nat.
Proof. unfold owed_by. rewrite filter_app, length_app. f_equal. rewrite filter_cons. cbn. by case_decide. Qed.
Lemma owed_cons l i m t : owed_by ((i, m) :: l) t = ((if decide (token_of m = Some t) then 1 else 0) + owed_by l t)%nat.
Proof. unfold owed_by. rewrite filter_cons. cbn. by case_decide. Qed.
Lemma being_sent_turn m t : being_sent (turn_mode m) t = if decide (token_of (H := H) (T := T) m = Some t) then 1%nat else 0%nat.
Proof. destruct m, t; reflexivity. Qed.
(** ** What every step keeps *)
Definition is_private (m : syncMsg H T) : bool := match m with getSyncPeerMsg | isCurrentMsg => true | _ => false end.
Record sane s : Prop := {
  sa_tokens t : (tokens t s ≤ token_cap)%nat;
  (* the sender of IsCurrent and SyncPeerID waits, and has sent nothing else since *)
  sa_private i m : (i, m) ∈ sys_msgChan s → is_private m → sys_wait s !! i = Some WaitReply;
  sa_nodup : NoDup (filter (λ im, is_private im.2) (sys_msgChan s)).*1;
}.
(** Goroutines no token is coming for. *)
Definition lost t s : Z := Z.of_nat (waiting t (sys_wait s)) - Z.of_nat (coming t s).
Definition going m : Prop := match m with MDraining | MEnded => False | _ => True end.

Lemma is_private_waits m : is_private m = true ↔ waits m = Some WaitReply.
Proof. by destruct m. Qed.
Lemma private_NoDup (s : Sys) i m l : sane s → sys_msgChan s = (i, m) :: l → is_private m →
  ∀ j m', (j, m') ∈ l → is_private m' → j ≠ i.
Proof.
  intros [_ _ Hnd] Hl Hm j m' Hj Hp ->. rewrite Hl, filter_cons, decide_True in Hnd by done.
  apply NoDup_cons in Hnd as [Hni _]. apply Hni. apply (list_elem_of_fmap_2 fst _ (i, m')), list_elem_of_filter. by split.
Qed.
Lemma refill_lookup i r (m : gmap nat (waiter (H := H) (T := T))) j : m !! j = Some WaitReply → refill i r m !! j = Some WaitReply.
Proof.
  intros Hj. unfold refill. destruct r as [|[b|]| |]; [done| |done..]. destruct (m !! i) as [[]|] eqn:Hi; try done;
    (rewrite lookup_insert_ne; [done|]; intros ->; congruence).
Qed.
Ltac token_bound H := let t := fresh "t" in intros t; pose proof (H t); by destruct t.
(** A goroutine that waits for no reply may go on. *)
Lemma sane_others s w' : sane s → (∀ j, sys_wait s !! j = Some WaitReply → w' !! j = Some WaitReply) → sane (set_waits w' s).
Proof. intros [Ht Hp Hn] Hw. split; [by token_bound Ht|intros i m Hi Hm; apply Hw; by eapply Hp|done]. Qed.
Lemma sane_set_tokens t n s : sane s → (n ≤ token_cap)%nat → sane (set_tokens t n s).
Proof. intros [Ht Hp Hn] Hle. split; [|by destruct t..]. intros t'. pose proof (Ht t'). destruct t, t'; cbn in *; lia. Qed.
Lemma sane_set_mode m s : sane s → sane (set_mode m s).
Proof. intros [Ht Hp Hn]. split; [token_bound Ht|done..]. Qed.
Lemma sane_set_svc v s : sane s → sane (set_svc v s).
Proof. intros [Ht Hp Hn]. split; [token_bound Ht|done..]. Qed.
Lemma sane_set_tx m s : sane s → sane (set_tx m s).
Proof. intros [Ht Hp Hn]. split; [token_bound Ht|done..]. Qed.
Lemma sane_tail x l s : sys_msgChan s = x :: l → sane s → sane (set_chan l s).
Proof.
  intros Hl [Ht Hp Hn]. rewrite Hl in Hp, Hn. split; [token_bound Ht|..]; cbn.
  - intros i m Hi Hm. apply (Hp i m); [by right|done].
  - rewrite filter_cons in Hn. case_decide; [by apply NoDup_cons in Hn as [_ ?]|done].
Qed.
Lemma sane_send i m s : sane s → sys_wait s !! i = Some (Sending m) →
  sane (set_waits (set_wait i (waits m) (sys_wait s)) (set_chan (sys_msgChan s ++ [(i, m)]) s)).
Proof.
  intros [Ht Hp Hn] Hi. split; [token_bound Ht|..]; cbn.
  - intros j m' [Hj|Hj%list_elem_of_singleton]%elem_of_app Hm'.
    + pose proof (Hp j m' Hj Hm') as Hw. assert (j ≠ i) by congruence.
      unfold set_wait. destruct (waits m); [by rewrite lookup_insert_ne|by rewrite lookup_delete_ne].
    + injection Hj as -> ->. apply Is_true_true, is_private_waits in Hm'. rewrite Hm'. apply lookup_insert_eq.
  - rewrite filter_app, fmap_app. destruct (is_private m) eqn:Hm.
    2: { rewrite (filter_cons_False _ (i, m) []) by (cbn; rewrite Hm; by intros []). by rewrite app_nil_r. }
    rewrite (filter_cons_True _ (i, m) []) by (cbn; by rewrite Hm). cbn.
    apply NoDup_app. split; [done|]. split; [|apply NoDup_singleton]. intros j Hj ->%list_elem_of_singleton.
    apply list_elem_of_fmap in Hj as ([j m'] & -> & [Hpm Hj]%list_elem_of_filter). pose proof (Hp j m' Hj Hpm). cbn in *. congruence.
Qed.

Lemma sys_step_sane s s' : sys_step s s' → sane s → sane s'.
Proof.
  intros Hstep Hs. destruct Hstep as [s i m [Hi _] Hq|s i m Hi Hlen|s i m t [Hi _] Hq Hm Ht|s i tx Hi Ht|s i b Hi Ht|s i b v Hi Hl Hr|s mode v Hr|s Hm
    |s i m l r v Hm Hl Hr|s t Hm Ht|s Hm|s|s Hm Hq|s Hm Hq|s x l Hm Hl|s Hm Hl].
  - apply sane_others; [done|]. intros j Hj. rewrite lookup_insert_ne; [done|]. intros ->. congruence.
  - by apply sane_send.
  - assert (Hs' : sane (set_tokens t (S (tokens t s)) s)) by (apply sane_set_tokens; [done|lia]).
    replace (sys_wait s) with (sys_wait (set_tokens t (S (tokens t s)) s)) by by destruct t.
    apply sane_others; [done|]. intros j Hj.
    assert (i ≠ j) by (intros ->; destruct t; cbn in Hj; congruence).
    unfold set_wait. destruct (waits m); [by rewrite lookup_insert_ne|by rewrite lookup_delete_ne].
  - apply (sane_others (set_tokens TxToken _ s)); [apply sane_set_tokens; [done|pose proof (sa_tokens s Hs TxToken); cbn in *; lia]|].
    cbn. intros j Hj. rewrite lookup_delete_ne; [done|]. intros ->. congruence.
  - apply (sane_others (set_tokens BlockToken _ s)); [apply sane_set_tokens; [done|pose proof (sa_tokens s Hs BlockToken); cbn in *; lia]|].
    cbn. intros j Hj. rewrite lookup_insert_ne; [done|]. intros ->. congruence.
  - apply (sane_others (set_svc v s)); [by apply sane_set_svc|]. cbn. intros j Hj. rewrite lookup_delete_ne; [done|]. intros ->. congruence.
  - by apply sane_set_tx, sane_set_svc.
  - by apply sane_set_mode.
  - pose proof (private_NoDup s i m l Hs Hl) as Hother. destruct Hs as [Ht Hp Hn].
    split; [token_bound Ht|..]; cbn.
    + intros j m' Hj Hm'. assert (Hw : sys_wait s !! j = Some WaitReply) by (apply (Hp j m'); [rewrite Hl; by right|done]).
      apply (refill_lookup i r) in Hw. unfold answered. destruct (is_private m) eqn:Hpm.
      * specialize (Hother I j m' Hj Hm'). destruct m; try done; by rewrite lookup_delete_ne.
      * by destruct m.
    + rewrite Hl, filter_cons in Hn. case_decide; [by apply NoDup_cons in Hn as [_ ?]|done].
  - apply sane_set_mode, sane_set_tokens; [done|lia].
  - by apply sane_set_mode.
  - destruct Hs as [Ht Hp Hn]. split; [token_bound Ht|done..].
  - destruct Hs as [Ht Hp Hn]. split; [token_bound Ht|done..].
  - by apply sane_set_mode.
  - by eapply sane_tail.
  - by apply sane_set_mode.
Qed.

#[local] Arguments owed_by : simpl never.
#[local] Arguments waiting : simpl never.
Lemma waiting_answered t i m wait : (is_private m → wait !! i = Some WaitReply) → waiting t (answered i m wait) = waiting t wait.
Proof.
  intros Hp. destruct m; try done; rewrite (waiting_delete t i _ wait (Hp I)); by destruct t.
Qed.
Lemma sys_step_lost s s' t : sane s → sys_step s s' → lost t s ≤ lost t s' ∧ (going (sys_mode s) → lost t s' = lost t s).
Proof.
  intros Hs Hstep. destruct Hstep as [s i m [Hi _] Hq|s i m Hi Hlen|s i m t' [Hi _] Hq Hm Ht|s i tx Hi Ht|s i b Hi Ht|s i b v Hi Hl Hr|s mode v Hr|s Hm
    |s i m l r v Hm Hl Hr|s t' Hm Ht|s Hm|s|s Hm Hq|s Hm Hq|s [j m] l Hm Hl|s Hm Hl]; unfold lost, coming; cbn.
  - rewrite waiting_insert by done. destruct t; cbn; lia.
  - rewrite owed_app, waiting_set by by right. destruct t; cbn; lia.
  - rewrite waiting_set, Hm by by left. destruct t, t'; cbn; repeat case_decide; try congruence; lia.
  - rewrite (waiting_delete t i _ _ Hi). destruct t; cbn; lia.
  - pose proof (waiting_replace t i _ (Publishing b) _ Hi) as Hw. destruct t; cbn in *; lia.
  - rewrite (waiting_delete t i _ _ Hi). destruct t; cbn; lia.
  - destruct t; cbn; lia.
  - rewrite Hm. destruct t; cbn; lia.
  - rewrite waiting_answered, waiting_refill, being_sent_turn, Hm, Hl, owed_cons.
    + destruct t; cbn [tokens set_waits set_mode set_chan set_svc sys_blockProcessed sys_txProcessed sys_msgChan being_sent]; lia.
    + intros Hpm. apply refill_lookup, (sa_private s Hs i m); [rewrite Hl; by left|done].
  - rewrite Hm. destruct t, t'; cbn; repeat case_decide; try congruence; lia.
  - rewrite Hm. destruct t; cbn; lia.
  - destruct t; cbn; lia.
  - destruct t; cbn; lia.
  - rewrite Hm. destruct t; cbn; lia.
  - rewrite Hm, Hl, owed_cons. destruct t; cbn; split; [lia|done|lia|done].
  - rewrite Hm. destruct t; cbn; split; [lia|done|lia|done].
Qed.

(** A loop that is over stays over. *)
Lemma sys_step_ended s s' : sys_step s s' → sys_mode s = MEnded → sys_mode s' = MEnded.
Proof. intros Hstep Hm. destruct Hstep; cbn in *; try congruence. by destruct t. Qed.
Lemma sys_step_drained s s' : sys_step s s' → going (sys_mode s') → going (sys_mode s).
Proof.
  intros Hstep Hm. destruct Hstep; try (cbn in *; congruence); try (by destruct t); cbn in *;
    repeat match goal with He : sys_mode _ = _ |- _ => rewrite He in * end; done.
Qed.
Lemma new_system_sane v : sane (new_system v).
Proof. split; [intros []; cbn; lia|by intros i m []%not_elem_of_nil|constructor]. Qed.
Lemma reach_sane s s' : rtc sys_step s s' → sane s → sane s'.
Proof. induction 1; eauto using sys_step_sane. Qed.
Lemma reach_lost s s' t : rtc sys_step s s' → sane s → lost t s ≤ lost t s'.
Proof.
  induction 1 as [|s1 s2 s3 Hst _ IH]; intros Hs; [lia|].
  pose proof (sys_step_lost _ _ t Hs Hst) as [Hle _]. specialize (IH (sys_step_sane _ _ Hst Hs)). lia.
Qed.
Lemma reach_balance v s t : rtc sys_step (new_system v) s → going (sys_mode s) → lost t s = 0.
Proof.
  intros Hr. revert s Hr. apply (rtc_ind_r (λ s, going (sys_mode s) → lost t s = 0)); [intros _; by destruct t|].
  intros s s' Hr Hstep IH Hm. pose proof (sys_step_drained _ _ Hstep Hm) as Hg.
  destruct (sys_step_lost s s' t) as [_ He]; [by eapply reach_sane, new_system_sane|done|]. rewrite He, IH; done.
Qed.

(** A goroutine whose token is there takes it. *)
Lemma take_token s t i w : sys_wait s !! i = Some w → is_waiting t w = true → (0 < tokens t s)%nat →
  ∃ s', sys_step s s' ∧ sys_mode s' = sys_mode s ∧ sys_msgChan s' = sys_msgChan s ∧ tokens t s' = pred (tokens t s).
Proof.
  intros Hi Hw Ht. destruct t, w as [q|b|tx| |b]; try discriminate Hw.
  - eexists. split; [by eapply s_takeBlock|done].
  - eexists. split; [by eapply s_takeTx|done].
Qed.
Lemma waiting_someone t wait : (0 < waiting t wait)%nat → ∃ i w, wait !! i = Some w ∧ is_waiting t w = true.
Proof.
  intros Hw. destruct (map_choose (filter (λ kw, is_waiting t kw.2) wait)) as (i & w & Hi).
  { intros He. unfold waiting in Hw. rewrite He, map_size_empty in Hw. lia. }
  apply map_lookup_filter_Some in Hi as [Hi Hc]. exists i, w. split; [done|]. by apply Is_true_true.
Qed.

(** C7: until the manager drains its channel, the goroutines that wait for a token
    are as many as the tokens that are there, being sent, or owed for a message on
    the channel; a channel never holds more than one; and the manager never waits
    for ever to send one. *)
Theorem tokens_balance v s t : rtc sys_step (new_system v) s → going (sys_mode s) →
  waiting t (sys_wait s) = coming t s ∧ (tokens t s ≤ token_cap)%nat ∧
  (sys_mode s = Replying t → ∃ s', rtc sys_step s s' ∧ sys_mode s' = Handling ∧ sys_msgChan s' = sys_msgChan s).
Proof.
  intros Hr Hm. pose proof (reach_balance v s t Hr Hm) as Hl. pose proof (reach_sane _ _ Hr (new_system_sane v)) as Hs.
  pose proof (sa_tokens s Hs t) as Ht. unfold lost in Hl. split_and!; [lia|done|]. intros Hrep.
  assert (Hsend : ∀ s1, sys_mode s1 = Replying t → sys_msgChan s1 = sys_msgChan s → (tokens t s1 < token_cap)%nat →
    ∃ s', rtc sys_step s1 s' ∧ sys_mode s' = Handling ∧ sys_msgChan s' = sys_msgChan s).
  { intros s1 Hm1 Hc1 Ht1. eexists. split; [by apply rtc_once, (s_reply s1 t)|]. by destruct t. }
  destruct (decide (tokens t s < token_cap)%nat) as [Hlt|Hge]; [by apply Hsend|]. unfold token_cap in *.
  unfold coming in Hl. rewrite Hrep in Hl. cbn in Hl. rewrite decide_True in Hl by done.
  destruct (waiting_someone t (sys_wait s)) as (i & w & Hi & Hw); [lia|].
  destruct (take_token s t i w Hi Hw) as (s1 & Hstep & Hm1 & Hc1 & Ht1); [lia|].
  destruct (Hsend s1) as (s' & Hr' & ?); [congruence|done|lia|]. exists s'. split; [by eapply rtc_l|done].
Qed.

(** ** After the loop *)
Lemma drain_run s l : sys_mode s = MDraining → sys_msgChan s = l → rtc sys_step s (set_chan [] s).
Proof.
  revert s. induction l as [|x l IH]; intros s Hm Hl.
  - replace (set_chan [] s) with s; [done|]. destruct s; cbn in *. by subst.
  - eapply rtc_l; [by apply (s_drain s x l)|]. apply (IH (set_chan l s)); done.
Qed.
Lemma ended_reply s s' i : rtc sys_step s s' → sys_mode s = MEnded → sys_wait s !! i = Some WaitReply →
  sys_wait s' !! i = Some WaitReply.
Proof.
  induction 1 as [|s1 s2 s3 Hst _ IH]; [done|]. intros Hm Hi. apply IH; [by eapply sys_step_ended|].
  destruct Hst as [s j m [Hj _]|s j m Hj|s j m t [Hj _]|s j tx Hj|s j b Hj|s j b v Hj| | |s j m l r v Hm'| | | | | | |]; try congruence; try done; cbn in *.
  - rewrite lookup_insert_ne; congruence.
  - unfold set_wait. destruct (waits m); [rewrite lookup_insert_ne|rewrite lookup_delete_ne]; congruence.
  - unfold set_wait. destruct (waits m), t; (rewrite lookup_insert_ne || rewrite lookup_delete_ne); congruence.
  - rewrite lookup_delete_ne; congruence.
  - rewrite lookup_insert_ne; congruence.
  - rewrite lookup_delete_ne; congruence.
Qed.

(** C15: the manager may be stopped with messages on its channel: it quits without
    them and drains the channel without answering.  From then on, whatever the
    goroutines do, as many of them wait in [onBlock] and in [onTx] as blocks and
    transactions were drained, and every call of [IsCurrent] or [SyncPeerID] that
    was on the channel, or is made later, waits for ever. *)
Theorem stop_strands v s : rtc sys_step (new_system v) s → sys_mode s = Handling →
  ∃ s', rtc sys_step s s' ∧ sys_mode s' = MEnded ∧ ∀ s'', rtc sys_step s' s'' →
    (∀ t, (owed_by (sys_msgChan s) t ≤ waiting t (sys_wait s''))%nat) ∧
    (∀ i, sys_wait s !! i = Some WaitReply → sys_wait s'' !! i = Some WaitReply) ∧
    ∀ i s3, rtc sys_step s'' s3 → sys_wait s'' !! i = Some WaitReply → sys_wait s3 !! i = Some WaitReply.
Proof.
  intros Hr Hm. set (s1 := set_mode MDraining (stop_system s)). set (s2 := set_mode MEnded (set_chan [] s1)).
  assert (Hrun : rtc sys_step s s2).
  { eapply rtc_l; [apply s_stop|]. eapply rtc_l; [by apply (s_leave (stop_system s))|].
    eapply rtc_r; [by apply (drain_run s1 (sys_msgChan s1))|]. by apply (s_end (set_chan [] s1)). }
  exists s2. split_and!; [done|done|]. intros s'' Hr''.
  assert (Hend : sys_mode s'' = MEnded).
  { clear -Hr''. remember s2 as s0 eqn:E. assert (Hm : sys_mode s0 = MEnded) by by subst. clear E.
    induction Hr'' as [|a b c Hst _ IH]; [done|]. apply IH. by eapply sys_step_ended. }
  split_and!.
  - intros t. pose proof (reach_balance v s t Hr) as Hl. rewrite Hm in Hl. specialize (Hl I).
    assert (Hs2 : sane s2) by (eapply reach_sane; [|apply (new_system_sane v)]; by etrans).
    pose proof (reach_lost s2 s'' t Hr'' Hs2) as Hle. unfold lost, coming in *. rewrite Hm, Hend in *.
    assert (Hnil : owed_by ([] : list (nat * syncMsg H T)) t = 0%nat) by done. unfold s2, s1 in Hle. destruct t; cbn in *; rewrite Hnil in Hle; lia.
  - intros i Hi. by apply (ended_reply s2 s'' i).
  - intros i s3 Hr3 Hi. by apply (ended_reply s'' s3 i).
Qed.

(** A call while there is room. *)
Lemma call_run s i m : unused i s → queued m (syncManager (sys_svc s)) = Some m →
  (length (sys_msgChan s) < msgChan_cap)%nat →
  rtc sys_step s (set_waits (set_wait i (waits m) (sys_wait s)) (set_chan (sys_msgChan s ++ [(i, m)]) s)).
Proof.
  intros Hi Hq Hl. eapply rtc_l; [by apply (s_call s i m)|]. eapply rtc_l; [apply (s_queue _ i m); [apply lookup_insert_eq|done]|].
  cbn. replace (set_wait i (waits m) (<[i := Sending m]> (sys_wait s))) with (set_wait i (waits m) (sys_wait s)); [done|].
  unfold set_wait. destruct (waits m); [by rewrite insert_insert_eq|by rewrite delete_insert_eq].
Qed.

(** Two peers deliver a block each. *)
Lemma two_blocks v p1 p2 b1 b2 now1 now2 : sm_shutdown (syncManager v) = false →
  rtc sys_step (new_system v)
    (mkSystem v [(0%nat, blockMsg b1 p1 now1); (1%nat, blockMsg b2 p2 now2)] Handling false 0 0
      (<[1%nat := WaitBlock b2]> (<[0%nat := WaitBlock b1]> ∅)) Running false).
Proof.
  intros Hsd. eapply rtc_l; [by apply s_start|].
  etrans; [apply (call_run _ 0%nat (blockMsg b1 p1 now1)); [split; [done|cbn; set_solver]|by apply queued_open|cbn; lia]|].
  etrans; [apply (call_run _ 1%nat (blockMsg b2 p2 now2)); [split; [done|cbn; set_solver]|by apply queued_open|cbn; lia]|]. apply rtc_refl.
Qed.

(** C14: two peers deliver a block each.  When the first block is done its token is
    taken by the goroutine of the second, which tells [txHandler] and the notifier
    that its block is committed while the block is still on the channel. *)
Theorem onBlock_takes_token (v : Sv) p1 p2 b1 b2 now1 now2 r v1 : StateNotifier v = true → txQueue v = [] →
  sm_shutdown (syncManager v) = false → onSync (sync_blockHandler (blockMsg b1 p1 now1)) v = (Ok (Some r), v1) →
  ∃ s, rtc sys_step (new_system v) s ∧ sys_msgChan s = [(1%nat, blockMsg b2 p2 now2)] ∧
    syncManager (sys_svc s) = syncManager v1 ∧
    BlockCommitted_calls (sys_svc s) = BlockCommitted_calls v ++ [b2] ∧ txQueue (sys_svc s) = [QBlock b2].
Proof.
  intros Hn Hq Hsd Hr.
  assert (Hv1 : StateNotifier v1 = true ∧ txQueue v1 = [] ∧ BlockCommitted_calls v1 = BlockCommitted_calls v).
  { unfold onSync, zoom in Hr. destruct (sync_blockHandler _ _) as [o sm]. by injection Hr as _ <-. }
  destruct Hv1 as (Hn1 & Hq1 & Hc1).
  set (w := <[1%nat := WaitBlock b2]> (<[0%nat := WaitBlock b1]> (∅ : gmap nat (waiter (H := H) (T := T))))).
  set (w1 := refill 0 r w). assert (Hw1 : w1 !! 1%nat = Some (WaitBlock b2)).
  { unfold w1, refill. by destruct r as [|[b|]| |]. }
  set (v2 := (publish b2 v1).2).
  assert (Hp : publish b2 v1 = (Ok (), v2)).
  { unfold v2, publish. rewrite (bind_run (enqueue _) _ _ _ _ eq_refl), (bind_run getS _ _ _ _ eq_refl). cbn. by rewrite Hn1. }
  eexists. split.
  - etrans; [by apply (two_blocks v p1 p2 b1 b2 now1 now2)|]. eapply rtc_l; [by eapply s_turn|]. eapply rtc_l; [apply (s_reply _ BlockToken); [done|exact (le_n 1)]|].
    eapply rtc_l; [apply (s_takeBlock _ 1%nat b2); [exact Hw1|cbn; lia]|].
    apply rtc_once, (s_publish _ 1%nat b2 v2); [apply lookup_insert_eq|cbn; rewrite Hq1; unfold txQueue_cap; cbn; lia|exact Hp].
  - cbn [set_waits set_svc set_tokens set_mode set_chan sys_msgChan sys_svc]. split; [done|].
    unfold v2, publish. rewrite (bind_run (enqueue _) _ _ _ _ eq_refl), (bind_run getS _ _ _ _ eq_refl). cbn. rewrite Hn1. cbn.
    by rewrite Hq1, Hc1.
Qed.
End manager.

(** ** [peerHandler] *)
Section loop.
Context {S Q : Type} (serve : Q → S → S) (capacity : nat).
Notation step := (loop_step serve capacity).

(** A request is answered after a turn for each that was sent before it. *)
Lemma loop_turns s l w quit l2 : rtc step (mkLoop s (l ++ l2) w quit Running)
  (mkLoop (foldl (λ s q, serve q s) s l.*2) l2 (w ∖ list_to_set l.*1) quit Running).
Proof.
  revert s w. induction l as [|[i q] l IH]; intros s w; cbn.
  - by replace (w ∖ ∅) with w by set_solver.
  - eapply rtc_l; [apply lp_turn|]. replace (w ∖ ({[i]} ∪ list_to_set l.*1)) with ((w ∖ {[i]}) ∖ list_to_set l.*1) by set_solver.
    apply IH.
Qed.
Lemma ended_waits x y i : rtc step x y → lp_mode x = Ended → i ∈ lp_waiting x → lp_mode y = Ended ∧ i ∈ lp_waiting y.
Proof.
  induction 1 as [|x y z Hst _ IH]; [done|]. intros Hm Hi. apply IH; destruct Hst; cbn in *; try done; set_solver.
Qed.
Lemma loop_drains s l w : rtc step (mkLoop s l w true Draining) (mkLoop s [] w true Draining).
Proof. induction l as [|x l IH]; [done|]. eapply rtc_l; [apply lp_drain|exact IH]. Qed.
End loop.

(** a peer added or removed while [peerHandler] runs: the goroutine that asked
    goes on when the requests before its own have been served, in their order.  Once
    the service quits, the loop may drain the requests instead, and a goroutine
    whose request was drained waits for ever. *)
Theorem peer_request_answered peers l i m l2 w : 
  let before := mkLoop peers (l ++ (i, m) :: l2) w false Running in
  rtc peerHandler_step before
    (mkLoop (handlePeerMsg m (foldl (λ s q, handlePeerMsg q s) peers l.*2)) l2 (w ∖ list_to_set l.*1 ∖ {[i]}) false Running) ∧
  ∃ over, rtc peerHandler_step before over ∧ ∀ later j, rtc peerHandler_step over later → j ∈ w → j ∈ lp_waiting later.
Proof.
  cbv zeta. split.
  - eapply rtc_r; [apply (loop_turns handlePeerMsg defaultMaxPeers)|]. apply lp_turn.
  - exists (mkLoop peers [] w true Ended). split.
    + eapply rtc_l; [apply lp_close|]. eapply rtc_l; [apply lp_leave|]. eapply rtc_r; [apply loop_drains|]. apply lp_end.
    + intros later j Hr Hj. by apply (ended_waits handlePeerMsg defaultMaxPeers _ _ j Hr).
Qed.
