(* ===== verification/SyncDemo.v ===== *)
(** * Witnesses of the peer, the sync manager and the SDK service

    A peer that downloads a block, and a manager over the small chain of
    [ChainDemo] that is told of a new block by one peer; two peers that deliver a
    block each. *)
From Stdlib Require Import Floats.SpecFloat.
From S2P Require Import Demo Samples MerkleBuild ChainDemo TxsDemo PeerSpec SyncStart SyncChain ServiceSpec ChanSpec.

#[export] Instance demo_peerlib : PeerLib := { Hash_String := arr_bytes; CmdInv := [] }.
#[export] Instance demo_consts : MsgConsts := { MaxInvPerMsg := 100 }.

(** ** The peer *)
Definition demo_tx2 : sample_tx := simple_tx 2 [] [].
Definition demo_peer : Peer sample_header sample_tx :=
  (handleMessage (MTx (Some demo_tx2)) (handleMessage (MMerkleBlock sample_message) NewPeer).2).2.
Lemma demo_peer_reached : rtc peer_step NewPeer demo_peer.
Proof. eapply rtc_l; [apply step_message|]. apply rtc_once, step_message. Qed.

Lemma peer_blocks_complete_witness :
  ∃ ids, CheckMerkleBlock (messageOf (headerOf sample_message)) = Some (Ok ids) ∧
    NoDup (hashes_of [demo_tx2]) ∧ ∀ x, x ∈ hashes_of [demo_tx2] ↔ x ∈ ids.
Proof.
  apply (peer_blocks_complete (turns 2 demo_peer) (mkBlock (headerOf sample_message) [demo_tx2])).
  - change (turns 2 demo_peer) with (blockHandler (blockHandler demo_peer).2).2.
    eapply rtc_r; [eapply rtc_r; [exact demo_peer_reached|]|]; apply step_block.
  - vm_compute. left.
Defined.
Lemma peer_download_completes_witness :
  p_events (turns 2 demo_peer) = [OnBlock (mkBlock (headerOf sample_message) [demo_tx2])] ∧
  p_blockQueue (turns 2 demo_peer) = [] ∧ p_header (turns 2 demo_peer) = None ∧
  p_Connected (turns 2 demo_peer) = true.
Proof.
  apply (peer_download_completes demo_peer sample_message [h256 2] [demo_tx2] []).
  - exact demo_peer_reached.
  - reflexivity.
  - reflexivity.
  - vm_compute. reflexivity.
  - apply NoDup_singleton.
  - done.
  - reflexivity.
Defined.

(** ** The manager over the chain *)
Notation demo_C := (chainDB mem_headers mem_txs).
Definition demo_filter : GoM mem_txs (Message sample_header sample_tx) := mret (MTxFilterLoad x00 []).
#[export] Instance demo_cfg : SyncConfig demo_C sample_header sample_tx :=
  blockChainConfig [1] demo_filter (λ _, mret ()).
Notation demo_SM := (SyncManager demo_C sample_header sample_tx).
Notation demo_good := (chain_good demo_genesis demo_txs_of).
Notation demo_pre := (admissible demo_genesis demo_txs_of).

Lemma demo_filter_returns t : ∃ m, demo_filter t = (Ok m, t) ∧ ∀ l, m ≠ MGetData l.
Proof. by exists (MTxFilterLoad x00 []). Qed.
Lemma demo_laws : SyncConfigLaws demo_good demo_pre.
Proof. apply blockChain_laws; [exact demo_filter_returns|done]. Qed.
#[export] Existing Instance demo_laws.
Lemma demo_s2_good : demo_good demo_s2.
Proof. exists demo_h2. split; [exact demo_s2_ok|exact demo_s2_txs]. Qed.
Lemma demo_inv_max : (0 < MaxInvPerMsg)%nat.
Proof. cbn. lia. Qed.
Lemma demo_b4_admissible : demo_pre demo_s2 demo_b4.
Proof.
  intros best p Hb Hp _ _. pose proof demo_s2_ok as (_ & Hb2 & _).
  assert (best = demo_h2) as -> by (apply (inj Some); etrans; [symmetry; exact Hb|exact Hb2]).
  assert (Hp2 : hd_view (cd_h demo_s2) !! hdrPrevious (BlockHdr demo_b4) = Some demo_h2) by (vm_compute; reflexivity).
  assert (p = demo_h2) as -> by (apply (inj Some); etrans; [symmetry; exact Hp|exact Hp2]). split_and!.
  - exact demo_b4_storable.
  - vm_compute. reflexivity.
  - vm_compute. reflexivity.
  - vm_compute. reflexivity.
  - by intros _ [].
Qed.

Definition demo_net (height : Z) : netPeer sample_header sample_tx := mkNetPeer NewPeer height 1 7.
Definition demo_connect (p : PeerPtr) (np : netPeer sample_header sample_tx) (s : demo_SM) : demo_SM :=
  set_peers (<[p := np]> (sm_peers s)) s.
Definition demo_handle (m : syncMsg sample_header sample_tx) (s : demo_SM) : demo_SM := (sync_blockHandler m s).2.
Lemma demo_net_ok h : requests_ok (np_peer (demo_net h)).
Proof. by intros l []%elem_of_nil. Qed.

Lemma demo_handle_run m s r : (sync_blockHandler m s).1 = Ok (Some r) →
  sync_blockHandler m s = (Ok (Some r), demo_handle m s).
Proof. unfold demo_handle. intros <-. by destruct (sync_blockHandler m s). Qed.

(** Connected to a peer that is three high, the chain being two high. *)
Definition demo_m1 := demo_handle (newPeerMsg 1%nat) (demo_connect 1%nat (demo_net 3) (sync_New demo_s2)).
(** The peer has announced the block and it was requested. *)
Definition demo_m2 := demo_handle (invMsg [mkInvVect InvTypeBlock (hdrHash (BlockHdr demo_b4))] 1%nat) demo_m1.
(** The block is in. *)
Definition demo_m3 := demo_handle (blockMsg demo_b4 1%nat 0) demo_m2.

Lemma demo_m1_reached : rtc (sync_step demo_pre) (sync_New demo_s2) demo_m1.
Proof.
  eapply rtc_l; [exact (step_connect _ _ 1%nat (demo_net 3) (demo_net_ok 3))|]. apply rtc_once.
  apply (step_sync _ _ (newPeerMsg 1%nat) Done).
  - apply (bool_decide_unpack _). vm_compute. exact I.
  - apply demo_handle_run. vm_compute. reflexivity.
Qed.
Lemma demo_m2_reached : rtc (sync_step demo_pre) (sync_New demo_s2) demo_m2.
Proof.
  eapply rtc_r; [exact demo_m1_reached|].
  apply (step_sync _ _ (invMsg [mkInvVect InvTypeBlock (hdrHash (BlockHdr demo_b4))] 1%nat) Done).
  - apply (bool_decide_unpack _). vm_compute. exact I.
  - apply demo_handle_run. vm_compute. reflexivity.
Qed.
Lemma demo_b4_msg_known : msg_known demo_pre demo_m2 (blockMsg demo_b4 1%nat 0).
Proof.
  split; [apply (bool_decide_unpack _); vm_compute; exact I|].
  assert (sm_cfg demo_m2 = demo_s2) as -> by (vm_compute; reflexivity). exact demo_b4_admissible.
Qed.

(** In the state before the announcement. *)
Definition demo_np1 : netPeer sample_header sample_tx := default (demo_net 0) (sm_peers demo_m1 !! 1%nat).
Lemma demo_m1_unrequested st : peerStates demo_m1 !! 1%nat = Some st →
  ps_requestedBlocks st !! hdrHash (BlockHdr demo_b4) = None.
Proof.
  intros Hst. assert (Hn : (st ← peerStates demo_m1 !! 1%nat; ps_requestedBlocks st !! hdrHash (BlockHdr demo_b4)) = None)
    by (vm_compute; reflexivity). rewrite Hst in Hn. exact Hn.
Qed.
Lemma demo_m1_peer : sm_peers demo_m1 !! 1%nat = Some demo_np1.
Proof.
  assert (Hs : is_Some (sm_peers demo_m1 !! 1%nat)) by (apply (bool_decide_unpack _); vm_compute; exact I).
  unfold demo_np1. by destruct Hs as [np ->].
Qed.
Lemma demo_m1_syncPeer : syncPeer demo_m1 = Some 1%nat.
Proof. vm_compute. reflexivity. Qed.
Lemma demo_m1_cfg : sm_cfg demo_m1 = demo_s2.
Proof. vm_compute. reflexivity. Qed.
Lemma demo_m3_reached : rtc (sync_step demo_pre) (sync_New demo_s2) demo_m3.
Proof.
  eapply rtc_r; [exact demo_m2_reached|].
  destruct (sync_message_run demo_inv_max demo_good demo_pre demo_m2 (blockMsg demo_b4 1%nat 0)) as (r & s' & Hr & _).
  - exact (sync_reach_known demo_inv_max demo_good demo_pre demo_s2 demo_m2 demo_s2_good demo_m2_reached).
  - exact demo_b4_msg_known.
  - assert (demo_m3 = s') as -> by exact (f_equal snd Hr). exact (step_sync _ _ _ r s' demo_b4_msg_known Hr).
Qed.

Lemma sync_message_processed_witness :
  ∃ r s', sync_blockHandler (blockMsg demo_b4 1%nat 0) demo_m2 = (Ok (Some r), s').
Proof.
  apply (sync_message_processed demo_inv_max demo_good demo_pre demo_s2 demo_m2 _ demo_s2_good demo_m2_reached).
  exact demo_b4_msg_known.
Defined.


(** The block that was not asked for: the peer is the one synced from. *)
Lemma block_not_requested_witness :
  ∃ s', sync_blockHandler (blockMsg demo_b4 1%nat 0) demo_m1 =
      (Ok (Some (Processed (Some demo_b4))), s') ∧ sm_cfg s' = sm_cfg demo_m1 ∧
    ∃ np', sm_peers s' !! 1%nat = Some np' ∧ p_Connected (np_peer np') = false.
Proof.
  assert (Hno : ∀ st, peerStates demo_m1 !! 1%nat = Some st →
    ps_requestedBlocks st !! hdrHash (BlockHdr demo_b4) = None) by exact demo_m1_unrequested.
  destruct (block_not_requested demo_inv_max demo_good demo_pre demo_s2 demo_m1 1%nat demo_b4 0 demo_np1 demo_s2_good
    demo_m1_reached demo_m1_peer Hno) as (s' & Hr & Hc & Hd).
  exists s'. split; [exact Hr|]. split; [exact Hc|]. apply Hd. left. exact demo_m1_syncPeer.
Defined.

Lemma sync_keeps_chain_witness :
  ∃ best, chain_ok demo_genesis (sm_cfg demo_m3) best ∧
    txs_inv demo_txs_of (hd_view (cd_h (sm_cfg demo_m3))) best (cd_t (sm_cfg demo_m3)).
Proof.
  exact (sync_keeps_chain [1] demo_filter (λ _, mret ()) demo_genesis demo_txs_of demo_filter_returns
    (λ _ _, eq_refl) demo_inv_max demo_s2 demo_m3 demo_s2_good demo_m3_reached).
Defined.

(** ** Starting a sync *)
(** A peer level with the chain connects, then a taller one: no sync starts. *)
Definition demo_l1 := demo_handle (newPeerMsg 2%nat) (demo_connect 2%nat (demo_net 2) (sync_New demo_s2)).
Definition demo_l2 := demo_handle (newPeerMsg 1%nat) (demo_connect 1%nat (demo_net 9) demo_l1).
Lemma demo_l1_reached : rtc (sync_step demo_pre) (sync_New demo_s2) demo_l1.
Proof.
  eapply rtc_l; [exact (step_connect _ _ 2%nat (demo_net 2) (demo_net_ok 2))|]. apply rtc_once.
  apply (step_sync _ _ (newPeerMsg 2%nat) Done).
  - apply (bool_decide_unpack _). vm_compute. exact I.
  - apply demo_handle_run. vm_compute. reflexivity.
Qed.
Definition demo_l2_first : PeerPtr * peerSyncState := default (0%nat, mkPeerSyncState false [] ∅ ∅ 0 0 NewFpRate) (head (range (peerStates demo_l2))).
Definition demo_l2_np : netPeer sample_header sample_tx := default (demo_net 0) (sm_peers demo_l2 !! demo_l2_first.1).
Lemma startSync_gives_up_witness :
  startSync demo_l2 = (Ok (Some ()), demo_l2) ∧ (np_Height <$> sm_peers demo_l2 !! 1%nat) = Some 9.
Proof.
  split; [|vm_compute; reflexivity].
  apply (startSync_gives_up demo_l2 2 demo_l2_first.1 demo_l2_np demo_l2_first.2
    (tail (range (peerStates demo_l2)))); vm_compute; reflexivity.
Defined.

(** The level peer grows: the next start asks it. *)
Definition demo_l3 := demo_connect 2%nat (demo_net 5) demo_l1.
Lemma demo_l3_reached : rtc (sync_step demo_pre) (sync_New demo_s2) demo_l3.
Proof. eapply rtc_r; [exact demo_l1_reached|exact (step_connect _ _ 2%nat (demo_net 5) (demo_net_ok 5))]. Qed.
Lemma demo_l3_candidates q nq : candidate demo_l3 q nq → nq = demo_net 5.
Proof.
  intros [Hq (st & Hst & _)]. assert (q = 2%nat) as ->.
  2: { unfold demo_l3, demo_connect in Hq. cbn [sm_peers set_peers] in Hq. rewrite lookup_insert_eq in Hq. by injection Hq. }
  assert (Hall : Forall (λ x : PeerPtr * peerSyncState, x.1 = 2%nat) (map_to_list (peerStates demo_l3))).
  { vm_compute. repeat constructor. }
  apply elem_of_map_to_list in Hst. exact (proj1 (Forall_forall _ _) Hall _ Hst).
Qed.
Lemma demo_l3_candidate : candidate demo_l3 2%nat (demo_net 5).
Proof.
  split; [unfold demo_l3, demo_connect; apply lookup_insert_eq|].
  assert (Hc : syncCandidate <$> peerStates demo_l3 !! 2%nat = Some true) by (vm_compute; reflexivity).
  apply fmap_Some in Hc as (st & Hst & Hc). exists st. split; [exact Hst|symmetry; exact Hc].
Qed.
Lemma startSync_starts_witness :
  ∃ s' q nq' l, startSync demo_l3 = (Ok (Some ()), s') ∧ syncPeer s' = Some q ∧ sm_peers s' !! q = Some nq' ∧
    QueueMessage (MGetBlocks l zeroHash) ∈ p_events (np_peer nq').
Proof.
  destruct (startSync_starts demo_inv_max demo_good demo_pre demo_s2 demo_l3 2 2%nat (demo_net 5) demo_s2_good demo_l3_reached)
    as (s' & q & nq & nq' & l & Hr & Hs & Hq & _ & _ & Hn & He).
  - vm_compute. reflexivity.
  - vm_compute. reflexivity.
  - intros q nq Hq. rewrite (demo_l3_candidates q nq Hq). vm_compute. congruence.
  - exact demo_l3_candidate.
  - vm_compute. reflexivity.
  - exists s', q, nq', l. split_and!; [exact Hr|exact Hs|exact Hn|]. rewrite He, (demo_l3_candidates q nq Hq).
    apply elem_of_app. right. left.
Defined.

(** ** The service *)
Definition demo_sent : txState sample_tx := (txHandler (H := sample_header) true 0 (QSend (simple_tx 4 [] [])) emptyTx).2.
Lemma txHandler_states_witness :
  accepted demo_sent !! h256 4 = None ∧ rejected demo_sent !! h256 4 = None.
Proof.
  apply (txHandler_states (H := sample_header) true demo_sent (h256 4)); [|vm_compute; by eexists].
  apply rtc_once, tx_msg.
Defined.

Definition demo_svc : service demo_C sample_header sample_tx := mkService demo_m1 ∅ [] demo_sent true [].
Lemma onBlock_confirms_unrequested_witness :
  ∃ v1 v2, onBlock 1%nat demo_b4 0 demo_svc = (Ok (Some ()), v1) ∧ txTurn 0 v1 = (Ok (), v2) ∧
    sm_cfg (syncManager v2) = demo_s2 ∧ BlockCommitted_calls v2 = [demo_b4] ∧
    TransactionConfirmed (NewTx 0 (simple_tx 4 [] []) 0) ∈ tx_events (svc_tx v2).
Proof.
  destruct (onBlock_confirms_unrequested demo_inv_max demo_good demo_pre demo_s2 demo_svc 1%nat demo_b4 0 demo_np1
    (simple_tx 4 [] []) 0 demo_s2_good demo_m1_reached demo_m1_peer demo_m1_unrequested
    eq_refl eq_refl) as (v1 & v2 & H1 & H2 & H3 & H4 & H5 & _).
  - apply NoDup_singleton.
  - left.
  - apply (bool_decide_unpack _). vm_compute. exact I.
  - exists v1, v2. split_and!; [exact H1|exact H2| |exact H4|exact H5]. rewrite H3. exact demo_m1_cfg.
Defined.

(** ** The goroutines *)
Notation demo_Sys := (system (C := demo_C) (H := sample_header) (T := sample_tx)).
(** The manager has asked for the fourth block. *)
Definition demo_svc2 : service demo_C sample_header sample_tx := mkService demo_m2 ∅ [] demo_sent true [].
Definition demo_b4_msg : syncMsg sample_header sample_tx := blockMsg demo_b4 1%nat 0.

Lemma demo_svc2_open : sm_shutdown (syncManager demo_svc2) = false.
Proof. vm_compute. reflexivity. Qed.
Lemma demo_b4_handled : ∃ r v, onSync (sync_blockHandler demo_b4_msg) demo_svc2 = (Ok (Some r), v).
Proof.
  unfold onSync, zoom. destruct (sync_blockHandler demo_b4_msg (syncManager demo_svc2)) as [o sm] eqn:Hr.
  assert (Ho : match (sync_blockHandler demo_b4_msg demo_m2).1 with Ok (Some _) => true | _ => false end = true) by (vm_compute; reflexivity).
  change (syncManager demo_svc2) with demo_m2 in Hr. rewrite Hr in Ho. destruct o as [[r|]|e|]; [|discriminate Ho..].
  by eexists _, _.
Qed.

Lemma onBlock_takes_token_witness : ∃ s : demo_Sys, rtc sys_step (new_system demo_svc2) s ∧
  sys_msgChan s = [(1%nat, blockMsg demo_b1 2%nat 0)] ∧ BlockCommitted_calls (sys_svc s) = [demo_b1].
Proof.
  destruct demo_b4_handled as (r & v & Hr). unfold demo_b4_msg in Hr.
  destruct (onBlock_takes_token demo_svc2 1%nat 2%nat demo_b4 demo_b1 0 0 r v) as (s & Hs & Hc & _ & Hb & _).
  - exact eq_refl.
  - exact eq_refl.
  - exact demo_svc2_open.
  - exact Hr.
  - exists s. split; [exact Hs|split; [exact Hc|exact Hb] ].
Defined.

(** Two blocks on the channel of a manager that runs. *)
Definition demo_queued : demo_Sys :=
  mkSystem demo_svc2 [(0%nat, demo_b4_msg); (1%nat, blockMsg demo_b1 2%nat 0)] Handling false 0 0
    (<[1%nat := WaitBlock demo_b1]> (<[0%nat := WaitBlock demo_b4]> ∅)) Running false.
Lemma demo_queued_reached : rtc sys_step (new_system demo_svc2) demo_queued.
Proof. exact (two_blocks demo_svc2 1%nat 2%nat demo_b4 demo_b1 0 0 demo_svc2_open). Qed.
Lemma tokens_balance_witness : waiting BlockToken (sys_wait demo_queued) = coming BlockToken demo_queued ∧
  coming BlockToken demo_queued = 2%nat.
Proof.
  destruct (tokens_balance demo_svc2 demo_queued BlockToken demo_queued_reached) as (Hw & _ & _).
  - exact I.
  - split; [exact Hw|reflexivity].
Defined.
Lemma stop_strands_witness : ∃ s', rtc sys_step demo_queued s' ∧ sys_mode s' = MEnded ∧
  ∀ s'', rtc sys_step s' s'' → (2 ≤ waiting BlockToken (sys_wait s''))%nat.
Proof.
  destruct (stop_strands demo_svc2 demo_queued demo_queued_reached) as (s' & Hr & Hm & Hall).
  - reflexivity.
  - exists s'. split_and!; [exact Hr|exact Hm|]. intros s'' Hs. exact (proj1 (Hall s'' Hs) BlockToken).
Defined.
