(* ===== verification/Sql.v ===== *)
(** * The SQL the wallet runs

    The statements of [wallet/store/sqlite] are data: a reference semantics
    ([sql_exec], [sql_query]) says what SQL means on tables of rows, and
    [SQLite] is the engine, outside the repository, whose laws say that it
    implements that semantics; the order of the rows a query gives is its own.
    The second half relates a table of rows to a finite map of typed values
    ([represents]), which is how the tables of the wallet are used. *)
From S2P Require Export Util.

(** ** Tables *)
Inductive sqlval := VNull | VInt (z : Z) | VBlob (b : bytes) | VText (s : string).
#[global] Instance sqlval_eq_dec : EqDecision sqlval.
Proof. solve_decision. Defined.

Record column := mkCol { c_name : string; c_notnull : bool; c_primary : bool }.
Notation row := (list sqlval).
Record table := mkTable { t_cols : list column; t_rows : list row }.
Notation tables := (gmap string table).

(** A [?] is filled by the next argument; arguments in excess are ignored. *)
Inductive stmt :=
  | CreateTable (t : string) (cols : list column)                 (* IF NOT EXISTS *)
  | DropTable (t : string)                                        (* IF EXISTS *)
  | InsertOrReplace (t : string) (cols : list string)             (* VALUES(?,...) *)
  | InsertOrReplaceSelect (t : string) (cols : list string) (from wh : string)
  | DeleteFrom (t wh : string).
Inductive query := Select (cols : list string) (t : string) (wh : option string).

Definition col_index (cols : list column) (name : string) : option nat :=
  fst <$> list_find (λ c, c_name c = name) cols.
Definition primary_index (cols : list column) : option nat := fst <$> list_find (λ c, c_primary c = true) cols.

Definition noTable (t : string) : goerr := ErrStr ("no such table: " +:+ t).
Definition noColumn (c : string) : goerr := ErrStr ("no such column: " +:+ c).
Definition notEnoughArgs : goerr := ErrStr "not enough args to execute query".
Definition notNull (t c : string) : goerr := ErrStr ("NOT NULL constraint failed: " +:+ t +:+ "." +:+ c).

Definition getTable (T : tables) (t : string) : outcome table :=
  match T !! t with Some tb => Ok tb | None => Err (noTable t) end.
Definition getColumn (cols : list column) (c : string) : outcome nat :=
  match col_index cols c with Some i => Ok i | None => Err (noColumn c) end.

(** [c = ?]: NULL equals nothing. *)
Definition cell_is (i : nat) (v : sqlval) (r : row) : Prop := v ≠ VNull ∧ r !! i = Some v.
#[global] Instance cell_is_dec i v r : Decision (cell_is i v r).
Proof. unfold cell_is. apply _. Defined.

(** A row of the table from the named values; a column not named is NULL. *)
Fixpoint assoc (c : string) (l : list (string * sqlval)) : sqlval :=
  match l with
  | [] => VNull
  | (c', v) :: l => if decide (c = c') then v else assoc c l
  end.
Definition make_row (cols : list column) (names : list string) (vals : row) : row :=
  (λ c, assoc (c_name c) (zip names vals)) <$> cols.
Definition null_column (cols : list column) (r : row) : option column :=
  fst <$> (snd <$> list_find (λ cv, c_notnull cv.1 = true ∧ cv.2 = VNull) (zip cols r)).

(** A row with the same primary key is replaced. *)
Definition replace_row (cols : list column) (r : row) (rows : list row) : list row :=
  match primary_index cols with
  | Some i => filter (λ r', r' !! i ≠ r !! i) rows ++ [r]
  | None => rows ++ [r]
  end.
Definition insert_row (t : string) (tb : table) (r : row) : outcome table :=
  match null_column (t_cols tb) r with
  | Some c => Err (notNull t (c_name c))
  | None => Ok (mkTable (t_cols tb) (replace_row (t_cols tb) r (t_rows tb)))
  end.
Fixpoint insert_rows (t : string) (tb : table) (rs : list row) : outcome table :=
  match rs with
  | [] => Ok tb
  | r :: rs => tb ← insert_row t tb r; insert_rows t tb rs
  end.

Fixpoint getColumns (cols : list column) (cs : list string) : outcome (list nat) :=
  match cs with
  | [] => Ok []
  | c :: cs => i ← getColumn cols c; is_ ← getColumns cols cs; Ok (i :: is_)
  end.
Definition project (is_ : list nat) (r : row) : row := (λ i, default VNull (r !! i)) <$> is_.

Definition sql_query (q : query) (args : row) (T : tables) : outcome (list row) :=
  let 'Select cs t wh := q in
  tb ← getTable T t;
  is_ ← getColumns (t_cols tb) cs;
  match wh with
  | None => Ok (project is_ <$> t_rows tb)
  | Some c =>
      i ← getColumn (t_cols tb) c;
      match args with
      | [] => Err notEnoughArgs
      | v :: _ => Ok (project is_ <$> filter (cell_is i v) (t_rows tb))
      end
  end.

Definition sql_exec (st : stmt) (args : row) (T : tables) : outcome tables :=
  match st with
  | CreateTable t cols => Ok (match T !! t with Some _ => T | None => <[t := mkTable cols []]> T end)
  | DropTable t => Ok (delete t T)
  | InsertOrReplace t names =>
      tb ← getTable T t;
      _ ← getColumns (t_cols tb) names;
      if decide (length args < length names)%nat then Err notEnoughArgs
      else tb ← insert_row t tb (make_row (t_cols tb) names (take (length names) args)); Ok (<[t := tb]> T)
  | InsertOrReplaceSelect t names from wh =>
      tb ← getTable T t;
      _ ← getColumns (t_cols tb) names;
      rs ← sql_query (Select names from (Some wh)) args T;
      tb ← insert_rows t tb (make_row (t_cols tb) names <$> rs); Ok (<[t := tb]> T)
  | DeleteFrom t wh =>
      tb ← getTable T t;
      i ← getColumn (t_cols tb) wh;
      match args with
      | [] => Err notEnoughArgs
      | v :: _ => Ok (<[t := mkTable (t_cols tb) (filter (λ r, ¬ cell_is i v r) (t_rows tb))]> T)
      end
  end.

(** ** The engine

    [github.com/mattn/go-sqlite3] under [database/sql], on a disk that does not
    fail. *)
Class SQLite (DB : Type) := {
  sq_Exec : DB → stmt → row → outcome DB;
  sq_Query : DB → query → row → outcome (list row);
}.
Class SQLiteLaws (DB : Type) `{!SQLite DB} := {
  sq_tables : DB → tables;
  sq_Exec_law db st args :
    match sql_exec st args (sq_tables db) with
    | Ok T => ∃ db', sq_Exec db st args = Ok db' ∧ sq_tables db' = T
    | Err e => sq_Exec db st args = Err e
    | Panic => True
    end;
  sq_Query_law db q args :
    match sql_query q args (sq_tables db) with
    | Ok rows => ∃ rows', sq_Query db q args = Ok rows' ∧ rows' ≡ₚ rows
    | Err e => sq_Query db q args = Err e
    | Panic => True
    end;
}.

Lemma lift_bind {S A B} (o : outcome A) (f : A → GoM S B) s a : o = Ok a → (lift o ≫= f) s = f a s.
Proof. by intros ->. Qed.

Section calls.
Context {DB} `{!SQLite DB}.
(** [db.Exec] and [db.Query]. *)
Definition dbExec (st : stmt) (args : row) : GoM DB unit := λ db,
  match sq_Exec db st args with
  | Ok db' => (Ok (), db') | Err e => (Err e, db) | Panic => (Panic, db)
  end.
(** A string of several statements, which stops at the first that fails. *)
Definition dbExecs (sts : list stmt) : GoM DB unit := forM sts (λ st, dbExec st []).
Definition dbQuery (q : query) (args : row) : GoM DB (list row) := λ db, (sq_Query db q args, db).
(** [db.QueryRow(..).Scan(..)]: the first row, or [sql.ErrNoRows]. *)
Definition ErrNoRows : goerr := ErrVar "sql.ErrNoRows".
Definition dbQueryRow (q : query) (args : row) : GoM DB row :=
  rows ← dbQuery q args;
  match rows with [] => throw ErrNoRows | r :: _ => mret r end.

Context `{!SQLiteLaws DB}.
Lemma dbExec_run st args db T : sql_exec st args (sq_tables db) = Ok T →
  ∃ db', dbExec st args db = (Ok (), db') ∧ sq_tables db' = T.
Proof.
  intros Hs. pose proof (sq_Exec_law db st args) as Hl. rewrite Hs in Hl. destruct Hl as (db' & He & HT).
  exists db'. unfold dbExec. by rewrite He.
Qed.
Lemma dbExec_err st args db e : sql_exec st args (sq_tables db) = Err e → dbExec st args db = (Err e, db).
Proof.
  intros Hs. pose proof (sq_Exec_law db st args) as Hl. rewrite Hs in Hl. unfold dbExec. by rewrite Hl.
Qed.
Lemma dbQuery_run q args db rows : sql_query q args (sq_tables db) = Ok rows →
  ∃ rows', dbQuery q args db = (Ok rows', db) ∧ rows' ≡ₚ rows.
Proof.
  intros Hs. pose proof (sq_Query_law db q args) as Hl. rewrite Hs in Hl. destruct Hl as (rows' & He & Hp).
  exists rows'. unfold dbQuery. by rewrite He.
Qed.
Lemma dbQuery_err q args db e : sql_query q args (sq_tables db) = Err e → dbQuery q args db = (Err e, db).
Proof.
  intros Hs. pose proof (sq_Query_law db q args) as Hl. rewrite Hs in Hl. unfold dbQuery. by rewrite Hl.
Qed.
End calls.

(** ** Rows that hold typed values *)
Lemma filter_fmap_elem {A B} (f : A → B) (P : A → Prop) (Q : B → Prop) `{!∀ x, Decision (P x), !∀ x, Decision (Q x)} (l : list A) :
  (∀ x, x ∈ l → Q (f x) ↔ P x) → filter Q (f <$> l) = f <$> filter P l.
Proof.
  induction l as [|x l IH]; intros HQ; [done|]. cbn [fmap list_fmap].
  pose proof (HQ x ltac:(left)) as Hx. rewrite !filter_cons.
  rewrite IH by (intros y Hy; apply HQ; by right). by repeat case_decide; try tauto.
Qed.

Section typed.
Context {K V : Type} `{Countable K} (enc : V → row) (key : V → K) (ok : V → Prop).
Implicit Types (m : gmap K V) (v : V).

Definition values_ok m : Prop := ∀ k v, m !! k = Some v → key v = k ∧ ok v.
Record represents m (rows : list row) : Prop := {
  rp_ok : values_ok m;
  rp_rows : rows ≡ₚ enc <$> (map_to_list m).*2;
}.

Lemma represents_empty : represents ∅ [].
Proof. split; [intros k v; by rewrite lookup_empty|by rewrite map_to_list_empty]. Qed.
Lemma represents_perm m rows rows' : rows' ≡ₚ rows → represents m rows → represents m rows'.
Proof. intros Hp [Ho Hr]. split; [done|by rewrite Hp]. Qed.
Lemma map_values_elem m v : v ∈ (map_to_list m).*2 ↔ ∃ k, m !! k = Some v.
Proof.
  rewrite list_elem_of_fmap. split.
  - intros ([k v'] & -> & Hk%elem_of_map_to_list). by exists k.
  - intros (k & Hk). exists (k, v). split; [done|by apply elem_of_map_to_list].
Qed.
Lemma values_ok_elem m v : values_ok m → v ∈ (map_to_list m).*2 → m !! key v = Some v ∧ ok v.
Proof. intros Ho (k & Hk)%map_values_elem. destruct (Ho _ _ Hk) as [<- ?]. done. Qed.

Lemma filter_to_list (P : V → Prop) `{!∀ v, Decision (P v)} m :
  (map_to_list (filter (λ kv, P kv.2) m)).*2 ≡ₚ filter P (map_to_list m).*2.
Proof.
  rewrite (filter_fmap_elem (snd : K * V → V) (λ kv : K * V, P kv.2) P) by done. apply fmap_Permutation. apply NoDup_Permutation.
  - apply NoDup_map_to_list.
  - apply NoDup_filter, NoDup_map_to_list.
  - intros [k v]. rewrite elem_of_map_to_list, map_lookup_filter_Some, list_elem_of_filter, elem_of_map_to_list.
    cbn. tauto.
Qed.
(** The rows a condition selects, or leaves. *)
Lemma represents_filter (P : V → Prop) (Q : row → Prop) `{!∀ v, Decision (P v), !∀ r, Decision (Q r)} m rows :
  represents m rows → (∀ v, ok v → Q (enc v) ↔ P v) → represents (filter (λ kv, P kv.2) m) (filter Q rows).
Proof.
  intros [Ho Hr] HQ. split.
  - intros k v [Hk _]%map_lookup_filter_Some. by apply Ho.
  - rewrite Hr, (filter_fmap_elem enc P Q), (filter_to_list P); [done|].
    intros v Hv. apply HQ. by apply (values_ok_elem m).
Qed.
Lemma filter_not_key m k : (∀ k v, m !! k = Some v → key v = k) → filter (λ kv, key kv.2 ≠ k) m = delete k m.
Proof.
  intros Ho. apply map_eq. intros k'. apply option_eq. intros v.
  rewrite map_lookup_filter_Some, lookup_delete_Some. cbn. split; intros [Ha Hb].
  - pose proof (Ho _ _ Ha). split; congruence.
  - pose proof (Ho _ _ Hb). split; congruence.
Qed.
(** A row put in the place of those with its key. *)
Lemma represents_insert (Q : row → Prop) `{!∀ r, Decision (Q r)} m rows v :
  represents m rows → ok v → (∀ v', ok v' → Q (enc v') ↔ key v' ≠ key v) →
  represents (<[key v := v]> m) (filter Q rows ++ [enc v]).
Proof.
  intros Hm Hv HQ. pose proof (represents_filter (λ v', key v' ≠ key v) Q m rows Hm HQ) as [_ Hr].
  destruct Hm as [Ho _]. split.
  - intros k v' [[<- <-]|[_ Hk]]%lookup_insert_Some; [done|by apply Ho].
  - rewrite Hr, Permutation_app_comm. cbn [app].
    assert (Hd : filter (λ kv, key kv.2 ≠ key v) m = delete (key v) m).
    { apply filter_not_key. intros k v' Hk. by destruct (Ho _ _ Hk). }
    rewrite Hd, <-insert_delete_eq, map_to_list_insert by apply lookup_delete_eq. done.
Qed.

(** Rows put one after the other. *)
Lemma represents_inserts t cols i vs m rows :
  primary_index cols = Some i → represents m rows → (∀ v, v ∈ vs → ok v ∧ null_column cols (enc v) = None) →
  (∀ v v', ok v → ok v' → enc v' !! i ≠ enc v !! i ↔ key v' ≠ key v) → NoDup (key <$> vs) →
  ∃ rows', insert_rows t (mkTable cols rows) (enc <$> vs) = Ok (mkTable cols rows') ∧
    represents (list_to_map ((λ v, (key v, v)) <$> vs) ∪ m) rows'.
Proof.
  intros Hi. revert m rows. induction vs as [|v vs IH]; intros m rows Hm Hvs Hkey Hnd.
  { exists rows. split; [done|]. cbn. by rewrite (left_id_L ∅ (∪)). }
  cbn [fmap list_fmap] in Hnd. apply NoDup_cons in Hnd as [Hnin Hnd].
  destruct (Hvs v ltac:(left)) as [Hv Hnull].
  cbn [fmap list_fmap insert_rows]. unfold insert_row. cbn [t_cols t_rows]. rewrite Hnull.
  cbn [mbind outcome_bind]. unfold replace_row. rewrite Hi.
  destruct (IH (<[key v := v]> m) (filter (λ r', r' !! i ≠ enc v !! i) rows ++ [enc v])) as (rows' & Hr & Hrep).
  - apply represents_insert; [done|done|]. intros v' Hv'. by apply Hkey.
  - intros v' Hv'. apply Hvs. by right.
  - done.
  - done.
  - exists rows'. split; [exact Hr|]. cbn. rewrite <-insert_union_l, insert_union_r; [done|].
    apply not_elem_of_list_to_map. rewrite <-list_fmap_compose. exact Hnin.
Qed.

(** ** Statements on a table of typed values *)
Section statements.
Context (name : string) (cols : list column) (i : nat) (Hi : primary_index cols = Some i).
Context (Hkey : ∀ v v', ok v → ok v' → enc v' !! i ≠ enc v !! i ↔ key v' ≠ key v).
Implicit Types (T : tables).

Definition holds m T : Prop := ∃ rows, T !! name = Some (mkTable cols rows) ∧ represents m rows.

Lemma holds_ok m T : holds m T → values_ok m.
Proof. intros (rows & _ & Hr). apply (rp_ok _ _ Hr). Qed.
Lemma holds_insert_ne m T n tb : n ≠ name → holds m T → holds m (<[n := tb]> T).
Proof. intros Hn (rows & HT & Hr). exists rows. by rewrite lookup_insert_ne. Qed.

Lemma exec_insert m T names args v : holds m T → is_ok (getColumns cols names) = true →
  length args = length names → make_row cols names args = enc v → ok v → null_column cols (enc v) = None →
  ∃ tb, sql_exec (InsertOrReplace name names) args T = Ok (<[name := tb]> T) ∧
    holds (<[key v := v]> m) (<[name := tb]> T).
Proof.
  intros (rows & HT & Hr) Hc Hl Hrow Hv Hnull.
  exists (mkTable cols (filter (λ r', r' !! i ≠ enc v !! i) rows ++ [enc v])). split.
  - unfold sql_exec, getTable. rewrite HT. cbn [mbind outcome_bind t_cols].
    destruct (getColumns cols names); try done. cbn [mbind outcome_bind].
    rewrite decide_False by lia. rewrite firstn_all2 by lia. unfold insert_row. cbn [t_cols t_rows].
    rewrite Hrow, Hnull. cbn [mbind outcome_bind]. unfold replace_row. by rewrite Hi.
  - eexists. rewrite lookup_insert_eq. split; [done|]. apply represents_insert; [done|done|].
    intros v' Hv'. by apply Hkey.
Qed.

Lemma exec_delete m T wh j x args (P : V → Prop) `{!∀ v, Decision (P v)} : holds m T → col_index cols wh = Some j →
  (∀ v, ok v → ¬ cell_is j x (enc v) ↔ P v) →
  ∃ tb, sql_exec (DeleteFrom name wh) (x :: args) T = Ok (<[name := tb]> T) ∧
    holds (filter (λ kv, P kv.2) m) (<[name := tb]> T).
Proof.
  intros (rows & HT & Hr) Hj HP. exists (mkTable cols (filter (λ r, ¬ cell_is j x r) rows)). split.
  - unfold sql_exec, getTable, getColumn. rewrite HT. cbn [mbind outcome_bind t_cols]. by rewrite Hj.
  - eexists. rewrite lookup_insert_eq. split; [done|]. by apply (represents_filter P (λ r, ¬ cell_is j x r)).
Qed.

Lemma query_all m T cs is_ args : holds m T → getColumns cols cs = Ok is_ →
  ∃ rows, sql_query (Select cs name None) args T = Ok rows ∧
    rows ≡ₚ (λ v, project is_ (enc v)) <$> (map_to_list m).*2.
Proof.
  intros (rows & HT & Hr) Hc. exists (project is_ <$> rows). split.
  - unfold sql_query, getTable. rewrite HT. cbn [mbind outcome_bind t_cols]. by rewrite Hc.
  - by rewrite (rp_rows _ _ Hr), <-list_fmap_compose.
Qed.
Lemma query_where m T cs is_ wh j x args (P : V → Prop) `{!∀ v, Decision (P v)} : holds m T →
  getColumns cols cs = Ok is_ → col_index cols wh = Some j → (∀ v, ok v → cell_is j x (enc v) ↔ P v) →
  ∃ rows, sql_query (Select cs name (Some wh)) (x :: args) T = Ok rows ∧
    rows ≡ₚ (λ v, project is_ (enc v)) <$> (map_to_list (filter (λ kv, P kv.2) m)).*2.
Proof.
  intros (rows & HT & Hr) Hc Hj HP. exists (project is_ <$> filter (cell_is j x) rows). split.
  - unfold sql_query, getTable, getColumn. rewrite HT. cbn [mbind outcome_bind t_cols]. rewrite Hc.
    cbn [mbind outcome_bind]. by rewrite Hj.
  - pose proof (represents_filter P (cell_is j x) m rows Hr HP) as [_ Hp].
    by rewrite Hp, <-list_fmap_compose.
Qed.

(** A query for one key. *)
Lemma filter_key m k : values_ok m →
  filter (λ kv, key kv.2 = k) m = match m !! k with Some v => {[k := v]} | None => ∅ end.
Proof.
  intros Ho. apply map_eq. intros k'. apply option_eq. intros v'. rewrite map_lookup_filter_Some. cbn. split.
  - intros [Hk' <-]. destruct (Ho _ _ Hk') as [<- _]. rewrite Hk'. apply lookup_singleton_Some. done.
  - destruct (m !! k) as [v|] eqn:Hk; [|by rewrite lookup_empty].
    intros [<- <-]%lookup_singleton_Some. split; [done|]. by destruct (Ho _ _ Hk).
Qed.
Lemma query_key m T cs is_ wh x k args : holds m T → getColumns cols cs = Ok is_ →
  col_index cols wh = Some i → (∀ v, ok v → cell_is i x (enc v) ↔ key v = k) →
  sql_query (Select cs name (Some wh)) (x :: args) T =
    Ok (match m !! k with Some v => [project is_ (enc v)] | None => [] end).
Proof.
  intros Hm Hc Hj HP. destruct (query_where m T cs is_ wh i x args (λ v, key v = k) Hm Hc Hj HP) as (rows & -> & Hp).
  rewrite (filter_key m k (holds_ok m T Hm)) in Hp. destruct (m !! k) as [v|]; f_equal.
  - rewrite map_to_list_singleton in Hp. cbn in Hp. by apply Permutation_singleton_r in Hp.
  - rewrite map_to_list_empty in Hp. by apply Permutation_nil_r in Hp.
Qed.
End statements.
End typed.

(** INSERT ... SELECT from one typed table into another with the same keys. *)
Section select.
Context {K V1 V2 : Type} `{Countable K}.
Context (enc1 : V1 → row) (key1 : V1 → K) (ok1 : V1 → Prop) (enc2 : V2 → row) (key2 : V2 → K) (ok2 : V2 → Prop).
Context (name1 name2 : string) (cols1 cols2 : list column) (i : nat) (Hi : primary_index cols2 = Some i).
Context (Hkey : ∀ v v', ok2 v → ok2 v' → enc2 v' !! i ≠ enc2 v !! i ↔ key2 v' ≠ key2 v).
Context (conv : V1 → V2) (Hconv : ∀ v, key2 (conv v) = key1 v).

Lemma values_to_map (m : gmap K V1) us : values_ok key1 ok1 m → us ≡ₚ (map_to_list m).*2 →
  NoDup (key2 <$> (conv <$> us)) ∧ list_to_map ((λ v, (key2 v, v)) <$> (conv <$> us)) = conv <$> m.
Proof.
  intros Ho Hus.
  assert (Hl : (λ v, (key2 v, v)) <$> (conv <$> us) ≡ₚ prod_map id conv <$> map_to_list m).
  { rewrite <-list_fmap_compose, Hus, <-list_fmap_compose.
    rewrite (list_fmap_ext _ (prod_map id conv)); [done|].
    intros n [k v] Hkv. cbn. rewrite Hconv. f_equal.
    apply list_elem_of_lookup_2, elem_of_map_to_list in Hkv. by destruct (Ho _ _ Hkv). }
  assert (Hnd : NoDup ((λ v, (key2 v, v)) <$> (conv <$> us)).*1).
  { rewrite Hl. rewrite <-list_fmap_compose. apply (NoDup_fst_map_to_list m). }
  split.
  - by rewrite <-list_fmap_compose in Hnd.
  - rewrite (list_to_map_proper _ _ Hnd Hl), list_to_map_fmap. by rewrite list_to_map_to_list.
Qed.

Lemma exec_insert_select m1 m2 T names is_ wh j x args (P : V1 → Prop) `{!∀ v, Decision (P v)} :
  holds enc1 key1 ok1 name1 cols1 m1 T → holds enc2 key2 ok2 name2 cols2 m2 T →
  getColumns cols1 names = Ok is_ → is_ok (getColumns cols2 names) = true → col_index cols1 wh = Some j →
  (∀ v, ok1 v → cell_is j x (enc1 v) ↔ P v) →
  (∀ v, ok1 v → make_row cols2 names (project is_ (enc1 v)) = enc2 (conv v) ∧ ok2 (conv v) ∧
     null_column cols2 (enc2 (conv v)) = None) →
  ∃ tb, sql_exec (InsertOrReplaceSelect name2 names name1 wh) (x :: args) T = Ok (<[name2 := tb]> T) ∧
    holds enc2 key2 ok2 name2 cols2 ((conv <$> filter (λ kv, P kv.2) m1) ∪ m2) (<[name2 := tb]> T).
Proof.
  intros (rows1 & HT1 & Hr1) (rows2 & HT2 & Hr2) Hc1 Hc2 Hj HP Hrow.
  pose proof (represents_filter enc1 key1 ok1 P (cell_is j x) m1 rows1 Hr1 HP) as [Ho Hp].
  apply Permutation_map_inv in Hp as (us & Hrows & Hus). symmetry in Hus.
  destruct (values_to_map _ us Ho Hus) as [Hnd Hmap].
  assert (Hok : ∀ u, u ∈ us → ok1 u).
  { intros u. rewrite Hus. intros Hu. by destruct (values_ok_elem key1 ok1 _ u Ho Hu). }
  assert (Hrs : make_row cols2 names <$> (project is_ <$> filter (cell_is j x) rows1) = enc2 <$> (conv <$> us)).
  { rewrite Hrows. change (List.map enc1 us) with (enc1 <$> us). rewrite <-!list_fmap_compose.
    apply list_fmap_ext. intros n u Hn. apply list_elem_of_lookup_2 in Hn.
    cbn. by destruct (Hrow u (Hok u Hn)) as [-> _]. }
  destruct (represents_inserts enc2 key2 ok2 name2 cols2 i (conv <$> us) m2 rows2 Hi Hr2) as (rows' & Hins & Hrep).
  { intros v (u & -> & Hu)%list_elem_of_fmap. by destruct (Hrow u (Hok u Hu)) as (_ & ? & ?). }
  { exact Hkey. }
  { exact Hnd. }
  exists (mkTable cols2 rows'). split.
  - unfold sql_exec, sql_query, getTable, getColumn. rewrite HT2, HT1. cbn [mbind outcome_bind t_cols t_rows].
    destruct (getColumns cols2 names); try done. cbn [mbind outcome_bind]. rewrite Hc1. cbn [mbind outcome_bind].
    rewrite Hj. cbn [mbind outcome_bind]. by rewrite Hrs, Hins.
  - eexists. rewrite lookup_insert_eq. split; [done|]. by rewrite <-Hmap.
Qed.
End select.
