(* ===== verification/WalletStore.v ===== *)
(** * The wallet's store

    [wallet/sutil]: the rows; [wallet/store/sqlite]: the tables State, Addrs,
    UTXOs, STXOs, Txs and ForkTxs over one SQLite handle, the batch (an SQL
    transaction) and the rollback of a height.  Every statement is the text of
    the source; [?] arguments are bound in order. *)
From S2P Require Export Sql Filters Arbiters.
#[local] Open Scope Z_scope.

(** ** [sutil] *)
Definition TypeMaster : Z := 0.
Definition TypeSub : Z := Z.shiftl 1 1.
Definition TypeMulti : Z := Z.shiftl 1 2.
Definition TypeNotify : Z := Z.shiftl 1 3.
Record Addr := NewAddr { ad_hash : Uint168; ad_script : bytes; ad_addrType : Z }.
Definition TypeName (addr : Addr) : string :=
  if ad_addrType addr =? TypeMaster then "MASTER"
  else if ad_addrType addr =? TypeSub then "SUB"
  else if ad_addrType addr =? TypeMulti then "MULTI"
  else if ad_addrType addr =? TypeNotify then "NOTIFY"
  else "".

Record UTXO := mkUTXO {
  u_Op : OutPoint;
  u_Value : Z;                (* common.Fixed64: an int64 *)
  u_LockTime : Z;
  u_AtHeight : Z;             (* 0 for unconfirmed *)
  u_Address : Uint168;
}.
Record STXO := mkSTXO { s_UTXO : UTXO; s_SpendHeight : Z; s_SpendTxId : Uint256 }.

#[global] Instance UTXO_eq_dec : EqDecision UTXO.
Proof. solve_decision. Defined.
#[global] Instance STXO_eq_dec : EqDecision STXO.
Proof. solve_decision. Defined.
#[global] Instance Addr_eq_dec : EqDecision Addr.
Proof. solve_decision. Defined.
#[global] Program Instance OutPoint_countable : Countable OutPoint :=
  inj_countable (λ op, (TxID op, Index op)) (λ p, Some (NewOutPoint p.1 p.2)) _.
Next Obligation. by intros []. Qed.

Definition NewUTXO (txId : Uint256) (height index value lockTime : Z) (address : Uint168) : UTXO :=
  mkUTXO (NewOutPoint txId (u16 index)) value lockTime height address.
Definition NewSTXO (utxo : UTXO) (spendHeight : Z) (spendTxId : Uint256) : STXO :=
  mkSTXO utxo spendHeight spendTxId.

(** [alt] is not nil; the lock time is not compared. *)
Definition UTXO_IsEqual (utxo alt : UTXO) : bool :=
  if negb (bool_decide (TxID (u_Op utxo) = TxID (u_Op alt))) then false
  else if negb (Index (u_Op utxo) =? Index (u_Op alt)) then false
  else if negb (u_Value utxo =? u_Value alt) then false
  else if negb (u_AtHeight utxo =? u_AtHeight alt) then false
  else if negb (bool_decide (u_Address utxo = u_Address alt)) then false
  else true.
Definition STXO_IsEqual (stxo alt : STXO) : bool :=
  if negb (UTXO_IsEqual (s_UTXO stxo) (s_UTXO alt)) then false
  else if negb (s_SpendHeight stxo =? s_SpendHeight alt) then false
  else if negb (bool_decide (s_SpendTxId stxo = s_SpendTxId alt)) then false
  else true.

(** [sutil.Tx] matches a filter as [iutil.Tx] does. *)
Definition sutil_MatchFilter {F} `{FilterI F} {T} `{ElaTransaction T} `{E : ElaCommon} (tx : T) : GoM F bool :=
  matched ← FilterMatches (arr_bytes (etx_Hash tx));
  matched ← match_outputs tx 0 (etx_Outputs tx) matched;
  if (matched : bool) then mret true else match_inputs (etx_Inputs tx).

(** [SortByValue]: [sort.Sort], whose order among equals is its own. *)
Definition SortByValueASC_Less (utxos_i utxos_j : UTXO) : bool :=
  if u_Value utxos_j <? u_Value utxos_i then false else true.
Class GoSort := { sort_Sort : (UTXO → UTXO → bool) → list UTXO → list UTXO }.
Definition SortByValue `{!GoSort} (utxos : list UTXO) : list UTXO := sort_Sort SortByValueASC_Less utxos.

(** [Fixed64.Bytes] and [common.Fixed64FromBytes] *)
Class Fixed64Bytes := { Fixed64_Bytes : Z → outcome bytes; Fixed64FromBytes : bytes → outcome Z }.

(** ** The tables *)
Definition StateCols : list column := [mkCol "Key" true true; mkCol "Value" true false].
Definition CreateStateDB : list stmt := [CreateTable "State" StateCols].
Definition AddrsCols : list column :=
  [mkCol "Hash" true true; mkCol "Script" false false; mkCol "Type" true false].
Definition CreateAddrsDB : list stmt := [CreateTable "Addrs" AddrsCols].
Definition UTXOsCols : list column :=
  [mkCol "OutPoint" true true; mkCol "Value" true false; mkCol "LockTime" true false;
   mkCol "AtHeight" true false; mkCol "Address" true false].
Definition CreateUTXOsDB : list stmt := [CreateTable "UTXOs" UTXOsCols].
Definition STXOsCols : list column :=
  [mkCol "OutPoint" true true; mkCol "Value" true false; mkCol "LockTime" true false;
   mkCol "AtHeight" true false; mkCol "SpendHash" true false;
   mkCol "SpendHeight" true false; mkCol "Address" true false].
Definition CreateSTXOsDB : list stmt := [CreateTable "STXOs" STXOsCols].
Definition TxsCols : list column :=
  [mkCol "Hash" true true; mkCol "Height" true false; mkCol "Timestamp" true false; mkCol "RawData" true false].
Definition ForkTxsCols : list column := [mkCol "Hash" true true; mkCol "Num" true false; mkCol "RawData" true false].
Definition CreateTxsDB : list stmt := [CreateTable "Txs" TxsCols; CreateTable "ForkTxs" ForkTxsCols].

Definition HeightKey : string := "Height".
Definition MaxUint32 : Z := 2 ^ 32 - 1.

(** A byte slice as an argument: nil is NULL.  The slices that can be empty
    here come from a [bytes.Buffer], which gives nil when nothing was written. *)
Definition bindSlice (b : bytes) : sqlval := match b with [] => VNull | _ => VBlob b end.

(** [Scan] into a [[]byte], a [uint32], an [int64] or an [int].  The columns only
    hold the kinds the wallet writes; other conversions are errors here. *)
Definition scanErr : goerr := ErrStr "sql: Scan error".
Definition scanBytes (v : sqlval) : outcome bytes :=
  match v with VBlob b => Ok b | VNull => Ok [] | _ => Err scanErr end.
Definition scanUint32 (v : sqlval) : outcome Z :=
  match v with VInt z => if decide (fits 32 z) then Ok z else Err scanErr | _ => Err scanErr end.
Definition scanInt64 (v : sqlval) : outcome Z :=
  match v with VInt z => if decide (fits64s z) then Ok z else Err scanErr | _ => Err scanErr end.

(** [for rows.Next()]: the values read before an error are returned with it. *)
Fixpoint scanRows {A} (scan : row → outcome A) (rows : list row) : outcome (list A * option goerr) :=
  match rows with
  | [] => Ok ([], None)
  | r :: rows =>
      match scan r with
      | Ok x => rest ← scanRows scan rows; Ok (x :: rest.1, rest.2)
      | Err e => Ok ([], Some e)
      | Panic => Panic
      end
  end.

(** [v, err := m; if err != nil { return err }] on a call that returns a list. *)
Definition checkErr {S A} (m : GoM S (A * option goerr)) : GoM S A :=
  r ← m;
  match r.2 with Some e => throw e | None => mret r.1 end.
Definition ignoreErr {S} (m : GoM S unit) : GoM S unit := _ ← try m; mret ().

Section store.
Context {DB} `{!SQLite DB} `{E : ElaCommon} `{!Uint168Bytes} `{!Uint256Bytes} `{!Fixed64Bytes}.

(** A query over several rows; an error of the query comes with no value. *)
Definition queryAll {A} (q : query) (args : row) (scan : row → outcome A) : GoM DB (list A * option goerr) :=
  rows ← try (dbQuery q args);
  match rows with inl e => mret ([], Some e) | inr rows => lift (scanRows scan rows) end.

(** *** [state] *)
Definition NewState : GoM DB unit := dbExecs CreateStateDB.
Definition state_GetHeight : GoM DB Z :=
  height ← try (r ← dbQueryRow (Select ["Value"] "State" (Some "Key")) [VText HeightKey];
                lift (match r with [v] => scanUint32 v | _ => Err scanErr end));
  mret (match height with inl _ => 0 | inr height => height end).
Definition state_PutHeight (height : Z) : GoM DB unit :=
  ignoreErr (dbExec (InsertOrReplace "State" ["Key"; "Value"]) [VText HeightKey; VInt height]).

(** *** [addrs] *)
Definition sqlNewAddrs : GoM DB unit := dbExecs CreateAddrsDB.
Definition sqlAddrs_Put (hash : Uint168) (script : bytes) (addrType : Z) : GoM DB unit :=
  dbExec (InsertOrReplace "Addrs" ["Hash"; "Script"; "Type"])
    [VBlob (arr_bytes hash); bindSlice script; VInt addrType].
Definition sqlAddrs_Get (hash : Uint168) : GoM DB Addr :=
  r ← dbQueryRow (Select ["Script"; "Type"] "Addrs" (Some "Hash")) [VBlob (arr_bytes hash)];
  lift (match r with
        | [s; t] => script ← scanBytes s; addrType ← scanInt64 t; Ok (NewAddr hash script addrType)
        | _ => Err scanErr
        end).
Definition scanAddr (r : row) : outcome Addr :=
  match r with
  | [h; s; t] =>
      hashBytes ← scanBytes h; script ← scanBytes s; addrType ← scanInt64 t;
      hash ← Uint168FromBytes hashBytes;
      Ok (NewAddr hash script addrType)
  | _ => Err scanErr
  end.
Definition sqlAddrs_GetAll : GoM DB (list Addr * option goerr) :=
  queryAll (Select ["Hash"; "Script"; "Type"] "Addrs" None) [] scanAddr.
Definition sqlAddrs_Del (hash : Uint168) : GoM DB unit :=
  dbExec (DeleteFrom "Addrs" "Hash") [VBlob (arr_bytes hash)].

(** *** [utxos] *)
Definition NewUTXOs : GoM DB unit := dbExecs CreateUTXOsDB.
Definition utxos_Put (utxo : UTXO) : GoM DB unit :=
  valueBytes ← lift (Fixed64_Bytes (u_Value utxo));
  dbExec (InsertOrReplace "UTXOs" ["OutPoint"; "Value"; "LockTime"; "AtHeight"; "Address"])
    [VBlob (OutPoint_Bytes (u_Op utxo)); VBlob valueBytes; VInt (u_LockTime utxo); VInt (u_AtHeight utxo);
     VBlob (arr_bytes (u_Address utxo))].
Definition utxos_Get (op : OutPoint) : GoM DB UTXO :=
  r ← dbQueryRow (Select ["Value"; "LockTime"; "AtHeight"; "Address"] "UTXOs" (Some "OutPoint"))
        [VBlob (OutPoint_Bytes op)];
  lift (match r with
        | [v; l; h; a] =>
            valueBytes ← scanBytes v; lockTime ← scanUint32 l; atHeight ← scanUint32 h; addressBytes ← scanBytes a;
            value ← Fixed64FromBytes valueBytes;
            address ← Uint168FromBytes addressBytes;
            Ok (mkUTXO op value lockTime atHeight address)
        | _ => Err scanErr
        end).
(** The body of [getUTXOs]. *)
Definition scanUTXO (r : row) : outcome UTXO :=
  match r with
  | [o; v; l; h; a] =>
      opBytes ← scanBytes o; valueBytes ← scanBytes v; lockTime ← scanUint32 l; atHeight ← scanUint32 h;
      addressBytes ← scanBytes a;
      outPoint ← OutPointFromBytes opBytes;
      value ← Fixed64FromBytes valueBytes;
      address ← Uint168FromBytes addressBytes;
      Ok (mkUTXO outPoint value lockTime atHeight address)
  | _ => Err scanErr
  end.
Definition utxoCols : list string := ["OutPoint"; "Value"; "LockTime"; "AtHeight"; "Address"].
Definition utxos_GetAddrAll (hash : Uint168) : GoM DB (list UTXO * option goerr) :=
  queryAll (Select utxoCols "UTXOs" (Some "Address")) [VBlob (arr_bytes hash)] scanUTXO.
Definition utxos_GetAll : GoM DB (list UTXO * option goerr) :=
  queryAll (Select utxoCols "UTXOs" None) [] scanUTXO.
Definition utxos_Del (op : OutPoint) : GoM DB unit :=
  dbExec (DeleteFrom "UTXOs" "OutPoint") [VBlob (OutPoint_Bytes op)].

(** *** [stxos] *)
Definition NewSTXOs : GoM DB unit := dbExecs CreateSTXOsDB.
Definition stxoCols : list string :=
  ["OutPoint"; "Value"; "LockTime"; "AtHeight"; "SpendHash"; "SpendHeight"; "Address"].
Definition stxos_Put (stxo : STXO) : GoM DB unit :=
  let utxo := s_UTXO stxo in
  valueBytes ← lift (Fixed64_Bytes (u_Value utxo));
  dbExec (InsertOrReplace "STXOs" stxoCols)
    [VBlob (OutPoint_Bytes (u_Op utxo)); VBlob valueBytes; VInt (u_LockTime utxo); VInt (u_AtHeight utxo);
     VBlob (arr_bytes (s_SpendTxId stxo)); VInt (s_SpendHeight stxo); VBlob (arr_bytes (u_Address utxo))].
Definition stxos_Get (op : OutPoint) : GoM DB STXO :=
  r ← dbQueryRow (Select ["Value"; "LockTime"; "AtHeight"; "SpendHash"; "SpendHeight"; "Address"] "STXOs"
                    (Some "OutPoint")) [VBlob (OutPoint_Bytes op)];
  lift (match r with
        | [v; l; h; sh; sp; a] =>
            valueBytes ← scanBytes v; lockTime ← scanUint32 l; atHeight ← scanUint32 h;
            spendHashBytes ← scanBytes sh; spendHeight ← scanUint32 sp; addressBytes ← scanBytes a;
            value ← Fixed64FromBytes valueBytes;
            address ← Uint168FromBytes addressBytes;
            spendHash ← Uint256FromBytes spendHashBytes;
            Ok (mkSTXO (mkUTXO op value lockTime atHeight address) spendHeight spendHash)
        | _ => Err scanErr
        end).
(** The body of [getSTXOs]. *)
Definition scanSTXO (r : row) : outcome STXO :=
  match r with
  | [o; v; l; h; sh; sp; a] =>
      opBytes ← scanBytes o; valueBytes ← scanBytes v; lockTime ← scanUint32 l; atHeight ← scanUint32 h;
      spendHashBytes ← scanBytes sh; spendHeight ← scanUint32 sp; addressBytes ← scanBytes a;
      outPoint ← OutPointFromBytes opBytes;
      value ← Fixed64FromBytes valueBytes;
      address ← Uint168FromBytes addressBytes;
      spendHash ← Uint256FromBytes spendHashBytes;
      Ok (mkSTXO (mkUTXO outPoint value lockTime atHeight address) spendHeight spendHash)
  | _ => Err scanErr
  end.
Definition stxos_GetAddrAll (hash : Uint168) : GoM DB (list STXO * option goerr) :=
  queryAll (Select stxoCols "STXOs" (Some "Address")) [VBlob (arr_bytes hash)] scanSTXO.
Definition stxos_GetAll : GoM DB (list STXO * option goerr) :=
  queryAll (Select stxoCols "STXOs" None) [] scanSTXO.
Definition stxos_Del (op : OutPoint) : GoM DB unit :=
  dbExec (DeleteFrom "STXOs" "OutPoint") [VBlob (OutPoint_Bytes op)].

(** *** [txs] *)
Definition NewTxs : GoM DB unit := dbExecs CreateTxsDB.
Definition sqlTxs_Put (tx : Tx) : GoM DB unit :=
  dbExec (InsertOrReplace "Txs" ["Hash"; "Height"; "Timestamp"; "RawData"])
    [VBlob (arr_bytes (Tx_Hash tx)); VInt (Tx_Height tx); VInt (Timestamp tx); bindSlice (RawData tx)].
Definition sqlTxs_Get (txId : Uint256) : GoM DB Tx :=
  r ← dbQueryRow (Select ["Height"; "Timestamp"; "RawData"] "Txs" (Some "Hash")) [VBlob (arr_bytes txId)];
  lift (match r with
        | [h; t; d] =>
            height ← scanUint32 h; timestamp ← scanInt64 t; rawData ← scanBytes d;
            Ok (mkTx txId height timestamp rawData)
        | _ => Err scanErr
        end).
Definition scanTx (r : row) : outcome Tx :=
  match r with
  | [i; h; t; d] =>
      txIdBytes ← scanBytes i; height ← scanUint32 h; timestamp ← scanInt64 t; rawData ← scanBytes d;
      txId ← Uint256FromBytes txIdBytes;
      Ok (mkTx txId height timestamp rawData)
  | _ => Err scanErr
  end.
(** The WHERE clause is left out for [math.MaxUint32]. *)
Definition sqlTxs_GetAllFrom (height : Z) : GoM DB (list Tx * option goerr) :=
  queryAll (Select ["Hash"; "Height"; "Timestamp"; "RawData"] "Txs"
              (if height =? MaxUint32 then None else Some "Height")) [VInt height] scanTx.
Definition sqlTxs_GetAll : GoM DB (list Tx * option goerr) := sqlTxs_GetAllFrom MaxUint32.
Definition sqlTxs_GetAllUnconfirmed : GoM DB (list Tx * option goerr) := sqlTxs_GetAllFrom 0.
Definition sqlTxs_Del (txId : Uint256) : GoM DB unit :=
  dbExec (DeleteFrom "Txs" "Hash") [VBlob (arr_bytes txId)].

Definition sqlTxs_PutForkTxs (txs : list Tx) (hash : Uint256) : GoM DB unit :=
  let '(o, buf) := forM txs Tx_Serialize [] in
  lift o ≫= λ _,
  dbExec (InsertOrReplace "ForkTxs" ["Hash"; "Num"; "RawData"])
    [VBlob (arr_bytes hash); VInt (Z.of_nat (length txs)); bindSlice buf].
(** [make] panics on a negative number. *)
Definition sqlTxs_GetForkTxs (hash : Uint256) : GoM DB (list Tx) :=
  r ← dbQueryRow (Select ["Num"; "RawData"] "ForkTxs" (Some "Hash")) [VBlob (arr_bytes hash)];
  lift (match r with
        | [n; d] =>
            num ← scanInt64 n; data ← scanBytes d;
            if num <? 0 then Panic else (readN (Z.to_nat num) Tx_Deserialize data).1
        | _ => Err scanErr
        end).

(** ** The batches

    A batch is an SQL transaction: it starts as a copy of the database, [Commit]
    puts it in its place and [Rollback] drops it. *)
Definition inTx {A} (m : GoM DB A) : GoM DB A := λ db,
  match m db with
  | (Ok a, tx) => (Ok a, tx)
  | (o, _) => (o, db)
  end.

Definition addrsBatch_Put (hash : Uint168) (script : bytes) (addrType : Z) : GoM DB unit :=
  dbExec (InsertOrReplace "Addrs" ["Hash"; "Script"; "Type"])
    [VBlob (arr_bytes hash); bindSlice script; VInt addrType].
Definition addrsBatch_Del (hash : Uint168) : GoM DB unit :=
  dbExec (DeleteFrom "Addrs" "Hash") [VBlob (arr_bytes hash)].
Definition utxosBatch_Put (utxo : UTXO) : GoM DB unit :=
  valueBytes ← lift (Fixed64_Bytes (u_Value utxo));
  dbExec (InsertOrReplace "UTXOs" ["OutPoint"; "Value"; "LockTime"; "AtHeight"; "Address"])
    [VBlob (OutPoint_Bytes (u_Op utxo)); VBlob valueBytes; VInt (u_LockTime utxo); VInt (u_AtHeight utxo);
     VBlob (arr_bytes (u_Address utxo))].
Definition utxosBatch_Del (op : OutPoint) : GoM DB unit :=
  dbExec (DeleteFrom "UTXOs" "OutPoint") [VBlob (OutPoint_Bytes op)].
Definition stxosBatch_Put (stxo : STXO) : GoM DB unit :=
  let utxo := s_UTXO stxo in
  valueBytes ← lift (Fixed64_Bytes (u_Value utxo));
  dbExec (InsertOrReplace "STXOs" stxoCols)
    [VBlob (OutPoint_Bytes (u_Op utxo)); VBlob valueBytes; VInt (u_LockTime utxo); VInt (u_AtHeight utxo);
     VBlob (arr_bytes (s_SpendTxId stxo)); VInt (s_SpendHeight stxo); VBlob (arr_bytes (u_Address utxo))].
Definition stxosBatch_Del (outPoint : OutPoint) : GoM DB unit :=
  dbExec (DeleteFrom "STXOs" "OutPoint") [VBlob (OutPoint_Bytes outPoint)].
Definition txsBatchSql_Put (tx : Tx) : GoM DB unit :=
  dbExec (InsertOrReplace "Txs" ["Hash"; "Height"; "Timestamp"; "RawData"])
    [VBlob (arr_bytes (Tx_Hash tx)); VInt (Tx_Height tx); VInt (Timestamp tx); bindSlice (RawData tx)].
Definition txsBatchSql_Del (txId : Uint256) : GoM DB unit :=
  dbExec (DeleteFrom "Txs" "Hash") [VBlob (arr_bytes txId)].

(** The statements of [RollbackHeight] on the outputs, the ones before the last;
    no call ends after them. *)
Definition rollbackOutputs (height : Z) : GoM DB unit :=
  dbExec (DeleteFrom "UTXOs" "AtHeight") [VInt height] ≫= λ _,
  dbExec (InsertOrReplaceSelect "UTXOs" ["OutPoint"; "Value"; "LockTime"; "AtHeight"; "Address"] "STXOs" "SpendHeight")
    [VInt height] ≫= λ _,
  dbExec (DeleteFrom "STXOs" "SpendHeight") [VInt height].
Definition RollbackHeight (height : Z) : GoM DB unit :=
  rollbackOutputs height ≫= λ _,
  dbExec (DeleteFrom "TXNs" "Height") [VInt height].

(** ** [database] *)
Definition NewDatabase : GoM DB unit :=
  NewState ≫= λ _, sqlNewAddrs ≫= λ _, NewUTXOs ≫= λ _, NewSTXOs ≫= λ _, NewTxs.
Definition sqlDatabase_Clear : GoM DB unit :=
  inTx (dbExecs [DropTable "State"; DropTable "UTXOs"; DropTable "STXOs"; DropTable "TXNs"]).
End store.
