(* ===== verification/WalletStoreSpec.v ===== *)
(** * The wallet's tables are finite maps

    [wstore] is what the tables hold: outputs by outpoint, transactions by id.
    [wrep] relates it to the rows; every operation of [WalletStore] refines the
    operation on the map, and what is read is what was written. *)
From S2P Require Export WalletStore.
#[local] Open Scope Z_scope.

Class Fixed64BytesLaws `{!Fixed64Bytes} : Prop := {
  Fixed64_Bytes_ok z : fits64s z → ∃ bs, Fixed64_Bytes z = Ok bs ∧ Fixed64FromBytes bs = Ok z;
}.

(** ** The rows of typed values *)
Section rows.
Context `{E : ElaCommon} `{!Fixed64Bytes}.

Definition value_bytes (z : Z) : bytes := match Fixed64_Bytes z with Ok bs => bs | _ => [] end.

Definition state_row (kv : string * Z) : row := [VText kv.1; VInt kv.2].
Definition addr_row (a : Addr) : row :=
  [VBlob (arr_bytes (ad_hash a)); bindSlice (ad_script a); VInt (ad_addrType a)].
Definition utxo_row (u : UTXO) : row :=
  [VBlob (OutPoint_Bytes (u_Op u)); VBlob (value_bytes (u_Value u)); VInt (u_LockTime u); VInt (u_AtHeight u);
   VBlob (arr_bytes (u_Address u))].
Definition s_Op (x : STXO) : OutPoint := u_Op (s_UTXO x).
Definition stxo_row (x : STXO) : row :=
  [VBlob (OutPoint_Bytes (s_Op x)); VBlob (value_bytes (u_Value (s_UTXO x))); VInt (u_LockTime (s_UTXO x));
   VInt (u_AtHeight (s_UTXO x)); VBlob (arr_bytes (s_SpendTxId x)); VInt (s_SpendHeight x);
   VBlob (arr_bytes (u_Address (s_UTXO x)))].
Definition tx_row (t : Tx) : row :=
  [VBlob (arr_bytes (Tx_Hash t)); VInt (Tx_Height t); VInt (Timestamp t); bindSlice (RawData t)].
Definition fork_data (txs : list Tx) : bytes := (forM txs Tx_Serialize []).2.
Definition fork_row (f : Uint256 * list Tx) : row :=
  [VBlob (arr_bytes f.1); VInt (Z.of_nat (length f.2)); bindSlice (fork_data f.2)].

(** The values the Go types and the NOT NULL constraints allow. *)
Definition state_ok (kv : string * Z) : Prop := fits 32 kv.2.
Definition addr_ok (a : Addr) : Prop := fits64s (ad_addrType a).
Definition utxo_ok (u : UTXO) : Prop :=
  OutPoint_wf (u_Op u) ∧ fits64s (u_Value u) ∧ fits 32 (u_LockTime u) ∧ fits 32 (u_AtHeight u).
Definition stxo_ok (x : STXO) : Prop := utxo_ok (s_UTXO x) ∧ fits 32 (s_SpendHeight x).
Definition tx_ok (t : Tx) : Prop := fits 32 (Tx_Height t) ∧ fits64s (Timestamp t) ∧ RawData t ≠ [].
Definition fork_ok (f : Uint256 * list Tx) : Prop :=
  Forall Tx_wf f.2 ∧ fork_data f.2 ≠ [].

Notation holdsState := (holds state_row fst state_ok "State" StateCols).
Notation holdsAddrs := (holds addr_row ad_hash addr_ok "Addrs" AddrsCols).
Notation holdsUTXOs := (holds utxo_row u_Op utxo_ok "UTXOs" UTXOsCols).
Notation holdsSTXOs := (holds stxo_row s_Op stxo_ok "STXOs" STXOsCols).
Notation holdsTxs := (holds tx_row Tx_Hash tx_ok "Txs" TxsCols).
Notation holdsForks := (holds fork_row fst fork_ok "ForkTxs" ForkTxsCols).

(** What the tables hold. *)
Record wstore := mkWS {
  ws_state : gmap string (string * Z);
  ws_addrs : gmap Uint168 Addr;
  ws_utxos : gmap OutPoint UTXO;
  ws_stxos : gmap OutPoint STXO;
  ws_txs : gmap Uint256 Tx;
  ws_forks : gmap Uint256 (Uint256 * list Tx);
}.
Definition set_state m st := mkWS m (ws_addrs st) (ws_utxos st) (ws_stxos st) (ws_txs st) (ws_forks st).
Definition set_addrs m st := mkWS (ws_state st) m (ws_utxos st) (ws_stxos st) (ws_txs st) (ws_forks st).
Definition set_utxos m st := mkWS (ws_state st) (ws_addrs st) m (ws_stxos st) (ws_txs st) (ws_forks st).
Definition set_stxos m st := mkWS (ws_state st) (ws_addrs st) (ws_utxos st) m (ws_txs st) (ws_forks st).
Definition set_txs m st := mkWS (ws_state st) (ws_addrs st) (ws_utxos st) (ws_stxos st) m (ws_forks st).
Definition set_forks m st := mkWS (ws_state st) (ws_addrs st) (ws_utxos st) (ws_stxos st) (ws_txs st) m.

(** No table is called TXNs. *)
Record wrep (st : wstore) (T : tables) : Prop := {
  wr_state : holdsState (ws_state st) T;
  wr_addrs : holdsAddrs (ws_addrs st) T;
  wr_utxos : holdsUTXOs (ws_utxos st) T;
  wr_stxos : holdsSTXOs (ws_stxos st) T;
  wr_txs : holdsTxs (ws_txs st) T;
  wr_forks : holdsForks (ws_forks st) T;
  wr_TXNs : T !! "TXNs" = None;
}.

(** A table replaced, the others are as before. *)
Ltac wrep_set := intros [] ?; split; cbn; first [done | by apply holds_insert_ne | by rewrite lookup_insert_ne].
Lemma wrep_set_state st T tb m : wrep st T → holdsState m (<["State" := tb]> T) → wrep (set_state m st) (<["State" := tb]> T).
Proof. wrep_set. Qed.
Lemma wrep_set_addrs st T tb m : wrep st T → holdsAddrs m (<["Addrs" := tb]> T) → wrep (set_addrs m st) (<["Addrs" := tb]> T).
Proof. wrep_set. Qed.
Lemma wrep_set_utxos st T tb m : wrep st T → holdsUTXOs m (<["UTXOs" := tb]> T) → wrep (set_utxos m st) (<["UTXOs" := tb]> T).
Proof. wrep_set. Qed.
Lemma wrep_set_stxos st T tb m : wrep st T → holdsSTXOs m (<["STXOs" := tb]> T) → wrep (set_stxos m st) (<["STXOs" := tb]> T).
Proof. wrep_set. Qed.
Lemma wrep_set_txs st T tb m : wrep st T → holdsTxs m (<["Txs" := tb]> T) → wrep (set_txs m st) (<["Txs" := tb]> T).
Proof. wrep_set. Qed.
Lemma wrep_set_forks st T tb m : wrep st T → holdsForks m (<["ForkTxs" := tb]> T) → wrep (set_forks m st) (<["ForkTxs" := tb]> T).
Proof. wrep_set. Qed.

(** ** The keys are primary keys *)
Context `{!ElaCommonLaws E}.

Lemma bindSlice_null b : b ≠ [] → bindSlice b = VBlob b.
Proof. by destruct b. Qed.
Lemma scanBytes_bindSlice b : scanBytes (bindSlice b) = Ok b.
Proof. by destruct b. Qed.

Lemma state_key (v v' : string * Z) : state_ok v → state_ok v' → state_row v' !! 0%nat ≠ state_row v !! 0%nat ↔ v'.1 ≠ v.1.
Proof. intros _ _. cbn. split; intros Hne E'; apply Hne; congruence. Qed.
Lemma addr_key (v v' : Addr) : addr_ok v → addr_ok v' → addr_row v' !! 0%nat ≠ addr_row v !! 0%nat ↔ ad_hash v' ≠ ad_hash v.
Proof.
  intros _ _. cbn. split; intros Hne E'; apply Hne; [by rewrite E'|]. injection E' as E'. by apply (inj arr_bytes).
Qed.
Lemma blob_op (a b : OutPoint) : OutPoint_wf a → OutPoint_wf b → VBlob (OutPoint_Bytes a) = VBlob (OutPoint_Bytes b) ↔ a = b.
Proof. intros Ha Hb. split; [|by intros ->]. intros [= He]. by apply OutPoint_Bytes_inj. Qed.
Lemma blob_arr {n} (a b : array n) : VBlob (arr_bytes a) = VBlob (arr_bytes b) ↔ a = b.
Proof. split; [|by intros ->]. intros [= He]. by apply (inj arr_bytes). Qed.
Lemma utxo_key (v v' : UTXO) : utxo_ok v → utxo_ok v' → utxo_row v' !! 0%nat ≠ utxo_row v !! 0%nat ↔ u_Op v' ≠ u_Op v.
Proof.
  intros (Hv & _) (Hv' & _). cbn. pose proof (blob_op (u_Op v') (u_Op v) Hv' Hv) as Hb.
  split; intros Hne E'; apply Hne; [by rewrite E'|]. apply Hb. congruence.
Qed.
Lemma stxo_key (v v' : STXO) : stxo_ok v → stxo_ok v' → stxo_row v' !! 0%nat ≠ stxo_row v !! 0%nat ↔ s_Op v' ≠ s_Op v.
Proof.
  intros ((Hv & _) & _) ((Hv' & _) & _). cbn. pose proof (blob_op (s_Op v') (s_Op v) Hv' Hv) as Hb.
  split; intros Hne E'; apply Hne; [by rewrite E'|]. apply Hb. congruence.
Qed.
Lemma tx_key (v v' : Tx) : tx_ok v → tx_ok v' → tx_row v' !! 0%nat ≠ tx_row v !! 0%nat ↔ Tx_Hash v' ≠ Tx_Hash v.
Proof.
  intros _ _. cbn. split; intros Hne E'; apply Hne; [by rewrite E'|]. injection E' as E'. by apply (inj arr_bytes).
Qed.
Lemma fork_key (v v' : Uint256 * list Tx) : fork_ok v → fork_ok v' → fork_row v' !! 0%nat ≠ fork_row v !! 0%nat ↔ v'.1 ≠ v.1.
Proof.
  intros _ _. cbn. split; intros Hne E'; apply Hne; [by rewrite E'|]. injection E' as E'. by apply (inj arr_bytes).
Qed.

(** Constraints on NULL *)
Lemma tx_null t : tx_ok t → null_column TxsCols (tx_row t) = None.
Proof. intros (_ & _ & Hr). unfold tx_row. by rewrite bindSlice_null. Qed.
Lemma fork_null f : fork_ok f → null_column ForkTxsCols (fork_row f) = None.
Proof. intros (_ & Hr). unfold fork_row. by rewrite bindSlice_null. Qed.
Lemma addr_null a : null_column AddrsCols (addr_row a) = None.
Proof. by destruct a as [h [|b s] t]. Qed.
End rows.
Notation holdsState := (holds state_row fst state_ok "State" StateCols).
Notation holdsAddrs := (holds addr_row ad_hash addr_ok "Addrs" AddrsCols).
Notation holdsUTXOs := (holds utxo_row u_Op utxo_ok "UTXOs" UTXOsCols).
Notation holdsSTXOs := (holds stxo_row s_Op stxo_ok "STXOs" STXOsCols).
Notation holdsTxs := (holds tx_row Tx_Hash tx_ok "Txs" TxsCols).
Notation holdsForks := (holds fork_row fst fork_ok "ForkTxs" ForkTxsCols).

(** ** The operations *)
Section ops.
Context {DB} `{!SQLite DB} `{!SQLiteLaws DB} `{E : ElaCommon} `{!ElaCommonLaws E}.
Context `{!Uint168Bytes} `{!Uint168BytesLaws} `{!Uint256Bytes} `{!Uint256BytesLaws} `{!Fixed64Bytes} `{!Fixed64BytesLaws}.
Implicit Types (db : DB) (st : wstore).

Definition wdb st db : Prop := wrep st (sq_tables db).

Lemma value_bytes_ok z : fits64s z → Fixed64_Bytes z = Ok (value_bytes z) ∧ Fixed64FromBytes (value_bytes z) = Ok z.
Proof. intros Hz. destruct (Fixed64_Bytes_ok z Hz) as (bs & Hb & Hf). unfold value_bytes. by rewrite Hb. Qed.
Lemma OutPoint_back op : OutPoint_wf op → OutPointFromBytes (OutPoint_Bytes op) = Ok op.
Proof.
  intros (bs & Hw & Hr)%OutPoint_ok. unfold OutPointFromBytes, OutPoint_Bytes. rewrite Hw. cbn [snd app].
  specialize (Hr []). rewrite app_nil_r in Hr. by rewrite Hr.
Qed.
Lemma scanUint32_fits z : fits 32 z → scanUint32 (VInt z) = Ok z.
Proof. intros. cbn. by rewrite decide_True. Qed.
Lemma scanInt64_fits z : fits64s z → scanInt64 (VInt z) = Ok z.
Proof. intros. cbn. by rewrite decide_True. Qed.

(** *** Writing *)
Lemma state_PutHeight_spec h db st : wdb st db → fits 32 h →
  ∃ db', state_PutHeight h db = (Ok (), db') ∧ wdb (set_state (<[HeightKey := (HeightKey, h)]> (ws_state st)) st) db'.
Proof.
  intros Hw Hh. destruct (exec_insert state_row fst state_ok "State" StateCols 0 eq_refl state_key (ws_state st)
    (sq_tables db) ["Key"; "Value"] [VText HeightKey; VInt h] (HeightKey, h)) as (tb & Hx & Hm); try done.
  { apply Hw. }
  destruct (dbExec_run _ _ _ _ Hx) as (db' & Hr & HT). exists db'. split.
  - unfold state_PutHeight, ignoreErr. by rewrite (bind_run _ _ db (inr ()) db' (try_run _ _ _ _ Hr)).
  - unfold wdb. rewrite HT. by apply wrep_set_state.
Qed.
Lemma addrs_Put_spec_ hash script ty db st : wdb st db → fits64s ty →
  ∃ db', sqlAddrs_Put hash script ty db = (Ok (), db') ∧
    wdb (set_addrs (<[hash := NewAddr hash script ty]> (ws_addrs st)) st) db'.
Proof.
  intros Hw Ht. destruct (exec_insert addr_row ad_hash addr_ok "Addrs" AddrsCols 0 eq_refl addr_key (ws_addrs st)
    (sq_tables db) ["Hash"; "Script"; "Type"] [VBlob (arr_bytes hash); bindSlice script; VInt ty]
    (NewAddr hash script ty)) as (tb & Hx & Hm); try done.
  { apply Hw. }
  destruct (dbExec_run _ _ _ _ Hx) as (db' & Hr & HT). exists db'. split; [done|].
  unfold wdb. rewrite HT. by apply wrep_set_addrs.
Qed.
Lemma utxos_Put_spec u db st : wdb st db → utxo_ok u →
  ∃ db', utxos_Put u db = (Ok (), db') ∧ wdb (set_utxos (<[u_Op u := u]> (ws_utxos st)) st) db'.
Proof.
  intros Hw Hu. pose proof Hu as (_ & Hv & _). destruct (value_bytes_ok _ Hv) as [Hb _].
  destruct (exec_insert utxo_row u_Op utxo_ok "UTXOs" UTXOsCols 0 eq_refl utxo_key (ws_utxos st)
    (sq_tables db) utxoCols (utxo_row u) u) as (tb & Hx & Hm); try done.
  { apply Hw. }
  destruct (dbExec_run _ _ _ _ Hx) as (db' & Hr & HT). exists db'. split.
  - unfold utxos_Put. by rewrite (lift_bind _ _ db _ Hb).
  - unfold wdb. rewrite HT. by apply wrep_set_utxos.
Qed.
Lemma stxos_Put_spec x db st : wdb st db → stxo_ok x →
  ∃ db', stxos_Put x db = (Ok (), db') ∧ wdb (set_stxos (<[s_Op x := x]> (ws_stxos st)) st) db'.
Proof.
  intros Hw Hx. pose proof Hx as ((_ & Hv & _) & _). destruct (value_bytes_ok _ Hv) as [Hb _].
  destruct (exec_insert stxo_row s_Op stxo_ok "STXOs" STXOsCols 0 eq_refl stxo_key (ws_stxos st)
    (sq_tables db) stxoCols (stxo_row x) x) as (tb & He & Hm); try done.
  { apply Hw. }
  destruct (dbExec_run _ _ _ _ He) as (db' & Hr & HT). exists db'. split.
  - unfold stxos_Put. cbv zeta. by rewrite (lift_bind _ _ db _ Hb).
  - unfold wdb. rewrite HT. by apply wrep_set_stxos.
Qed.
Lemma txs_Put_spec_ t db st : wdb st db → tx_ok t →
  ∃ db', sqlTxs_Put t db = (Ok (), db') ∧ wdb (set_txs (<[Tx_Hash t := t]> (ws_txs st)) st) db'.
Proof.
  intros Hw Ht. destruct (exec_insert tx_row Tx_Hash tx_ok "Txs" TxsCols 0 eq_refl tx_key (ws_txs st)
    (sq_tables db) ["Hash"; "Height"; "Timestamp"; "RawData"] (tx_row t) t) as (tb & Hx & Hm); try done.
  { apply Hw. }
  { by apply tx_null. }
  destruct (dbExec_run _ _ _ _ Hx) as (db' & Hr & HT). exists db'. split; [done|].
  unfold wdb. rewrite HT. by apply wrep_set_txs.
Qed.
Lemma PutForkTxs_spec txs hash db st : wdb st db → fork_ok (hash, txs) → (forM txs Tx_Serialize []).1 = Ok () →
  ∃ db', sqlTxs_PutForkTxs txs hash db = (Ok (), db') ∧
    wdb (set_forks (<[hash := (hash, txs)]> (ws_forks st)) st) db'.
Proof.
  intros Hw Hf Hs. destruct (exec_insert fork_row fst fork_ok "ForkTxs" ForkTxsCols 0 eq_refl fork_key (ws_forks st)
    (sq_tables db) ["Hash"; "Num"; "RawData"] (fork_row (hash, txs)) (hash, txs)) as (tb & Hx & Hm); try done.
  { apply Hw. }
  { by apply fork_null. }
  destruct (dbExec_run _ _ _ _ Hx) as (db' & Hr & HT). exists db'. split.
  - unfold sqlTxs_PutForkTxs. unfold fork_row, fork_data in Hr. cbn [fst snd] in Hr.
    destruct (forM txs Tx_Serialize []) as [o buf]. cbn in Hs. subst o. cbn [snd] in Hr.
    by rewrite (lift_bind _ _ db () eq_refl).
  - unfold wdb. rewrite HT. by apply wrep_set_forks.
Qed.
(** Nothing to store: the data is NULL and the constraint fails. *)
Lemma PutForkTxs_nothing hash db st : wdb st db →
  sqlTxs_PutForkTxs [] hash db = (Err (notNull "ForkTxs" "RawData"), db).
Proof.
  intros Hw. destruct (wr_forks _ _ Hw) as (rows & HT & _). unfold sqlTxs_PutForkTxs.
  change (forM [] Tx_Serialize []) with (@Ok unit (), @nil byte). cbv beta iota. rewrite (lift_bind _ _ db () eq_refl).
  apply dbExec_err. unfold sql_exec, getTable. by rewrite HT.
Qed.

(** *** Reading *)
Lemma dbQueryRow_run q args db (ro : option row) :
  sql_query q args (sq_tables db) = Ok (match ro with Some r => [r] | None => [] end) →
  dbQueryRow q args db = (match ro with Some r => Ok r | None => Err ErrNoRows end, db).
Proof.
  intros Hq. destruct (dbQuery_run _ _ _ _ Hq) as (rows & Hr & Hp). unfold dbQueryRow.
  rewrite (bind_run _ _ _ _ _ Hr). destruct ro as [r|].
  - apply Permutation_singleton_r in Hp. by subst.
  - apply Permutation_nil_r in Hp. by subst.
Qed.
(** A query for one key, with its row read back. *)
Lemma query_one {A} q args db (ro : option row) (f : row → outcome A) :
  sql_query q args (sq_tables db) = Ok (match ro with Some r => [r] | None => [] end) →
  (r ← dbQueryRow q args; lift (f r)) db = (match ro with Some r => f r | None => Err ErrNoRows end, db).
Proof.
  intros Hq%dbQueryRow_run. unfold mbind, GoM_bind. rewrite Hq. by destruct ro.
Qed.
Lemma scanRows_ok {A} (scan : row → outcome A) (f : A → row) vs :
  (∀ v, v ∈ vs → scan (f v) = Ok v) → scanRows scan (f <$> vs) = Ok (vs, None).
Proof.
  induction vs as [|v vs IH]; intros Hs; [done|]. cbn [fmap list_fmap scanRows].
  rewrite Hs by left. change (list_fmap row) with (@fmap list _ A row).
  by rewrite IH by (intros w Hw; apply Hs; by right).
Qed.
Lemma queryAll_run {A} q args (scan : row → outcome A) (f : A → row) db rows vs :
  sql_query q args (sq_tables db) = Ok rows → rows ≡ₚ f <$> vs → (∀ v, v ∈ vs → scan (f v) = Ok v) →
  ∃ vs', queryAll q args scan db = (Ok (vs', None), db) ∧ vs' ≡ₚ vs.
Proof.
  intros Hq Hp Hs. destruct (dbQuery_run _ _ _ _ Hq) as (rows' & Hr & Hp'). rewrite Hp in Hp'.
  apply Permutation_map_inv in Hp' as (vs' & -> & Hvs). exists vs'. split; [|by symmetry].
  unfold queryAll. rewrite (bind_run _ _ _ _ _ (try_run _ _ _ _ Hr)). unfold lift.
  change (List.map f vs') with (f <$> vs'). rewrite scanRows_ok; [done|].
  intros v Hv. apply Hs. by rewrite Hvs.
Qed.

Lemma scanUTXO_row u : utxo_ok u → scanUTXO (utxo_row u) = Ok u.
Proof.
  intros (Ho & Hv & Hl & Hh). destruct (value_bytes_ok _ Hv) as [_ Hb]. unfold scanUTXO, utxo_row.
  rewrite !scanUint32_fits by done. cbn [scanBytes mbind outcome_bind].
  rewrite OutPoint_back by done. cbn [mbind outcome_bind]. rewrite Hb. cbn [mbind outcome_bind].
  rewrite Uint168FromBytes_Bytes. by destruct u.
Qed.
Lemma scanSTXO_row x : stxo_ok x → scanSTXO (stxo_row x) = Ok x.
Proof.
  intros ((Ho & Hv & Hl & Hh) & Hs). destruct (value_bytes_ok _ Hv) as [_ Hb]. unfold scanSTXO, stxo_row.
  rewrite !scanUint32_fits by done. cbn [scanBytes mbind outcome_bind].
  unfold s_Op. rewrite OutPoint_back by done. cbn [mbind outcome_bind]. rewrite Hb. cbn [mbind outcome_bind].
  rewrite Uint168FromBytes_Bytes. cbn [mbind outcome_bind]. rewrite Uint256FromBytes_Bytes. by destruct x as [[]].
Qed.
Lemma scanTx_row t : tx_ok t → scanTx (tx_row t) = Ok t.
Proof.
  intros (Hh & Ht & _). unfold scanTx, tx_row. rewrite scanUint32_fits, scanInt64_fits by done.
  rewrite scanBytes_bindSlice. cbn [scanBytes mbind outcome_bind]. rewrite Uint256FromBytes_Bytes. by destruct t.
Qed.
Lemma scanAddr_row a : addr_ok a → scanAddr (addr_row a) = Ok a.
Proof.
  intros Ht. unfold scanAddr, addr_row. rewrite scanInt64_fits by done. rewrite scanBytes_bindSlice.
  cbn [scanBytes mbind outcome_bind]. rewrite Uint168FromBytes_Bytes. by destruct a.
Qed.

Lemma state_GetHeight_spec db st : wdb st db →
  state_GetHeight db = (Ok (match ws_state st !! HeightKey with Some kv => kv.2 | None => 0 end), db).
Proof.
  intros Hw. unfold state_GetHeight.
  pose proof (query_key state_row fst state_ok "State" StateCols 0 (ws_state st) (sq_tables db) ["Value"] [1%nat] "Key"
    (VText HeightKey) HeightKey [] (wr_state _ _ Hw) eq_refl eq_refl) as Hq.
  destruct (ws_state st !! HeightKey) as [v|] eqn:Hv.
  - rewrite (bind_run _ _ db (inr v.2) db); [done|]. apply try_run.
    rewrite (query_one _ _ _ (Some (project [1%nat] (state_row v)))).
    + cbn. destruct (holds_ok _ _ _ _ _ _ _ (wr_state _ _ Hw) _ _ Hv) as [_ Hf]. by rewrite decide_True.
    + apply Hq. intros [k h] _. unfold cell_is. cbn. split; [by intros [_ [= ->]]|by intros ->].
  - rewrite (bind_run _ _ db (inl ErrNoRows) db); [done|]. apply try_run_err.
    rewrite (query_one _ _ _ None); [done|].
    apply Hq. intros [k h] _. unfold cell_is. cbn. split; [by intros [_ [= ->]]|by intros ->].
Qed.

Lemma op_cell op0 op rest : OutPoint_wf op0 → OutPoint_wf op →
  cell_is 0 (VBlob (OutPoint_Bytes op0)) (VBlob (OutPoint_Bytes op) :: rest) ↔ op = op0.
Proof.
  intros Hw0 Hw1. unfold cell_is. cbn. pose proof (blob_op op op0 Hw1 Hw0) as Hb. split.
  - intros [_ [= He]]. apply Hb. by rewrite He.
  - by intros ->.
Qed.
Lemma arr_cell {n} (a0 a : array n) i r : r !! i = Some (VBlob (arr_bytes a)) →
  cell_is i (VBlob (arr_bytes a0)) r ↔ a = a0.
Proof.
  intros Hr. unfold cell_is. rewrite Hr. split.
  - intros [_ [= He]]. by apply (inj arr_bytes).
  - by intros ->.
Qed.
Lemma int_cell z0 z i r : r !! i = Some (VInt z) → cell_is i (VInt z0) r ↔ z = z0.
Proof. intros Hr. unfold cell_is. rewrite Hr. split; [by intros [_ [= ->]]|by intros ->]. Qed.

Lemma utxos_Get_spec op db st : wdb st db → OutPoint_wf op →
  utxos_Get op db = (match ws_utxos st !! op with Some u => Ok u | None => Err ErrNoRows end, db).
Proof.
  intros Hw Hop. unfold utxos_Get. pose proof (wr_utxos _ _ Hw) as Hu.
  rewrite (query_one _ _ _ (project [1;2;3;4]%nat ∘ utxo_row <$> ws_utxos st !! op)).
  - destruct (ws_utxos st !! op) as [u|] eqn:E0; [|done].
    destruct (holds_ok _ _ _ _ _ _ _ Hu _ _ E0) as [Hk (Ho & Hv & Hl & Hh)].
    destruct (value_bytes_ok _ Hv) as [_ Hb]. cbn -[scanUint32].
    rewrite !scanUint32_fits by done. cbn [mbind outcome_bind]. rewrite Hb. cbn [mbind outcome_bind].
    rewrite Uint168FromBytes_Bytes. by destruct u; cbn in *; subst.
  - rewrite (query_key utxo_row u_Op utxo_ok "UTXOs" UTXOsCols 0 (ws_utxos st) (sq_tables db)
        ["Value"; "LockTime"; "AtHeight"; "Address"] [1;2;3;4]%nat "OutPoint" _ op [] Hu eq_refl eq_refl).
    + by destruct (_ !! op).
    + intros v (Hv & _). by apply op_cell.
Qed.
Lemma txs_Get_spec k db st : wdb st db →
  sqlTxs_Get k db = (match ws_txs st !! k with Some t => Ok t | None => Err ErrNoRows end, db).
Proof.
  intros Hw. unfold sqlTxs_Get. pose proof (wr_txs _ _ Hw) as Ht.
  rewrite (query_one _ _ _ (project [1;2;3]%nat ∘ tx_row <$> ws_txs st !! k)).
  - destruct (ws_txs st !! k) as [t|] eqn:E0; [|done].
    destruct (holds_ok _ _ _ _ _ _ _ Ht _ _ E0) as [Hk (Hh & Hs & _)]. cbn -[scanUint32 scanInt64 scanBytes].
    rewrite scanUint32_fits, scanInt64_fits, scanBytes_bindSlice by done. by destruct t; cbn in *; subst.
  - rewrite (query_key tx_row Tx_Hash tx_ok "Txs" TxsCols 0 (ws_txs st) (sq_tables db)
        ["Height"; "Timestamp"; "RawData"] [1;2;3]%nat "Hash" _ k [] Ht eq_refl eq_refl).
    + by destruct (_ !! k).
    + intros v _. by apply arr_cell.
Qed.
Lemma addrs_Get_spec h db st : wdb st db →
  sqlAddrs_Get h db = (match ws_addrs st !! h with Some a => Ok a | None => Err ErrNoRows end, db).
Proof.
  intros Hw. unfold sqlAddrs_Get. pose proof (wr_addrs _ _ Hw) as Ha.
  rewrite (query_one _ _ _ (project [1;2]%nat ∘ addr_row <$> ws_addrs st !! h)).
  - destruct (ws_addrs st !! h) as [a|] eqn:E0; [|done].
    destruct (holds_ok _ _ _ _ _ _ _ Ha _ _ E0) as [Hk Hty]. cbn -[scanInt64 scanBytes].
    rewrite scanInt64_fits, scanBytes_bindSlice by done. by destruct a; cbn in *; subst.
  - rewrite (query_key addr_row ad_hash addr_ok "Addrs" AddrsCols 0 (ws_addrs st) (sq_tables db)
        ["Script"; "Type"] [1;2]%nat "Hash" _ h [] Ha eq_refl eq_refl).
    + by destruct (_ !! h).
    + intros v _. by apply arr_cell.
Qed.

Lemma list_codec {A} (w : A → Writer) (r : Reader A) l :
  (∀ x, x ∈ l → ∃ bs, writes (w x) bs ∧ reads r bs x) →
  ∃ bs, writes (forM l w) bs ∧ reads (readN (length l) r) bs l.
Proof.
  induction l as [|x l IH]; intros Hl.
  - exists []. split; [apply writes_ret|apply reads_ret].
  - destruct IH as (bs & Hw & Hr); [intros y Hy; apply Hl; by right|].
    destruct (Hl x ltac:(left)) as (b & Hwx & Hrx). exists (b ++ bs).
    split; [by apply writes_bind|]. cbn [length readN]. eapply reads_bind; [done|].
    eapply reads_bind_nil; [done|]. apply reads_ret.
Qed.
Lemma fork_codec txs : Forall Tx_wf txs → fits 32 MaxBlockContextSize →
  ∃ bs, writes (forM txs Tx_Serialize) bs ∧ reads (readN (length txs) Tx_Deserialize) bs txs.
Proof.
  intros Hf Hm. apply list_codec. intros t Ht. apply Tx_ok; [|done]. by eapply Forall_forall in Hf.
Qed.
Lemma GetForkTxs_spec hash db st : wdb st db → fits 32 MaxBlockContextSize →
  (∀ f, ws_forks st !! hash = Some f → Z.of_nat (length f.2) < 2 ^ 63) →
  sqlTxs_GetForkTxs hash db = (match ws_forks st !! hash with Some f => Ok f.2 | None => Err ErrNoRows end, db).
Proof.
  intros Hw Hm Hlens. unfold sqlTxs_GetForkTxs. pose proof (wr_forks _ _ Hw) as Hf.
  rewrite (query_one _ _ _ (project [1;2]%nat ∘ fork_row <$> ws_forks st !! hash)).
  - destruct (ws_forks st !! hash) as [[k txs]|] eqn:E0; [|done].
    destruct (holds_ok _ _ _ _ _ _ _ Hf _ _ E0) as [Hk (Hwf & _)]. pose proof (Hlens _ eq_refl) as Hlen.
    destruct (fork_codec txs Hwf Hm) as (bs & Hws & Hrs). cbn -[scanInt64 scanBytes].
    rewrite scanInt64_fits, scanBytes_bindSlice by (unfold fits64s; cbn in Hlen; lia). cbn [mbind outcome_bind].
    rewrite (proj2 (Z.ltb_ge _ _)) by lia. rewrite Nat2Z.id. unfold fork_data.
    specialize (Hws []). specialize (Hrs []). rewrite app_nil_r in Hrs. rewrite Hws. cbn [snd app]. by rewrite Hrs.
  - rewrite (query_key fork_row fst fork_ok "ForkTxs" ForkTxsCols 0 (ws_forks st) (sq_tables db)
      ["Num"; "RawData"] [1;2]%nat "Hash" _ hash [] Hf eq_refl eq_refl).
    + by destruct (_ !! hash).
    + intros v _. by apply arr_cell.
Qed.

(** All the values, and those a condition selects. *)
Lemma utxos_GetAll_spec db st : wdb st db →
  ∃ us, utxos_GetAll db = (Ok (us, None), db) ∧ us ≡ₚ (map_to_list (ws_utxos st)).*2.
Proof.
  intros Hw. pose proof (wr_utxos _ _ Hw) as Hu.
  destruct (query_all utxo_row u_Op utxo_ok "UTXOs" UTXOsCols (ws_utxos st) (sq_tables db) utxoCols [0;1;2;3;4]%nat [] Hu eq_refl)
    as (rows & Hq & Hp).
  destruct (queryAll_run _ _ scanUTXO utxo_row db rows _ Hq Hp) as (us & Hr & Hus); [|by exists us].
  intros u Hin. apply scanUTXO_row. by destruct (values_ok_elem u_Op utxo_ok _ u (holds_ok _ _ _ _ _ _ _ Hu) Hin).
Qed.
Lemma stxos_GetAll_spec db st : wdb st db →
  ∃ xs, stxos_GetAll db = (Ok (xs, None), db) ∧ xs ≡ₚ (map_to_list (ws_stxos st)).*2.
Proof.
  intros Hw. pose proof (wr_stxos _ _ Hw) as Hu.
  destruct (query_all stxo_row s_Op stxo_ok "STXOs" STXOsCols (ws_stxos st) (sq_tables db) stxoCols [0;1;2;3;4;5;6]%nat [] Hu eq_refl)
    as (rows & Hq & Hp).
  destruct (queryAll_run _ _ scanSTXO stxo_row db rows _ Hq Hp) as (us & Hr & Hus); [|by exists us].
  intros u Hin. apply scanSTXO_row. by destruct (values_ok_elem s_Op stxo_ok _ u (holds_ok _ _ _ _ _ _ _ Hu) Hin).
Qed.
Lemma addrs_GetAll_spec db m : holdsAddrs m (sq_tables db) →
  ∃ xs, sqlAddrs_GetAll db = (Ok (xs, None), db) ∧ xs ≡ₚ (map_to_list m).*2.
Proof.
  intros Hu.
  destruct (query_all addr_row ad_hash addr_ok "Addrs" AddrsCols m (sq_tables db)
    ["Hash"; "Script"; "Type"] [0;1;2]%nat [] Hu eq_refl) as (rows & Hq & Hp).
  destruct (queryAll_run _ _ scanAddr addr_row db rows _ Hq Hp) as (us & Hr & Hus); [|by exists us].
  intros u Hin. apply scanAddr_row. by destruct (values_ok_elem ad_hash addr_ok _ u (holds_ok _ _ _ _ _ _ _ Hu) Hin).
Qed.
Lemma utxos_GetAddrAll_spec a db st : wdb st db →
  ∃ us, utxos_GetAddrAll a db = (Ok (us, None), db) ∧
    us ≡ₚ (map_to_list (filter (λ kv, u_Address kv.2 = a) (ws_utxos st))).*2.
Proof.
  intros Hw. pose proof (wr_utxos _ _ Hw) as Hu.
  destruct (query_where utxo_row u_Op utxo_ok "UTXOs" UTXOsCols (ws_utxos st) (sq_tables db) utxoCols [0;1;2;3;4]%nat
    "Address" 4 (VBlob (arr_bytes a)) [] (λ u, u_Address u = a) Hu eq_refl eq_refl) as (rows & Hq & Hp).
  { intros v _. by apply arr_cell. }
  destruct (queryAll_run _ _ scanUTXO utxo_row db rows _ Hq Hp) as (us & Hr & Hus); [|by exists us].
  intros u (k & [Hk _]%map_lookup_filter_Some)%map_values_elem. apply scanUTXO_row.
  by destruct (holds_ok _ _ _ _ _ _ _ Hu _ _ Hk).
Qed.
Lemma stxos_GetAddrAll_spec a db st : wdb st db →
  ∃ xs, stxos_GetAddrAll a db = (Ok (xs, None), db) ∧
    xs ≡ₚ (map_to_list (filter (λ kv, u_Address (s_UTXO kv.2) = a) (ws_stxos st))).*2.
Proof.
  intros Hw. pose proof (wr_stxos _ _ Hw) as Hu.
  destruct (query_where stxo_row s_Op stxo_ok "STXOs" STXOsCols (ws_stxos st) (sq_tables db) stxoCols [0;1;2;3;4;5;6]%nat
    "Address" 6 (VBlob (arr_bytes a)) [] (λ x, u_Address (s_UTXO x) = a) Hu eq_refl eq_refl) as (rows & Hq & Hp).
  { intros v _. by apply arr_cell. }
  destruct (queryAll_run _ _ scanSTXO stxo_row db rows _ Hq Hp) as (us & Hr & Hus); [|by exists us].
  intros u (k & [Hk _]%map_lookup_filter_Some)%map_values_elem. apply scanSTXO_row.
  by destruct (holds_ok _ _ _ _ _ _ _ Hu _ _ Hk).
Qed.
(** The transactions of a height; [math.MaxUint32] stands for every height. *)
Lemma txs_GetAllFrom_spec h db st : wdb st db →
  ∃ ts, sqlTxs_GetAllFrom h db = (Ok (ts, None), db) ∧
    ts ≡ₚ (map_to_list (filter (λ kv, h = MaxUint32 ∨ Tx_Height kv.2 = h) (ws_txs st))).*2.
Proof.
  intros Hw. pose proof (wr_txs _ _ Hw) as Ht. unfold sqlTxs_GetAllFrom.
  assert (Hall : ∀ ts, ts ⊆ (map_to_list (ws_txs st)).*2 → ∀ t, t ∈ ts → scanTx (tx_row t) = Ok t).
  { intros ts Hs t Hin%Hs. apply scanTx_row.
    by destruct (values_ok_elem Tx_Hash tx_ok _ t (holds_ok _ _ _ _ _ _ _ Ht) Hin). }
  destruct (Z.eqb_spec h MaxUint32) as [Hm|Hne].
  - destruct (query_all tx_row Tx_Hash tx_ok "Txs" TxsCols (ws_txs st) (sq_tables db)
      ["Hash"; "Height"; "Timestamp"; "RawData"] [0;1;2;3]%nat [VInt h] Ht eq_refl) as (rows & Hq & Hp).
    destruct (queryAll_run _ _ scanTx tx_row db rows _ Hq Hp) as (us & Hr & Hus); [by apply Hall|].
    exists us. split; [done|]. rewrite Hus. rewrite map_filter_id; [done|]. by left.
  - destruct (query_where tx_row Tx_Hash tx_ok "Txs" TxsCols (ws_txs st) (sq_tables db)
      ["Hash"; "Height"; "Timestamp"; "RawData"] [0;1;2;3]%nat "Height" 1 (VInt h) []
      (λ t, h = MaxUint32 ∨ Tx_Height t = h) Ht eq_refl eq_refl) as (rows & Hq & Hp).
    { intros v _. rewrite (int_cell h (Tx_Height v)) by done. tauto. }
    destruct (queryAll_run _ _ scanTx tx_row db rows _ Hq Hp) as (us & Hr & Hus); [|by exists us].
    apply Hall. intros t (k & [Hk _]%map_lookup_filter_Some)%map_values_elem. apply map_values_elem. by exists k.
Qed.

(** *** Deleting *)
Lemma utxos_Del_spec op db st : wdb st db → OutPoint_wf op →
  ∃ db', utxos_Del op db = (Ok (), db') ∧ wdb (set_utxos (filter (λ kv, u_Op kv.2 ≠ op) (ws_utxos st)) st) db'.
Proof.
  intros Hw Hop. destruct (exec_delete utxo_row u_Op utxo_ok "UTXOs" UTXOsCols (ws_utxos st) (sq_tables db) "OutPoint" 0
    (VBlob (OutPoint_Bytes op)) [] (λ u, u_Op u ≠ op) (wr_utxos _ _ Hw) eq_refl) as (tb & Hx & Hm).
  { intros v (Hv & _). unfold utxo_row. by rewrite op_cell. }
  destruct (dbExec_run _ _ _ _ Hx) as (db' & Hr & HT). exists db'. split; [done|].
  unfold wdb. rewrite HT. by apply wrep_set_utxos.
Qed.
Lemma stxos_Del_spec op db st : wdb st db → OutPoint_wf op →
  ∃ db', stxos_Del op db = (Ok (), db') ∧ wdb (set_stxos (filter (λ kv, s_Op kv.2 ≠ op) (ws_stxos st)) st) db'.
Proof.
  intros Hw Hop. destruct (exec_delete stxo_row s_Op stxo_ok "STXOs" STXOsCols (ws_stxos st) (sq_tables db) "OutPoint" 0
    (VBlob (OutPoint_Bytes op)) [] (λ u, s_Op u ≠ op) (wr_stxos _ _ Hw) eq_refl) as (tb & Hx & Hm).
  { intros v ((Hv & _) & _). unfold stxo_row. by rewrite op_cell. }
  destruct (dbExec_run _ _ _ _ Hx) as (db' & Hr & HT). exists db'. split; [done|].
  unfold wdb. rewrite HT. by apply wrep_set_stxos.
Qed.

(** *** Rolling a height back *)
Definition rolled (h : Z) (st : wstore) : wstore :=
  mkWS (ws_state st) (ws_addrs st)
    ((s_UTXO <$> filter (λ kv, s_SpendHeight kv.2 = h) (ws_stxos st)) ∪ filter (λ kv, u_AtHeight kv.2 ≠ h) (ws_utxos st))
    (filter (λ kv, s_SpendHeight kv.2 ≠ h) (ws_stxos st)) (ws_txs st) (ws_forks st).

Lemma rollbackOutputs_spec h db st : wdb st db →
  ∃ db', rollbackOutputs h db = (Ok (), db') ∧ wdb (rolled h st) db'.
Proof.
  intros Hw.
  destruct (exec_delete utxo_row u_Op utxo_ok "UTXOs" UTXOsCols (ws_utxos st) (sq_tables db) "AtHeight" 3
    (VInt h) [] (λ u, u_AtHeight u ≠ h) (wr_utxos _ _ Hw) eq_refl) as (tb1 & Hx1 & Hm1).
  { intros v _. by rewrite (int_cell h (u_AtHeight v)). }
  pose proof (wrep_set_utxos _ _ _ _ Hw Hm1) as Hw1.
  destruct (dbExec_run _ _ _ _ Hx1) as (db1 & Hr1 & HT1). rewrite <-HT1 in Hw1.
  destruct (exec_insert_select stxo_row s_Op stxo_ok utxo_row u_Op utxo_ok "STXOs" "UTXOs" STXOsCols UTXOsCols 0 eq_refl
    utxo_key s_UTXO (λ _, eq_refl) _ _ (sq_tables db1) utxoCols [0;1;2;3;6]%nat "SpendHeight" 5 (VInt h) []
    (λ x, s_SpendHeight x = h) (wr_stxos _ _ Hw1) (wr_utxos _ _ Hw1) eq_refl eq_refl eq_refl) as (tb2 & Hx2 & Hm2).
  { intros v _. by apply int_cell. }
  { by intros v [Hv _]. }
  pose proof (wrep_set_utxos _ _ _ _ Hw1 Hm2) as Hw2.
  destruct (dbExec_run _ _ _ _ Hx2) as (db2 & Hr2 & HT2). rewrite <-HT2 in Hw2.
  destruct (exec_delete stxo_row s_Op stxo_ok "STXOs" STXOsCols (ws_stxos st) (sq_tables db2) "SpendHeight" 5
    (VInt h) [] (λ x, s_SpendHeight x ≠ h) (wr_stxos _ _ Hw2) eq_refl) as (tb3 & Hx3 & Hm3).
  { intros v _. by rewrite (int_cell h (s_SpendHeight v)). }
  destruct (dbExec_run _ _ _ _ Hx3) as (db3 & Hr3 & HT3). exists db3. split.
  - unfold rollbackOutputs. by rewrite (bind_run _ _ _ _ _ Hr1), (bind_run _ _ _ _ _ Hr2).
  - unfold wdb. rewrite HT3. exact (wrep_set_stxos _ _ _ _ Hw2 Hm3).
Qed.
(** The table of the transactions is called Txs. *)
Lemma RollbackHeight_fails h db st : wdb st db → ∃ db', RollbackHeight h db = (Err (noTable "TXNs"), db').
Proof.
  intros Hw. destruct (rollbackOutputs_spec h db st Hw) as (db' & Hr & Hw'). exists db'.
  unfold RollbackHeight. rewrite (bind_run _ _ _ _ _ Hr). apply dbExec_err.
  unfold sql_exec, getTable. by rewrite (wr_TXNs _ _ Hw').
Qed.

(** *** Opening and clearing *)
Definition emptied (st : wstore) : wstore := mkWS ∅ (ws_addrs st) ∅ ∅ (ws_txs st) (ws_forks st).

(** The tables an SQL string creates when they are missing. *)
Fixpoint created (sts : list stmt) (T : tables) : tables :=
  match sts with
  | CreateTable t cols :: sts => created sts (match T !! t with Some _ => T | None => <[t := mkTable cols []]> T end)
  | _ => T
  end.
Lemma dbExecs_create sts T db : sq_tables db = T → Forall (λ q, ∃ t cols, q = CreateTable t cols) sts →
  ∃ db', dbExecs sts db = (Ok (), db') ∧ sq_tables db' = created sts T.
Proof.
  revert T db. induction sts as [|q sts IH]; intros T db HT Hc; [by exists db|].
  apply Forall_cons in Hc as ((t & cols & ->) & Hc).
  destruct (dbExec_run (CreateTable t cols) [] db _ eq_refl) as (db1 & Hr & HT1).
  destruct (IH _ db1 HT1 Hc) as (db' & Hr' & HT'). exists db'. split.
  - unfold dbExecs. cbn [forM]. rewrite (bind_run _ _ _ _ _ Hr). exact Hr'.
  - rewrite HT', HT. done.
Qed.
Definition allTables : list stmt := CreateStateDB ++ CreateAddrsDB ++ CreateUTXOsDB ++ CreateSTXOsDB ++ CreateTxsDB.
Lemma NewDatabase_run db : ∃ db', NewDatabase db = (Ok (), db') ∧ sq_tables db' = created allTables (sq_tables db).
Proof.
  destruct (dbExecs_create CreateStateDB _ db eq_refl) as (d1 & R1 & T1); [repeat constructor; by eexists _, _|].
  destruct (dbExecs_create CreateAddrsDB _ d1 T1) as (d2 & R2 & T2); [repeat constructor; by eexists _, _|].
  destruct (dbExecs_create CreateUTXOsDB _ d2 T2) as (d3 & R3 & T3); [repeat constructor; by eexists _, _|].
  destruct (dbExecs_create CreateSTXOsDB _ d3 T3) as (d4 & R4 & T4); [repeat constructor; by eexists _, _|].
  destruct (dbExecs_create CreateTxsDB _ d4 T4) as (d5 & R5 & T5); [repeat constructor; by eexists _, _|].
  exists d5. split; [|exact T5]. unfold NewDatabase, NewState, sqlNewAddrs, NewUTXOs, NewSTXOs, NewTxs.
  rewrite (bind_run _ _ _ _ _ R1), (bind_run _ _ _ _ _ R2), (bind_run _ _ _ _ _ R3), (bind_run _ _ _ _ _ R4). exact R5.
Qed.
Fixpoint new_table (sts : list stmt) (n : string) : option table :=
  match sts with
  | CreateTable t cols :: sts => if decide (t = n) then Some (mkTable cols []) else new_table sts n
  | _ => None
  end.
Lemma created_lookup sts T n : created sts T !! n = match T !! n with Some tb => Some tb | None => new_table sts n end.
Proof.
  revert T. induction sts as [|[t cols| | | |] sts IH]; intros T; cbn; try by destruct (T !! n).
  rewrite IH. destruct (T !! t) as [tb|] eqn:Ht.
  - destruct (T !! n) as [tb'|] eqn:Hn; [done|]. rewrite decide_False; [done|]. intros ->. congruence.
  - destruct (decide (t = n)) as [->|Hne]; [by rewrite lookup_insert_eq, Ht|by rewrite lookup_insert_ne].
Qed.

(** A table that is there is kept, one that is missing is made empty. *)
Definition holds_or_missing {K V} `{Countable K} enc key ok name cols (m : gmap K V) (T : tables) : Prop :=
  holds enc key ok name cols m T ∨ (m = ∅ ∧ T !! name = None).
Lemma created_holds {K V} `{Countable K} (enc : V → row) (key : V → K) ok name cols m T :
  new_table allTables name = Some (mkTable cols []) → holds_or_missing enc key ok name cols m T →
  holds enc key ok name cols m (created allTables T).
Proof.
  intros Hn [(rows & HT & Hr)|[-> HT]].
  - exists rows. by rewrite created_lookup, HT.
  - exists []. rewrite created_lookup, HT. split; [done|]. apply represents_empty.
Qed.

Lemma NewDatabase_spec db st :
  holds_or_missing state_row fst state_ok "State" StateCols (ws_state st) (sq_tables db) →
  holds_or_missing addr_row ad_hash addr_ok "Addrs" AddrsCols (ws_addrs st) (sq_tables db) →
  holds_or_missing utxo_row u_Op utxo_ok "UTXOs" UTXOsCols (ws_utxos st) (sq_tables db) →
  holds_or_missing stxo_row s_Op stxo_ok "STXOs" STXOsCols (ws_stxos st) (sq_tables db) →
  holds_or_missing tx_row Tx_Hash tx_ok "Txs" TxsCols (ws_txs st) (sq_tables db) →
  holds_or_missing fork_row fst fork_ok "ForkTxs" ForkTxsCols (ws_forks st) (sq_tables db) →
  sq_tables db !! "TXNs" = None →
  ∃ db', NewDatabase db = (Ok (), db') ∧ wdb st db'.
Proof.
  intros HS HA HU HX HT HF HN. destruct (NewDatabase_run db) as (db' & Hr & HTs). exists db'. split; [done|].
  unfold wdb. rewrite HTs. split; try by apply created_holds. by rewrite created_lookup, HN.
Qed.
Lemma NewDatabase_again db st : wdb st db → ∃ db', NewDatabase db = (Ok (), db') ∧ wdb st db'.
Proof. intros []. apply NewDatabase_spec; first [by left | done]. Qed.

(** [Clear] leaves no table of outputs, and keeps the transactions. *)
Lemma Clear_run db st : wdb st db →
  ∃ db', sqlDatabase_Clear db = (Ok (), db') ∧
    sq_tables db' = delete "STXOs" (delete "UTXOs" (delete "State" (sq_tables db))).
Proof.
  intros Hw. unfold sqlDatabase_Clear, inTx, dbExecs. cbn [forM].
  destruct (dbExec_run (DropTable "State") [] db _ eq_refl) as (d1 & R1 & T1).
  destruct (dbExec_run (DropTable "UTXOs") [] d1 _ eq_refl) as (d2 & R2 & T2).
  destruct (dbExec_run (DropTable "STXOs") [] d2 _ eq_refl) as (d3 & R3 & T3).
  destruct (dbExec_run (DropTable "TXNs") [] d3 _ eq_refl) as (d4 & R4 & T4).
  exists d4. rewrite (bind_run _ _ _ _ _ R1), (bind_run _ _ _ _ _ R2), (bind_run _ _ _ _ _ R3), (bind_run _ _ _ _ _ R4).
  split; [done|]. rewrite T4, T3, T2, T1. apply delete_id.
  rewrite !lookup_delete_ne by done. apply (wr_TXNs _ _ Hw).
Qed.
Lemma Clear_reopen db st : wdb st db →
  ∃ db1 db2, sqlDatabase_Clear db = (Ok (), db1) ∧ NewDatabase db1 = (Ok (), db2) ∧ wdb (emptied st) db2.
Proof.
  intros Hw. destruct (Clear_run db st Hw) as (db1 & Hr & HT). exists db1.
  destruct (NewDatabase_spec db1 (emptied st)) as (db2 & Hr2 & Hw2); [..|by exists db2]; rewrite HT.
  1,3,4: right; split; [done|]; by rewrite ?lookup_delete_eq, ?lookup_delete_ne, ?lookup_delete_eq by done.
  all: try (left; destruct Hw as [_ (ra & Ha & Ra) _ _ (rt & Ht & Rt) (rf & Hf & Rf) _];
    eexists; rewrite !lookup_delete_ne by done; by split).
  rewrite !lookup_delete_ne by done. apply (wr_TXNs _ _ Hw).
Qed.
End ops.
