(* ===== verification/Wallet.v ===== *)
(** * The wallet service

    [spvwallet.go]: the transaction database of the wallet's chain over the
    SQLite store, its bloom filter and its RPC calls.  [spvwallet] is the
    [database.TxsDB] of [chainDB] and the state notifier of the SDK. *)
From Stdlib Require Import Floats.SpecFloat.
From S2P Require Export WalletStore SpvService Chain.
#[local] Open Scope Z_scope.

(** Calls of the embedded [sdk.IService]. *)
Inductive serviceCall (T : Type) := CallUpdateFilter | CallSendTransaction (tx : T).
Arguments CallUpdateFilter {T}.
Arguments CallSendTransaction {T}.

(** What [SendTransaction] answers, and [filter.FTNexTTurnDPOSInfo]. *)
Class WalletLib (T : Type) := {
  IService_SendTransaction : T → outcome unit;
  FTNexTTurnDPOSInfo : byte;
}.

Record spvwallet (DB T : Type) := mkWallet {
  w_db : DB;
  w_filter : option AddrFilter;            (* nil until first used *)
  w_IsCurrent : bool;                      (* what IService.IsCurrent() answers *)
  w_now : Z;                               (* the clock, in seconds *)
  w_calls : list (serviceCall T);          (* calls of the service, oldest first *)
}.
Arguments mkWallet {DB T}.
Arguments w_db {DB T}.
Arguments w_filter {DB T}.
Arguments w_IsCurrent {DB T}.
Arguments w_now {DB T}.
Arguments w_calls {DB T}.

Definition ErrInvalidParameter : goerr := ErrVar "ErrInvalidParameter".

(** [hex.DecodeString] *)
Definition fromHexChar (c : byte) : option Z :=
  let z := Z_of_byte c in
  if (48 <=? z) && (z <=? 57) then Some (z - 48)
  else if (97 <=? z) && (z <=? 102) then Some (z - 87)
  else if (65 <=? z) && (z <=? 70) then Some (z - 55)
  else None.
Fixpoint hex_DecodeString (s : bytes) : outcome bytes :=
  match s with
  | [] => Ok []
  | [c] => match fromHexChar c with Some _ => Err (ErrVar "hex.ErrLength") | None => Err (ErrStr "encoding/hex: invalid byte") end
  | a :: b :: s =>
      match fromHexChar a, fromHexChar b with
      | Some x, Some y => rest ← hex_DecodeString s; Ok (byte_of_Z (x * 16 + y) :: rest)
      | _, _ => Err (ErrStr "encoding/hex: invalid byte")
      end
  end.

Section wallet.
Context {DB T : Type} `{!SQLite DB} `{E : ElaCommon} `{!Uint168Bytes} `{!Uint256Bytes} `{!Fixed64Bytes} `{!MapOrder}.
Context `{!ElaTransaction T} `{!TxReader T} `{!ListenerLib} `{!WalletLib T}.
Notation W := (spvwallet DB T).

Definition set_wdb (db : DB) (w : W) : W := mkWallet db (w_filter w) (w_IsCurrent w) (w_now w) (w_calls w).
Definition set_wfilter (f : option AddrFilter) (w : W) : W :=
  mkWallet (w_db w) f (w_IsCurrent w) (w_now w) (w_calls w).
Definition onDB {A} (m : GoM DB A) : GoM W A := zoom w_db set_wdb m.
Definition call (c : serviceCall T) : GoM W unit :=
  modify (λ w, mkWallet (w_db w) (w_filter w) (w_IsCurrent w) (w_now w) (w_calls w ++ [c])).

(** The errors of [GetAll] are dropped. *)
Definition loadAddrFilter : GoM W AddrFilter :=
  addrs ← onDB sqlAddrs_GetAll;
  let filter := foldl (λ f addr, AddrFilter_AddAddr (ad_hash addr) f) (NewAddrFilter []) addrs.1 in
  modify (set_wfilter (Some filter)) ≫= λ _,
  mret filter.
Definition getAddrFilter : GoM W AddrFilter :=
  w ← getS;
  match w_filter w with Some filter => mret filter | None => loadAddrFilter end.

(** ** [putTx]

    The state of a call under a batch: the wallet, and the transaction of the
    batch, which the reads of the wallet do not see. *)
Definition onW {A} (m : GoM W A) : GoM (W * DB) A := zoom fst (λ w s, (w, s.2)) m.
Definition onBatch {A} (m : GoM DB A) : GoM (W * DB) A := zoom snd (λ tx s, (s.1, tx)) m.

(** The loop over the inputs; [None]: [putTx] has returned [false, nil]. *)
Fixpoint putInputs (txId : Uint256) (height : Z) (inputs : list (Uint256 * Z)) (hits : Z) :
    GoM (W * DB) (option Z) :=
  match inputs with
  | [] => mret (Some hits)
  | (prevTxID, prevIndex) :: inputs =>
      let op := NewOutPoint prevTxID prevIndex in
      utxo ← try (onW (onDB (utxos_Get op)));
      match utxo with
      | inl _ => putInputs txId height inputs hits
      | inr utxo =>
          err ← try (onBatch (stxosBatch_Put (NewSTXO utxo height txId)));
          match err with
          | inl _ => mret None
          | inr _ => putInputs txId height inputs (hits + 1)
          end
      end
  end.

Fixpoint putOutputs (tx : T) (height index : Z) (outputs : list Output) (hits : Z) : GoM (W * DB) Z :=
  match outputs with
  | [] => mret hits
  | output :: outputs =>
      filter ← onW getAddrFilter;
      if AddrFilter_ContainAddr (ProgramHash output) filter then
        let lockTime := if decide (etx_TxType tx = CoinBase) then u32 (height + 100) else OutputLock output in
        let utxo := NewUTXO (etx_Hash tx) height index (OutValue output) lockTime (ProgramHash output) in
        onBatch (utxosBatch_Put utxo) ≫= λ _,
        putOutputs tx height (index + 1) outputs (hits + 1)
      else putOutputs tx height (index + 1) outputs hits
  end.

(** The answer: is it a false positive? *)
Definition wallet_putTx (tx : T) (height : Z) : GoM (W * DB) bool :=
  let txId := etx_Hash tx in
  hits ← putInputs txId height (etx_Inputs tx) 0;
  match hits with
  | None => mret false
  | Some hits =>
      hits ← putOutputs tx height 0 (etx_Outputs tx) hits;
      if hits =? 0 then mret true
      else
        w ← onW getS;
        onBatch (txsBatchSql_Put (NewTx (w_now w) tx height)) ≫= λ _,
        mret false
  end.

Fixpoint putLoop (txs : list T) (height fps : Z) : GoM (W * DB) Z :=
  match txs with
  | [] => mret fps
  | tx :: txs =>
      fp ← wallet_putTx tx height;
      putLoop txs height (if (fp : bool) then u32 (fps + 1) else fps)
  end.

(** [batch := w.db.Batch(); defer batch.Rollback()]: the transaction is a copy
    of the database, kept when the call ends with [batch.Commit()]. *)
Definition wallet_withBatch {A} (m : GoM (W * DB) A) : GoM W A := λ w,
  match m (w, w_db w) with
  | (Ok a, (w, tx)) => (Ok a, set_wdb tx w)
  | (Err e, (w, _)) => (Err e, w)
  | (Panic, (w, _)) => (Panic, w)
  end.

Definition wallet_PutTxs (txs : list T) (height : Z) : GoM W Z := wallet_withBatch (putLoop txs height 0).
Definition wallet_PutForkTxs (txs : list T) (hash : Uint256) : GoM W unit :=
  w ← getS;
  let ftxs := (λ tx, NewTx (w_now w) tx 0) <$> txs in
  onDB (sqlTxs_PutForkTxs ftxs hash).
(** An error of [Get] comes with a nil transaction. *)
Definition wallet_HaveTx (txId : Uint256) : GoM W bool := _ ← onDB (sqlTxs_Get txId); mret true.

(** [newTransaction] and [Deserialize]: the error of the first is dropped, and
    the second panics on a nil transaction. *)
Definition wallet_newTransaction (raw : bytes) : outcome T :=
  match GetTransactionByBytes raw with
  | (Ok tx, r) => (tx_Deserialize tx r).1
  | _ => Panic
  end.
Fixpoint wallet_readTxs (txs : list Tx) : outcome (list T) :=
  match txs with
  | [] => Ok []
  | tx :: txs => wtx ← wallet_newTransaction (RawData tx); utxs ← wallet_readTxs txs; Ok (wtx :: utxs)
  end.
Definition wallet_GetTxs (height : Z) : GoM W (list T) :=
  txs ← checkErr (onDB (sqlTxs_GetAllFrom height));
  lift (wallet_readTxs txs).
Definition wallet_GetForkTxs (hash : Uint256) : GoM W (list T) :=
  ftxs ← onDB (sqlTxs_GetForkTxs hash);
  lift (wallet_readTxs ftxs).
Definition wallet_DelTxs (height : Z) : GoM W unit := wallet_withBatch (onBatch (RollbackHeight height)).
Definition wallet_Clear : GoM W unit := onDB sqlDatabase_Clear.
Definition wallet_Close : GoM W unit := mret ().

#[export] Instance spvwallet_TxsDB : TxsDB W T := {
  tdPutTxs := wallet_PutTxs;
  tdPutForkTxs := wallet_PutForkTxs;
  tdHaveTx := wallet_HaveTx;
  tdGetTxs := wallet_GetTxs;
  tdGetForkTxs := wallet_GetForkTxs;
  tdDelTxs := wallet_DelTxs;
  tdClear := wallet_Clear;
  tdClose := wallet_Close;
}.

(** ** The filter *)
Definition wallet_GetFilter `{!GoFloat} `{!FilterSerialize} : GoM W TxFilterLoad :=
  utxos ← onDB utxos_GetAll;
  stxos ← onDB stxos_GetAll;
  let outpoints := (u_Op <$> utxos.1) ++ ((λ x, u_Op (s_UTXO x)) <$> stxos.1) in
  filter ← getAddrFilter;
  let addrs := AddrFilter_GetAddrs filter in
  let elements := u32 (Z.of_nat (length addrs + length outpoints)) in
  let f := NewFilter elements 0 (S754_zero false) [] in
  let '(o, f) := (forM addrs (λ addr, Bloom.Add (arr_bytes addr)) ≫= λ _,
                  forM outpoints (λ op, Bloom.Add (OutPoint_Bytes op))) f in
  lift o ≫= λ _,
  lift (ToTxFilterMsg f FTNexTTurnDPOSInfo).

Definition NotifyNewAddress (hash : bytes) : GoM W unit :=
  loadAddrFilter ≫= λ _, call CallUpdateFilter.

(** ** Callbacks and RPC *)
Definition wallet_BlockCommitted {H} (block : Block H T) : GoM W unit :=
  w ← getS;
  if negb (w_IsCurrent w) then mret () else onDB (state_PutHeight (Height (BlockHdr block))).

(** [addrStr]: what [params.String("addr")] answers. *)
Definition rpc_notifyNewAddress (addrStr : option bytes) : GoM W unit :=
  match addrStr with
  | None => throw ErrInvalidParameter
  | Some addrStr =>
      match Uint168FromAddress addrStr with
      | None => throw (ErrStr "Uint168FromAddress")
      | Some _ => loadAddrFilter ≫= λ _, call CallUpdateFilter
      end
  end.
Definition rpc_sendTransaction (data : option bytes) : GoM W unit :=
  match data with
  | None => throw ErrInvalidParameter
  | Some data =>
      match hex_DecodeString data with
      | Ok txBytes =>
          tx ← mapErr (Errorf "deserialize transaction failed ") (lift (wallet_newTransaction txBytes));
          call (CallSendTransaction tx) ≫= λ _,
          lift (IService_SendTransaction tx)
      | _ => throw ErrInvalidParameter
      end
  end.
End wallet.
