(* ===== verification/WalletSpec.v ===== *)
(** * What the wallet records

    [recorded] is what a transaction adds to the tables of the wallet; [PutTxs]
    records the transactions of a block, read against the outputs stored before
    the block.  The other theorems follow from it: what stays after a spend,
    the rollback, the transactions given back. *)
From S2P Require Export Wallet WalletStoreSpec.
#[local] Open Scope Z_scope.

Section spec.
Context {DB T : Type} `{!SQLite DB} `{!SQLiteLaws DB} `{E : ElaCommon} `{!ElaCommonLaws E}.
Context `{!Uint168Bytes} `{!Uint168BytesLaws} `{!Uint256Bytes} `{!Uint256BytesLaws} `{!Fixed64Bytes} `{!Fixed64BytesLaws} `{!MapOrder}.
Context `{!ElaTransaction T} `{!TxReader T} `{!ListenerLib} `{!WalletLib T}.
Notation W := (spvwallet DB T).
Implicit Types (w : W) (st : wstore) (tx : T) (db : DB).

(** ** The addresses the wallet looks for *)
Definition filterOf st w : AddrFilter := default (ad_hash <$> ws_addrs st) (w_filter w).

(** Two states of the wallet that differ at most by the filter being loaded. *)
Record same_wallet st w w' : Prop := {
  sw_db : w_db w' = w_db w;
  sw_now : w_now w' = w_now w;
  sw_current : w_IsCurrent w' = w_IsCurrent w;
  sw_calls : w_calls w' = w_calls w;
  sw_filter : filterOf st w' = filterOf st w;
}.
Lemma same_refl st w : same_wallet st w w.
Proof. done. Qed.
Lemma same_trans st w1 w2 w3 : same_wallet st w1 w2 → same_wallet st w2 w3 → same_wallet st w1 w3.
Proof. intros [] []. split; congruence. Qed.

Lemma load_lookup (l : list Addr) (f : AddrFilter) h :
  foldl (λ f addr, AddrFilter_AddAddr (ad_hash addr) f) f l !! h = if decide (h ∈ ad_hash <$> l) then Some h else f !! h.
Proof.
  revert f. induction l as [|a l IH]; intros f; [done|]. cbn [foldl fmap list_fmap].
  rewrite IH. unfold AddrFilter_AddAddr. destruct (decide (h ∈ ad_hash <$> l)) as [Hin|Hnin].
  - rewrite decide_True; [done|]. by right.
  - destruct (decide (h = ad_hash a)) as [->|Hne].
    + by rewrite lookup_insert_eq, decide_True by left.
    + rewrite lookup_insert_ne, decide_False; [done| |done]. by intros [->|?]%elem_of_cons.
Qed.
Lemma loadAddrFilter_spec w st : holdsAddrs (ws_addrs st) (sq_tables (w_db w)) →
  loadAddrFilter w = (Ok (ad_hash <$> ws_addrs st), set_wfilter (Some (ad_hash <$> ws_addrs st)) w).
Proof.
  intros Hw. destruct (addrs_GetAll_spec _ _ Hw) as (l & Hl & Hp). unfold loadAddrFilter, onDB.
  rewrite (bind_run _ _ _ _ _ (zoom_run _ _ _ _ _ _ Hl)). cbn [fst].
  assert (Hf : foldl (λ f addr, AddrFilter_AddAddr (ad_hash addr) f) (NewAddrFilter []) l = ad_hash <$> ws_addrs st).
  { apply map_eq. intros h. rewrite load_lookup, lookup_fmap. change (NewAddrFilter [] !! h) with (@None Uint168).
    pose proof (holds_ok _ _ _ _ _ _ _ Hw) as Ho. case_decide as Hin.
    - rewrite Hp in Hin. apply list_elem_of_fmap in Hin as (a & -> & Hin).
      destruct (values_ok_elem ad_hash addr_ok _ a Ho Hin) as [-> _]. done.
    - destruct (ws_addrs st !! h) as [a|] eqn:Ha; [|done]. exfalso. apply Hin. rewrite Hp.
      destruct (Ho _ _ Ha) as [<- _]. apply list_elem_of_fmap_2, map_values_elem. by exists (ad_hash a). }
  rewrite Hf. by destruct w.
Qed.
Lemma getAddrFilter_spec w st : holdsAddrs (ws_addrs st) (sq_tables (w_db w)) →
  ∃ w', getAddrFilter w = (Ok (filterOf st w), w') ∧ same_wallet st w w'.
Proof.
  intros Hw. unfold getAddrFilter. rewrite (bind_run getS _ w w w eq_refl). unfold filterOf.
  destruct (w_filter w) as [f|] eqn:Hf; cbn [default].
  - exists w. done.
  - exists (set_wfilter (Some (ad_hash <$> ws_addrs st)) w). rewrite (loadAddrFilter_spec w st Hw). split; [done|].
    split; try done. unfold filterOf. by rewrite Hf.
Qed.

(** ** What a transaction adds *)
Definition raw_of tx : bytes := (SerializeTx tx []).2.

(** Its inputs among the outputs [st0] holds. *)
Definition spentBy st0 (txId : Uint256) (height : Z) (inputs : list (Uint256 * Z)) : list STXO :=
  omap (λ i, u ← ws_utxos st0 !! NewOutPoint i.1 i.2; Some (NewSTXO u height txId)) inputs.
(** Its outputs to the addresses of [f]. *)
Fixpoint paidTo (f : AddrFilter) tx (height index : Z) (outputs : list Output) : list UTXO :=
  match outputs with
  | [] => []
  | o :: outputs =>
      (if AddrFilter_ContainAddr (ProgramHash o) f
       then [NewUTXO (etx_Hash tx) height index (OutValue o)
               (if decide (etx_TxType tx = CoinBase) then u32 (height + 100) else OutputLock o) (ProgramHash o)]
       else []) ++ paidTo f tx height (index + 1) outputs
  end.
Definition put_stxos (xs : list STXO) (m : gmap OutPoint STXO) : gmap OutPoint STXO :=
  foldl (λ m x, <[s_Op x := x]> m) m xs.
Definition put_utxos (us : list UTXO) (m : gmap OutPoint UTXO) : gmap OutPoint UTXO :=
  foldl (λ m u, <[u_Op u := u]> m) m us.

(** Does the transaction concern the wallet? *)
Definition hit st0 (f : AddrFilter) tx : Prop :=
  spentBy st0 (etx_Hash tx) 0 (etx_Inputs tx) ≠ [] ∨ ∃ o, o ∈ etx_Outputs tx ∧ AddrFilter_ContainAddr (ProgramHash o) f = true.
Definition hitb st0 (f : AddrFilter) (height : Z) tx : bool :=
  negb (bool_decide (spentBy st0 (etx_Hash tx) height (etx_Inputs tx) = [] ∧ paidTo f tx height 0 (etx_Outputs tx) = [])).
Definition recorded st0 (f : AddrFilter) (now height : Z) st tx : wstore :=
  if hitb st0 f height tx then
    mkWS (ws_state st) (ws_addrs st) (put_utxos (paidTo f tx height 0 (etx_Outputs tx)) (ws_utxos st))
      (put_stxos (spentBy st0 (etx_Hash tx) height (etx_Inputs tx)) (ws_stxos st))
      (<[etx_Hash tx := mkTx (etx_Hash tx) height now (raw_of tx)]> (ws_txs st)) (ws_forks st)
  else st.

(** What the Go types allow, and a serialization that can be stored. *)
Record good_tx tx : Prop := {
  gt_out : ∀ o, o ∈ etx_Outputs tx → fits64s (OutValue o) ∧ fits 32 (OutputLock o);
  gt_in : ∀ i, i ∈ etx_Inputs tx → fits 16 i.2;
  gt_raw : raw_of tx ≠ [];
}.

(** ** The loops of [putTx] *)
Lemma putInputs_spec txId h ins : ∀ hits w bt st0 st, fits 32 h → (∀ i, i ∈ ins → fits 16 i.2) →
  wdb st0 (w_db w) → wdb st bt →
  ∃ bt', putInputs txId h ins hits (w, bt) = (Ok (Some (hits + Z.of_nat (length (spentBy st0 txId h ins)))), (w, bt')) ∧
    wdb (set_stxos (put_stxos (spentBy st0 txId h ins) (ws_stxos st)) st) bt'.
Proof.
  induction ins as [|[t i] ins IH]; intros hits w bt st0 st Hh Hins Hw0 Hw.
  { exists bt. cbn. rewrite Z.add_0_r. split; [done|]. by destruct st. }
  cbn [putInputs]. assert (Hop : OutPoint_wf (NewOutPoint t i)) by apply (Hins (t, i) ltac:(left)).
  assert (Hins' : ∀ j, j ∈ ins → fits 16 j.2) by (intros j Hj; apply Hins; by right).
  pose proof (utxos_Get_spec _ _ _ Hw0 Hop) as Hg. unfold spentBy. cbn [omap list_omap fst snd].
  destruct (ws_utxos st0 !! NewOutPoint t i) as [u|] eqn:Hu; cbn [mbind option_bind].
  - assert (Hrun : try (onW (onDB (utxos_Get (NewOutPoint t i)))) (w, bt) = (Ok (inr u), (w, bt))).
    { apply try_run. unfold onW, onDB, zoom. cbn. rewrite Hg. by destruct w. }
    rewrite (bind_run _ _ _ _ _ Hrun).
    destruct (holds_ok _ _ _ _ _ _ _ (wr_utxos _ _ Hw0) _ _ Hu) as [_ Hok].
    destruct (stxos_Put_spec (NewSTXO u h txId) bt st Hw) as (bt1 & Hp & Hw1); [by split|].
    assert (Hput : try (onBatch (stxosBatch_Put (NewSTXO u h txId))) (w, bt) = (Ok (inr ()), (w, bt1))).
    { apply try_run. unfold onBatch, zoom. cbn [snd]. change (stxosBatch_Put (NewSTXO u h txId)) with (stxos_Put (NewSTXO u h txId)).
      by rewrite Hp. }
    rewrite (bind_run _ _ _ _ _ Hput).
    destruct (IH (hits + 1) w bt1 st0 _ Hh Hins' Hw0 Hw1) as (bt' & Hr & Hw'). exists bt'. split.
    + rewrite Hr. cbn [length]. do 3 f_equal. fold (spentBy st0 txId h ins). lia.
    + exact Hw'.
  - assert (Hrun : try (onW (onDB (utxos_Get (NewOutPoint t i)))) (w, bt) = (Ok (inl ErrNoRows), (w, bt))).
    { apply try_run_err. unfold onW, onDB, zoom. cbn. rewrite Hg. by destruct w. }
    rewrite (bind_run _ _ _ _ _ Hrun). exact (IH hits w bt st0 st Hh Hins' Hw0 Hw).
Qed.

Lemma paidTo_ok f tx h i outs u : (∀ o, o ∈ outs → fits64s (OutValue o) ∧ fits 32 (OutputLock o)) → fits 32 h →
  u ∈ paidTo f tx h i outs → utxo_ok u.
Proof.
  intros Ho Hh. revert i. induction outs as [|o outs IH]; intros i; [by intros ?%not_elem_of_nil|].
  cbn [paidTo]. destruct (Ho o ltac:(left)) as [Hv Hl]. rewrite elem_of_app. intros [Hin|Hin].
  - destruct (AddrFilter_ContainAddr (ProgramHash o) f); [|by apply not_elem_of_nil in Hin].
    apply list_elem_of_singleton in Hin as ->. split_and!; cbn; [apply u16_fits|done| |done].
    case_decide; [apply u32_fits|done].
  - eapply IH; [|done]. intros o' Ho'. apply Ho. by right.
Qed.

Lemma putOutputs_spec t h outs : ∀ i hits w bt st0 st, fits 32 h →
  (∀ o, o ∈ outs → fits64s (OutValue o) ∧ fits 32 (OutputLock o)) → wdb st0 (w_db w) → wdb st bt →
  let us := paidTo (filterOf st0 w) t h i outs in
  ∃ w' bt', putOutputs t h i outs hits (w, bt) = (Ok (hits + Z.of_nat (length us)), (w', bt')) ∧
    same_wallet st0 w w' ∧ wdb (set_utxos (put_utxos us (ws_utxos st)) st) bt'.
Proof.
  induction outs as [|o outs IH]; intros i hits w bt st0 st Hh Hout Hw0 Hw; cbn zeta.
  { exists w, bt. cbn. rewrite Z.add_0_r. split_and!; [done|apply same_refl|by destruct st]. }
  cbn [putOutputs]. assert (Hout' : ∀ o', o' ∈ outs → fits64s (OutValue o') ∧ fits 32 (OutputLock o')).
  { intros o' Ho'. apply Hout. by right. }
  destruct (getAddrFilter_spec w st0 (wr_addrs _ _ Hw0)) as (w1 & Hg & Hs1).
  assert (Hrun : onW getAddrFilter (w, bt) = (Ok (filterOf st0 w), (w1, bt))).
  { unfold onW, zoom. cbn [fst]. by rewrite Hg. }
  rewrite (bind_run _ _ _ _ _ Hrun). assert (Hw1 : wdb st0 (w_db w1)) by (by rewrite (sw_db _ _ _ Hs1)).
  rewrite <-(sw_filter _ _ _ Hs1). cbn [paidTo].
  destruct (AddrFilter_ContainAddr (ProgramHash o) (filterOf st0 w1)) eqn:Hc.
  - cbv zeta. set (u := NewUTXO _ _ _ _ _ _).
    assert (Hu : utxo_ok u).
    { eapply (paidTo_ok (filterOf st0 w1) t h i [o]); [|exact Hh|cbn; rewrite Hc; left].
      intros o' ->%list_elem_of_singleton. apply Hout. left. }
    destruct (utxos_Put_spec u bt st Hw Hu) as (bt1 & Hp & Hwt1).
    assert (Hput : onBatch (utxosBatch_Put u) (w1, bt) = (Ok (), (w1, bt1))).
    { unfold onBatch, zoom. cbn [snd]. change (utxosBatch_Put u) with (utxos_Put u). by rewrite Hp. }
    rewrite (bind_run _ _ _ _ _ Hput).
    destruct (IH (i + 1) (hits + 1) w1 bt1 st0 _ Hh Hout' Hw1 Hwt1) as (w' & bt' & Hr & Hs & Hw').
    exists w', bt'. split_and!; [|by eapply same_trans|exact Hw']. rewrite Hr. do 2 f_equal. cbn [app length]. lia.
  - destruct (IH (i + 1) hits w1 bt st0 st Hh Hout' Hw1 Hw) as (w' & bt' & Hr & Hs & Hw').
    exists w', bt'. split_and!; [exact Hr|by eapply same_trans|exact Hw'].
Qed.

(** ** [putTx] and [PutTxs] *)
Lemma putTx_spec tx h w bt st0 st : fits 32 h → fits64s (w_now w) → good_tx tx → wdb st0 (w_db w) → wdb st bt →
  ∃ w' bt', wallet_putTx tx h (w, bt) = (Ok (negb (hitb st0 (filterOf st0 w) h tx)), (w', bt')) ∧
    same_wallet st0 w w' ∧ wdb (recorded st0 (filterOf st0 w) (w_now w) h st tx) bt'.
Proof.
  intros Hh Hn Hg Hw0 Hw. unfold wallet_putTx. cbv zeta.
  destruct (putInputs_spec (etx_Hash tx) h (etx_Inputs tx) 0 w bt st0 st Hh (gt_in _ Hg) Hw0 Hw) as (bt1 & R1 & W1).
  rewrite (bind_run _ _ _ _ _ R1). set (xs := spentBy _ _ _ _) in *. rewrite Z.add_0_l.
  destruct (putOutputs_spec tx h (etx_Outputs tx) 0 (Z.of_nat (length xs)) w bt1 st0 _ Hh (gt_out _ Hg) Hw0 W1)
    as (w' & bt2 & R2 & Hs & W2).
  rewrite (bind_run _ _ _ _ _ R2). set (us := paidTo _ _ _ _ _) in *.
  unfold recorded. assert (Hhit : hitb st0 (filterOf st0 w) h tx = negb (Z.of_nat (length xs) + Z.of_nat (length us) =? 0)).
  { unfold hitb. fold xs us. f_equal. destruct (Z.eqb_spec (Z.of_nat (length xs) + Z.of_nat (length us)) 0) as [He|Hne].
    - apply bool_decide_eq_true. split; apply length_zero_iff_nil; lia.
    - apply bool_decide_eq_false. intros [Hx Hu]. rewrite Hx, Hu in Hne. done. }
  rewrite Hhit. destruct (Z.eqb_spec (Z.of_nat (length xs) + Z.of_nat (length us)) 0) as [He|Hne]; cbn [negb].
  - exists w', bt2. split_and!; [done|done|].
    assert (Hxs : xs = []) by (apply length_zero_iff_nil; lia). assert (Hus : us = []) by (apply length_zero_iff_nil; lia).
    rewrite Hxs, Hus in W2. by destruct st.
  - rewrite (bind_run (onW getS) _ (w', bt2) w' (w', bt2) eq_refl). rewrite (sw_now _ _ _ Hs).
    destruct (txs_Put_spec_ (NewTx (w_now w) tx h) bt2 _ W2) as (bt3 & R3 & W3).
    { split_and!; [done|done|]. exact (gt_raw _ Hg). }
    assert (Hput : onBatch (txsBatchSql_Put (NewTx (w_now w) tx h)) (w', bt2) = (Ok (), (w', bt3))).
    { unfold onBatch, zoom. cbn [snd]. change (txsBatchSql_Put (NewTx (w_now w) tx h)) with (sqlTxs_Put (NewTx (w_now w) tx h)).
      by rewrite R3. }
    rewrite (bind_run _ _ _ _ _ Hput). exists w', bt3. by split_and!.
Qed.

(** The false positives of a block. *)
Definition misses st0 f h (txs : list T) : nat := length (filter (λ tx, hitb st0 f h tx = false) txs).

Lemma putLoop_spec txs h : ∀ fps w bt st0 st, fits 32 h → fits64s (w_now w) → (∀ tx, tx ∈ txs → good_tx tx) →
  wdb st0 (w_db w) → wdb st bt →
  ∃ w' bt', putLoop txs h (u32 fps) (w, bt) = (Ok (u32 (fps + Z.of_nat (misses st0 (filterOf st0 w) h txs))), (w', bt')) ∧
    same_wallet st0 w w' ∧ wdb (foldl (recorded st0 (filterOf st0 w) (w_now w) h) st txs) bt'.
Proof.
  induction txs as [|tx txs IH]; intros fps w bt st0 st Hh Hn Hg Hw0 Hw.
  { exists w, bt. rewrite Z.add_0_r. by split_and!. }
  cbn [putLoop]. destruct (putTx_spec tx h w bt st0 st Hh Hn (Hg tx ltac:(left)) Hw0 Hw) as (w1 & bt1 & R1 & S1 & W1).
  rewrite (bind_run _ _ _ _ _ R1).
  assert (Hg' : ∀ t, t ∈ txs → good_tx t) by (intros t Ht; apply Hg; by right).
  assert (Hfps : (if negb (hitb st0 (filterOf st0 w) h tx) then u32 (u32 fps + 1) else u32 fps) =
    u32 (fps + if hitb st0 (filterOf st0 w) h tx then 0 else 1)).
  { destruct (hitb _ _ _ _); cbn [negb]; [by rewrite Z.add_0_r|]. unfold u32. by rewrite Zplus_mod_idemp_l. }
  rewrite Hfps. destruct (IH (fps + if hitb st0 (filterOf st0 w) h tx then 0 else 1) w1 bt1 st0 _ Hh
    ltac:(by rewrite (sw_now _ _ _ S1)) Hg' ltac:(by rewrite (sw_db _ _ _ S1)) W1) as (w' & bt' & R & S & Wd).
  rewrite (sw_filter _ _ _ S1) in *. rewrite (sw_now _ _ _ S1) in *.
  exists w', bt'. split_and!; [|by eapply same_trans|exact Wd]. rewrite R. do 3 f_equal.
  unfold misses. rewrite filter_cons. destruct (hitb st0 (filterOf st0 w) h tx).
  - rewrite decide_False by done. lia.
  - rewrite decide_True by done. cbn [length]. lia.
Qed.

Lemma PutTxs_run txs h w st : fits 32 h → fits64s (w_now w) → (∀ tx, tx ∈ txs → good_tx tx) → wdb st (w_db w) →
  ∃ w', wallet_PutTxs txs h w = (Ok (u32 (Z.of_nat (misses st (filterOf st w) h txs))), w') ∧
    wdb (foldl (recorded st (filterOf st w) (w_now w) h) st txs) (w_db w') ∧
    w_now w' = w_now w ∧ w_IsCurrent w' = w_IsCurrent w ∧ w_calls w' = w_calls w ∧
    (∀ st', ws_addrs st' = ws_addrs st → filterOf st' w' = filterOf st w).
Proof.
  intros Hh Hn Hg Hw. unfold wallet_PutTxs, wallet_withBatch.
  destruct (putLoop_spec txs h 0 w (w_db w) st st Hh Hn Hg Hw Hw) as (w' & bt' & R & [Sd Sn Sc Sl Sf] & Wd).
  change (u32 0) with 0 in R. rewrite R. exists (set_wdb bt' w').
  split_and!; [done|exact Wd|done..|]. intros st' Ha. unfold filterOf in *. cbn. by rewrite Ha.
Qed.
End spec.
