(* ===== verification/WalletProps.v ===== *)
(** * The wallet: theorems

    What [PutTxs] stores, what it leaves behind, what comes back, and what
    rolling back and clearing do. *)
From Stdlib Require Import Floats.SpecFloat.
From S2P Require Export WalletSpec.
#[local] Open Scope Z_scope.

(** ** Maps filled one value after the other *)
Section filling.
Context {K V : Type} `{Countable K} (key : V → K).
Definition put_all (vs : list V) (m : gmap K V) : gmap K V := foldl (λ m v, <[key v := v]> m) m vs.

Lemma put_all_app vs ws m : put_all (vs ++ ws) m = put_all ws (put_all vs m).
Proof. apply foldl_app. Qed.
Lemma put_all_old vs m k : k ∉ key <$> vs → put_all vs m !! k = m !! k.
Proof.
  revert m. induction vs as [|v vs IH]; intros m Hk; [done|]. cbn [put_all foldl].
  change (foldl _ ?m vs) with (put_all vs m). rewrite IH by (intros Hin; apply Hk; by right).
  apply lookup_insert_ne. intros <-. apply Hk. left.
Qed.
Lemma put_all_Some vs m k v : put_all vs m !! k = Some v → (v ∈ vs ∧ key v = k) ∨ (k ∉ key <$> vs ∧ m !! k = Some v).
Proof.
  revert m. induction vs as [|x vs IH]; intros m; [intros Hk; right; split; [apply not_elem_of_nil|done]|].
  cbn [put_all foldl]. change (foldl _ ?m vs) with (put_all vs m). intros [[Hin Hk]|[Hnin Hk]]%IH.
  - left. split; [by right|done].
  - apply lookup_insert_Some in Hk as [[<- <-]|[Hne Hk]]; [left; split; [left|done]|right].
    split; [|done]. by intros [->|?]%elem_of_cons.
Qed.
Lemma put_all_grows vs m k : is_Some (m !! k) → is_Some (put_all vs m !! k).
Proof.
  revert m. induction vs as [|x vs IH]; intros m Hk; [done|]. apply IH.
  destruct (decide (key x = k)) as [->|Hne]; [by rewrite lookup_insert_eq|by rewrite lookup_insert_ne].
Qed.
Lemma put_all_in vs m v : v ∈ vs → is_Some (put_all vs m !! key v).
Proof.
  revert m. induction vs as [|x vs IH]; intros m; [by intros ?%not_elem_of_nil|].
  intros [->|Hin]%elem_of_cons; [|by apply IH].
  apply (put_all_grows vs (<[key x := x]> m)). by rewrite lookup_insert_eq.
Qed.
Lemma put_all_nodup vs m v : NoDup (key <$> vs) → v ∈ vs → put_all vs m !! key v = Some v.
Proof.
  intros Hnd Hin. destruct (put_all_in vs m v Hin) as [v' Hv']. rewrite Hv'.
  destruct (put_all_Some _ _ _ _ Hv') as [[Hin' Hk]|[Hnin _]]; [|exfalso; by apply Hnin, list_elem_of_fmap_2].
  apply list_elem_of_lookup in Hin as [i Hi], Hin' as [j Hj]. f_equal.
  assert (i = j) as ->; [|congruence]. eapply (NoDup_lookup _ _ _ (key v) Hnd).
  - by rewrite list_lookup_fmap, Hi.
  - by rewrite list_lookup_fmap, Hj, <-Hk.
Qed.
End filling.

Lemma NoDup_fmap_filter {A B} (f : A → B) (P : A → Prop) `{!∀ x, Decision (P x)} (l : list A) :
  NoDup (f <$> l) → NoDup (f <$> filter P l).
Proof.
  induction l as [|x l IH]; intros Hnd; [done|]. cbn [fmap list_fmap] in Hnd. apply NoDup_cons in Hnd as [Hx Hnd].
  rewrite filter_cons. case_decide; [|by apply IH]. cbn [fmap list_fmap]. constructor; [|by apply IH].
  intros (y & E & [_ Hy]%list_elem_of_filter)%list_elem_of_fmap. apply Hx. rewrite E. by apply list_elem_of_fmap_2.
Qed.

Section props.
Context {DB T : Type} `{!SQLite DB} `{!SQLiteLaws DB} `{E : ElaCommon} `{!ElaCommonLaws E}.
Context `{!Uint168Bytes} `{!Uint168BytesLaws} `{!Uint256Bytes} `{!Uint256BytesLaws} `{!Fixed64Bytes} `{!Fixed64BytesLaws} `{!MapOrder}.
Context `{!ElaTransaction T} `{!TxReader T} `{!ListenerLib} `{!WalletLib T}.
Notation W := (spvwallet DB T).
Implicit Types (w : W) (st : wstore) (tx : T) (db : DB).

(** ** The tables after a block *)
Notation after st w h txs := (foldl (recorded st (filterOf st w) (w_now w) h) st txs).
Definition spends st0 h (txs : list T) : list STXO := txs ≫= λ tx, spentBy st0 (etx_Hash tx) h (etx_Inputs tx).
Definition pays (f : AddrFilter) h (txs : list T) : list UTXO := txs ≫= λ tx, paidTo f tx h 0 (etx_Outputs tx).
Definition entries st0 f now h (txs : list T) : list Tx :=
  (λ tx, mkTx (etx_Hash tx) h now (raw_of tx)) <$> filter (λ tx, hitb st0 f h tx = true) txs.

Lemma recorded_fields st0 f now h st txs : let st' := foldl (recorded st0 f now h) st txs in
  ws_utxos st' = put_all u_Op (pays f h txs) (ws_utxos st) ∧
  ws_stxos st' = put_all s_Op (spends st0 h txs) (ws_stxos st) ∧
  ws_txs st' = put_all Tx_Hash (entries st0 f now h txs) (ws_txs st) ∧
  ws_addrs st' = ws_addrs st ∧ ws_state st' = ws_state st ∧ ws_forks st' = ws_forks st.
Proof.
  revert st. induction txs as [|tx txs IH]; intros st; [done|]. cbn [foldl]. cbv zeta in *.
  destruct (IH (recorded st0 f now h st tx)) as (-> & -> & -> & -> & -> & ->).
  unfold pays, spends, entries. cbn [mbind list_bind]. rewrite !put_all_app, filter_cons. unfold recorded.
  destruct (hitb st0 f h tx) eqn:Hh.
  - rewrite decide_True by done. by split_and!.
  - rewrite decide_False by done. unfold hitb in Hh. apply negb_false_iff, bool_decide_eq_true in Hh as [-> ->]. done.
Qed.

(** C11: [PutTxs] on a store whose tables are well formed succeeds, counts the
    transactions that neither spend a stored output nor pay a watched address,
    and adds the others with the outputs they pay and the outputs they spend; a
    coinbase output is locked for a hundred blocks.  The spent outputs are looked
    for in the store as it was before the block. *)
Theorem wallet_PutTxs_spec txs h w st : fits 32 h → fits64s (w_now w) → (∀ tx, tx ∈ txs → good_tx tx) →
  wdb st (w_db w) →
  ∃ w' st', wallet_PutTxs txs h w = (Ok (u32 (Z.of_nat (misses st (filterOf st w) h txs))), w') ∧ wdb st' (w_db w') ∧
    ws_utxos st' = put_all u_Op (pays (filterOf st w) h txs) (ws_utxos st) ∧
    ws_stxos st' = put_all s_Op (spends st h txs) (ws_stxos st) ∧
    ws_txs st' = put_all Tx_Hash (entries st (filterOf st w) (w_now w) h txs) (ws_txs st) ∧
    ws_addrs st' = ws_addrs st ∧ ws_state st' = ws_state st ∧ ws_forks st' = ws_forks st.
Proof.
  intros Hh Hn Hg Hw. destruct (PutTxs_run txs h w st Hh Hn Hg Hw) as (w' & Hr & Hw' & _).
  exists w'. eexists. split; [exact Hr|]. split; [exact Hw'|]. apply recorded_fields.
Qed.

Lemma paidTo_op f tx h i outs u : u ∈ paidTo f tx h i outs → TxID (u_Op u) = etx_Hash tx ∧ u_AtHeight u = h.
Proof.
  revert i. induction outs as [|o outs IH]; intros i; [by intros ?%not_elem_of_nil|]. cbn [paidTo].
  rewrite elem_of_app. intros [Hin|Hin]; [|by eapply IH].
  destruct (AddrFilter_ContainAddr _ _); [|by apply not_elem_of_nil in Hin]. by apply list_elem_of_singleton in Hin as ->.
Qed.
Lemma pays_op f h txs u : u ∈ pays f h txs → ∃ tx, tx ∈ txs ∧ TxID (u_Op u) = etx_Hash tx ∧ u_AtHeight u = h.
Proof.
  unfold pays. rewrite list_elem_of_bind. intros (tx & Hu & Hin). apply paidTo_op in Hu as [? ?]. by exists tx.
Qed.
Lemma spends_elem st0 h txs x : x ∈ spends st0 h txs ↔
  ∃ tx i u, tx ∈ txs ∧ i ∈ etx_Inputs tx ∧ ws_utxos st0 !! NewOutPoint i.1 i.2 = Some u ∧ x = NewSTXO u h (etx_Hash tx).
Proof.
  unfold spends, spentBy. rewrite list_elem_of_bind. setoid_rewrite list_elem_of_omap. split.
  - intros (tx & (i & Hi & Hx) & Hin). destruct (ws_utxos st0 !! _) as [u|] eqn:Hu; [|done].
    injection Hx as <-. by exists tx, i, u.
  - intros (tx & i & u & Hin & Hi & Hu & ->). exists tx. split; [|done]. exists i. by rewrite Hu.
Qed.

(** an output of the wallet that a transaction of the block spends is
    entered among the spent outputs, and stays among the unspent ones: the list
    of unspent outputs of its address still contains it. *)
Theorem spent_output_stays txs h w st op u tx : fits 32 h → fits64s (w_now w) → (∀ tx, tx ∈ txs → good_tx tx) →
  wdb st (w_db w) → ws_utxos st !! op = Some u → tx ∈ txs → (TxID op, Index op) ∈ etx_Inputs tx →
  (∀ t, t ∈ txs → etx_Hash t ≠ TxID op) →
  ∃ fps w', wallet_PutTxs txs h w = (Ok fps, w') ∧
    (∃ xs x, stxos_GetAddrAll (u_Address u) (w_db w') = (Ok (xs, None), w_db w') ∧ x ∈ xs ∧ s_UTXO x = u) ∧
    (∃ us, utxos_GetAddrAll (u_Address u) (w_db w') = (Ok (us, None), w_db w') ∧ u ∈ us).
Proof.
  intros Hh Hn Hg Hw Hu Htx Hin Hfresh. destruct (PutTxs_run txs h w st Hh Hn Hg Hw) as (w' & Hr & Hw' & _).
  eexists _, w'. split; [exact Hr|]. destruct (recorded_fields st (filterOf st w) (w_now w) h st txs) as (HU & HX & _).
  assert (Hop : u_Op u = op) by (by destruct (holds_ok _ _ _ _ _ _ _ (wr_utxos _ _ Hw) _ _ Hu)).
  assert (Hsp : NewSTXO u h (etx_Hash tx) ∈ spends st h txs).
  { apply spends_elem. exists tx, (TxID op, Index op), u. destruct op. by split_and!. }
  split.
  - destruct (stxos_GetAddrAll_spec (u_Address u) _ _ Hw') as (xs & Hrun & Hp).
    destruct (put_all_in s_Op _ (ws_stxos st) _ Hsp) as [x Hx]. change (s_Op (NewSTXO u h (etx_Hash tx))) with (u_Op u) in Hx.
    destruct (put_all_Some _ _ _ _ _ Hx) as [[Hxin Hk]|[Hnin _]].
    2: { exfalso. apply Hnin, list_elem_of_fmap. by exists (NewSTXO u h (etx_Hash tx)). }
    assert (s_UTXO x = u) as Hxu.
    { apply spends_elem in Hxin as (t & i & v & _ & _ & Hv & ->).
      destruct (holds_ok _ _ _ _ _ _ _ (wr_utxos _ _ Hw) _ _ Hv) as [Hkv _].
      change (s_Op (NewSTXO v h (etx_Hash t))) with (u_Op v) in Hk. cbn. congruence. }
    exists xs, x. split_and!; [done| |done]. rewrite Hp. apply map_values_elem. exists (u_Op u).
    apply map_lookup_filter_Some. rewrite HX. split; [done|]. cbn. by rewrite Hxu.
  - destruct (utxos_GetAddrAll_spec (u_Address u) _ _ Hw') as (us & Hrun & Hp). exists us. split; [done|].
    rewrite Hp. apply map_values_elem. exists op. apply map_lookup_filter_Some. split; [|done].
    rewrite HU, put_all_old; [done|]. intros (v & E' & Hv)%list_elem_of_fmap.
    destruct (pays_op _ _ _ _ Hv) as (t & Ht & Hid & _). apply (Hfresh t Ht). by rewrite <-Hid, <-E'.
Qed.

(** ** Rolling a height back *)

Lemma wallet_DelTxs_run h w st : wdb st (w_db w) → wallet_DelTxs h w = (Err (noTable "TXNs"), w).
Proof.
  intros Hw. destruct (RollbackHeight_fails h _ _ Hw) as (db' & Hr).
  unfold wallet_DelTxs, wallet_withBatch, onBatch, zoom. cbn [snd]. by rewrite Hr.
Qed.

(** [DelTxs] fails on every store and leaves it as it was: the last
    statement of [RollbackHeight] names a table that does not exist, and the
    batch is rolled back. *)
Theorem wallet_DelTxs_fails h w st : wdb st (w_db w) → wallet_DelTxs h w = (Err (noTable "TXNs"), w).
Proof. apply wallet_DelTxs_run. Qed.

(** the statements of [RollbackHeight] before the failing one, were they kept,
    would undo a block: run after [PutTxs] of new transactions at a new height, on
    tables where no spent coin is still among the coins, they bring both tables of
    outputs back to what they were.  [RollbackHeight] itself always fails and they
    are undone ([wallet_DelTxs_fails]). *)
Theorem rollbackOutputs_undoes txs h w st : fits 32 h → fits64s (w_now w) → (∀ tx, tx ∈ txs → good_tx tx) →
  wdb st (w_db w) →
  (∀ k u, ws_utxos st !! k = Some u → u_AtHeight u ≠ h ∧ ∀ tx, tx ∈ txs → etx_Hash tx ≠ TxID k) →
  (∀ k x, ws_stxos st !! k = Some x → s_SpendHeight x ≠ h ∧ ws_utxos st !! k = None) →
  ∃ fps w' db' st', wallet_PutTxs txs h w = (Ok fps, w') ∧ rollbackOutputs h (w_db w') = (Ok (), db') ∧
    wdb st' db' ∧ ws_utxos st' = ws_utxos st ∧ ws_stxos st' = ws_stxos st.
Proof.
  intros Hh Hn Hg Hw HU HX. destruct (PutTxs_run txs h w st Hh Hn Hg Hw) as (w' & Hr & Hw' & _).
  destruct (rollbackOutputs_spec h _ _ Hw') as (db' & Hrb & Hdb). eexists _, w', db', _.
  split; [exact Hr|]. split; [exact Hrb|]. split; [exact Hdb|].
  destruct (recorded_fields st (filterOf st w) (w_now w) h st txs) as (EU & EX & _). cbn [rolled ws_utxos ws_stxos].
  rewrite EU, EX. set (us := pays _ _ _). set (xs := spends _ _ _).
  assert (Hus : filter (λ kv, u_AtHeight kv.2 ≠ h) (put_all u_Op us (ws_utxos st)) = ws_utxos st).
  { apply map_eq. intros k. apply option_eq. intros u. rewrite map_lookup_filter_Some. cbn. split.
    - intros [[[Hin _]|[_ Hk]]%put_all_Some Hne]; [|done]. by destruct (pays_op _ _ _ _ Hin) as (? & ? & ? & ?).
    - intros Hk. destruct (HU _ _ Hk) as [Hne Hid]. split; [|done]. rewrite put_all_old; [done|].
      intros (v & -> & Hv)%list_elem_of_fmap. destruct (pays_op _ _ _ _ Hv) as (t & Ht & Htid & _).
      by apply (Hid t Ht). }
  assert (Hxs : ∀ k x, put_all s_Op xs (ws_stxos st) !! k = Some x →
    (s_SpendHeight x = h ∧ ws_utxos st !! k = Some (s_UTXO x)) ∨ (s_SpendHeight x ≠ h ∧ ws_stxos st !! k = Some x)).
  { intros k x [[Hin <-]|[_ Hk]]%put_all_Some; [left|right].
    - apply spends_elem in Hin as (t & i & u & _ & _ & Hu & ->). split; [done|].
      destruct (holds_ok _ _ _ _ _ _ _ (wr_utxos _ _ Hw) _ _ Hu) as [Hk _].
      change (s_Op (NewSTXO u h (etx_Hash t))) with (u_Op u). by rewrite Hk.
    - split; [by apply (HX k x)|done]. }
  split.
  - rewrite Hus. apply map_eq. intros k. apply option_eq. intros u. rewrite lookup_union_Some_raw, lookup_fmap_Some.
    split; [|intros Hk].
    + intros [(x & <- & [Hk He]%map_lookup_filter_Some)|[_ Hk]]; [|done]. cbn in He.
      by destruct (Hxs _ _ Hk) as [[_ ?]|[? _]].
    + destruct (filter (λ kv, s_SpendHeight kv.2 = h) (put_all s_Op xs (ws_stxos st)) !! k) as [x|] eqn:Hx.
      * left. exists x. split; [|done]. apply map_lookup_filter_Some in Hx as [Hx He]. cbn in He.
        destruct (Hxs _ _ Hx) as [[_ ?]|[? _]]; [congruence|done].
      * right. by rewrite lookup_fmap, Hx.
  - apply map_eq. intros k. apply option_eq. intros x. rewrite map_lookup_filter_Some. cbn. split.
    + intros [Hk Hne]. by destruct (Hxs _ _ Hk) as [[? _]|[_ ?]].
    + intros Hk. destruct (HX _ _ Hk) as [Hne Hnone]. split; [|done]. rewrite put_all_old; [done|].
      intros (y & -> & Hy)%list_elem_of_fmap. apply spends_elem in Hy as (t & i & u & _ & _ & Hu & ->).
      destruct (holds_ok _ _ _ _ _ _ _ (wr_utxos _ _ Hw) _ _ Hu) as [Hku _].
      change (s_Op (NewSTXO u h (etx_Hash t))) with (u_Op u) in Hnone. congruence.
Qed.

(** ** The transactions given back *)
Lemma readTxs_run (txs : list T) (f : T → Tx) : (∀ tx, tx ∈ txs → wallet_newTransaction (RawData (f tx)) = Ok tx) →
  wallet_readTxs (f <$> txs) = Ok txs.
Proof.
  induction txs as [|tx txs IH]; intros Hr; [done|]. cbn [fmap list_fmap wallet_readTxs].
  rewrite Hr by left. cbn [mbind outcome_bind]. change (list_fmap _ _ f txs) with (f <$> txs).
  by rewrite IH by (intros t Ht; apply Hr; by right).
Qed.

(** the transactions of a block that concern the wallet come back from
    [GetTxs] of its height, in some order; 2^32-1 stands for all heights. *)
Theorem wallet_GetTxs_roundtrip txs h w st : fits 32 h → fits64s (w_now w) → (∀ tx, tx ∈ txs → good_tx tx) →
  wdb st (w_db w) → h ≠ MaxUint32 → (∀ k t, ws_txs st !! k = Some t → Tx_Height t ≠ h) → NoDup (etx_Hash <$> txs) →
  (∀ tx, tx ∈ txs → wallet_newTransaction (raw_of tx) = Ok tx) →
  ∃ fps w' got, wallet_PutTxs txs h w = (Ok fps, w') ∧ wallet_GetTxs h w' = (Ok got, w') ∧
    got ≡ₚ filter (λ tx, hitb st (filterOf st w) h tx = true) txs.
Proof.
  intros Hh Hn Hg Hw Hmax Hfresh Hnd Hread. destruct (PutTxs_run txs h w st Hh Hn Hg Hw) as (w' & Hr & Hw' & _).
  destruct (recorded_fields st (filterOf st w) (w_now w) h st txs) as (_ & _ & ET & _).
  destruct (txs_GetAllFrom_spec h _ _ Hw') as (ts & Hget & Hts).
  set (f := λ tx, mkTx (etx_Hash tx) h (w_now w) (raw_of tx)) in *.
  set (hits := filter (λ tx, hitb st (filterOf st w) h tx = true) txs) in *.
  assert (Hhits : NoDup (Tx_Hash <$> (f <$> hits))).
  { rewrite <-list_fmap_compose. change (Tx_Hash ∘ f) with (@etx_Hash T _).
    by apply NoDup_fmap_filter. }
  assert (Hperm : ts ≡ₚ f <$> hits).
  { rewrite Hts, ET. apply NoDup_Permutation.
    - apply NoDup_fmap_2_strong; [|apply NoDup_map_to_list].
      intros [k1 t1] [k2 t2] Ha Hb E'. cbn in E'. subst t2.
      apply elem_of_map_to_list, map_lookup_filter_Some in Ha as [Ha _], Hb as [Hb _].
      rewrite <-ET in Ha, Hb. pose proof (holds_ok _ _ _ _ _ _ _ (wr_txs _ _ Hw')) as Ho.
      destruct (Ho _ _ Ha) as [Hk1 _], (Ho _ _ Hb) as [Hk2 _]. congruence.
    - by apply NoDup_fmap_1 in Hhits.
    - intros t. rewrite map_values_elem. split.
      + intros (k & [[[Hin _]|[_ Hk]]%put_all_Some Hc]%map_lookup_filter_Some); [done|].
        destruct Hc as [?|Hc]; [done|]. by apply Hfresh in Hk.
      + intros Hin. exists (Tx_Hash t). apply map_lookup_filter_Some. split; [by apply put_all_nodup|].
        right. apply list_elem_of_fmap in Hin as (tx & -> & _). done. }
  apply Permutation_map_inv in Hperm as (got & -> & Hgot). eexists _, w', got.
  split; [exact Hr|]. split; [|by symmetry].
  unfold wallet_GetTxs, checkErr, onDB. rewrite (bind_run _ _ _ (f <$> got) w').
  - unfold lift. rewrite (readTxs_run got f); [done|]. intros tx Hin. apply Hread.
    rewrite <-Hgot in Hin. by apply list_elem_of_filter in Hin as [_ ?].
  - rewrite (bind_run _ _ _ _ _ (zoom_run _ _ _ _ _ _ Hget)). by destruct w'.
Qed.

(** [HaveTx] answers true for a stored transaction and an error, not false,
    for any other. *)
Theorem wallet_HaveTx_spec k w st : wdb st (w_db w) →
  wallet_HaveTx k w = (match ws_txs st !! k with Some _ => Ok true | None => Err ErrNoRows end, w).
Proof.
  intros Hw. unfold wallet_HaveTx, onDB, mbind, GoM_bind, zoom. rewrite (txs_Get_spec k _ _ Hw).
  destruct (ws_txs st !! k); by destruct w.
Qed.

(** ** Clearing *)
Lemma putInputs_cleared txId h ins hits w bt : sq_tables (w_db w) !! "UTXOs" = None →
  putInputs txId h ins hits (w, bt) = (Ok (Some hits), (w, bt)).
Proof.
  intros HT. induction ins as [|[t i] ins IH]; [done|]. cbn [putInputs].
  rewrite (bind_run _ _ _ (inl (noTable "UTXOs")) (w, bt)); [exact IH|].
  apply try_run_err. unfold onW, onDB, zoom, utxos_Get, dbQueryRow. cbn [fst].
  assert (Hq : ∀ A (f : row → GoM DB A), ((rows ← dbQuery (Select ["Value"; "LockTime"; "AtHeight"; "Address"] "UTXOs" (Some "OutPoint"))
      [VBlob (OutPoint_Bytes (NewOutPoint t i))]; match rows with [] => throw ErrNoRows | r :: _ => mret r end) ≫= f) (w_db w)
      = (Err (noTable "UTXOs"), w_db w)).
  { intros A f. apply bind_run_err, bind_run_err, dbQuery_err. unfold sql_query, getTable. by rewrite HT. }
  rewrite Hq. by destruct w.
Qed.
Lemma putOutputs_cleared t h outs : ∀ i hits w bt st, holdsAddrs (ws_addrs st) (sq_tables (w_db w)) →
  sq_tables bt !! "UTXOs" = None → (∀ o, o ∈ outs → fits64s (OutValue o)) →
  (∃ o, o ∈ outs ∧ AddrFilter_ContainAddr (ProgramHash o) (filterOf st w) = true) →
  ∃ w', putOutputs t h i outs hits (w, bt) = (Err (noTable "UTXOs"), (w', bt)) ∧ w_db w' = w_db w.
Proof.
  induction outs as [|o outs IH]; intros i hits w bt st Ha HT Hv (o' & Ho' & Hc').
  { by apply not_elem_of_nil in Ho'. }
  cbn [putOutputs]. destruct (getAddrFilter_spec w st Ha) as (w1 & Hg & Hs1).
  assert (Hrun : onW getAddrFilter (w, bt) = (Ok (filterOf st w), (w1, bt))).
  { unfold onW, zoom. cbn [fst]. by rewrite Hg. }
  rewrite (bind_run _ _ _ _ _ Hrun).
  destruct (AddrFilter_ContainAddr (ProgramHash o) (filterOf st w)) eqn:Hc.
  - exists w1. split; [|apply (sw_db _ _ _ Hs1)]. cbv zeta. apply bind_run_err. unfold onBatch, zoom. cbn [snd].
    unfold utxosBatch_Put. cbn [u_Value NewUTXO].
    destruct (value_bytes_ok (OutValue o) (Hv o ltac:(left))) as [Hb _]. rewrite (lift_bind _ _ _ _ Hb).
    erewrite dbExec_err; [done|]. unfold sql_exec, getTable. by rewrite HT.
  - apply elem_of_cons in Ho' as [->|Ho']; [congruence|].
    destruct (IH (i + 1) hits w1 bt st) as (w' & Hr & Hd).
    + by rewrite (sw_db _ _ _ Hs1).
    + done.
    + intros o2 Ho2. apply Hv. by right.
    + exists o'. split; [done|]. by rewrite (sw_filter _ _ _ Hs1).
    + exists w'. split; [exact Hr|]. by rewrite Hd, (sw_db _ _ _ Hs1).
Qed.

(** after [Clear] the tables of outputs do not exist until the database is
    opened again: storing a transaction that pays the wallet fails; opened again,
    the wallet has no outputs and still has its transactions. *)
Theorem wallet_Clear_spec w st : wdb st (w_db w) →
  ∃ w1, wallet_Clear w = (Ok (), w1) ∧
    (∀ tx h, good_tx tx → (∃ o, o ∈ etx_Outputs tx ∧ AddrFilter_ContainAddr (ProgramHash o) (filterOf st w) = true) →
       ∃ w2, wallet_PutTxs [tx] h w1 = (Err (noTable "UTXOs"), w2) ∧ w_db w2 = w_db w1) ∧
    ∃ db2, NewDatabase (w_db w1) = (Ok (), db2) ∧ wdb (emptied st) db2.
Proof.
  intros Hw. destruct (Clear_reopen _ _ Hw) as (db1 & db2 & Hc & Ho & Hw2).
  destruct (Clear_run _ _ Hw) as (db1' & Hc' & HT). assert (db1' = db1) as -> by congruence.
  exists (set_wdb db1 w). split.
  { unfold wallet_Clear, onDB. by rewrite (zoom_run _ _ _ _ _ _ Hc). }
  split; [|by exists db2]. intros tx h Hg Hpay.
  assert (HU : sq_tables db1 !! "UTXOs" = None).
  { by rewrite HT, lookup_delete_ne, lookup_delete_eq by done. }
  assert (HA : holdsAddrs (ws_addrs st) (sq_tables db1)).
  { destruct (wr_addrs _ _ Hw) as (rows & Ha & Hr). exists rows. rewrite HT, !lookup_delete_ne by done. done. }
  destruct (putOutputs_cleared tx h (etx_Outputs tx) 0 0 (set_wdb db1 w) db1 st HA HU) as (w2 & Hr & Hd).
  { intros o Hin. by apply (gt_out _ Hg). }
  { exact Hpay. }
  exists w2. split; [|exact Hd]. unfold wallet_PutTxs, wallet_withBatch, set_wdb at 1. cbn [w_db putLoop].
  change (mkWallet db1 (w_filter w) (w_IsCurrent w) (w_now w) (w_calls w)) with (set_wdb db1 w).
  assert (Hput : wallet_putTx tx h (set_wdb db1 w, db1) = (Err (noTable "UTXOs"), (w2, db1))).
  { unfold wallet_putTx. cbv zeta. rewrite (bind_run _ _ _ _ _ (putInputs_cleared _ _ _ 0 (set_wdb db1 w) db1 HU)).
    by apply bind_run_err. }
  by rewrite (bind_run_err _ _ _ _ _ Hput).
Qed.

(** ** The filter *)
Section filter.
Context `{!GoFloat} `{!FilterSerialize}.

Lemma forM_Add {A} (enc : A → bytes) (l : list A) (f : Bloom.Filter) : f_ok f →
  ∃ f', forM l (λ x, Bloom.Add (enc x)) f = (Ok (), f') ∧ f_ok f' ∧ (∀ y, f_in f y = true → f_in f' y = true) ∧
    ∀ x, x ∈ l → f_in f' (enc x) = true.
Proof.
  revert f. induction l as [|x l IH]; intros f Hok.
  { exists f. split_and!; try done. by intros x ?%not_elem_of_nil. }
  cbn [forM]. destruct (FilterAdd_law f (enc x) Hok) as (f1 & Ha & Hok1 & Hin1 & Hm1).
  change (Bloom.Add (enc x)) with (FilterAdd (F := Bloom.Filter) (enc x)). rewrite (bind_run _ _ _ _ _ Ha).
  destruct (IH f1 Hok1) as (f' & Hr & Hok' & Hm & Hall). exists f'. split_and!; [exact Hr|done|..].
  - intros y Hy. by apply Hm, Hm1.
  - intros y [->|Hy]%elem_of_cons; [by apply Hm|by apply Hall].
Qed.

(** C29: whatever bits the hash functions give, the filter the wallet sends, when
    [NewFilter] makes one that is not empty, matches every transaction that pays
    a watched address or spends an output the wallet has or had. *)
Theorem wallet_GetFilter_complete w st : wdb st (w_db w) →
  f_ok (NewFilter (u32 (Z.of_nat (size (filterOf st w) + (size (ws_utxos st) + size (ws_stxos st))))) 0 (S754_zero false) []) →
  ∃ m w', wallet_GetFilter w = (ToTxFilterMsg (Some m) FTNexTTurnDPOSInfo, w') ∧ same_wallet st w w' ∧
    ∀ tx, (∃ o, o ∈ etx_Outputs tx ∧ ProgramHash o ∈ (AddrFilter_GetAddrs (filterOf st w))) ∨
          (∃ i, i ∈ etx_Inputs tx ∧ (is_Some (ws_utxos st !! NewOutPoint i.1 i.2) ∨ is_Some (ws_stxos st !! NewOutPoint i.1 i.2))) →
      ∃ f', iutil_MatchFilter tx (Some m) = (Ok true, f').
Proof.
  intros Hw Hok. destruct (utxos_GetAll_spec _ _ Hw) as (us & HU & HpU). destruct (stxos_GetAll_spec _ _ Hw) as (xs & HX & HpX).
  destruct (getAddrFilter_spec w st (wr_addrs _ _ Hw)) as (w' & Hg & Hs).
  unfold wallet_GetFilter, onDB.
  assert (Hset : set_wdb (w_db w) w = w) by (by destruct w).
  rewrite (bind_run _ _ _ _ _ (zoom_run _ _ _ _ _ _ HU)), Hset.
  rewrite (bind_run _ _ _ _ _ (zoom_run _ _ _ _ _ _ HX)), Hset. cbn [fst]. cbv zeta.
  rewrite (bind_run _ _ _ _ _ Hg).
  set (addrs := AddrFilter_GetAddrs (filterOf st w)). set (ops := (u_Op <$> us) ++ ((λ x, u_Op (s_UTXO x)) <$> xs)).
  assert (Hlen : (length addrs + length ops = size (filterOf st w) + (size (ws_utxos st) + size (ws_stxos st)))%nat).
  { unfold addrs, ops, AddrFilter_GetAddrs. rewrite length_app, !length_fmap, HpU, HpX, !length_fmap, range_perm.
    by rewrite !length_map_to_list. }
  rewrite Hlen. set (f0 := NewFilter _ _ _ _) in *.
  destruct (forM_Add arr_bytes addrs f0 Hok) as (f1 & R1 & Hok1 & Hm1 & Hin1).
  destruct (forM_Add OutPoint_Bytes ops f1 Hok1) as (f2 & R2 & Hok2 & Hm2 & Hin2).
  rewrite (bind_run _ _ _ _ _ R1), R2. rewrite (lift_bind _ _ _ () eq_refl).
  destruct f2 as [m|]; [|done]. exists m, w'. split; [done|]. split; [done|].
  intros tx Hc. destruct (MatchFilter_run tx (Some m) Hok2) as (b & f' & Hr & _ & _ & _ & Hout & Hinp).
  exists f'. rewrite Hr. repeat f_equal. destruct Hc as [(o & Ho & Hin)|([t i] & Hi & Hop)].
  - apply list_elem_of_lookup in Ho as [n Hn]. apply (Hout n o Hn). apply Hm2, Hin1. exact Hin.
  - apply (Hinp t i Hi). apply Hin2. unfold ops. rewrite elem_of_app, !list_elem_of_fmap. cbn [fst snd] in Hop.
    destruct Hop as [[u Hu]|[x Hx]]; [left; exists u|right; exists x]; split.
    + by destruct (holds_ok _ _ _ _ _ _ _ (wr_utxos _ _ Hw) _ _ Hu) as [-> _].
    + rewrite HpU. apply map_values_elem. eauto.
    + by destruct (holds_ok _ _ _ _ _ _ _ (wr_stxos _ _ Hw) _ _ Hx) as [<- _].
    + rewrite HpX. apply map_values_elem. eauto.
Qed.
End filter.
End props.
