(* ===== verification/WalletChain.v ===== *)
(** * The wallet under its chain

    [chainDB] over a header store and the wallet: a reorganisation never takes
    back the transactions of the branch it leaves, and a block of a side branch
    without transactions cannot be stored. *)
From S2P Require Export WalletProps ChainSpec Commit.
#[local] Open Scope Z_scope.

Section chain.
Context {DB T HS H : Type} `{!SQLite DB} `{!SQLiteLaws DB} `{E : ElaCommon} `{!ElaCommonLaws E}.
Context `{!Uint168Bytes} `{!Uint168BytesLaws} `{!Uint256Bytes} `{!Uint256BytesLaws} `{!Fixed64Bytes} `{!Fixed64BytesLaws} `{!MapOrder}.
Context `{!ElaTransaction T} `{!TxReader T} `{!ListenerLib} `{!WalletLib T}.
Context `{!BlockHeader H} `{!HeadersDB HS H} `{!HeadersLaws HS H}.
Notation W := (spvwallet DB T).
Notation CDB := (chainDB HS W).
Implicit Types (s : CDB) (w : W) (st : wstore) (tx : T).

(** The transactions stored can be read again and fit the fork store. *)
Definition readable st : Prop := ∀ k t, ws_txs st !! k = Some t →
  ∃ tx, wallet_newTransaction (RawData t) = Ok tx ∧ Z.of_nat (length (raw_of tx)) ≤ MaxBlockContextSize.

(** The same outputs and transactions. *)
Definition same_coins st st' : Prop :=
  ws_utxos st' = ws_utxos st ∧ ws_stxos st' = ws_stxos st ∧ ws_txs st' = ws_txs st.

Lemma GetTxs_readable h w st : wdb st (w_db w) → readable st →
  ∃ got, wallet_GetTxs h w = (Ok got, w) ∧
    ∀ tx, tx ∈ got → Z.of_nat (length (raw_of tx)) ≤ MaxBlockContextSize.
Proof.
  intros Hw Hr. destruct (txs_GetAllFrom_spec h _ _ Hw) as (ts & Hget & Hts).
  assert (Hread : ∃ got, wallet_readTxs (T := T) ts = Ok got ∧
    ∀ tx, tx ∈ got → Z.of_nat (length (raw_of tx)) ≤ MaxBlockContextSize).
  { assert (Hin : ∀ t, t ∈ ts → ∃ tx, wallet_newTransaction (T := T) (RawData t) = Ok tx ∧
      Z.of_nat (length (raw_of tx)) ≤ MaxBlockContextSize).
    { intros t. rewrite Hts. intros (k & [Hk _]%map_lookup_filter_Some)%map_values_elem. by apply (Hr k). }
    clear Hget Hts. induction ts as [|t ts IH].
    - exists []. split; [done|]. by intros tx ?%not_elem_of_nil.
    - destruct (Hin t ltac:(left)) as (tx & Htx & Hlen). destruct IH as (got & Hg & Hl).
      { intros t' Ht'. apply Hin. by right. }
      exists (tx :: got). cbn [wallet_readTxs]. rewrite Htx. cbn [mbind outcome_bind]. rewrite Hg. split; [done|].
      by intros tx' [->|?]%elem_of_cons; [|apply Hl]. }
  destruct Hread as (got & Hg & Hl). exists got. split; [|done].
  unfold wallet_GetTxs, checkErr, onDB. rewrite (bind_run _ _ _ ts w).
  - unfold lift. by rewrite Hg.
  - rewrite (bind_run _ _ _ _ _ (zoom_run _ _ _ _ _ _ Hget)). by destruct w.
Qed.

(** [PutForkTxs] and then [DelTxs], as a reorganisation calls them. *)
Lemma PutForkTxs_cases (txs : list T) hash w st : wdb st (w_db w) → fits64s (w_now w) → fits 32 MaxBlockContextSize →
  (∀ tx, tx ∈ txs → Z.of_nat (length (raw_of tx)) ≤ MaxBlockContextSize) →
  (∃ e, wallet_PutForkTxs txs hash w = (Err e, w)) ∨
  (∃ w' st', wallet_PutForkTxs txs hash w = (Ok (), w') ∧ wdb st' (w_db w') ∧ same_coins st st').
Proof.
  intros Hw Hn Hmax Hlen. unfold wallet_PutForkTxs. rewrite (bind_run getS _ w w w eq_refl).
  set (ftxs := (λ tx, NewTx (w_now w) tx 0) <$> txs).
  assert (Hwf : Forall Tx_wf ftxs).
  { apply Forall_forall. intros t (tx & -> & Hin)%list_elem_of_fmap. split_and!; [done|done|]. by apply Hlen. }
  destruct (fork_codec ftxs Hwf Hmax) as (bs & Hws & _). specialize (Hws []).
  destruct (decide (fork_data ftxs = [])) as [Hd|Hd].
  - left. exists (notNull "ForkTxs" "RawData"). unfold onDB, zoom.
    unfold sqlTxs_PutForkTxs. unfold fork_data in Hd. rewrite Hws in *. cbn [snd app] in Hd. subst bs. cbn [app].
    rewrite (lift_bind _ _ _ () eq_refl). erewrite dbExec_err; [by destruct w|].
    destruct (wr_forks _ _ Hw) as (rows & HT & _). unfold sql_exec, getTable. by rewrite HT.
  - right. destruct (PutForkTxs_spec ftxs hash (w_db w) st Hw) as (db' & Hr & Hw').
    { by split. }
    { by rewrite Hws. }
    exists (set_wdb db' w). eexists. split; [|by split; [exact Hw'|]].
    unfold onDB. by rewrite (zoom_run _ _ _ _ _ _ Hr).
Qed.

Lemma onTxs_wallet {A} (op : GoM W A) s o t : op (cd_t s) = (o, t) → onTxs op s = (o, mkChainDB (cd_h s) t).
Proof. intros Hop. unfold onTxs, zoom. by rewrite Hop. Qed.

(** The first step back fails. *)
Lemma moveToFork_fails n root (header : Header H) s st : wdb st (w_db (cd_t s)) → readable st →
  fits64s (w_now (cd_t s)) → fits 32 MaxBlockContextSize → hdrHash header ≠ root →
  ∃ e s' st', moveToFork (S n) root header s = (Err e, s') ∧ cd_h s' = cd_h s ∧ wdb st' (w_db (cd_t s')) ∧ same_coins st st'.
Proof.
  intros Hw Hr Hn Hmax Hne. cbn [moveToFork]. rewrite decide_False by done.
  destruct (GetTxs_readable (Height header) _ _ Hw Hr) as (got & Hg & Hl).
  rewrite (bind_run _ _ s got s).
  2: { change (onTxs (wallet_GetTxs (Height header)) s = (Ok got, s)). rewrite (onTxs_wallet _ _ _ _ Hg). by destruct s. }
  destruct (PutForkTxs_cases got (hdrHash header) _ _ Hw Hn Hmax Hl) as [(e & Hp)|(w' & st' & Hp & Hw' & Hs)].
  - exists e, s, st. split; [|by split_and!]. apply bind_run_err.
    change (onTxs (wallet_PutForkTxs got (hdrHash header)) s = (Err e, s)). rewrite (onTxs_wallet _ _ _ _ Hp). by destruct s.
  - exists (noTable "TXNs"), (mkChainDB (cd_h s) w'), st'. split; [|by split_and!].
    rewrite (bind_run _ _ s () (mkChainDB (cd_h s) w')) by (by apply (onTxs_wallet (wallet_PutForkTxs got (hdrHash header)))).
    apply bind_run_err. apply (onTxs_wallet (wallet_DelTxs (Height header)) (mkChainDB (cd_h s) w')).
    by apply (wallet_DelTxs_run (Height header) w' st').
Qed.

(** The tables of the wallet after [PutTxs] are readable when they were and the
    transactions of the block are. *)
Lemma recorded_readable st0 f now h txs st : readable st →
  (∀ tx, tx ∈ txs → wallet_newTransaction (raw_of tx) = Ok tx ∧ Z.of_nat (length (raw_of tx)) ≤ MaxBlockContextSize) →
  readable (foldl (recorded st0 f now h) st txs).
Proof.
  intros Hr Htx k t Hk. destruct (recorded_fields st0 f now h st txs) as (_ & _ & HT & _).
  rewrite HT in Hk. apply put_all_Some in Hk as [[Hin _]|[_ Hk]]; [|by apply (Hr k)].
  apply list_elem_of_fmap in Hin as (tx & -> & [_ Hin]%list_elem_of_filter). exists tx. by apply Htx.
Qed.

(** The new tip is stored with its transactions. *)
Lemma wallet_stores_tip (new : Header H) (txs : list T) s st : hd_ok (cd_h s) → hd_fits new → wdb st (w_db (cd_t s)) →
  fits 32 (Height new) → fits64s (w_now (cd_t s)) → (∀ tx, tx ∈ txs → good_tx tx) →
  ∃ fps s1, chainDB_CommitBlock (mkBlock new txs) true s = (Ok fps, s1) ∧ hd_ok (cd_h s1) ∧
    hd_view (cd_h s1) = <[hdrHash new := new]> (hd_view (cd_h s)) ∧ hd_best (cd_h s1) = Some new ∧
    wdb (foldl (recorded st (filterOf st (cd_t s)) (w_now (cd_t s)) (Height new)) st txs) (w_db (cd_t s1)) ∧
    w_now (cd_t s1) = w_now (cd_t s).
Proof.
  intros Hok Hfits Hw Hh Hn Hg. destruct (hdPut_law (cd_h s) new true Hok Hfits) as (h' & Hp & Hok' & Hv & Hb).
  destruct (PutTxs_run txs (Height new) (cd_t s) st Hh Hn Hg Hw) as (w' & Hr & Hw' & Hnow & _).
  eexists _, (mkChainDB h' w'). split; [|by split_and!].
  unfold chainDB_CommitBlock. cbn [BlockHdr Transactions].
  rewrite (bind_run _ _ s () (mkChainDB h' (cd_t s))) by (unfold onHeaders, zoom; by rewrite Hp).
  by apply (onTxs_wallet (wallet_PutTxs txs (Height new)) (mkChainDB h' (cd_t s))).
Qed.

(** C28: when a branch that leaves the main chain below its tip gets more work,
    [CommitBlock] over the wallet answers an error with the tip already moved:
    the transactions of the new tip are recorded, none of the branch below it
    are, and none of the old branch are taken back. *)
Theorem wallet_reorg_fails (genesis : Header H) s best (block : Block H T) p st :
  chain_ok genesis s best → hd_view (cd_h s) !! hdrPrevious (BlockHdr block) = Some p →
  checkProofOfWork (BlockHdr block) = true → storable genesis s block p →
  TotalWork best < TotalWork (filled block p) → ¬ on_main (hd_view (cd_h s)) p best →
  wdb st (w_db (cd_t s)) → readable st → fits64s (w_now (cd_t s)) → fits 32 MaxBlockContextSize →
  (∀ tx, tx ∈ Transactions block → good_tx tx ∧ wallet_newTransaction (raw_of tx) = Ok tx ∧
     Z.of_nat (length (raw_of tx)) ≤ MaxBlockContextSize) →
  ∃ e s' st', CommitBlock block s =
      (Ok (Some (mkCommitResult true true 0 0 (Some e), mkBlock (filled block p) (Transactions block))), s') ∧
    hd_best (cd_h s') = Some (filled block p) ∧ wdb st' (w_db (cd_t s')) ∧
    same_coins (foldl (recorded st (filterOf st (cd_t s)) (w_now (cd_t s)) (Height p + 1)) st (Transactions block)) st'.
Proof.
  intros Hs Hp Hpow (He & Hfits & Hph) Hw Hoff Hwd Hread Hn Hmax Htxs. pose proof Hs as (Hok & Hb & Hc & Hbh).
  set (new := filled block p) in *. set (m := hd_view (cd_h s)) in *. pose proof (ci_tree _ _ _ Hc) as Ht.
  pose proof (fresh_tip genesis _ _ _ _ Hc He Hw) as Hfresh.
  assert (Hhn : hdrHash best ≠ hdrHash new).
  { intros E'. pose proof (ci_best _ _ _ Hc) as Hcb. rewrite E' in Hcb. congruence. }
  pose proof He as (Hpk & _). pose proof (ti_height _ _ Ht _ _ Hpk) as Hp0.
  assert (Hbp : hdrHash best ≠ hdrHash p).
  { intros E'. pose proof (hash_eq _ _ _ (ci_best _ _ _ Hc) Hpk E') as ->. apply Hoff. by exists []. }
  destruct (wallet_stores_tip new (Transactions block) s st Hok Hfits Hwd) as (fps & s1 & Hst & Hok1 & Hv1 & Hb1 & Hw1 & Hn1).
  { unfold fits, new. cbn. lia. }
  { done. }
  { intros tx Hin. by apply Htxs. }
  pose proof (CommitBlock_run genesis s best block p s1 fps Hs Hp Hpow Hhn Hph) as Hrun.
  cbv zeta in Hrun. fold new in Hrun. rewrite (proj2 (Z.ltb_lt _ _) Hw) in Hrun.
  specialize (Hrun Hst). rewrite bool_decide_false in Hrun by done. cbn [andb negb] in Hrun.
  destruct (fork_point_found genesis s1 m best p new Hc He Hw ltac:(lia) ltac:(unfold new; cbn; lia) Hok1 Hv1)
    as (c & la & lb & Hca & [[Hla Hta] _ _ [_ Hlb]]).
  rewrite (bindL_run _ _ s1 (inr c) s1) in Hrun by (by apply tryL_run).
  assert (Hcb : hdrHash best ≠ hdrHash c).
  { intros E'. pose proof (hash_eq _ _ _ (ci_best _ _ _ Hc) (linked_start _ _ _ Hla) E') as <-.
    destruct (proj1 (on_main_new genesis m p new Ht He Hfresh best)) as [->|?]; [|lia|done].
    exists (lb ++ [new]). by rewrite tip_of_snoc. }
  destruct (moveToFork_fails (Z.to_nat (Height best)) (hdrHash c) best s1 _ Hw1) as (e & s' & st' & Hmv & Hh' & Hw' & Hsame).
  { apply recorded_readable; [done|]. intros tx Hin. by apply Htxs. }
  { by rewrite Hn1. }
  { done. }
  { done. }
  exists e, s', st'. split; [|split; [by rewrite Hh'|by split]]. rewrite Hrun.
  rewrite (bindL_run _ _ s1 (inl e) s'); [done|]. unfold tryL.
  rewrite (bind_run _ _ s1 (inl e) s'); [done|]. apply try_run_err.
  unfold chainDB_ProcessReorganize, bindL. by apply bind_run_err.
Qed.

(** a block of a side branch in which the wallet's filter matched nothing is
    answered with an error: its header is stored, but the fork store refuses an
    empty list. *)
Theorem wallet_side_block_error (genesis : Header H) s best (block : Block H T) p st :
  chain_ok genesis s best → hd_view (cd_h s) !! hdrPrevious (BlockHdr block) = Some p →
  checkProofOfWork (BlockHdr block) = true → hdrHash best ≠ hdrHash (BlockHdr block) →
  storable genesis s block p → TotalWork (filled block p) ≤ TotalWork best →
  wdb st (w_db (cd_t s)) → Transactions block = [] →
  ∃ s', CommitBlock block s =
      (Ok (Some (mkCommitResult false false 0 0 (Some (notNull "ForkTxs" "RawData")), mkBlock (filled block p) [])), s') ∧
    hd_view (cd_h s') = <[hdrHash (filled block p) := filled block p]> (hd_view (cd_h s)) ∧ cd_t s' = cd_t s.
Proof.
  intros Hs Hp Hpow Hne (He & Hfits & Hph) Hwork Hw Htx. pose proof Hs as (Hok & Hb & Hc & _).
  pose proof He as (Hpk & _). pose proof (ti_height _ _ (ci_tree _ _ _ Hc) _ _ Hpk) as Hp0. set (new := filled block p) in *.
  destruct (hdPut_law (cd_h s) new false Hok Hfits) as (h' & Hput & Hok' & Hv & _).
  exists (mkChainDB h' (cd_t s)). split; [|by split]. unfold CommitBlock.
  rewrite (bind_run _ _ s (inr best) s) by (by apply try_run, getBest_run).
  rewrite (bind_run _ _ s (inr p) s) by (by apply (parent_run genesis)).
  rewrite (checkHeader_pow genesis _ _ _ (ci_tree _ _ _ Hc) Hp), Hpow. cbn [negb].
  rewrite decide_False by done. rewrite u32_small by (unfold fits; lia). cbv zeta.
  change (TotalWork p + CalcWork (hdrBits (BlockHdr block))) with (TotalWork new).
  rewrite (proj2 (Z.ltb_ge _ _)) by lia. cbn [andb negb]. rewrite Htx.
  change (mkHeader (BlockHeaderOf (BlockHdr block)) (Height p + 1) (NumTxs (BlockHdr block)) (Hashes (BlockHdr block))
    (Flags (BlockHdr block)) (TotalWork new)) with new.
  rewrite (bind_run _ _ s (inl (notNull "ForkTxs" "RawData")) (mkChainDB h' (cd_t s))); [done|].
  apply try_run_err. unfold chainDB_CommitBlock. cbn [BlockHdr Transactions].
  rewrite (bind_run _ _ s () (mkChainDB h' (cd_t s))) by (unfold onHeaders, zoom; by rewrite Hput).
  cbv zeta. apply bind_run_err.
  apply (onTxs_wallet (wallet_PutForkTxs [] (hdrHash new)) (mkChainDB h' (cd_t s)) (Err (notNull "ForkTxs" "RawData")) (cd_t s)).
  unfold wallet_PutForkTxs. rewrite (bind_run getS _ (cd_t s) (cd_t s) (cd_t s) eq_refl). unfold onDB, zoom.
  cbn [fmap list_fmap]. rewrite (PutForkTxs_nothing _ _ _ Hw). by destruct (cd_t s).
Qed.
End chain.
