(* ===== verification/WalletDemo.v ===== *)
(** * An SQLite handle in memory, a small wallet, and the witnesses of its theorems *)
From Stdlib Require Import Floats.SpecFloat.
From S2P Require Import Demo Samples StoreDemo TxsDemo TablesDemo ArbitersDemo SpvDemo ChainDemo WalletChain.
#[local] Open Scope Z_scope.

(** ** Instances *)
#[export] Instance mem_sqlite : SQLite tables := {
  sq_Exec T st args := sql_exec st args T;
  sq_Query T q args := sql_query q args T;
}.
#[export] Instance mem_sqlite_laws : SQLiteLaws tables.
Proof.
  refine {| sq_tables T := T |}.
  - intros T st args. cbn. destruct (sql_exec st args T) as [T'|e|]; [by exists T'|done|done].
  - intros T q args. cbn. destruct (sql_query q args T) as [rows|e|]; [by exists rows|done|done].
Defined.

#[export] Instance demo_fixed64 : Fixed64Bytes := {
  Fixed64_Bytes z := Ok (le_bytes 8 (u64 z));
  Fixed64FromBytes bs := if decide (length bs = 8%nat) then Ok (i64 (le_value bs)) else Err (ErrStr "length");
}.
#[export] Instance demo_fixed64_laws : Fixed64BytesLaws.
Proof.
  split. intros z Hz. eexists. split; [done|]. cbn [Fixed64FromBytes demo_fixed64].
  rewrite decide_True by apply le_bytes_length. rewrite le_value_bytes.
  change (256 ^ Z.of_nat 8) with (2 ^ 64). fold (u64 (u64 z)). rewrite u64_small by apply u64_fits.
  by rewrite i64_u64.
Qed.
#[export] Instance demo_walletlib : WalletLib sample_tx := {
  IService_SendTransaction _ := Ok ();
  FTNexTTurnDPOSInfo := x04;
}.

(** ** A wallet that watches the address 5 and holds one output *)
Notation demo_W := (spvwallet tables sample_tx).
Definition demo_empty_ws : wstore := mkWS ∅ ∅ ∅ ∅ ∅ ∅.
Definition demo_addr : Addr := NewAddr (h168 5) [x21] TypeMaster.
Definition demo_op : OutPoint := NewOutPoint (h256 70) 0.
Definition demo_utxo : UTXO := mkUTXO demo_op 10 0 2 (h168 5).
Definition demo_db0 : tables := (NewDatabase ∅).2.
Definition demo_db1 : tables := (sqlAddrs_Put (h168 5) [x21] TypeMaster demo_db0).2.
Definition demo_db2 : tables := (utxos_Put demo_utxo demo_db1).2.
Definition demo_st1 : wstore := set_addrs {[h168 5 := demo_addr]} demo_empty_ws.
Definition demo_st2 : wstore := set_utxos {[demo_op := demo_utxo]} demo_st1.

Lemma keep_end {S A} (m : GoM S A) s a (Q : S → Prop) : (∃ s', m s = (Ok a, s') ∧ Q s') → Q (m s).2.
Proof. by intros (s' & -> & Hq). Qed.
Lemma demo_utxo_ok : utxo_ok demo_utxo.
Proof. split_and!; vm_compute; first [done | split; congruence]. Qed.
Lemma demo_db0_ok : wdb demo_empty_ws demo_db0.
Proof.
  unfold demo_db0. apply (keep_end _ _ () (wdb demo_empty_ws)).
  apply (NewDatabase_spec (DB := tables) ∅ demo_empty_ws); first [right; split; reflexivity | reflexivity].
Qed.
Lemma demo_db1_ok : wdb demo_st1 demo_db1.
Proof.
  unfold demo_db1. apply (keep_end _ _ () (wdb demo_st1)).
  apply (addrs_Put_spec_ (h168 5) [x21] TypeMaster _ _ demo_db0_ok). vm_compute. split; congruence.
Qed.
Lemma demo_db2_ok : wdb demo_st2 demo_db2.
Proof.
  unfold demo_db2. apply (keep_end _ _ () (wdb demo_st2)). apply (utxos_Put_spec demo_utxo _ _ demo_db1_ok), demo_utxo_ok.
Qed.

Definition demo_wallet : demo_W := mkWallet demo_db2 None true 1000 [].
(** A payment to the address, and a transaction that spends the output. *)
Definition demo_in : sample_tx := demo_pay (h256 77).
Definition demo_out : sample_tx := simple_tx 78 [] [(70, 0)].

Lemma demo_now : fits64s 1000.
Proof. split; lia. Qed.
Lemma demo_fits h : (0 <=? h) && (h <? 2 ^ 32) = true → fits 32 h.
Proof. intros [?%Z.leb_le ?%Z.ltb_lt]%andb_true_iff. by split. Qed.
Lemma demo_good_tx tx : (tx = demo_in ∨ tx = demo_out) → good_tx tx.
Proof.
  intros [-> | ->]; split.
  - intros o [->|?%not_elem_of_nil]%elem_of_cons; [|done]. vm_compute. split_and!; congruence.
  - intros i ?%not_elem_of_nil. done.
  - vm_compute. congruence.
  - intros o ?%not_elem_of_nil. done.
  - intros i [->|?%not_elem_of_nil]%elem_of_cons; [|done]. vm_compute. split; congruence.
  - vm_compute. congruence.
Qed.
Lemma demo_all_good tx : tx ∈ [demo_in; demo_out] → good_tx tx.
Proof. intros [->|[->|?%not_elem_of_nil]%elem_of_cons]%elem_of_cons; [apply demo_good_tx; by left|apply demo_good_tx; by right|done]. Qed.

(** ** The witnesses of the wallet *)
Lemma wallet_PutTxs_spec_witness : ∃ fps w' st',
  wallet_PutTxs [demo_in; demo_out] 4 demo_wallet = (Ok fps, w') ∧ wdb st' (w_db w') ∧
  ws_stxos st' = put_all s_Op (spends demo_st2 4 [demo_in; demo_out]) ∅.
Proof.
  destruct (wallet_PutTxs_spec [demo_in; demo_out] 4 demo_wallet demo_st2 (demo_fits 4 eq_refl) demo_now demo_all_good
    demo_db2_ok) as (w' & st' & Hr & Hw & _ & Hx & _).
  eexists _, w', st'. split; [exact Hr|]. split; [exact Hw|exact Hx].
Defined.
Lemma spent_output_stays_witness : ∃ fps w', wallet_PutTxs [demo_out] 4 demo_wallet = (Ok fps, w') ∧
  (∃ xs x, stxos_GetAddrAll (h168 5) (w_db w') = (Ok (xs, None), w_db w') ∧ x ∈ xs ∧ s_UTXO x = demo_utxo) ∧
  (∃ us, utxos_GetAddrAll (h168 5) (w_db w') = (Ok (us, None), w_db w') ∧ demo_utxo ∈ us).
Proof.
  apply (spent_output_stays [demo_out] 4 demo_wallet demo_st2 demo_op demo_utxo demo_out).
  - exact (demo_fits 4 eq_refl).
  - exact demo_now.
  - intros tx [->|?%not_elem_of_nil]%elem_of_cons; [apply demo_good_tx; by right|done].
  - exact demo_db2_ok.
  - vm_compute. reflexivity.
  - left.
  - vm_compute. left.
  - intros t [->|?%not_elem_of_nil]%elem_of_cons; [vm_compute; congruence|done].
Defined.
Lemma wallet_DelTxs_fails_witness : wallet_DelTxs 4 demo_wallet = (Err (noTable "TXNs"), demo_wallet).
Proof. exact (wallet_DelTxs_fails 4 demo_wallet demo_st2 demo_db2_ok). Defined.

Lemma demo_in_good tx : tx ∈ [demo_in] → good_tx tx.
Proof. intros [->|?%not_elem_of_nil]%elem_of_cons; [apply demo_good_tx; by left|done]. Qed.
Lemma demo_out_good tx : tx ∈ [demo_out] → good_tx tx.
Proof. intros [->|?%not_elem_of_nil]%elem_of_cons; [apply demo_good_tx; by right|done]. Qed.
Lemma rollbackOutputs_undoes_witness : ∃ fps w' db' st',
  wallet_PutTxs [demo_out] 4 demo_wallet = (Ok fps, w') ∧ rollbackOutputs 4 (w_db w') = (Ok (), db') ∧
  wdb st' db' ∧ ws_utxos st' = {[demo_op := demo_utxo]} ∧ ws_stxos st' = ∅.
Proof.
  apply (rollbackOutputs_undoes [demo_out] 4 demo_wallet demo_st2 (demo_fits 4 eq_refl) demo_now demo_out_good demo_db2_ok).
  - intros k u Hk. change (({[demo_op := demo_utxo]} : gmap OutPoint UTXO) !! k = Some u) in Hk.
    apply lookup_singleton_Some in Hk as [<- <-]. split; [vm_compute; congruence|].
    intros t [->|?%not_elem_of_nil]%elem_of_cons; [vm_compute; congruence|done].
  - intros k x Hk. done.
Defined.
Lemma wallet_GetTxs_roundtrip_witness : ∃ fps w' got,
  wallet_PutTxs [demo_in] 4 demo_wallet = (Ok fps, w') ∧ wallet_GetTxs 4 w' = (Ok got, w') ∧ got ≡ₚ [demo_in].
Proof.
  apply (wallet_GetTxs_roundtrip [demo_in] 4 demo_wallet demo_st2 (demo_fits 4 eq_refl) demo_now demo_in_good demo_db2_ok).
  - vm_compute. congruence.
  - intros k t Hk. done.
  - apply NoDup_singleton.
  - intros tx [->|?%not_elem_of_nil]%elem_of_cons; [|done]. vm_compute. reflexivity.
Defined.
Lemma wallet_HaveTx_spec_witness : wallet_HaveTx (h256 70) demo_wallet = (Err ErrNoRows, demo_wallet).
Proof. exact (wallet_HaveTx_spec (h256 70) demo_wallet demo_st2 demo_db2_ok). Defined.
Lemma wallet_Clear_spec_witness : ∃ w1 w2, wallet_Clear demo_wallet = (Ok (), w1) ∧
  wallet_PutTxs [demo_in] 4 w1 = (Err (noTable "UTXOs"), w2).
Proof.
  destruct (wallet_Clear_spec demo_wallet demo_st2 demo_db2_ok) as (w1 & Hc & Hp & _).
  destruct (Hp demo_in 4 (demo_in_good _ (list_elem_of_here _ _))) as (w2 & Hr & _).
  - exists (mkOutput (h168 5) 10 0 OTOther OutputPayloadOther). split; [left|vm_compute; reflexivity].
  - by exists w1, w2.
Defined.

(** The logarithm of the false positive rate the wallet asks for, 1e-9. *)
#[export] Instance demo_float : GoFloat := {
  math_Log _ := S754_finite true 5833080768823224 (-48);
  f64_to_u32_oob _ := 0;
  f64_to_u32_oob_fits _ := demo_fits 0 eq_refl;
}.
#[export] Instance demo_filterserialize : FilterSerialize := {
  FilterLoad_Serialize f := λ buf, (Ok (), buf ++ fl_Filter f);
}.
Lemma wallet_GetFilter_complete_witness : ∃ m w', wallet_GetFilter demo_wallet = (ToTxFilterMsg (Some m) x04, w') ∧
  ∃ f', iutil_MatchFilter demo_out (Some m) = (Ok true, f').
Proof.
  destruct (wallet_GetFilter_complete demo_wallet demo_st2 demo_db2_ok) as (m & w' & Hr & _ & Hm).
  - vm_compute. split; reflexivity.
  - exists m, w'. split; [exact Hr|]. apply Hm. right. exists (h256 70, 0). split; [vm_compute; left|].
    left. exists demo_utxo. vm_compute. reflexivity.
Defined.

(** ** The wallet under a chain that forks at the genesis *)
Notation demo_CDB := (chainDB mem_headers demo_W).
Definition demo_side := demo_block demo_genesis 5 0x207fffff.
Definition demo_side_hdr := filled demo_side demo_genesis.
Definition demo_heavy : Block sample_header sample_tx :=
  mkBlock (mkHeader (mksh (hdrHash demo_side_hdr) (h256 6) 0x1f7fffff 1) 0 1 [] [] 0) [demo_in].
Definition demo_empty_side : Block sample_header sample_tx :=
  mkBlock (mkHeader (mksh (hdrHash demo_side_hdr) (h256 8) 0x207fffff 1) 0 1 [] [] 0) [].
Definition demo_hs : mem_headers :=
  mkMH (<[hdrHash demo_side_hdr := demo_side_hdr]> (mh_map (cd_h demo_s2))) (mh_best (cd_h demo_s2)).
Definition demo_wchain : demo_CDB := mkChainDB demo_hs demo_wallet.

Lemma demo_hs_ok : chain_ok demo_genesis (mkChainDB demo_hs (mkMT ∅ ∅)) demo_h2.
Proof. apply demo_chain_ok; vm_compute; reflexivity. Qed.
Lemma demo_wchain_ok : chain_ok demo_genesis demo_wchain demo_h2.
Proof. exact demo_hs_ok. Qed.
Lemma demo_side_parent b : b = demo_heavy ∨ b = demo_empty_side →
  hd_view (cd_h demo_wchain) !! hdrPrevious (BlockHdr b) = Some demo_side_hdr.
Proof. intros [-> | ->]; vm_compute; reflexivity. Qed.
Lemma demo_side_storable b : b = demo_heavy ∨ b = demo_empty_side → storable demo_genesis demo_wchain b demo_side_hdr.
Proof.
  intros [-> | ->]; (split; [split; [|split; [split; [|split]|split]]|split; [exact I|vm_compute; reflexivity]]);
    try (vm_compute; first [reflexivity | intros; congruence]); intros h Hk; exfalso; revert Hk; vm_compute; congruence.
Qed.
Lemma demo_side_off : ¬ on_main (hd_view (cd_h demo_wchain)) demo_side_hdr demo_h2.
Proof.
  intros (l & Hl & Ht). pose proof (linked_height _ _ _ Hl) as Hh. rewrite Ht in Hh.
  change (Height demo_side_hdr) with 1 in Hh. change (Height demo_h2) with 2 in Hh. lia.
Qed.

Lemma wallet_side_block_error_witness : ∃ s', CommitBlock demo_empty_side demo_wchain =
  (Ok (Some (mkCommitResult false false 0 0 (Some (notNull "ForkTxs" "RawData")), mkBlock (filled demo_empty_side demo_side_hdr) [])), s').
Proof.
  destruct (wallet_side_block_error demo_genesis demo_wchain demo_h2 demo_empty_side demo_side_hdr demo_st2 demo_wchain_ok)
    as (s' & Hr & _); [..|exists s'; exact Hr].
  - apply demo_side_parent. by right.
  - vm_compute. reflexivity.
  - vm_compute. congruence.
  - apply demo_side_storable. by right.
  - vm_compute. congruence.
  - exact demo_db2_ok.
  - reflexivity.
Defined.
Lemma demo_readable : readable (T := sample_tx) demo_st2.
Proof. intros k t Hk. done. Qed.
Lemma wallet_reorg_fails_witness : ∃ e s' st', CommitBlock demo_heavy demo_wchain =
    (Ok (Some (mkCommitResult true true 0 0 (Some e), mkBlock (filled demo_heavy demo_side_hdr) [demo_in])), s') ∧
  hd_best (cd_h s') = Some (filled demo_heavy demo_side_hdr) ∧ wdb st' (w_db (cd_t s')).
Proof.
  destruct (wallet_reorg_fails demo_genesis demo_wchain demo_h2 demo_heavy demo_side_hdr demo_st2 demo_wchain_ok)
    as (e & s' & st' & Hr & Hb & Hw & _); [..|exists e, s', st'; split; [exact Hr|split; [exact Hb|exact Hw]]].
  - apply demo_side_parent. by left.
  - vm_compute. reflexivity.
  - apply demo_side_storable. by left.
  - vm_compute. reflexivity.
  - exact demo_side_off.
  - exact demo_db2_ok.
  - exact demo_readable.
  - exact demo_now.
  - vm_compute. split; congruence.
  - intros tx Htx. split; [by apply demo_in_good|].
    apply elem_of_cons in Htx as [->|?%not_elem_of_nil]; [|done]. vm_compute. split; [reflexivity|congruence].
Defined.
