(* ===== verification/Keystore.v ===== *)
(** * Keys: [sdk/account.go], [wallet/client/keystore.go], [keystore_file.go]
    and [interface/keystoreimpl.go]

    A keystore holds a master key and the accounts derived from it; its file
    holds them encrypted under a password.  The state of a call is the keystore
    and its environment: the file, the failures of file operations to come and
    the position in the random source. *)
From S2P Require Export Ela.
#[local] Open Scope Z_scope.

(** [contract.Contract]: what the source reads of it. *)
Record Contract := mkContract { ct_Code : bytes; ct_ToProgramHash : Uint168 }.

(** [sdk.Account] *)
Record Account (PK : Type) := mkAccount {
  ac_privateKey : bytes;
  ac_publicKey : PK;
  ac_redeemScript : bytes;
  ac_programHash : Uint168;
  ac_address : bytes;
}.
Arguments mkAccount {PK}.
Arguments ac_privateKey {PK}.
Arguments ac_publicKey {PK}.
Arguments ac_redeemScript {PK}.
Arguments ac_programHash {PK}.
Arguments ac_address {PK}.

Record KeystoreFile := mkKF {
  kf_Version : bytes;
  kf_IV : bytes;
  kf_PasswordHash : bytes;
  kf_MasterKeyEncrypted : bytes;
  kf_PrivateKeyEncrypted : bytes;
  kf_SubAccountsCount : Z;              (* an int *)
}.
#[global] Instance KeystoreFile_eq_dec : EqDecision KeystoreFile.
Proof. solve_decision. Defined.
Definition emptyFile : KeystoreFile := mkKF [] [] [] [] [] 0.

Record Keystore (PK : Type) := mkKeystore {
  ks_file : KeystoreFile;
  ks_masterKey : bytes;
  ks_accounts : list (Account PK);
}.
Arguments mkKeystore {PK}.
Arguments ks_file {PK}.
Arguments ks_masterKey {PK}.
Arguments ks_accounts {PK}.
(** [new(Keystore)] *)
Definition newKeystore {PK} : Keystore PK := mkKeystore emptyFile [] [].

(** The packages [crypto], [core/contract] and [common] of [Elastos.ELA]; the
    key pair generated depends on the position in the random source. *)
Class ElaCrypto (PK : Type) := {
  ToAesKey : bytes → bytes;
  AesEncrypt : bytes → bytes → bytes → outcome bytes;      (* text, key, iv *)
  AesDecrypt : bytes → bytes → bytes → outcome bytes;
  GenerateKeyPair : nat → outcome (bytes * PK);
  GenerateSubKeyPair : Z → bytes → bytes → outcome (bytes * PK);
  NewPubKey : bytes → PK;
  EncodePoint : PK → bool → outcome bytes;
  CreateStandardContract : PK → outcome Contract;
  ToAddress : Uint168 → outcome bytes;
  crypto_Sign : bytes → bytes → outcome bytes;
  BytesToHexString : bytes → bytes;
  HexStringToBytes : bytes → outcome bytes;
}.
(** [json.Marshal] of a keystore file, and [json.Unmarshal] into one, which may
    have set some fields when it fails. *)
Class KeystoreJson := {
  json_Marshal : KeystoreFile → outcome bytes;
  json_Unmarshal : bytes → KeystoreFile → KeystoreFile * option goerr;
}.
(** [crypto/rand.Read] of [n] bytes, at a position of the source. *)
Class GoRand := { rand_Read : nat → nat → outcome bytes }.

(** ** [sdk.Account] *)
Section account.
Context {PK : Type} `{!ElaCrypto PK}.
Definition NewAccount (privateKey : bytes) (publicKey : PK) : outcome (Account PK) :=
  contract ← CreateStandardContract publicKey;
  let programHash := ct_ToProgramHash contract in
  address ← ToAddress programHash;
  Ok (mkAccount privateKey publicKey (ct_Code contract) programHash address).
Definition Account_Sign (a : Account PK) (data : bytes) : outcome bytes := crypto_Sign (ac_privateKey a) data.
End account.

(** ** The file

    [ke_faults]: how the file operations to come end, [None] when they
    succeed; a failing write has written that many bytes. *)
Record kenv := mkEnv { ke_disk : option bytes; ke_faults : list (option nat); ke_rand : nat }.

Definition ioErr : goerr := ErrStr "i/o error".
Definition fault : GoM kenv (option nat) := λ e,
  match ke_faults e with
  | [] => (Ok None, e)
  | x :: l => (Ok x, mkEnv (ke_disk e) l (ke_rand e))
  end.
Definition write_disk (b : bytes) : GoM kenv unit := modify (λ e, mkEnv (Some b) (ke_faults e) (ke_rand e)).
(** [os.Stat]: is there an answer? *)
Definition os_Stat : GoM kenv bool :=
  f ← fault; e ← getS;
  mret (match f, ke_disk e with None, Some _ => true | _, _ => false end).
Definition fileOp : GoM kenv unit := f ← fault; match f with Some _ => throw ioErr | None => mret () end.

Section file.
Context `{!KeystoreJson}.

(** The file is truncated before the new content is encoded and written. *)
Definition SaveToFile (store : KeystoreFile) : GoM kenv unit :=
  fileOp ≫= λ _,
  write_disk [] ≫= λ _,
  data ← lift (json_Marshal store);
  f ← fault;
  match f with
  | Some n => write_disk (take n data) ≫= λ _, throw ioErr
  | None => write_disk data
  end.
Definition LoadFromFile (store : KeystoreFile) : GoM kenv KeystoreFile :=
  exists_ ← os_Stat;
  if negb exists_ then throw (ErrStr "keystore file not exist") else
  fileOp ≫= λ _,
  fileOp ≫= λ _,
  e ← getS;
  let '(store, err) := json_Unmarshal (default [] (ke_disk e)) store in
  match err with Some err => throw err | None => mret store end.

Definition KeystoreVersion : bytes := [x31; x2e; x30].    (* "1.0" *)
Definition CreateKeystoreFile : GoM kenv KeystoreFile :=
  exists_ ← os_Stat;
  if (exists_ : bool) then throw (ErrStr "key store file already exist")
  else mret (mkKF KeystoreVersion [] [] [] [] 0).
Definition OpenKeystoreFile : GoM kenv KeystoreFile := LoadFromFile emptyFile.
Definition KeystoreFile_Json (store : KeystoreFile) : outcome bytes := json_Marshal store.
Definition KeystoreFile_FromJson (str : bytes) (store : KeystoreFile) : KeystoreFile * option goerr :=
  json_Unmarshal str store.
End file.

Section fields.
Context {PK : Type} `{!ElaCrypto PK}.
Definition SetIV (iv : bytes) (s : KeystoreFile) : KeystoreFile :=
  mkKF (kf_Version s) (BytesToHexString iv) (kf_PasswordHash s) (kf_MasterKeyEncrypted s) (kf_PrivateKeyEncrypted s)
    (kf_SubAccountsCount s).
Definition SetPasswordHash (passwordHash : bytes) (s : KeystoreFile) : KeystoreFile :=
  mkKF (kf_Version s) (kf_IV s) (BytesToHexString passwordHash) (kf_MasterKeyEncrypted s) (kf_PrivateKeyEncrypted s)
    (kf_SubAccountsCount s).
Definition SetMasterKeyEncrypted (masterKeyEncrypted : bytes) (s : KeystoreFile) : KeystoreFile :=
  mkKF (kf_Version s) (kf_IV s) (kf_PasswordHash s) (BytesToHexString masterKeyEncrypted) (kf_PrivateKeyEncrypted s)
    (kf_SubAccountsCount s).
Definition SetPrivateKeyEncrypted (privateKeyEncrypted : bytes) (s : KeystoreFile) : KeystoreFile :=
  mkKF (kf_Version s) (kf_IV s) (kf_PasswordHash s) (kf_MasterKeyEncrypted s) (BytesToHexString privateKeyEncrypted)
    (kf_SubAccountsCount s).
Definition SetSubAccountsCount (n : Z) (s : KeystoreFile) : KeystoreFile :=
  mkKF (kf_Version s) (kf_IV s) (kf_PasswordHash s) (kf_MasterKeyEncrypted s) (kf_PrivateKeyEncrypted s) n.
Definition GetIV (s : KeystoreFile) : outcome bytes := HexStringToBytes (kf_IV s).
Definition GetPasswordHash (s : KeystoreFile) : outcome bytes := HexStringToBytes (kf_PasswordHash s).
Definition GetMasterKeyEncrypted (s : KeystoreFile) : outcome bytes := HexStringToBytes (kf_MasterKeyEncrypted s).
Definition GetPrivetKeyEncrypted (s : KeystoreFile) : outcome bytes := HexStringToBytes (kf_PrivateKeyEncrypted s).
End fields.

(** ** [Keystore] *)
Section keystore.
Context {PK : Type} `{!ElaCrypto PK} `{!Sha} `{!KeystoreJson} `{!GoRand}.
Notation KS := (Keystore PK).
Notation K := (GoM (KS * kenv)).
Implicit Types (store : KS) (file : KeystoreFile).

Definition set_file file store : KS := mkKeystore file (ks_masterKey store) (ks_accounts store).
Definition set_masterKey masterKey store : KS := mkKeystore (ks_file store) masterKey (ks_accounts store).
Definition set_accounts accounts store : KS := mkKeystore (ks_file store) (ks_masterKey store) accounts.
Definition onEnv {A} (m : GoM kenv A) : K A := zoom snd (λ e s, (s.1, e)) m.
Definition onKS {A} (m : GoM KS A) : K A := zoom fst (λ k s, (k, s.2)) m.

Definition encryptMasterKey file (passwordKey masterKey : bytes) : outcome bytes :=
  iv ← GetIV file; AesEncrypt masterKey passwordKey iv.
Definition decryptMasterKey file (passwordKey : bytes) : outcome bytes :=
  iv ← GetIV file;
  masterKeyEncrypted ← GetMasterKeyEncrypted file;
  AesDecrypt masterKeyEncrypted passwordKey iv.

(** [for i := range src { dst[at+i] = src[i] }] *)
Definition copyAt (at_ : Z) (src dst : bytes) : outcome bytes :=
  if (0 <=? at_) && (at_ + Z.of_nat (length src) <=? Z.of_nat (length dst))
  then Ok (list_inserts (Z.to_nat at_) src dst) else Panic.
Definition encryptPrivateKey file (masterKey passwordKey privateKey : bytes) (publicKey : PK) : outcome bytes :=
  publicKeyBytes ← EncodePoint publicKey false;
  if Z.of_nat (length publicKeyBytes) <? 65 then Panic else
  decryptedPrivateKey ← copyAt 0 (take 64 (drop 1 publicKeyBytes)) (replicate 96 x00);
  decryptedPrivateKey ← copyAt (96 - Z.of_nat (length privateKey)) privateKey decryptedPrivateKey;
  iv ← GetIV file;
  AesEncrypt decryptedPrivateKey masterKey iv.
Definition decryptPrivateKey file (masterKey passwordKey : bytes) : outcome (bytes * PK) :=
  privateKeyEncrypted ← GetPrivetKeyEncrypted file;
  if negb (Z.of_nat (length privateKeyEncrypted) =? 96) then Err (ErrStr "invalid encrypted private key") else
  iv ← GetIV file;
  keyPair ← AesDecrypt privateKeyEncrypted masterKey iv;
  if Z.of_nat (length keyPair) <? 96 then Panic else
  let privateKey := take 32 (drop 64 keyPair) in
  Ok (privateKey, NewPubKey privateKey).

Definition verifyPassword file (password : bytes) : outcome unit :=
  let passwordHash := Sum256 (ToAesKey password) in
  origin ← GetPasswordHash file;
  if bool_decide (origin = arr_bytes passwordHash) then Ok () else Err (ErrStr "password wrong").

(** The loop over the sub accounts, from [i]. *)
Fixpoint initSubAccounts (n : nat) (i : Z) (masterKey privateKey : bytes) : GoM KS unit :=
  match n with
  | O => mret ()
  | S n =>
      key ← lift (GenerateSubKeyPair i masterKey privateKey);
      childAccount ← lift (NewAccount key.1 key.2);
      modify (λ s, set_accounts (ks_accounts s ++ [childAccount]) s) ≫= λ _,
      initSubAccounts n (i + 1) masterKey privateKey
  end.
Definition initAccounts (masterKey privateKey : bytes) (publicKey : PK) : GoM KS unit :=
  mainAccount ← lift (NewAccount privateKey publicKey);
  modify (set_masterKey masterKey) ≫= λ _,
  modify (λ s, set_accounts (ks_accounts s ++ [mainAccount]) s) ≫= λ _,
  store ← getS;
  initSubAccounts (Z.to_nat (kf_SubAccountsCount (ks_file store))) 1 masterKey privateKey.

(** The error of [decryptMasterKey] is overwritten by the next call; its value
    is nil. *)
Definition initKeystore (keystoreFile : KeystoreFile) (password : bytes) : GoM KS unit :=
  modify (set_file keystoreFile) ≫= λ _,
  lift (verifyPassword keystoreFile password) ≫= λ _,
  let passwordKey := ToAesKey password in
  masterKey ← try (lift (decryptMasterKey keystoreFile passwordKey));
  let masterKey := match masterKey with inl _ => [] | inr masterKey => masterKey end in
  key ← lift (decryptPrivateKey keystoreFile masterKey passwordKey);
  initAccounts masterKey key.1 key.2.

Definition readRandom (n : nat) : GoM kenv bytes := λ e,
  match rand_Read n (ke_rand e) with
  | Ok b => (Ok b, mkEnv (ke_disk e) (ke_faults e) (S (ke_rand e)))
  | Err x => (Err x, e)
  | Panic => (Panic, e)
  end.
Definition newKeyPair : GoM kenv (bytes * PK) := λ e,
  (GenerateKeyPair (ke_rand e), mkEnv (ke_disk e) (ke_faults e) (S (ke_rand e))).

(** The error of [encryptPrivateKey] is overwritten by the next call; its value
    is nil. *)
Definition CreateKeystore (password : bytes) : GoM kenv KS :=
  keystoreFile ← CreateKeystoreFile;
  iv ← readRandom 16;
  let file := SetIV iv keystoreFile in
  masterKey ← readRandom 32;
  let passwordKey := ToAesKey password in
  let passwordHash := Sum256 passwordKey in
  let file := SetPasswordHash (arr_bytes passwordHash) file in
  masterKeyEncrypted ← lift (encryptMasterKey file passwordKey masterKey);
  let file := SetMasterKeyEncrypted masterKeyEncrypted file in
  key ← newKeyPair;
  privateKeyEncrypted ← try (lift (encryptPrivateKey file masterKey passwordKey key.1 key.2));
  let file := SetPrivateKeyEncrypted (match privateKeyEncrypted with inl _ => [] | inr b => b end) file in
  let '(o, store) := initAccounts masterKey key.1 key.2 (set_file file newKeystore) in
  lift o ≫= λ _,
  SaveToFile (ks_file store) ≫= λ _,
  mret store.
Definition OpenKeystore (password : bytes) : GoM kenv KS :=
  keystoreFile ← OpenKeystoreFile;
  let '(o, store) := initKeystore keystoreFile password newKeystore in
  lift o ≫= λ _, mret store.

Definition saveStore : K unit := s ← getS; onEnv (SaveToFile (ks_file s.1)).
Definition updateFile (f : KeystoreFile → KeystoreFile) : K unit := onKS (modify (λ k, set_file (f (ks_file k)) k)).

Definition ChangePassword (oldPassword newPassword : bytes) : K unit :=
  s ← getS;
  let file := ks_file s.1 in
  let oldPasswordKey := ToAesKey oldPassword in
  _ ← lift (GetMasterKeyEncrypted file);
  masterKey ← lift (decryptMasterKey file oldPasswordKey);
  key ← lift (decryptPrivateKey file masterKey oldPasswordKey);
  let newPasswordKey := ToAesKey newPassword in
  let newPasswordHash := Sum256 newPasswordKey in
  masterKeyEncrypted ← lift (encryptMasterKey file newPasswordKey masterKey);
  privateKeyEncrypted ← lift (encryptPrivateKey file masterKey newPasswordKey key.1 key.2);
  updateFile (SetPasswordHash (arr_bytes newPasswordHash)) ≫= λ _,
  updateFile (SetMasterKeyEncrypted masterKeyEncrypted) ≫= λ _,
  updateFile (SetPrivateKeyEncrypted privateKeyEncrypted) ≫= λ _,
  saveStore.

(** [if err != nil { panic(...) }] *)
Definition mustOk {S A} (m : GoM S A) : GoM S A := λ s,
  match m s with (Err _, s) => (Panic, s) | r => r end.
Definition Keystore_NewAccount : K (Account PK) :=
  s ← getS;
  let store := s.1 in
  main ← lift (or_panic (ks_accounts store !! 0%nat));
  key ← mustOk (lift (GenerateSubKeyPair (i64 (kf_SubAccountsCount (ks_file store) + 1)) (ks_masterKey store)
                        (ac_privateKey main)));
  account ← mustOk (lift (NewAccount key.1 key.2));
  onKS (modify (λ k, set_accounts (ks_accounts k ++ [account]) k)) ≫= λ _,
  updateFile (λ f, SetSubAccountsCount (i64 (kf_SubAccountsCount f + 1)) f) ≫= λ _,
  mustOk saveStore ≫= λ _,
  mret account.

Definition GetAccounts store : list (Account PK) := ks_accounts store.
Definition GetAccountByIndex (index : Z) store : option (Account PK) :=
  if (index <? 0) || (Z.of_nat (length (ks_accounts store)) - 1 <? index) then None
  else ks_accounts store !! Z.to_nat index.
Definition MainAccount store : option (Account PK) := GetAccountByIndex 0 store.
(** The program hash is not nil. *)
Definition GetAccountByProgramHash (programHash : Uint168) store : option (Account PK) :=
  snd <$> list_find (λ account, ac_programHash account = programHash) (ks_accounts store).

(** The error of [file.FromJson] is dropped. *)
Definition Keystore_FromJson (str password : bytes) : GoM KS unit :=
  let '(file, _) := KeystoreFile_FromJson str emptyFile in
  initKeystore file password.
Definition Keystore_Json store : outcome bytes := KeystoreFile_Json (ks_file store).

(** ** [interface/keystoreimpl.go]: the keystore, nil at first *)
Notation I := (GoM (option KS * kenv)).
Definition impl_onEnv {A} (m : GoM kenv A) : I A := zoom snd (λ e s, (s.1, e)) m.
Definition impl_set (k : option KS) : I unit := modify (λ s, (k, s.2)).
(** A call of the keystore; it panics on nil. *)
Definition impl_call {A} (m : K A) : I A := λ s,
  match s.1 with
  | None => (Panic, s)
  | Some k => let '(o, (k, e)) := m (k, s.2) in (o, (Some k, e))
  end.
Definition impl_read {A} (f : KS → A) : I A := s ← getS; k ← lift (or_panic s.1); mret (f k).

(** The keystore of a failed [OpenKeystore] is overwritten. *)
Definition impl_Open (password : bytes) : I unit :=
  opened ← try (impl_onEnv (OpenKeystore password));
  match opened with
  | inr k => impl_set (Some k)
  | inl _ =>
      created ← try (impl_onEnv (CreateKeystore password));
      match created with
      | inr k => impl_set (Some k)
      | inl err => impl_set None ≫= λ _, throw err
      end
  end.
Definition impl_ChangePassword (old new : bytes) : I unit := impl_call (ChangePassword old new).
Definition impl_MainAccount : I (option (Account PK)) := impl_read MainAccount.
Definition impl_NewAccount : I (Account PK) := impl_call Keystore_NewAccount.
Definition impl_GetAccounts : I (list (Account PK)) := impl_read GetAccounts.
Definition impl_Json : I bytes := s ← getS; k ← lift (or_panic s.1); lift (Keystore_Json k).
Definition impl_FromJson (str password : bytes) : I unit :=
  impl_set (Some newKeystore) ≫= λ _,
  impl_call (onKS (Keystore_FromJson str password)).
End keystore.
