(* ===== verification/KeystoreSpec.v ===== *)
(** * What a keystore file keeps

    [sealed]: under a password, the file of a keystore gives its keys back.
    Creating a keystore seals it, adding an account and changing the password
    keep it sealed, and opening a sealed file gives the same keystore. *)
From S2P Require Export Keystore.
#[local] Open Scope Z_scope.

Definition ascii (s : bytes) : Prop := Forall (λ b, Z_of_byte b < 128) s.
Definition text_file (f : KeystoreFile) : Prop :=
  ascii (kf_Version f) ∧ ascii (kf_IV f) ∧ ascii (kf_PasswordHash f) ∧ ascii (kf_MasterKeyEncrypted f) ∧
  ascii (kf_PrivateKeyEncrypted f) ∧ fits64s (kf_SubAccountsCount f).

(** The documented behaviour of the libraries: AES in a mode that keeps the
    length, hexadecimal text, keys that give standard contracts, JSON. *)
Class ElaCryptoLaws (PK : Type) `{!ElaCrypto PK} : Prop := {
  hex_ok b : HexStringToBytes (BytesToHexString b) = Ok b;
  hex_ascii b : ascii (BytesToHexString b);
  ToAesKey_length pw : length (ToAesKey pw) = 32%nat;
  aes_ok m key iv : length key = 32%nat → length iv = 16%nat → Z.of_nat (length m) mod 16 = 0 →
    ∃ c, AesEncrypt m key iv = Ok c ∧ length c = length m ∧ AesDecrypt c key iv = Ok m;
  point_ok (pk : PK) : ∃ b, EncodePoint pk false = Ok b ∧ length b = 65%nat;
  sub_ok i mk sk : ∃ key, GenerateSubKeyPair i mk sk = Ok key;
  contract_ok (pk : PK) : ∃ c, CreateStandardContract pk = Ok c;
  address_ok h : ∃ a, ToAddress h = Ok a;
}.
Class KeystoreJsonLaws `{!KeystoreJson} : Prop := {
  json_ok f : text_file f → ∃ b, json_Marshal f = Ok b ∧ ∀ g, json_Unmarshal b g = (f, None);
  json_cut f b n g : json_Marshal f = Ok b → (n < length b)%nat → is_Some (json_Unmarshal (take n b) g).2;
}.

Section spec.
Context {PK : Type} `{!ElaCrypto PK} `{!ElaCryptoLaws PK} `{!Sha} `{!KeystoreJson} `{!KeystoreJsonLaws} `{!GoRand}.
Notation KS := (Keystore PK).
Implicit Types (k : KS) (f : KeystoreFile) (e : kenv) (pw : bytes).

(** ** The accounts of two keys *)
Definition account_of (o : outcome (bytes * PK)) : outcome (Account PK) := key ← o; NewAccount key.1 key.2.
Fixpoint subs (n : nat) (i : Z) (mk sk : bytes) : outcome (list (Account PK)) :=
  match n with
  | O => Ok []
  | S n => a ← account_of (GenerateSubKeyPair i mk sk); l ← subs n (i + 1) mk sk; Ok (a :: l)
  end.
Definition derive (n : nat) (mk sk : bytes) : outcome (list (Account PK)) :=
  main ← NewAccount sk (NewPubKey sk); l ← subs n 1 mk sk; Ok (main :: l).

Lemma NewAccount_ok sk (pk : PK) : ∃ a, NewAccount sk pk = Ok a ∧ ac_privateKey a = sk ∧ ac_publicKey a = pk.
Proof.
  destruct (contract_ok pk) as (c & Hc). destruct (address_ok (ct_ToProgramHash c)) as (s & Hs).
  unfold NewAccount. rewrite Hc. cbn [mbind outcome_bind]. rewrite Hs. by eexists.
Qed.
Lemma account_of_ok i mk sk : ∃ a, account_of (GenerateSubKeyPair i mk sk) = Ok a.
Proof.
  destruct (sub_ok i mk sk) as (key & Hk). destruct (NewAccount_ok key.1 key.2) as (a & Ha & _).
  exists a. unfold account_of. by rewrite Hk.
Qed.
Lemma subs_ok n i mk sk : ∃ l, subs n i mk sk = Ok l.
Proof.
  revert i. induction n as [|n IH]; intros i; [by exists []|]. destruct (account_of_ok i mk sk) as (a & Ha).
  destruct (IH (i + 1)) as (l & Hl). exists (a :: l). cbn [subs]. rewrite Ha. cbn [mbind outcome_bind]. by rewrite Hl.
Qed.
Lemma subs_snoc n i mk sk l a : subs n i mk sk = Ok l → account_of (GenerateSubKeyPair (i + Z.of_nat n) mk sk) = Ok a →
  subs (S n) i mk sk = Ok (l ++ [a]).
Proof.
  revert i l. induction n as [|n IH]; intros i l Hl Ha.
  - injection Hl as <-. rewrite Z.add_0_r in Ha. cbn [subs]. by rewrite Ha.
  - cbn [subs] in Hl. apply outcome_bind_Ok in Hl as (b & Hb & Hl). apply outcome_bind_Ok in Hl as (l' & Hl' & [= <-]).
    change (subs (S (S n)) i mk sk) with (a ← account_of (GenerateSubKeyPair i mk sk); l ← subs (S n) (i + 1) mk sk; Ok (a :: l)).
    rewrite Hb. cbn [mbind outcome_bind]. rewrite (IH (i + 1) l'); [done|done|].
    by replace (i + 1 + Z.of_nat n) with (i + Z.of_nat (S n)) by lia.
Qed.
Lemma derive_ok n mk sk : ∃ main l, derive n mk sk = Ok (main :: l) ∧ ac_privateKey main = sk ∧ length l = n.
Proof.
  destruct (NewAccount_ok sk (NewPubKey sk)) as (main & Hm & Hp & _). destruct (subs_ok n 1 mk sk) as (l & Hl).
  exists main, l. unfold derive. rewrite Hm. cbn [mbind outcome_bind]. rewrite Hl. split_and!; [done|done|].
  clear Hm Hp. revert Hl. generalize 1. revert l. induction n as [|n IH]; intros l i Hl; [by injection Hl as <-|].
  cbn [subs] in Hl. apply outcome_bind_Ok in Hl as (b & _ & Hl). apply outcome_bind_Ok in Hl as (l' & Hl' & [= <-]).
  cbn. by rewrite (IH l' (i + 1)).
Qed.

Lemma initSubAccounts_run n : ∀ i mk sk l k, subs n i mk sk = Ok l →
  initSubAccounts n i mk sk k = (Ok (), set_accounts (ks_accounts k ++ l) k).
Proof.
  induction n as [|n IH]; intros i mk sk l k Hl.
  - injection Hl as <-. rewrite app_nil_r. by destruct k.
  - cbn [subs] in Hl. apply outcome_bind_Ok in Hl as (a & Ha & Hl). apply outcome_bind_Ok in Hl as (l' & Hl' & [= <-]).
    unfold account_of in Ha. apply outcome_bind_Ok in Ha as (key & Hk & Ha). cbn [initSubAccounts].
    rewrite (bind_run _ _ _ key k) by (unfold lift; by rewrite Hk).
    rewrite (bind_run _ _ _ a k) by (unfold lift; by rewrite Ha).
    rewrite (bind_run _ _ _ () (set_accounts (ks_accounts k ++ [a]) k)) by done.
    rewrite (IH _ _ _ _ _ Hl'). cbn [set_accounts ks_accounts ks_file ks_masterKey]. by rewrite <-app_assoc.
Qed.
Lemma initAccounts_run mk sk pk k main l : NewAccount sk pk = Ok main → 
  subs (Z.to_nat (kf_SubAccountsCount (ks_file k))) 1 mk sk = Ok l →
  initAccounts mk sk pk k = (Ok (), mkKeystore (ks_file k) mk (ks_accounts k ++ main :: l)).
Proof.
  intros Hm Hl. unfold initAccounts. rewrite (bind_run _ _ _ main k) by (unfold lift; by rewrite Hm).
  rewrite (bind_run _ _ _ () (set_masterKey mk k)) by done.
  rewrite (bind_run _ _ _ () (set_accounts (ks_accounts k ++ [main]) (set_masterKey mk k))) by done.
  rewrite (bind_run getS _ _ _ _ eq_refl). rewrite (initSubAccounts_run _ _ _ _ l); [|exact Hl].
  cbn [set_accounts set_masterKey ks_accounts ks_file ks_masterKey]. by rewrite <-app_assoc.
Qed.

(** ** Sealing *)
Definition pad32 (sk : bytes) : bytes := replicate (32 - length sk) x00 ++ sk.
Lemma pad32_length sk : (length sk ≤ 32)%nat → length (pad32 sk) = 32%nat.
Proof. intros. unfold pad32. rewrite length_app, length_replicate. lia. Qed.
Lemma pad32_full sk : length sk = 32%nat → pad32 sk = sk.
Proof. intros Hl. unfold pad32. by rewrite Hl. Qed.

Lemma key_pair_layout pk64 sk : length pk64 = 64%nat → (length sk ≤ 32)%nat →
  copyAt 0 pk64 (replicate 96 x00) ≫= copyAt (96 - Z.of_nat (length sk)) sk = Ok (pk64 ++ pad32 sk).
Proof.
  intros Hp Hs. unfold copyAt at 2. rewrite Hp, length_replicate. cbn [mbind outcome_bind andb Z.leb].
  change (replicate 96 x00) with (replicate 64 x00 ++ replicate 32 x00).
  assert (Hin : list_inserts (Z.to_nat 0) pk64 (replicate 64 x00 ++ replicate 32 x00) = pk64 ++ replicate 32 x00).
  { apply list_inserts_0_r. by rewrite Hp. }
  cbn [andb]. change (if (0 <=? 0) && (0 + Z.of_nat 64 <=? Z.of_nat 96) then
    Ok (list_inserts (Z.to_nat 0) pk64 (replicate 64 x00 ++ replicate 32 x00)) else Panic)
    with (Ok (list_inserts (Z.to_nat 0) pk64 (replicate 64 x00 ++ replicate 32 x00))).
  cbn [mbind outcome_bind]. rewrite Hin. unfold copyAt. rewrite length_app, Hp, length_replicate.
  rewrite (proj2 (Z.leb_le 0 _)) by lia. rewrite (proj2 (Z.leb_le _ _)) by lia. cbn [andb]. f_equal. unfold pad32.
  replace 32%nat with ((32 - length sk) + length sk)%nat at 1 by lia. rewrite replicate_add, !app_assoc.
  replace (Z.to_nat (96 - Z.of_nat (length sk))) with (length (pk64 ++ replicate (32 - length sk) x00) + 0)%nat
    by (rewrite length_app, length_replicate, Hp; lia).
  rewrite list_inserts_app_r. f_equal.
  pose proof (list_inserts_0_r sk (replicate (length sk) x00) [] ltac:(by rewrite length_replicate)) as Hi.
  by rewrite !app_nil_r in Hi.
Qed.

(** The file gives back these keys under this password. *)
Record sealed pw f (mk sk : bytes) : Prop := {
  sl_text : text_file f;
  sl_iv : ∃ iv, GetIV f = Ok iv ∧ length iv = 16%nat;
  sl_hash : GetPasswordHash f = Ok (arr_bytes (Sum256 (ToAesKey pw)));
  sl_master : decryptMasterKey f (ToAesKey pw) = Ok mk;
  sl_mk : length mk = 32%nat;
  sl_private : ∀ pk, decryptPrivateKey f mk pk = Ok (sk, NewPubKey sk);
  sl_sk : length sk = 32%nat;
}.
Definition resealed pw c1 c2 f : KeystoreFile :=
  SetPrivateKeyEncrypted c2 (SetMasterKeyEncrypted c1 (SetPasswordHash (arr_bytes (Sum256 (ToAesKey pw))) f)).

Lemma seal pw f iv mk sk pk : text_file f → GetIV f = Ok iv → length iv = 16%nat → length mk = 32%nat →
  (length sk ≤ 32)%nat →
  ∃ c1 c2, (∀ g, kf_IV g = kf_IV f → encryptMasterKey g (ToAesKey pw) mk = Ok c1) ∧
    (∀ g, kf_IV g = kf_IV f → encryptPrivateKey g mk (ToAesKey pw) sk pk = Ok c2) ∧
    sealed pw (resealed pw c1 c2 f) mk (pad32 sk).
Proof.
  intros (Tv & Ti & Tp & Tm & Tk & Tc) Hiv Hl Hmk Hsk.
  destruct (aes_ok mk (ToAesKey pw) iv (ToAesKey_length pw) Hl) as (c1 & E1 & L1 & D1); [by rewrite Hmk|].
  destruct (point_ok pk) as (pb & Hpb & Lpb).
  assert (Hp64 : length (take 64 (drop 1 pb)) = 64%nat) by (rewrite length_take, length_drop; lia).
  pose proof (key_pair_layout _ sk Hp64 Hsk) as Hlay. pose proof (pad32_length sk Hsk) as Hpad.
  destruct (aes_ok (take 64 (drop 1 pb) ++ pad32 sk) mk iv Hmk Hl) as (c2 & E2 & L2 & D2).
  { by rewrite length_app, Hp64, Hpad. }
  rewrite length_app, Hp64, Hpad in L2. exists c1, c2. split; [|split].
  - intros g Hg. unfold encryptMasterKey, GetIV. rewrite Hg. fold (GetIV f). by rewrite Hiv.
  - intros g Hg. unfold encryptPrivateKey. rewrite Hpb. cbn [mbind outcome_bind]. rewrite Lpb.
    change (Z.of_nat 65 <? 65) with false. cbv iota. apply outcome_bind_Ok in Hlay as (d & Hd0 & Hd1).
    rewrite Hd0. cbn [mbind outcome_bind]. rewrite Hd1. cbn [mbind outcome_bind].
    unfold GetIV. rewrite Hg. fold (GetIV f). rewrite Hiv. done.
  - assert (Hiv' : ∀ a b c, GetIV (SetPrivateKeyEncrypted a (SetMasterKeyEncrypted b (SetPasswordHash c f))) = Ok iv) by done.
    unfold resealed. split.
    + split_and!; cbn; try done; apply hex_ascii.
    + by exists iv.
    + apply hex_ok.
    + unfold decryptMasterKey. rewrite Hiv'. cbn [mbind outcome_bind]. unfold GetMasterKeyEncrypted. cbn.
      rewrite hex_ok. done.
    + done.
    + intros k0. unfold decryptPrivateKey. unfold GetPrivetKeyEncrypted. cbn [SetPrivateKeyEncrypted kf_PrivateKeyEncrypted].
      rewrite hex_ok. cbn [mbind outcome_bind]. rewrite L2, Hiv'. cbn [mbind outcome_bind negb Z.eqb].
      change (if negb (Z.of_nat (64 + 32) =? 96) then Err (ErrStr "invalid encrypted private key") else ?x) with x.
      cbn. rewrite D2. cbn [mbind outcome_bind]. rewrite length_app, Hp64, Hpad.
      change (Z.of_nat (64 + 32) <? 96) with false. cbv iota.
      rewrite (drop_app_length' _ _ 64) by done. by rewrite (take_ge (pad32 sk)) by lia.
    + done.
Qed.

(** ** Opening *)
Definition stored f e : Prop := ke_faults e = [] ∧ ∃ b, ke_disk e = Some b ∧ ∀ g, json_Unmarshal b g = (f, None).

Lemma LoadFromFile_run f g e : stored f e → LoadFromFile g e = (Ok f, e).
Proof.
  intros (Hf & b & Hd & Hj). destruct e as [disk faults r]. cbn in Hf, Hd. subst.
  unfold LoadFromFile, os_Stat, fileOp, mbind, GoM_bind, fault. cbn. by rewrite Hj.
Qed.
Lemma SaveToFile_run f e : text_file f → ke_faults e = [] →
  ∃ b, SaveToFile f e = (Ok (), mkEnv (Some b) [] (ke_rand e)) ∧ ∀ g, json_Unmarshal b g = (f, None).
Proof.
  intros Ht Hf. destruct (json_ok f Ht) as (b & Hb & Hj). exists b. split; [|done].
  destruct e as [disk faults r]. cbn in Hf. subst.
  unfold SaveToFile, fileOp, write_disk, fault, lift, mbind, GoM_bind, modify. cbn. by rewrite Hb.
Qed.

Lemma initKeystore_run pw f mk sk : sealed pw f mk sk →
  ∃ l, derive (Z.to_nat (kf_SubAccountsCount f)) mk sk = Ok l ∧
    initKeystore f pw newKeystore = (Ok (), mkKeystore f mk l).
Proof.
  intros [Ht (iv & Hiv & Hl) Hh Hm Hmk Hp Hsk]. destruct (derive_ok (Z.to_nat (kf_SubAccountsCount f)) mk sk) as (main & l & Hd & _).
  exists (main :: l). split; [done|]. unfold initKeystore.
  rewrite (bind_run _ _ _ () (set_file f newKeystore)) by done.
  rewrite (bind_run _ _ _ () (set_file f newKeystore)).
  2: { unfold lift, verifyPassword. rewrite Hh. cbn [mbind outcome_bind]. by rewrite bool_decide_eq_true_2. }
  cbv zeta. rewrite (bind_run _ _ _ (inr mk) (set_file f newKeystore)) by (apply try_run; unfold lift; by rewrite Hm).
  rewrite (bind_run _ _ _ (sk, NewPubKey sk) (set_file f newKeystore)) by (unfold lift; by rewrite Hp).
  unfold derive in Hd. apply outcome_bind_Ok in Hd as (main' & Hmain & Hd).
  apply outcome_bind_Ok in Hd as (l' & Hl' & [= -> ->]). by rewrite (initAccounts_run _ _ _ _ main l).
Qed.
Lemma OpenKeystore_run pw f mk sk e : sealed pw f mk sk → stored f e →
  ∃ l, derive (Z.to_nat (kf_SubAccountsCount f)) mk sk = Ok l ∧ OpenKeystore pw e = (Ok (mkKeystore f mk l), e).
Proof.
  intros Hs Hst. destruct (initKeystore_run pw f mk sk Hs) as (l & Hd & Hi). exists l. split; [done|].
  unfold OpenKeystore, OpenKeystoreFile. rewrite (bind_run _ _ _ _ _ (LoadFromFile_run f _ _ Hst)).
  rewrite Hi. done.
Qed.

(** A keystore in memory whose file gives it back. *)
Definition keystore_ok pw k : Prop := ∃ sk, sealed pw (ks_file k) (ks_masterKey k) sk ∧
  0 ≤ kf_SubAccountsCount (ks_file k) ∧
  derive (Z.to_nat (kf_SubAccountsCount (ks_file k))) (ks_masterKey k) sk = Ok (ks_accounts k).

Lemma open_same pw k e : keystore_ok pw k → stored (ks_file k) e → OpenKeystore pw e = (Ok k, e).
Proof.
  intros (sk & Hs & _ & Hd) Hst. destruct (OpenKeystore_run pw _ _ _ _ Hs Hst) as (l & Hl & Ho).
  rewrite Hd in Hl. injection Hl as <-. rewrite Ho. by destruct k.
Qed.
Lemma open_wrong pw pw' f mk sk e : sealed pw f mk sk → stored f e → Sum256 (ToAesKey pw') ≠ Sum256 (ToAesKey pw) →
  OpenKeystore (PK := PK) pw' e = (Err (ErrStr "password wrong"), e).
Proof.
  intros Hs Hst Hne. unfold OpenKeystore, OpenKeystoreFile. rewrite (bind_run _ _ _ _ _ (LoadFromFile_run f _ _ Hst)).
  unfold initKeystore. rewrite (bind_run _ _ newKeystore () (set_file f newKeystore)) by done.
  rewrite (bind_run_err _ _ (set_file f newKeystore) (ErrStr "password wrong") (set_file f newKeystore)); [done|].
  unfold lift, verifyPassword. rewrite (sl_hash _ _ _ _ Hs). cbn [mbind outcome_bind].
  rewrite bool_decide_eq_false_2; [done|]. intros E%(inj arr_bytes). by apply Hne.
Qed.

Lemma saveStore_run k e : text_file (ks_file k) → ke_faults e = [] →
  ∃ e', saveStore (k, e) = (Ok (), (k, e')) ∧ stored (ks_file k) e'.
Proof.
  intros Ht Hf. destruct (SaveToFile_run _ _ Ht Hf) as (b & Hs & Hj).
  exists (mkEnv (Some b) [] (ke_rand e)). split; [|by split; [|exists b]].
  unfold saveStore. rewrite (bind_run getS _ _ _ _ eq_refl). unfold onEnv, zoom. cbn [fst snd]. by rewrite Hs.
Qed.

(** *** [ChangePassword], with whatever keys the old password gives *)
Lemma ChangePassword_run old new k e mk sk : text_file (ks_file k) → ke_faults e = [] →
  (∃ iv, GetIV (ks_file k) = Ok iv ∧ length iv = 16%nat) →
  decryptMasterKey (ks_file k) (ToAesKey old) = Ok mk → length mk = 32%nat →
  decryptPrivateKey (ks_file k) mk (ToAesKey old) = Ok (sk, NewPubKey sk) → length sk = 32%nat →
  ∃ f e', ChangePassword old new (k, e) = (Ok (), (set_file f k, e')) ∧ sealed new f mk sk ∧ stored f e' ∧
    kf_SubAccountsCount f = kf_SubAccountsCount (ks_file k).
Proof.
  intros Ht Hf (iv & Hiv & Hl) Hm Hmk Hp Hsk. set (f0 := ks_file k) in *.
  destruct (seal new f0 iv mk sk (NewPubKey sk) Ht Hiv Hl Hmk ltac:(lia)) as (c1 & c2 & E1 & E2 & Hs).
  rewrite (pad32_full _ Hsk) in Hs. set (f := resealed new c1 c2 f0) in *.
  destruct (saveStore_run (set_file f k) e (sl_text _ _ _ _ Hs) Hf) as (e' & Hsave & Hst).
  exists f, e'. split; [|by split_and!]. unfold ChangePassword. rewrite (bind_run getS _ _ _ _ eq_refl).
  cbn [fst]. cbv zeta. fold f0. assert (Hme : ∃ me, GetMasterKeyEncrypted f0 = Ok me).
  { unfold decryptMasterKey in Hm. apply outcome_bind_Ok in Hm as (? & _ & Hm).
    apply outcome_bind_Ok in Hm as (me & Hm & _). by exists me. }
  destruct Hme as (me & Hme). rewrite (bind_run _ _ _ me (k, e)) by (unfold lift; by rewrite Hme).
  rewrite (bind_run _ _ _ mk (k, e)) by (unfold lift; by rewrite Hm).
  rewrite (bind_run _ _ _ (sk, NewPubKey sk) (k, e)) by (unfold lift; by rewrite Hp). cbn [fst snd].
  rewrite (bind_run _ _ _ c1 (k, e)) by (unfold lift; by rewrite E1).
  rewrite (bind_run _ _ _ c2 (k, e)) by (unfold lift; by rewrite E2).
  exact Hsave.
Qed.

Lemma ChangePassword_ok old new k e : keystore_ok old k → ke_faults e = [] →
  ∃ k' e', ChangePassword old new (k, e) = (Ok (), (k', e')) ∧ keystore_ok new k' ∧ stored (ks_file k') e' ∧
    ks_masterKey k' = ks_masterKey k ∧ ks_accounts k' = ks_accounts k.
Proof.
  intros (sk & Hs & Hc & Hd) Hf. destruct Hs as [Ht Hiv Hh Hm Hmk Hp Hsk].
  destruct (ChangePassword_run old new k e _ sk Ht Hf Hiv Hm Hmk (Hp _) Hsk) as (f & e' & Hr & Hs & Hst & Hn).
  exists (set_file f k), e'. split; [done|]. split; [|by split_and!].
  exists sk. cbn [ks_file set_file ks_masterKey ks_accounts]. by rewrite Hn.
Qed.

(** *** [NewAccount] *)
Lemma sealed_count pw n f mk sk : fits64s n → sealed pw f mk sk → sealed pw (SetSubAccountsCount n f) mk sk.
Proof. intros Hn [(? & ? & ? & ? & ? & ?) Hiv Hh Hm Hmk Hp Hsk]. split; try done. Qed.

(** The call up to the save. *)
Definition grown k (a : Account PK) : KS :=
  mkKeystore (SetSubAccountsCount (kf_SubAccountsCount (ks_file k) + 1) (ks_file k)) (ks_masterKey k) (ks_accounts k ++ [a]).
Lemma NewAccount_steps pw k : keystore_ok pw k → kf_SubAccountsCount (ks_file k) < 2 ^ 63 - 1 →
  ∃ a, keystore_ok pw (grown k a) ∧
    ∀ e, Keystore_NewAccount (k, e) = (mustOk saveStore ≫= λ _, mret a) (grown k a, e).
Proof.
  intros (sk & Hs & Hc & Hd) Hmax. set (n := kf_SubAccountsCount (ks_file k)) in *.
  destruct (derive_ok (Z.to_nat n) (ks_masterKey k) sk) as (main & l & Hd' & Hmain & Hlen).
  rewrite Hd in Hd'. injection Hd' as Hacc.
  destruct (account_of_ok (n + 1) (ks_masterKey k) sk) as (a & Ha). exists a. split.
  - exists sk. cbn [grown ks_file ks_masterKey ks_accounts SetSubAccountsCount kf_SubAccountsCount]. fold n.
    split; [by apply sealed_count; [split; lia|]|]. split; [lia|].
    unfold derive in Hd |- *. apply outcome_bind_Ok in Hd as (main' & Hm' & Hd).
    apply outcome_bind_Ok in Hd as (l' & Hl' & [= Hd]). rewrite Hm'. cbn [mbind outcome_bind].
    replace (Z.to_nat (n + 1)) with (S (Z.to_nat n)) by lia.
    rewrite (subs_snoc _ _ _ _ _ a Hl'); [by rewrite <-Hd|]. by replace (1 + Z.of_nat (Z.to_nat n)) with (n + 1) by lia.
  - intros e. unfold account_of in Ha. apply outcome_bind_Ok in Ha as (key & Hk & Ha).
    unfold Keystore_NewAccount. rewrite (bind_run getS _ _ _ _ eq_refl). cbn [fst]. cbv zeta. fold n.
    rewrite (bind_run _ _ _ main (k, e)) by (unfold lift; by rewrite Hacc).
    rewrite i64_small by lia. rewrite Hmain.
    rewrite (bind_run _ _ _ key (k, e)) by (unfold mustOk, lift; by rewrite Hk).
    rewrite (bind_run _ _ _ a (k, e)) by (unfold mustOk, lift; by rewrite Ha).
    rewrite (bind_run _ _ _ () (set_accounts (ks_accounts k ++ [a]) k, e)) by done.
    rewrite (bind_run _ _ _ () (grown k a, e)); [done|].
    unfold updateFile, onKS, zoom, modify. cbn [fst snd set_accounts ks_file]. fold n. by rewrite i64_small by lia.
Qed.
Lemma NewAccount_run pw k e : keystore_ok pw k → ke_faults e = [] → kf_SubAccountsCount (ks_file k) < 2 ^ 63 - 1 →
  ∃ a k' e', Keystore_NewAccount (k, e) = (Ok a, (k', e')) ∧ keystore_ok pw k' ∧ stored (ks_file k') e' ∧
    ks_masterKey k' = ks_masterKey k ∧ ks_accounts k' = ks_accounts k ++ [a].
Proof.
  intros Hk Hf Hmax. destruct (NewAccount_steps pw k Hk Hmax) as (a & Hk' & Hr). pose proof Hk' as (sk & Hs & _).
  destruct (saveStore_run (grown k a) e (sl_text _ _ _ _ Hs) Hf) as (e' & Hsave & Hst).
  exists a, (grown k a), e'. split; [|by split_and!]. rewrite Hr.
  by rewrite (bind_run _ _ _ () (grown k a, e')) by (unfold mustOk; by rewrite Hsave).
Qed.

(** ** A new keystore, and what can happen to it *)

(** The random source answers: an IV, a master key and a private key. *)
Record fresh e (iv mk sk : bytes) : Prop := {
  fr_disk : ke_disk e = None;
  fr_faults : ke_faults e = [];
  fr_iv : rand_Read 16 (ke_rand e) = Ok iv;
  fr_iv_len : length iv = 16%nat;
  fr_mk : rand_Read 32 (S (ke_rand e)) = Ok mk;
  fr_mk_len : length mk = 32%nat;
  fr_key : GenerateKeyPair (S (S (ke_rand e))) = Ok (sk, NewPubKey sk);
  fr_sk : (length sk ≤ 32)%nat;
}.
Lemma Create_run pw e iv mk sk : fresh e iv mk sk →
  ∃ f main e', NewAccount sk (NewPubKey sk) = Ok main ∧ CreateKeystore pw e = (Ok (mkKeystore f mk [main]), e') ∧
    sealed pw f mk (pad32 sk) ∧ kf_SubAccountsCount f = 0 ∧ stored f e'.
Proof.
  intros [Hd Hf Hiv Hl Hmk Hlm Hk Hsk]. destruct (NewAccount_ok sk (NewPubKey sk)) as (main & Hmain & _).
  set (f0 := SetIV iv (mkKF KeystoreVersion [] [] [] [] 0)).
  destruct (seal pw f0 iv mk sk (NewPubKey sk)) as (c1 & c2 & E1 & E2 & Hs); [|apply hex_ok|done|done|done|].
  { repeat split; try apply hex_ascii; try (by apply Forall_nil_2); try done.
    change KeystoreVersion with [x31; x2e; x30]. repeat (apply Forall_cons_2; [by vm_compute|]). by apply Forall_nil_2. }
  set (f := resealed pw c1 c2 f0) in *.
  destruct e as [disk faults r]. cbn in Hd, Hf, Hiv, Hmk, Hk. subst disk faults.
  destruct (SaveToFile_run f (mkEnv None [] (S (S (S r)))) (sl_text _ _ _ _ Hs) eq_refl) as (b & Hsave & Hj).
  exists f, main, (mkEnv (Some b) [] (S (S (S r)))). split; [done|]. split; [|by split_and!; [| |split; [|exists b]]].
  unfold CreateKeystore. rewrite (bind_run _ _ _ (mkKF KeystoreVersion [] [] [] [] 0) (mkEnv None [] r)) by done.
  rewrite (bind_run _ _ _ iv (mkEnv None [] (S r))) by (unfold readRandom; cbn; by rewrite Hiv).
  rewrite (bind_run _ _ _ mk (mkEnv None [] (S (S r)))) by (unfold readRandom; cbn; by rewrite Hmk).
  cbv zeta. rewrite (bind_run _ _ _ c1 (mkEnv None [] (S (S r)))) by (unfold lift; by rewrite E1).
  rewrite (bind_run _ _ _ (sk, NewPubKey sk) (mkEnv None [] (S (S (S r))))) by (unfold newKeyPair; cbn; by rewrite Hk).
  cbn [fst snd]. rewrite (bind_run _ _ _ (inr c2) (mkEnv None [] (S (S (S r))))) by (apply try_run; unfold lift; by rewrite E2).
  change (SetPrivateKeyEncrypted c2 (SetMasterKeyEncrypted c1 (SetPasswordHash (arr_bytes (Sum256 (ToAesKey pw)))
    (SetIV iv (mkKF KeystoreVersion [] [] [] [] 0))))) with f.
  rewrite (initAccounts_run _ _ _ _ main []); [|done|done]. cbn [set_file newKeystore ks_file ks_accounts app].
  rewrite (bind_run _ _ _ () (mkEnv None [] (S (S (S r))))) by done. by rewrite (bind_run _ _ _ _ _ Hsave).
Qed.

(** a keystore that was just created opens again under its password, with
    the same keys when the private key generated fills its 32 bytes, and with
    the key padded with zeros when it is shorter. *)
Theorem CreateKeystore_Open pw e iv mk sk : fresh e iv mk sk →
  ∃ k e' k', CreateKeystore pw e = (Ok k, e') ∧ OpenKeystore pw e' = (Ok k', e') ∧
    (ac_privateKey <$> ks_accounts k) = [sk] ∧ (ac_privateKey <$> ks_accounts k') = [pad32 sk] ∧
    ks_file k' = ks_file k ∧ ks_masterKey k' = ks_masterKey k ∧ (length sk = 32%nat → k' = k ∧ keystore_ok pw k).
Proof.
  intros Hfr. destruct (Create_run pw e iv mk sk Hfr) as (f & main & e' & Hm & Hc & Hs & Hn & Hst).
  destruct (OpenKeystore_run pw f mk _ e' Hs Hst) as (l & Hl & Ho).
  eexists _, e', _. split; [exact Hc|]. split; [exact Ho|]. rewrite Hn in Hl.
  destruct (derive_ok 0 mk (pad32 sk)) as (main' & l' & Hd' & Hp' & Hlen). change (Z.to_nat 0) with 0%nat in Hl.
  rewrite Hd' in Hl. injection Hl as <-. destruct l'; [|done]. cbn [ks_accounts fmap list_fmap].
  destruct (NewAccount_ok sk (NewPubKey sk)) as (main2 & Hm2 & Hp2 & _). rewrite Hm in Hm2. injection Hm2 as <-.
  split_and!; [by rewrite Hp2|by rewrite Hp'|done|done|]. intros H32. rewrite pad32_full in * by done.
  unfold derive in Hd'. rewrite Hm in Hd'. cbn in Hd'. injection Hd' as <-. split; [done|].
  exists sk. cbn. rewrite Hn. split_and!; [done|done|]. unfold derive. by rewrite Hm.
Qed.

(** A step of a keystore that is used with its password. *)
Notation st := (bytes * (KS * kenv))%type.
Inductive kstep : st → st → Prop :=
  | step_NewAccount pw k e a k' e' : kf_SubAccountsCount (ks_file k) < 2 ^ 63 - 1 →
      Keystore_NewAccount (k, e) = (Ok a, (k', e')) → kstep (pw, (k, e)) (pw, (k', e'))
  | step_ChangePassword pw new k e k' e' :
      ChangePassword pw new (k, e) = (Ok (), (k', e')) → kstep (pw, (k, e)) (new, (k', e'))
  | step_reopen pw k e k' e' : OpenKeystore pw e = (Ok k', e') → kstep (pw, (k, e)) (pw, (k', e')).
Definition good (s : st) : Prop := keystore_ok s.1 s.2.1 ∧ stored (ks_file s.2.1) s.2.2.

Lemma kstep_good s s' : kstep s s' → good s →
  good s' ∧ ks_masterKey s'.2.1 = ks_masterKey s.2.1 ∧ ks_accounts s.2.1 `prefix_of` ks_accounts s'.2.1.
Proof.
  intros Hstep (Hk & Hst). pose proof Hst as (Hf & _).
  destruct Hstep as [pw k e a k' e' Hn Hr|pw new k e k' e' Hr|pw k e k' e' Hr]; cbn [fst snd] in *.
  - destruct (NewAccount_run pw k e Hk Hf Hn) as (a2 & k2 & e2 & Hr2 & Hk2 & Hst2 & Hm & Ha).
    rewrite Hr in Hr2. injection Hr2 as <- <- <-. split; [by split|]. split; [done|]. rewrite Ha. by eexists.
  - destruct (ChangePassword_ok pw new k e Hk Hf) as (k2 & e2 & Hr2 & Hk2 & Hst2 & Hm & Ha).
    rewrite Hr in Hr2. injection Hr2 as <- <-. split; [by split|]. split; [done|]. by rewrite Ha.
  - rewrite (open_same pw k e Hk Hst) in Hr. injection Hr as <- <-. by split.
Qed.

Lemma ksteps_good s s' : rtc kstep s s' → good s →
  good s' ∧ ks_masterKey s'.2.1 = ks_masterKey s.2.1 ∧ ks_accounts s.2.1 `prefix_of` ks_accounts s'.2.1.
Proof.
  induction 1 as [s|s s1 s' Hstep _ IH]; intros Hg; [by split_and!|].
  destruct (kstep_good _ _ Hstep Hg) as (Hg1 & Hm1 & Hp1). destruct (IH Hg1) as (Hg' & Hm' & Hp').
  split; [done|]. split; [congruence|by etrans].
Qed.

(** C10: a keystore that was created and opened under its password, and used since.
    The keys opened are those created, the private key padded to its 32 bytes (the
    same key when it has them; a shorter one is stored padded).  Whatever accounts are
    added from there and however often the password is changed by one who knows it,
    opening the file under the last password gives the keystore in memory, with the
    keys and every account; a password with another hash is refused. *)
Theorem keystore_history pw0 e0 iv mk sk k0 e1 : fresh e0 iv mk sk → CreateKeystore pw0 e0 = (Ok k0, e1) →
  ∃ k1, OpenKeystore pw0 e1 = (Ok k1, e1) ∧ ks_masterKey k1 = mk ∧ ac_privateKey <$> ks_accounts k1 = [pad32 sk] ∧
  (length sk = 32%nat → k1 = k0) ∧
  ∀ pw k e, rtc kstep (pw0, (k1, e1)) (pw, (k, e)) →
    OpenKeystore pw e = (Ok k, e) ∧ ks_masterKey k = mk ∧ ks_accounts k1 `prefix_of` ks_accounts k ∧
    ∀ pw', Sum256 (ToAesKey pw') ≠ Sum256 (ToAesKey pw) →
      OpenKeystore (PK := PK) pw' e = (Err (ErrStr "password wrong"), e).
Proof.
  intros Hfr Hc. destruct (CreateKeystore_Open pw0 e0 iv mk sk Hfr) as (k & e' & k1 & Hc' & Ho & _ & Hkeys & _ & _ & Hsame).
  rewrite Hc in Hc'. injection Hc' as <- <-.
  destruct (Create_run pw0 e0 iv mk sk Hfr) as (f & main & e' & _ & Hc' & Hs & Hn & Hst).
  rewrite Hc in Hc'. injection Hc' as -> ->.
  destruct (OpenKeystore_run pw0 f mk _ e' Hs Hst) as (l & Hl & Ho'). rewrite Ho in Ho'. injection Ho' as ->.
  eexists. split; [exact Ho|]. split_and!; [done|exact Hkeys|by intros []%Hsame|].
  intros pw k e Hsteps. assert (Hgood : good (pw0, (mkKeystore f mk l, e'))) by by (split; [exists (pad32 sk); cbn; rewrite ?Hn; rewrite ?Hn in Hl; by split_and!|done]).
  destruct (ksteps_good _ _ Hsteps Hgood) as ((Hk & Hst') & Hmk & Hp). cbn [fst snd] in *.
  split; [by apply open_same|]. split_and!; [done|done|]. intros pw' Hne. destruct Hk as (sk' & Hs' & _).
  by apply (open_wrong pw pw' _ _ _ _ Hs').
Qed.

(** C31: with a password that is not the keystore's, [ChangePassword] does not
    fail: it seals what the wrong password decrypts to.  The keystore in memory
    keeps its accounts, but its file gives other keys, under the new password. *)
Theorem ChangePassword_unchecked pw old new k e mk' kp : keystore_ok pw k → ke_faults e = [] →
  decryptMasterKey (ks_file k) (ToAesKey old) = Ok mk' → length mk' = 32%nat →
  decryptPrivateKey (ks_file k) mk' (ToAesKey old) = Ok (kp, NewPubKey kp) → length kp = 32%nat →
  ∃ k' e' k2, ChangePassword old new (k, e) = (Ok (), (k', e')) ∧ ks_accounts k' = ks_accounts k ∧
    OpenKeystore new e' = (Ok k2, e') ∧ ks_masterKey k2 = mk' ∧ ac_privateKey <$> head (ks_accounts k2) = Some kp ∧
    (Sum256 (ToAesKey pw) ≠ Sum256 (ToAesKey new) → OpenKeystore (PK := PK) pw e' = (Err (ErrStr "password wrong"), e')).
Proof.
  intros (sk & Hs & _) Hf Hm Hmk Hp Hkp. destruct Hs as [Ht Hiv _ _ _ _ _].
  destruct (ChangePassword_run old new k e mk' kp Ht Hf Hiv Hm Hmk Hp Hkp) as (f & e' & Hr & Hs & Hst & _).
  destruct (OpenKeystore_run new f mk' kp e' Hs Hst) as (l & Hl & Ho).
  exists (set_file f k), e', (mkKeystore f mk' l). split_and!; try done.
  - destruct (derive_ok (Z.to_nat (kf_SubAccountsCount f)) mk' kp) as (main & l' & Hd & Hpk & _).
    rewrite Hd in Hl. injection Hl as <-. cbn. by rewrite Hpk.
  - intros Hne. by apply (open_wrong new pw f mk' kp).
Qed.

(** ** The file on the disk *)
Lemma os_Stat_present e d : ke_faults e = [] → ke_disk e = Some d → os_Stat e = (Ok true, e).
Proof. destruct e as [disk faults r]. cbn. by intros -> ->. Qed.

(** [Open] of the interface never overwrites a keystore file that is there:
    when the file does not open, the creation is refused. *)
Theorem impl_Open_keeps_file pw (s : option KS * kenv) d : ke_faults s.2 = [] → ke_disk s.2 = Some d →
  ∃ o (k : option KS), impl_Open pw s = (o, (k, s.2)) ∧
    match (OpenKeystore (PK := PK) pw s.2).1 with
    | Ok k' => o = Ok () ∧ k = Some k'
    | Err _ => o = Err (ErrStr "key store file already exist") ∧ k = None
    | Panic => o = Panic ∧ k = s.1
    end.
Proof.
  destruct s as [k e]. cbn [fst snd]. intros Hf Hd.
  assert (Hsame : ∃ o, OpenKeystore (PK := PK) pw e = (o, e)).
  { unfold OpenKeystore, OpenKeystoreFile, LoadFromFile. destruct e as [disk faults r]. cbn in Hf, Hd. subst.
    unfold fileOp, os_Stat, fault, mbind, GoM_bind. cbn.
    destruct (json_Unmarshal d emptyFile) as [f [x|]]; [by eexists|]. cbn.
    destruct (initKeystore f pw newKeystore) as [[[]|x|] k']; by eexists. }
  destruct Hsame as (o & Ho). unfold impl_Open. rewrite Ho. cbn [fst].
  assert (Hz : impl_onEnv (OpenKeystore pw) (k, e) = (o, (k, e))) by (unfold impl_onEnv, zoom; cbn; by rewrite Ho).
  destruct o as [k'|x|].
  - exists (Ok ()), (Some k'). split; [|done]. by rewrite (bind_run _ _ _ (inr k') (k, e)) by (by apply try_run).
  - exists (Err (ErrStr "key store file already exist")), None. split; [|done].
    rewrite (bind_run _ _ _ (inl x) (k, e)) by (by apply try_run_err).
    rewrite (bind_run _ _ _ (inl (ErrStr "key store file already exist")) (k, e)); [done|].
    apply try_run_err. unfold impl_onEnv, zoom. cbn [snd fst]. unfold CreateKeystore.
    rewrite (bind_run_err _ _ e (ErrStr "key store file already exist") e); [done|].
    unfold CreateKeystoreFile. by rewrite (bind_run _ _ _ _ _ (os_Stat_present e d Hf Hd)).
  - exists Panic, k. split; [|done]. unfold mbind at 1, GoM_bind at 1, try. by rewrite Hz.
Qed.

(** the file is truncated before it is written: when a write fails part way
    through, the keystore that was stored cannot be opened any more, whatever
    the password. *)
Theorem save_fault_loses_keys pw k e n b : keystore_ok pw k → stored (ks_file k) e →
  json_Marshal (SetSubAccountsCount (kf_SubAccountsCount (ks_file k) + 1) (ks_file k)) = Ok b →
  kf_SubAccountsCount (ks_file k) < 2 ^ 63 - 1 → (n < length b)%nat →
  ∃ k' e', Keystore_NewAccount (k, mkEnv (ke_disk e) [None; Some n] (ke_rand e)) = (Panic, (k', e')) ∧
    ke_disk e' = Some (take n b) ∧ ke_faults e' = [] ∧
    ∀ pw', ∃ x, OpenKeystore (PK := PK) pw' e' = (Err x, e').
Proof.
  intros Hk Hst Hb Hmax Hn. destruct (NewAccount_steps pw k Hk Hmax) as (a & _ & Hr).
  exists (grown k a), (mkEnv (Some (take n b)) [] (ke_rand e)). split; [|split; [done|split; [done|]]].
  - rewrite Hr. unfold mustOk, saveStore, onEnv, zoom, SaveToFile, fileOp, fault, lift, write_disk, mbind, GoM_bind.
    cbn. by rewrite Hb.
  - intros pw'. destruct (json_cut _ b n emptyFile Hb Hn) as (x & Hx). exists x. unfold OpenKeystore.
    rewrite (bind_run_err _ _ (mkEnv (Some (take n b)) [] (ke_rand e)) x (mkEnv (Some (take n b)) [] (ke_rand e))); [done|].
    unfold OpenKeystoreFile, LoadFromFile, os_Stat, fileOp, fault, mbind, GoM_bind. cbn.
    destruct (json_Unmarshal (take n b) emptyFile) as [g [y|]]; cbn in Hx; [by injection Hx as ->|done].
Qed.
End spec.
