(* ===== verification/Program.v ===== *)
(** * The programs around the parts

    [config.go] (the same file in the service's and the client's package),
    [main.go], and the key functions of [sdk/crypto.go]. *)
From S2P Require Export Keystore Util Buckets.
#[local] Open Scope Z_scope.

(** ** [loadConfig] *)
Record configParams := mkConfig {
  cfg_Network : bytes;
  cfg_PermanentPeers : list bytes;
  cfg_RPCPort : Z;                    (* a uint16 *)
  cfg_DebugLevel : bytes;
}.
Definition defaultConfig : configParams := mkConfig [] [] 20346 (lit "info").

(** [json.Unmarshal] into a value, which may have set some fields when it fails. *)
Class ConfigJson := { config_Unmarshal : bytes → configParams → configParams * option goerr }.

(** [bytes.TrimPrefix] *)
Definition TrimPrefix (data prefix : bytes) : bytes :=
  if decide (take (length prefix) data = prefix) then drop (length prefix) data else data.
Definition bom : bytes := [xef; xbb; xbf].

(** What the initialisation of the package leaves: the configuration, or the
    program gone with an exit status. *)
Definition loadConfig `{!ConfigJson} (file : outcome bytes) : Z + configParams :=
  match file with
  | Ok data => inr (config_Unmarshal (TrimPrefix data bom) defaultConfig).1
  | _ => inl (-1)
  end.

(** ** [main] *)
(** The exit status, or the wallet that was started and runs until the
    interrupt. *)
Definition main_ {W} (NewWallet : outcome W) : Z + outcome W :=
  match NewWallet with
  | Err _ => inl 0
  | r => inr r
  end.

Section config.
Context `{!ConfigJson}.
(** A byte order mark makes no difference, and neither does a text without one
    that does not start like one. *)
Lemma TrimPrefix_bom data : TrimPrefix (bom ++ data) bom = data.
Proof. done. Qed.
(** the configuration of a file is read with or without a byte order mark; a
    file that cannot be read ends the program; and a text the JSON package refuses
    without setting a field leaves the defaults. *)
Theorem loadConfig_spec data : take 3 data ≠ bom →
  loadConfig (Ok (bom ++ data)) = loadConfig (Ok data) ∧ loadConfig (Err (ErrStr "no such file")) = inl (-1) ∧
  ((config_Unmarshal data defaultConfig).1 = defaultConfig → loadConfig (Ok data) = inr defaultConfig).
Proof.
  intros Hne. unfold loadConfig. rewrite TrimPrefix_bom. unfold TrimPrefix. cbn [length bom]. rewrite decide_False by done.
  split_and!; [done|done|]. by intros ->.
Qed.
End config.

(** ** [sdk/crypto.go] *)
(** [ecdsa.GenerateKey] over [crypto/rand] at a position of the source gives the
    scalar; [curve.ScalarBaseMult] of its bytes the public key. *)
Class EllipticCurve (PK : Type) := {
  ecdsa_GenerateKey : nat → outcome Z;
  ScalarBaseMult : bytes → PK;
}.

Section crypto.
Context {PK : Type} `{!ElaCrypto PK} `{!EllipticCurve PK}.

(** The error is dropped, and the nil key read. *)
Definition GeneratePrivateKey (rnd : nat) : outcome bytes :=
  match ecdsa_GenerateKey rnd with
  | Ok D => Ok (bigBytes D)
  | _ => Panic
  end.
Definition GetPublicKey (privateKey : bytes) : PK := ScalarBaseMult privateKey.
(** Nil when [NewAccount] fails. *)
Definition GetAccount (privateKey : bytes) : outcome (option (Account PK)) :=
  match NewAccount privateKey (GetPublicKey privateKey) with
  | Ok a => Ok (Some a)
  | Err _ => Ok None
  | Panic => Panic
  end.

(** [ScalarBaseMult] reads its argument as a number, as documented. *)
Class EllipticCurveLaws : Prop := {
  ScalarBaseMult_value k k' : SetBytes k = SetBytes k' → ScalarBaseMult k = ScalarBaseMult k' :> PK;
}.
Context `{!EllipticCurveLaws}.
(** a generated key is shorter than the 32 bytes of the curve when the scalar
    is below 2^248; padded, it has the same public key. *)
Theorem GeneratePrivateKey_short rnd D : ecdsa_GenerateKey rnd = Ok D → 0 < D < 2 ^ 256 →
  ∃ key, GeneratePrivateKey rnd = Ok key ∧ SetBytes key = D ∧ (length key ≤ 32)%nat ∧
    (D < 2 ^ 248 → (length key < 32)%nat) ∧
    GetPublicKey (replicate (32 - length key) x00 ++ key) = GetPublicKey key :> PK.
Proof.
  intros Hg HD. exists (bigBytes D). unfold GeneratePrivateKey. rewrite Hg. split_and!; [done|by apply bigBytes_value; lia| | |].
  - pose proof (bigBytes_length D 32). change (256 ^ Z.of_nat 32) with (2 ^ 256) in *. lia.
  - intros Hs. pose proof (bigBytes_length D 31). change (256 ^ Z.of_nat 31) with (2 ^ 248) in *. lia.
  - apply ScalarBaseMult_value. unfold SetBytes. by rewrite be_value_pad.
Qed.
End crypto.
