(* ===== verification/Client.v ===== *)
(** * The wallet client: [wallet/client/wallet.go], [common.go] and
    [wallet/client/database]

    A process apart from the SPV service, over the same SQLite files: it keeps
    the keystore, picks the outputs to spend and asks the service by JSON-RPC.
    The state of a call is everything the client reads and writes. *)
From S2P Require Export Wallet Keystore.
#[local] Open Scope Z_scope.

(** ** Data *)
Record Transfer := mkTransfer { tr_Address : bytes; tr_Value : Z }.
(** [types.Input] and [types.Output]: the fields the client sets. *)
Record TxInput := mkTxInput { ti_TxID : Uint256; ti_Index : Z; ti_Sequence : Z }.
Record TxOutput := mkTxOutput { to_AssetID : Uint256; to_ProgramHash : Uint168; to_Value : Z; to_OutputLock : Z }.
(** [program.Program] *)
Record Program := mkProgram { Code : bytes; Parameter_ : bytes }.
(** The arguments of [transaction.CreateTransaction]. *)
Record TxArgs := mkTxArgs {
  ta_Version : Z; ta_TxType : TxType; ta_PayloadVersion : Z; ta_Payload : Payload;
  ta_Nonces : list bytes;                  (* the attributes: nonces *)
  ta_Inputs : list TxInput; ta_Outputs : list TxOutput; ta_LockTime : Z; ta_Programs : list Program;
}.
#[global] Instance Program_eq_dec : EqDecision Program.
Proof. solve_decision. Defined.

(** The packages of [Elastos.ELA] that build and sign transactions. *)
Class ClientLib (PK T : Type) := {
  TxVersionDefault : Z;
  TransferAsset : TxType;
  TransferCrossChainVersion : Z;
  CreateTransaction_ : TxArgs → T;
  etx_Programs : T → list Program;
  etx_SetPrograms : list Program → T → T;
  etx_SerializeUnsigned : T → Writer;
  GetScriptType : bytes → outcome byte;
  STANDARD : byte;
  MULTISIG : byte;
  PrefixStandard : byte;
  common_ToProgramHash : byte → bytes → Uint168;
  ParseMultisigScript : bytes → outcome (list bytes);
  AppendSignature : Z → bytes → bytes → bytes → bytes → outcome bytes;
  CreateMultiSigContract : Z → list PK → outcome Contract;
  Uint168_String : Uint168 → bytes;
  (* jsonrpc.CallArray(url, method, param) *)
  jsonrpc_CallArray : string → bytes → outcome unit;
}.
(** [math/rand.Int63], at a position of its source. *)
Class MathRand := { rand_Int63 : nat → Z }.

(** A line of [ShowAccounts]. *)
Record Shown := mkShown { sh_Address : Uint168; sh_Available : Z; sh_Locked : Z; sh_Type : string; sh_New : bool }.

Record Client (DB PK : Type) := mkClient {
  cl_db : DB;
  cl_keystore : option (Keystore PK);      (* nil until a password is verified *)
  cl_env : kenv;
  cl_assetId : Uint256;                    (* sysAssetId *)
  cl_rand : nat;
  cl_calls : list (string * bytes);        (* JSON-RPC calls, oldest first *)
  cl_passwords : list (option bytes);      (* what gopass will read, None for an error *)
  cl_stdin : list (option bytes);          (* what each read of the standard input will give, None for
                                              an error; then the input ends *)
  cl_shown : list Shown;                   (* lines printed *)
}.
Arguments mkClient {DB PK}.
Arguments cl_db {DB PK}.
Arguments cl_keystore {DB PK}.
Arguments cl_env {DB PK}.
Arguments cl_assetId {DB PK}.
Arguments cl_rand {DB PK}.
Arguments cl_calls {DB PK}.
Arguments cl_passwords {DB PK}.
Arguments cl_stdin {DB PK}.
Arguments cl_shown {DB PK}.

(** [strconv.FormatInt] of a number that is not negative. *)
Fixpoint decimal (fuel : nat) (z : Z) : bytes :=
  match fuel with
  | O => []
  | S fuel => (if z <? 10 then [] else decimal fuel (z / 10)) ++ [byte_of_Z (48 + z mod 10)]
  end.
Definition FormatInt (z : Z) : bytes := decimal 20 z.

(** A line with its end, when the bytes have one. *)
Fixpoint upToNewline (s : bytes) : option bytes :=
  match s with
  | [] => None
  | b :: s => if decide (b = x0a) then Some [b] else cons b <$> upToNewline s
  end.
(** [bufio.NewReader(os.Stdin).ReadString('\n')]: reads until one has the end of
    the line.  The reader is a new one at every call, so what the last read held
    after the line is lost with it; so is what was read before an error. *)
Fixpoint readString (line : bytes) (reads : list (option bytes)) : option bytes * list (option bytes) :=
  match reads with
  | [] => (None, [])
  | None :: reads => (None, reads)
  | Some chunk :: reads =>
      match upToNewline chunk with
      | Some end_ => (Some (line ++ end_), reads)
      | None => readString (line ++ chunk) reads
      end
  end.

Section client.
Context {DB PK T : Type} `{!SQLite DB} `{E : ElaCommon} `{!Uint168Bytes} `{!Uint256Bytes} `{!Fixed64Bytes}.
Context `{!ElaTransaction T} `{!ListenerLib} `{!Sha} `{!ElaCrypto PK} `{!KeystoreJson} `{!GoRand} `{!MathRand}.
Context `{!ClientLib PK T} `{!GoSort}.
Notation W := (Client DB PK).
Implicit Types (w : W).

Definition cl_set_db db w : W := mkClient db (cl_keystore w) (cl_env w) (cl_assetId w) (cl_rand w) (cl_calls w)
  (cl_passwords w) (cl_stdin w) (cl_shown w).
Definition cl_set_keys k e w : W := mkClient (cl_db w) k e (cl_assetId w) (cl_rand w) (cl_calls w)
  (cl_passwords w) (cl_stdin w) (cl_shown w).
Definition cl_set_rand n w : W := mkClient (cl_db w) (cl_keystore w) (cl_env w) (cl_assetId w) n (cl_calls w)
  (cl_passwords w) (cl_stdin w) (cl_shown w).
Definition cl_add_call c w : W := mkClient (cl_db w) (cl_keystore w) (cl_env w) (cl_assetId w) (cl_rand w) (cl_calls w ++ [c])
  (cl_passwords w) (cl_stdin w) (cl_shown w).
Definition cl_set_term ps ls w : W := mkClient (cl_db w) (cl_keystore w) (cl_env w) (cl_assetId w) (cl_rand w) (cl_calls w)
  ps ls (cl_shown w).
Definition cl_show s w : W := mkClient (cl_db w) (cl_keystore w) (cl_env w) (cl_assetId w) (cl_rand w) (cl_calls w)
  (cl_passwords w) (cl_stdin w) (cl_shown w ++ [s]).
Definition onStore {A} (m : GoM DB A) : GoM W A := zoom cl_db cl_set_db m.
Definition onKeyEnv {A} (m : GoM kenv A) : GoM W A := zoom cl_env (λ e w, cl_set_keys (cl_keystore w) e w) m.
(** A call of the embedded keystore, which panics on nil. *)
Definition onKeys {A} (m : GoM (Keystore PK * kenv) A) : GoM W A := λ w,
  match cl_keystore w with
  | None => (Panic, w)
  | Some k => let '(o, (k, e)) := m (k, cl_env w) in (o, cl_set_keys (Some k) e w)
  end.
(** The answer of the service is read by [SendTransaction] only. *)
Definition rpcCall (method : string) (param : bytes) : GoM W (outcome unit) :=
  modify (cl_add_call (method, param)) ≫= λ _, mret (jsonrpc_CallArray method param).

(** ** [database/database.go] *)
Definition AddAddress (address : Uint168) (script : bytes) (addrType : Z) : GoM W unit :=
  onStore (sqlAddrs_Put address script addrType).
Definition GetAddress (address : Uint168) : GoM W Addr := onStore (sqlAddrs_Get address).
Definition client_GetAddrs : GoM W (list Addr) := checkErr (onStore sqlAddrs_GetAll).
Definition DeleteAddress (address : Uint168) : GoM W unit := onStore (sqlAddrs_Del address).
Definition GetAddressUTXOs (address : Uint168) : GoM W (list UTXO) := checkErr (onStore (utxos_GetAddrAll address)).
Definition GetAddressSTXOs (address : Uint168) : GoM W (list STXO) := checkErr (onStore (stxos_GetAddrAll address)).
Definition client_BestHeight : GoM W Z := onStore state_GetHeight.

(** ** [wallet.go] *)
Definition database_New : GoM W unit := onStore NewDatabase.
Definition client_Create (password : bytes) : GoM W unit :=
  keyStore ← onKeyEnv (CreateKeystore password);
  database_New ≫= λ _,
  mainAccount ← lift (or_panic (GetAccountByIndex 0 keyStore));
  AddAddress (ac_programHash mainAccount) (ac_redeemScript mainAccount) TypeMaster.
(** [Open]: the wallet has no keystore yet. *)
Definition client_Open : GoM W unit := database_New ≫= λ _, modify (λ w, cl_set_keys None (cl_env w) w).
Definition VerifyPassword (password : bytes) : GoM W unit :=
  keyStore ← onKeyEnv (OpenKeystore password);
  modify (λ w, cl_set_keys (Some keyStore) (cl_env w) w).
Definition NewSubAccount (password : bytes) : GoM W Uint168 :=
  VerifyPassword password ≫= λ _,
  account ← onKeys Keystore_NewAccount;
  AddAddress (ac_programHash account) (ac_redeemScript account) TypeSub ≫= λ _,
  _ ← rpcCall "notifynewaddress" (Uint168_String (ac_programHash account));
  mret (ac_programHash account).
Definition AddMultiSignAccount (m : Z) (publicKeys : list PK) : GoM W Uint168 :=
  contract ← mapErr (λ _, ErrStr "[Wallet], CreateStandardRedeemScript failed") (lift (CreateMultiSigContract m publicKeys));
  let programHash := ct_ToProgramHash contract in
  AddAddress programHash (ct_Code contract) TypeMulti ≫= λ _,
  _ ← rpcCall "notifynewaddress" (Uint168_String programHash);
  mret programHash.

(** The elements are fresh objects, so changing their lock time is seen in the
    list given back only. *)
Fixpoint removeLocked (currentHeight : Z) (utxos : list UTXO) : list UTXO :=
  match utxos with
  | [] => []
  | utxo :: utxos =>
      if u_AtHeight utxo =? 0 then removeLocked currentHeight utxos
      else if 0 <? u_LockTime utxo then
        if currentHeight <? u_LockTime utxo then removeLocked currentHeight utxos
        else mkUTXO (u_Op utxo) (u_Value utxo) (MaxUint32 - 1) (u_AtHeight utxo) (u_Address utxo)
               :: removeLocked currentHeight utxos
      else utxo :: removeLocked currentHeight utxos
  end.
Definition removeLockedUTXOs (utxos : list UTXO) : GoM W (list UTXO) :=
  currentHeight ← client_BestHeight; mret (removeLocked currentHeight utxos).
Definition InputFromUTXO (utxo : UTXO) : TxInput := mkTxInput (TxID (u_Op utxo)) (Index (u_Op utxo)) (u_LockTime utxo).

Definition client_newTransaction (redeemScript : bytes) (inputs : list TxInput) (outputs : list TxOutput) : GoM W T :=
  w ← getS;
  modify (cl_set_rand (S (cl_rand w))) ≫= λ _,
  height ← client_BestHeight;
  mret (CreateTransaction_ (mkTxArgs TxVersionDefault TransferAsset TransferCrossChainVersion POther
          [FormatInt (rand_Int63 (cl_rand w))] inputs outputs height [mkProgram redeemScript []])).

(** The loop over the outputs asked for. *)
Fixpoint makeOutputs (assetId : Uint256) (lockedUntil : Z) (outputs : list Transfer) (total : Z) :
    outcome (list TxOutput * Z) :=
  match outputs with
  | [] => Ok ([], total)
  | output :: outputs =>
      match Uint168FromAddress (tr_Address output) with
      | None => Err (ErrStr "[Wallet], Invalid receiver address")
      | Some receiver =>
          rest ← makeOutputs assetId lockedUntil outputs (i64 (total + tr_Value output));
          Ok (mkTxOutput assetId receiver (tr_Value output) lockedUntil :: rest.1, rest.2)
      end
  end.
(** The loop over the outputs to spend: the inputs, the change, and what is
    still to be covered. *)
Fixpoint makeInputs (assetId : Uint256) (spender : Uint168) (utxos : list UTXO) (total : Z) :
    list TxInput * list TxOutput * Z :=
  match utxos with
  | [] => ([], [], total)
  | utxo :: utxos =>
      let input := InputFromUTXO utxo in
      if u_Value utxo <? total then
        let '(ins, change, total) := makeInputs assetId spender utxos (i64 (total - u_Value utxo)) in
        (input :: ins, change, total)
      else if u_Value utxo =? total then ([input], [], 0)
      else ([input], [mkTxOutput assetId spender (i64 (u_Value utxo - total)) 0], 0)
  end.

(** The fee and the amounts are not nil. *)
Definition client_createTransaction (fromAddress : bytes) (fee lockedUntil : Z) (outputs : list Transfer) : GoM W T :=
  match outputs with
  | [] => throw (ErrStr "[Wallet], Invalid transaction target")
  | _ =>
  match Uint168FromAddress fromAddress with
  | None => throw (ErrStr "[Wallet], Invalid spender address")
  | Some spender =>
      w ← getS;
      made ← lift (makeOutputs (cl_assetId w) lockedUntil outputs (i64 (0 + fee)));
      utxos ← mapErr (λ _, ErrStr "[Wallet], Get spender's UTXOs failed") (GetAddressUTXOs spender);
      availableUTXOs ← removeLockedUTXOs utxos;
      let availableUTXOs := SortByValue availableUTXOs in
      let '(txInputs, change, total) := makeInputs (cl_assetId w) spender availableUTXOs made.2 in
      if 0 <? total then throw (ErrStr "[Wallet], Available token is not enough")
      else
        addr ← mapErr (λ _, ErrStr "[Wallet], Get spenders redeem script failed") (GetAddress spender);
        client_newTransaction (ad_script addr) txInputs (made.1 ++ change)
  end
  end.
Definition CreateLockedMultiOutputTransaction (fromAddress : bytes) (fee lockedUntil : Z) (outputs : list Transfer) : GoM W T :=
  client_createTransaction fromAddress fee lockedUntil outputs.
Definition CreateMultiOutputTransaction (fromAddress : bytes) (fee : Z) (outputs : list Transfer) : GoM W T :=
  CreateLockedMultiOutputTransaction fromAddress fee 0 outputs.
Definition CreateLockedTransaction (fromAddress toAddress : bytes) (amount fee lockedUntil : Z) : GoM W T :=
  CreateLockedMultiOutputTransaction fromAddress fee lockedUntil [mkTransfer toAddress amount].
Definition client_CreateTransaction (fromAddress toAddress : bytes) (amount fee : Z) : GoM W T :=
  CreateLockedTransaction fromAddress toAddress amount fee 0.

(** ** Signing: transactions are given back with their programs set *)
Definition main_program (tx : T) : outcome Program := or_panic (etx_Programs tx !! 0%nat).
Definition withKeys {A} (f : Keystore PK → A) : GoM W A :=
  w ← getS; k ← lift (or_panic (cl_keystore w)); mret (f k).
Definition signatureParam (signature : bytes) : bytes := byte_of_Z (Z.of_nat (length signature)) :: signature.

(** The errors of [SerializeUnsigned] are dropped, what it has written is kept. *)
Definition unsigned_bytes (tx : T) : outcome bytes :=
  match etx_SerializeUnsigned tx [] with (Panic, _) => Panic | (_, buf) => Ok buf end.
Definition signStandardTransaction (tx : T) : GoM W T :=
  prog ← lift (main_program tx);
  let code := Code prog in
  let programHash := common_ToProgramHash PrefixStandard code in
  account ← withKeys (GetAccountByProgramHash programHash);
  match account with
  | None => throw (ErrStr "[Wallet], Invalid signer")
  | Some account =>
      data ← lift (unsigned_bytes tx);
      signature ← lift (Account_Sign account data);
      mret (etx_SetPrograms [mkProgram code (signatureParam signature)] tx)
  end.

(** The first public key whose account is in the keystore, with its place. *)
Fixpoint findSigner (store : Keystore PK) (i : Z) (publicKeys : list bytes) : option (Z * Account PK) :=
  match publicKeys with
  | [] => None
  | publicKey :: publicKeys =>
      match GetAccountByProgramHash (common_ToProgramHash PrefixStandard (publicKey ++ [STANDARD])) store with
      | Some account => Some (i, account)
      | None => findSigner store (i + 1) publicKeys
      end
  end.
Definition set_parameter (param : bytes) (tx : T) : T :=
  match etx_Programs tx with
  | [] => tx
  | prog :: rest => etx_SetPrograms (mkProgram (Code prog) param :: rest) tx
  end.
Definition signMultiSigTransaction (tx : T) : GoM W T :=
  prog ← lift (main_program tx);
  publicKeys ← lift (ParseMultisigScript (Code prog));
  signer ← withKeys (λ k, findSigner k 0 publicKeys);
  match signer with
  | None => throw (ErrStr "[Wallet], Invalid multi sign signer")
  | Some (signerIndex, account) =>
      data ← lift (unsigned_bytes tx);
      signedTx ← lift (Account_Sign account data);
      param ← lift (AppendSignature signerIndex signedTx data (Code prog) (Parameter_ prog));
      mret (set_parameter param tx)
  end.
(** A script of another kind is given back unsigned. *)
Definition client_Sign (password : bytes) (tx : T) : GoM W T :=
  VerifyPassword password ≫= λ _,
  prog ← lift (main_program tx);
  signType ← lift (GetScriptType (Code prog));
  if decide (signType = STANDARD) then signStandardTransaction tx
  else if decide (signType = MULTISIG) then signMultiSigTransaction tx
  else mret tx.
Definition client_SendTransaction (tx : T) : GoM W unit :=
  let '(o, buf) := etx_Serialize tx [] in
  lift o ≫= λ _,
  answer ← rpcCall "sendrawtransaction" (BytesToHexString buf);
  lift answer.

(** ** [common.go] *)
Definition readPassword : GoM W bytes := λ w,
  match cl_passwords w with
  | [] | None :: _ => (Err ioErr, cl_set_term (tail (cl_passwords w)) (cl_stdin w) w)
  | Some p :: ps => (Ok p, cl_set_term ps (cl_stdin w) w)
  end.
Definition GetPassword (password : bytes) (confirmed : bool) : GoM W bytes :=
  match password with
  | _ :: _ => mret password
  | [] =>
      password ← readPassword;
      if negb confirmed then mret password
      else
        confirm ← readPassword;
        if bool_decide (password = confirm) then mret password
        else throw (ErrStr "input password unmatched")
  end.

(** The sums of [ShowAccounts] over the outputs of an address. *)
Fixpoint balance (currentHeight : Z) (utxos : list UTXO) (available locked : Z) : Z * Z :=
  match utxos with
  | [] => (available, locked)
  | utxo :: utxos =>
      if (currentHeight <=? u_LockTime utxo) || (u_AtHeight utxo =? 0)
      then balance currentHeight utxos available (i64 (locked + u_Value utxo))
      else balance currentHeight utxos (i64 (available + u_Value utxo)) locked
  end.
Definition ShowAccounts (addrs : list Addr) (newAddr : option Uint168) : GoM W unit :=
  currentHeight ← client_BestHeight;
  forM addrs (λ addr,
    utxos ← mapErr (Errorf "get %s UTXOs failed, ") (GetAddressUTXOs (ad_hash addr));
    let '(available, locked) := balance currentHeight utxos 0 0 in
    modify (cl_show (mkShown (ad_hash addr) available locked (TypeName addr) (bool_decide (newAddr = Some (ad_hash addr)))))).

(** [strings.TrimSpace]: the bytes of one white space character, at the start
    of the text or, reversed, at its end. *)
Definition spaces : list bytes :=
  [[x09]; [x0a]; [x0b]; [x0c]; [x0d]; [x20]; [xc2; x85]; [xc2; xa0]; [xe1; x9a; x80]] ++
  ((λ b, [xe2; x80; b]) <$> [x80; x81; x82; x83; x84; x85; x86; x87; x88; x89; x8a; xa8; xa9; xaf]) ++
  [[xe2; x81; x9f]; [xe3; x80; x80]].
Definition strip_one (seps : list bytes) (s : bytes) : option bytes :=
  (λ sp, drop (length sp) s) <$> List.find (λ sp, bool_decide (take (length sp) s = sp)) seps.
Fixpoint strip (fuel : nat) (seps : list bytes) (s : bytes) : bytes :=
  match fuel with
  | O => s
  | S fuel => match strip_one seps s with Some s' => strip fuel seps s' | None => s end
  end.
Definition TrimSpace (s : bytes) : bytes :=
  let l := strip (length s) spaces s in
  reverse (strip (length l) (reverse <$> spaces) (reverse l)).

(** [strconv.ParseInt(s, 10, 32)] and [strconv.ParseUint(s, 10, 32)] *)
Definition digit (b : byte) : option Z :=
  let z := Z_of_byte b - 48 in if (0 <=? z) && (z <=? 9) then Some z else None.
Fixpoint digits (s : bytes) (acc : Z) : option Z :=
  match s with
  | [] => Some acc
  | b :: s => match digit b with Some d => digits s (acc * 10 + d) | None => None end
  end.
Definition ParseUint32 (s : bytes) : option Z :=
  match s with
  | [] => None
  | _ => match digits s 0 with Some z => if z <? 2 ^ 32 then Some z else None | None => None end
  end.
Definition ParseInt32 (s : bytes) : option Z :=
  match s with
  | [] => None
  | sign :: rest =>
      let neg := bool_decide (sign = x2d) in
      let body := if neg || bool_decide (sign = x2b) then rest else s in
      match body with
      | [] => None
      | _ =>
          match digits body 0 with
          | None => None
          | Some z => if neg then (if z <=? 2 ^ 31 then Some (- z) else None)
                      else if z <? 2 ^ 31 then Some z else None
          end
      end
  end.

Definition readLine : GoM W (option bytes) := λ w,
  let '(line, reads) := readString [] (cl_stdin w) in (Ok line, cl_set_term (cl_passwords w) reads w).
Definition getInput (max : Z) : GoM W Z :=
  input ← readLine;
  mret (match input with
        | None => -1
        | Some input =>
            match ParseInt32 (TrimSpace input) with
            | None => -1
            | Some index => if max <? index then -1 else index - 1
            end
        end).
(** [for index == -1 { index = getInput(len(addrs)) }], with fuel. *)
Fixpoint inputLoop (fuel : nat) (max : Z) : GoL W Z :=
  match fuel with
  | O => mret None
  | S fuel =>
      index ← getInput max;
      if index =? -1 then inputLoop fuel max else mret (Some index)
  end.
(** The hash whose text is the address answered. *)
Definition addr_at (index : Z) (addrs : list Addr) : outcome Uint168 :=
  if index <? 0 then Panic else ad_hash <$> or_panic (addrs !! Z.to_nat index).
Definition SelectAccount (fuel : nat) : GoL W Uint168 :=
  addrs ← try client_GetAddrs;
  match addrs with
  | inl _ | inr [] => throw (ErrStr "fail to load wallet addresses")
  | inr [addr] => mret (Some (ad_hash addr))
  | inr addrs =>
      ShowAccounts addrs None ≫= λ _,
      index ←ₗ inputLoop fuel (Z.of_nat (length addrs));
      done_ (lift (addr_at index addrs))
  end.
End client.
