(* ===== verification/ClientSpec.v ===== *)
(** * What the wallet client spends

    The coins it picks, smallest first, and the amounts of the transaction;
    the amounts it shows; the accounts it can sign for. *)
From Stdlib Require Import Sorting.Sorted.
From S2P Require Export Client WalletProps KeystoreSpec.
#[local] Open Scope Z_scope.

(** [sort.Sort], for a transitive [Less]: a permutation in order. *)
Class GoSortLaws `{!GoSort} : Prop := {
  sort_ok less l :
    (∀ x y z, less x y = true → less y z = true → less x z = true) →
    (∀ x y z, less x y = false → less y z = false → less x z = false) →
    sort_Sort less l ≡ₚ l ∧ StronglySorted (λ x y, less y x = true → less x y = true) (sort_Sort less l);
}.

(** ** Coins *)
Fixpoint coin_value (us : list UTXO) : Z := match us with [] => 0 | u :: us => u_Value u + coin_value us end.
Fixpoint paid (os : list TxOutput) : Z := match os with [] => 0 | o :: os => to_Value o + paid os end.
Fixpoint asked (os : list Transfer) : Z := match os with [] => 0 | o :: os => tr_Value o + asked os end.

(** Confirmed, and not locked above the height. *)
Definition spendable (h : Z) (u : UTXO) : Prop := u_AtHeight u ≠ 0 ∧ u_LockTime u ≤ h `max` 0.
#[global] Instance spendable_dec h u : Decision (spendable h u).
Proof. unfold spendable. apply _. Defined.
(** The lock time a coin is spent with. *)
Definition unlocked (u : UTXO) : UTXO :=
  if decide (0 < u_LockTime u) then mkUTXO (u_Op u) (u_Value u) (MaxUint32 - 1) (u_AtHeight u) (u_Address u) else u.

Lemma unlocked_value u : u_Value (unlocked u) = u_Value u.
Proof. unfold unlocked. by case_decide. Qed.
Lemma unlocked_op u : u_Op (unlocked u) = u_Op u.
Proof. unfold unlocked. by case_decide. Qed.
Lemma removeLocked_spec h us : 0 ≤ h → removeLocked h us = unlocked <$> filter (spendable h) us.
Proof.
  intros Hh. induction us as [|u us IH]; [done|]. cbn [removeLocked]. rewrite filter_cons. unfold spendable at 1.
  destruct (Z.eqb_spec (u_AtHeight u) 0) as [E0|E0]; [by rewrite decide_False by (intros [Hn _]; by apply Hn)|].
  destruct (Z.ltb_spec 0 (u_LockTime u)) as [E1|E1].
  - destruct (Z.ltb_spec h (u_LockTime u)) as [E2|E2].
    + rewrite decide_False by (intros [_ ?]; lia). done.
    + rewrite decide_True by (split; [done|lia]). cbn [fmap list_fmap]. rewrite IH. f_equal.
      unfold unlocked. by rewrite decide_True.
  - rewrite decide_True by (split; [done|lia]). cbn [fmap list_fmap]. rewrite IH. f_equal.
    unfold unlocked. rewrite decide_False by lia. done.
Qed.

Lemma coin_value_perm us us' : us ≡ₚ us' → coin_value us = coin_value us'.
Proof. induction 1; cbn; lia. Qed.
Lemma coin_value_unlocked us : coin_value (unlocked <$> us) = coin_value us.
Proof. induction us as [|u us IH]; [done|]. cbn. by rewrite unlocked_value, IH. Qed.
Lemma coin_value_nonneg us : (∀ u, u ∈ us → 0 ≤ u_Value u) → 0 ≤ coin_value us.
Proof.
  induction us as [|u us IH]; intros Hu; [done|]. cbn. pose proof (Hu u ltac:(left)).
  assert (0 ≤ coin_value us); [|lia]. apply IH. intros v Hv. apply Hu. by right.
Qed.
Lemma paid_app a b : paid (a ++ b) = paid a + paid b.
Proof. induction a as [|o a IH]; [done|]. cbn. rewrite IH. lia. Qed.

(** What [makeInputs] gives: every coin when they are not enough, and otherwise
    the shortest start of the list that covers the amount, with the change. *)
Lemma makeInputs_spec assetId spender us : ∀ total, 0 ≤ total < 2 ^ 63 → (∀ u, u ∈ us → 0 ≤ u_Value u < 2 ^ 63) →
  if decide (coin_value us < total)
  then makeInputs assetId spender us total = (InputFromUTXO <$> us, [], total - coin_value us)
  else ∃ n change, makeInputs assetId spender us total = (InputFromUTXO <$> take n us, change, 0) ∧ (n ≤ length us)%nat ∧
    coin_value (take n us) = total + paid change ∧
    (change = [] ∨ ∃ v, 0 < v ∧ change = [mkTxOutput assetId spender v 0]) ∧
    (0 < total → (0 < n)%nat ∧ coin_value (take (pred n) us) < total).
Proof.
  induction us as [|u us IH]; intros total Ht Hu; cbn [makeInputs].
  - case_decide as Hc; cbn in Hc |- *; [by rewrite Z.sub_0_r|]. assert (total = 0) as -> by lia.
    exists 0%nat, []. split_and!; [done|done|done|by left|lia].
  - pose proof (Hu u ltac:(left)) as Hv. assert (Hus : ∀ v, v ∈ us → 0 ≤ u_Value v < 2 ^ 63) by (intros v ?; apply Hu; by right).
    pose proof (coin_value_nonneg us (λ v Hin, proj1 (Hus v Hin))) as Hpos. cbn [coin_value].
    destruct (Z.ltb_spec (u_Value u) total) as [Hlt|Hge].
    + rewrite i64_small by lia. specialize (IH (total - u_Value u) ltac:(lia) Hus). repeat case_decide; try lia.
      * rewrite IH. cbn. f_equal. lia.
      * destruct IH as (n & change & -> & Hn & Hsum & Hch & Hmin). exists (S n), change. cbn [take fmap list_fmap length coin_value pred].
        split_and!; [done|lia|lia|done|]. intros _. split; [lia|].
        destruct n as [|n]; [cbn; lia|]. cbn [pred take coin_value] in Hmin |- *. lia.
    + rewrite decide_False by lia. exists 1%nat. change (take 1 (u :: us)) with [u]. cbn [pred take fmap list_fmap].
      destruct (Z.eqb_spec (u_Value u) total) as [Heq|Hne].
      * exists []. split_and!; [done|cbn; lia|cbn; lia|by left|cbn; lia].
      * exists [mkTxOutput assetId spender (u_Value u - total) 0]. rewrite i64_small by lia.
        split_and!; [done|cbn; lia|cbn; lia| |cbn; lia]. right. exists (u_Value u - total). split; [lia|done].
Qed.

(** Going on after a call with [mapErr], of a value that is there. *)
Lemma mapErr_ok {S A} f (m : GoM S A) s a s' : m s = (Ok a, s') → mapErr f m s = (Ok a, s').
Proof. intros Hm. by rewrite mapErr_run, Hm. Qed.
Lemma i64_add a b : i64 (i64 a + b) = i64 (a + b).
Proof.
  unfold i64. f_equal. replace ((a + 2 ^ 63) mod 2 ^ 64 - 2 ^ 63 + b + 2 ^ 63) with ((a + 2 ^ 63) mod 2 ^ 64 + b) by lia.
  rewrite Zplus_mod_idemp_l. f_equal. lia.
Qed.

Section spec.
Context {DB PK T : Type} `{!SQLite DB} `{!SQLiteLaws DB} `{E : ElaCommon} `{!ElaCommonLaws E}.
Context `{!Uint168Bytes} `{!Uint168BytesLaws} `{!Uint256Bytes} `{!Uint256BytesLaws} `{!Fixed64Bytes} `{!Fixed64BytesLaws}.
Context `{!ElaTransaction T} `{!ListenerLib} `{!Sha} `{!ElaCrypto PK} `{!KeystoreJson} `{!GoRand} `{!MathRand}.
Context `{!ClientLib PK T} `{!GoSort} `{!GoSortLaws}.
Notation W := (Client DB PK).
Implicit Types (w : W) (st : wstore) (tx : T).

Definition best_height st : Z := match ws_state st !! HeightKey with Some kv => kv.2 | None => 0 end.
(** The coins of an address that can be spent now. *)
Definition coins st (a : Uint168) : list UTXO :=
  filter (spendable (best_height st)) (map_to_list (filter (λ kv, u_Address kv.2 = a) (ws_utxos st))).*2.
Definition output_of (assetId : Uint256) (lock : Z) (o : Transfer) : TxOutput :=
  mkTxOutput assetId (default EmptyUint168 (Uint168FromAddress (tr_Address o))) (tr_Value o) lock.
Definition by_value : list UTXO → Prop := StronglySorted (λ u v, u_Value u ≤ u_Value v).
Definition receivers (os : list Transfer) : Prop := ∀ o, o ∈ os → is_Some (Uint168FromAddress (tr_Address o)).

Lemma coins_elem st a u : values_ok u_Op utxo_ok (ws_utxos st) →
  u ∈ coins st a ↔ ws_utxos st !! u_Op u = Some u ∧ u_Address u = a ∧ spendable (best_height st) u.
Proof.
  intros Ho. unfold coins. rewrite list_elem_of_filter, map_values_elem. split.
  - intros [Hs (k & [Hk Ha]%map_lookup_filter_Some)]. destruct (Ho _ _ Hk) as [<- _]. by split_and!.
  - intros (Hk & Ha & Hs). split; [done|]. exists (u_Op u). by apply map_lookup_filter_Some.
Qed.
Lemma best_height_fits st db : wdb st db → fits 32 (best_height st).
Proof.
  intros Hw. unfold best_height. destruct (ws_state st !! HeightKey) as [kv|] eqn:Hk; [|split; lia].
  apply (holds_ok _ _ _ _ _ _ _ (wr_state _ _ Hw) _ _ Hk).
Qed.

Lemma onStore_run {A} (m : GoM DB A) w o : m (cl_db w) = (o, cl_db w) → onStore m w = (o, w).
Proof. intros Hm. unfold onStore. rewrite (zoom_run _ _ _ _ _ _ Hm). by destruct w. Qed.
Lemma client_BestHeight_run w st : wdb st (cl_db w) → client_BestHeight w = (Ok (best_height st), w).
Proof. intros Hw. apply onStore_run. by rewrite (state_GetHeight_spec _ _ Hw). Qed.
Lemma checkErr_run {A} (m : GoM DB (list A * option goerr)) w l : m (cl_db w) = (Ok (l, None), cl_db w) →
  checkErr (onStore m) w = (Ok l, w).
Proof. intros Hm. unfold checkErr. by rewrite (bind_run _ _ _ _ _ (onStore_run _ _ _ Hm)). Qed.

Lemma makeOutputs_run assetId lock os total : receivers os →
  makeOutputs assetId lock os (i64 total) = Ok (output_of assetId lock <$> os, i64 (total + asked os)).
Proof.
  revert total. induction os as [|o os IH]; intros total Hr; cbn [makeOutputs asked fmap list_fmap].
  { by rewrite Z.add_0_r. }
  destruct (Hr o ltac:(left)) as (r & Hor). rewrite Hor, i64_add, IH by (intros o' ?; apply Hr; by right).
  cbn [mbind outcome_bind fst snd]. unfold output_of at 2. rewrite Hor. cbn [default]. by rewrite Z.add_assoc.
Qed.
Lemma paid_outputs assetId lock os : paid (output_of assetId lock <$> os) = asked os.
Proof. induction os as [|o os IH]; [done|]. cbn. by rewrite IH. Qed.

Lemma SortByValue_ok us : SortByValue us ≡ₚ us ∧ by_value (SortByValue us).
Proof.
  destruct (sort_ok SortByValueASC_Less us) as [Hp Hs].
  1,2: unfold SortByValueASC_Less; intros x y z; repeat case_match; try done; rewrite ?Z.ltb_lt, ?Z.ltb_ge in *; lia.
  split; [done|]. unfold by_value, SortByValue. clear Hp. induction Hs as [|u l Hs IH Hf]; constructor; [done|].
  eapply Forall_impl; [exact Hf|]. intros v Hv. unfold SortByValueASC_Less in Hv.
  destruct (Z.ltb_spec (u_Value v) (u_Value u)); [|lia]. destruct (Z.ltb_spec (u_Value u) (u_Value v)); [lia|]. by specialize (Hv eq_refl).
Qed.

(** The call up to the choice of the coins. *)
Lemma createTransaction_run from spender fee lock os w st : wdb st (cl_db w) → os ≠ [] →
  Uint168FromAddress from = Some spender → receivers os →
  ∃ cs, cs ≡ₚ unlocked <$> coins st spender ∧ by_value cs ∧
    client_createTransaction from fee lock os w =
      let '(txInputs, change, total) := makeInputs (cl_assetId w) spender cs (i64 (fee + asked os)) in
      if 0 <? total then (Err (ErrStr "[Wallet], Available token is not enough"), w)
      else match ws_addrs st !! spender with
           | None => (Err (ErrStr "[Wallet], Get spenders redeem script failed"), w)
           | Some addr =>
               (Ok (CreateTransaction_ (mkTxArgs TxVersionDefault TransferAsset TransferCrossChainVersion POther
                  [FormatInt (rand_Int63 (cl_rand w))] txInputs ((output_of (cl_assetId w) lock <$> os) ++ change)
                  (best_height st) [mkProgram (ad_script addr) []])), cl_set_rand (S (cl_rand w)) w)
           end.
Proof.
  intros Hw Hne Hfrom Hr. destruct (utxos_GetAddrAll_spec spender _ _ Hw) as (us & Hus & Hp).
  pose proof (best_height_fits _ _ Hw) as Hh. exists (SortByValue (unlocked <$> filter (spendable (best_height st)) us)).
  destruct (SortByValue_ok (unlocked <$> filter (spendable (best_height st)) us)) as [Hsp Hss].
  split; [rewrite Hsp; unfold coins; by rewrite Hp|]. split; [done|]. unfold client_createTransaction.
  destruct os as [|o0 os0] eqn:Hos; [done|]. rewrite <-Hos in *. clear Hos o0 os0. rewrite Hfrom.
  rewrite (bind_run getS _ w w w eq_refl). rewrite (lift_bind _ _ _ _ (makeOutputs_run _ _ _ _ Hr)). cbn [fst snd].
  rewrite (bind_run _ _ w us w) by (apply mapErr_ok, checkErr_run, Hus).
  rewrite (bind_run _ _ w (unlocked <$> filter (spendable (best_height st)) us) w).
  2: { unfold removeLockedUTXOs. rewrite (bind_run _ _ _ _ _ (client_BestHeight_run w st Hw)).
       by rewrite removeLocked_spec by apply Hh. }
  cbv zeta. rewrite Z.add_0_l. destruct (makeInputs _ _ _ _) as [[ins change] rest]. destruct (0 <? rest); [done|].
  unfold mbind at 1, GoM_bind at 1. rewrite mapErr_run. unfold GetAddress.
  rewrite (onStore_run _ w (match ws_addrs st !! spender with Some a => Ok a | None => Err ErrNoRows end))
    by apply (addrs_Get_spec _ _ _ Hw).
  destruct (ws_addrs st !! spender) as [addr|]; [|done]. unfold client_newTransaction.
  rewrite (bind_run getS _ w w w eq_refl). rewrite (bind_run _ _ w () (cl_set_rand (S (cl_rand w)) w)) by done.
  by rewrite (bind_run _ _ _ _ _ (client_BestHeight_run (cl_set_rand (S (cl_rand w)) w) st Hw)).
Qed.

Lemma by_value_split us vs u v : by_value (us ++ vs) → u ∈ us → v ∈ vs → u_Value u ≤ u_Value v.
Proof. intros Hs Hu Hv. by apply (StronglySorted_app_1_elem_of _ us vs u v Hs). Qed.
Lemma by_value_unlocked us : by_value (unlocked <$> us) → by_value us.
Proof.
  induction us as [|u us IH]; [constructor|]. intros Hs. apply StronglySorted_inv in Hs as [Hs Hx].
  constructor; [by apply IH|]. apply (proj1 (Forall_fmap _ _ _)) in Hx. eapply Forall_impl; [exact Hx|]. intros v. cbn.
  by rewrite !unlocked_value.
Qed.
Lemma coins_NoDup st a : values_ok u_Op utxo_ok (ws_utxos st) → NoDup (u_Op <$> coins st a).
Proof.
  intros Ho. unfold coins. apply NoDup_fmap_filter. set (m := filter _ _).
  assert (Heq : u_Op <$> (map_to_list m).*2 = (map_to_list m).*1).
  { rewrite <-list_fmap_compose. apply list_fmap_ext. intros i [k u] Hi. cbn.
    apply list_elem_of_lookup_2, elem_of_map_to_list, map_lookup_filter_Some in Hi as [Hk _].
    by destruct (Ho _ _ Hk). }
  rewrite Heq. apply NoDup_fst_map_to_list.
Qed.

Lemma createTransaction_ok from spender fee lock os w st addr : wdb st (cl_db w) → os ≠ [] →
  Uint168FromAddress from = Some spender → receivers os → ws_addrs st !! spender = Some addr →
  0 ≤ fee → (∀ o, o ∈ os → 0 ≤ tr_Value o) → fee + asked os < 2 ^ 63 → (∀ u, u ∈ coins st spender → 0 ≤ u_Value u) →
  if decide (coin_value (coins st spender) < fee + asked os)
  then client_createTransaction from fee lock os w = (Err (ErrStr "[Wallet], Available token is not enough"), w)
  else ∃ us rest change w', us ++ rest ≡ₚ coins st spender ∧
    client_createTransaction from fee lock os w =
      (Ok (CreateTransaction_ (mkTxArgs TxVersionDefault TransferAsset TransferCrossChainVersion POther
         [FormatInt (rand_Int63 (cl_rand w))] (InputFromUTXO <$> (unlocked <$> us))
         ((output_of (cl_assetId w) lock <$> os) ++ change) (best_height st) [mkProgram (ad_script addr) []])), w') ∧
    cl_db w' = cl_db w ∧ coin_value us = paid ((output_of (cl_assetId w) lock <$> os) ++ change) + fee ∧
    (change = [] ∨ ∃ v, 0 < v ∧ change = [mkTxOutput (cl_assetId w) spender v 0]) ∧
    (∀ u v, u ∈ us → v ∈ rest → u_Value u ≤ u_Value v) ∧ NoDup (u_Op <$> us) ∧
    (0 < fee + asked os → ∃ us0 u, us = us0 ++ [u] ∧ coin_value us0 < fee + asked os).
Proof.
  intros Hw Hne Hfrom Hr Ha Hfee Hos Hsum Hpos.
  assert (Hasked : 0 ≤ asked os).
  { clear Hne Hr Hsum. induction os as [|o os IH]; [done|]. cbn [asked]. pose proof (Hos o ltac:(left)).
    assert (0 ≤ asked os); [|lia]. apply IH. intros o' ?. apply Hos. by right. }
  destruct (createTransaction_run from spender fee lock os w st Hw Hne Hfrom Hr) as (cs & Hcs & Hsort & Hrun).
  rewrite Ha, i64_small in Hrun by lia. pose proof (holds_ok _ _ _ _ _ _ _ (wr_utxos _ _ Hw)) as Hok.
  apply Permutation_map_inv in Hcs as (us & -> & Hus). symmetry in Hus. change (map unlocked us) with (unlocked <$> us) in *.
  assert (Hval : ∀ u, u ∈ unlocked <$> us → 0 ≤ u_Value u < 2 ^ 63).
  { intros u (u0 & -> & Hin)%list_elem_of_fmap. rewrite unlocked_value. rewrite Hus in Hin. split; [by apply Hpos|].
    apply coins_elem in Hin as (Hk & _); [|done]. destruct (Hok _ _ Hk) as (_ & _ & [_ ?] & _). done. }
  pose proof (makeInputs_spec (cl_assetId w) spender (unlocked <$> us) (fee + asked os) ltac:(lia) Hval) as Hm.
  rewrite coin_value_unlocked, (coin_value_perm _ _ Hus) in Hm. case_decide as Hc.
  - rewrite Hrun, Hm. by rewrite (proj2 (Z.ltb_lt _ _)) by lia.
  - destruct Hm as (n & change & Hm & Hn & Htot & Hch & Hmin). rewrite Hm in Hrun. cbn [Z.ltb Z.compare] in Hrun.
    rewrite <-fmap_take in *. rewrite coin_value_unlocked in Htot.
    exists (take n us), (drop n us), change, (cl_set_rand (S (cl_rand w)) w). rewrite take_drop.
    split; [done|]. split; [exact Hrun|]. split; [done|]. rewrite paid_app, paid_outputs. split; [lia|]. split; [done|].
    split_and!.
    + intros u v Hu Hv. apply (by_value_split (take n us) (drop n us)); [|done|done]. rewrite take_drop.
      by apply by_value_unlocked.
    + apply (NoDup_app _ (u_Op <$> drop n us)). rewrite <-fmap_app, take_drop, Hus. by apply coins_NoDup.
    + intros Htotal. destruct (Hmin Htotal) as [Hn0 Hlt]. destruct n as [|n]; [lia|]. cbn [pred] in Hlt.
      rewrite length_fmap in Hn. destruct (lookup_lt_is_Some_2 us n ltac:(lia)) as (u & Hu).
      exists (take n us), u. split; [by apply take_S_r|]. by rewrite coin_value_unlocked in Hlt.
Qed.

(** C9: the transaction made.  When the coins the address can spend do not cover
    the fee and the amounts, an error and nothing else; otherwise a transaction
    that spends the fewest coins from the smallest up, each once, pays what was
    asked and gives the rest but the fee back to the spender. *)
Theorem createTransaction_spec from spender fee lock os w st addr : wdb st (cl_db w) → os ≠ [] →
  Uint168FromAddress from = Some spender → receivers os → ws_addrs st !! spender = Some addr →
  0 ≤ fee → (∀ o, o ∈ os → 0 ≤ tr_Value o) → fee + asked os < 2 ^ 63 → (∀ u, u ∈ coins st spender → 0 ≤ u_Value u) →
  if decide (coin_value (coins st spender) < fee + asked os)
  then client_createTransaction from fee lock os w = (Err (ErrStr "[Wallet], Available token is not enough"), w)
  else ∃ us rest change w', us ++ rest ≡ₚ coins st spender ∧
    client_createTransaction from fee lock os w =
      (Ok (CreateTransaction_ (mkTxArgs TxVersionDefault TransferAsset TransferCrossChainVersion POther
         [FormatInt (rand_Int63 (cl_rand w))] (InputFromUTXO <$> (unlocked <$> us))
         ((output_of (cl_assetId w) lock <$> os) ++ change) (best_height st) [mkProgram (ad_script addr) []])), w') ∧
    cl_db w' = cl_db w ∧ coin_value us = paid ((output_of (cl_assetId w) lock <$> os) ++ change) + fee ∧
    (change = [] ∨ ∃ v, 0 < v ∧ change = [mkTxOutput (cl_assetId w) spender v 0]) ∧
    (∀ u v, u ∈ us → v ∈ rest → u_Value u ≤ u_Value v) ∧ NoDup (u_Op <$> us) ∧
    (0 < fee + asked os → ∃ us0 u, us = us0 ++ [u] ∧ coin_value us0 < fee + asked os).
Proof. apply createTransaction_ok. Qed.

(** C30: the sum of the fee and the amounts is not checked.  When it wraps around
    to zero or less (or the amounts are negative), the transaction is made all the
    same: it pays every receiver what was asked, spends the smallest coin alone, and
    gives the spender that coin back with what the wrapped sum is below zero added to
    it, so it pays more than it spends by what the 64-bit sum lost.  Without a coin
    it is made without an input. *)
Theorem createTransaction_overflow from spender fee lock os w st addr : wdb st (cl_db w) → os ≠ [] →
  Uint168FromAddress from = Some spender → receivers os → ws_addrs st !! spender = Some addr →
  let total := i64 (fee + asked os) in total ≤ 0 →
  (∀ u, u ∈ coins st spender → 0 ≤ u_Value u ∧ u_Value u - total < 2 ^ 63) →
  let made inputs change := (Ok (CreateTransaction_ (mkTxArgs TxVersionDefault TransferAsset TransferCrossChainVersion POther
      [FormatInt (rand_Int63 (cl_rand w))] inputs ((output_of (cl_assetId w) lock <$> os) ++ change) (best_height st)
      [mkProgram (ad_script addr) []])), cl_set_rand (S (cl_rand w)) w) in
  match coins st spender with
  | [] => client_createTransaction from fee lock os w = made [] []
  | _ => ∃ u, u ∈ coins st spender ∧ (∀ v, v ∈ coins st spender → u_Value u ≤ u_Value v) ∧
      let change := if u_Value u =? total then [] else [mkTxOutput (cl_assetId w) spender (u_Value u - total) 0] in
      client_createTransaction from fee lock os w = made [InputFromUTXO (unlocked u)] change ∧
      paid ((output_of (cl_assetId w) lock <$> os) ++ change) + fee - u_Value u = fee + asked os - total
  end.
Proof.
  intros Hw Hne Hfrom Hr Ha total Hneg Hval. cbv zeta.
  destruct (createTransaction_run from spender fee lock os w st Hw Hne Hfrom Hr) as (cs & Hcs & Hsort & Hrun).
  fold total in Hrun. rewrite Ha in Hrun. apply Permutation_map_inv in Hcs as (us & -> & Hus). symmetry in Hus.
  destruct us as [|u us].
  { apply Permutation_nil_l in Hus. rewrite <-Hus. cbn [map makeInputs] in Hrun. by rewrite (proj2 (Z.ltb_ge _ _)) in Hrun by lia. }
  assert (Hu : u ∈ coins st spender) by (rewrite <-Hus; left). destruct (Hval u Hu) as [Hu0 Hu1].
  cbn [map makeInputs] in Hrun. rewrite unlocked_value in Hrun. rewrite (proj2 (Z.ltb_ge _ _)) in Hrun by lia.
  pose proof (i64_fits (fee + asked os)) as Hfits. fold total in Hfits. rewrite i64_small in Hrun by lia.
  destruct (coins st spender) as [|c0 cs] eqn:Hcs; [by apply not_elem_of_nil in Hu|]. rewrite <-Hcs in *.
  exists u. split; [done|]. split.
  { intros v. rewrite <-Hus. intros [->|Hv]%elem_of_cons; [done|].
    apply (by_value_split [u] us); [exact (by_value_unlocked (u :: us) Hsort)|left|done]. }
  destruct (Z.eqb_spec (u_Value u) total) as [Heq|Hneq]; cbn [Z.ltb Z.compare] in Hrun; (split; [exact Hrun|]);
    rewrite paid_app, paid_outputs; cbn [paid to_Value]; lia.
Qed.

(** ** After a block that spends the coins *)
Context `{!MapOrder} `{!TxReader T} `{!WalletLib T}.
Lemma paidTo_address f tx h i outs u : u ∈ paidTo f tx h i outs → ∃ o, o ∈ outs ∧ u_Address u = ProgramHash o.
Proof.
  revert i. induction outs as [|o outs IH]; intros i; [by intros ?%not_elem_of_nil|]. cbn [paidTo].
  rewrite elem_of_app. intros [Hin|Hin].
  - destruct (AddrFilter_ContainAddr _ _); [|by apply not_elem_of_nil in Hin]. apply list_elem_of_singleton in Hin as ->.
    exists o. split; [left|done].
  - destruct (IH _ Hin) as (o' & ? & ?). exists o'. split; [by right|done].
Qed.
Lemma coins_after a f h txs st st' : ws_utxos st' = put_all u_Op (pays f h txs) (ws_utxos st) → ws_state st' = ws_state st →
  (∀ t o, t ∈ txs → o ∈ etx_Outputs t → ProgramHash o ≠ a) →
  (∀ t k, t ∈ txs → is_Some (ws_utxos st !! k) → etx_Hash t ≠ TxID k) → coins st' a = coins st a.
Proof.
  intros HU HS Hpay Hnew. unfold coins, best_height. rewrite HS. f_equal. f_equal. f_equal. rewrite HU.
  apply map_eq. intros k. apply option_eq. intros u. rewrite !map_lookup_filter_Some. cbn.
  assert (Hin : ∀ v, v ∈ pays f h txs → u_Address v ≠ a ∧ ∃ t, t ∈ txs ∧ TxID (u_Op v) = etx_Hash t).
  { intros v (t & Hv & Ht)%list_elem_of_bind. destruct (paidTo_address _ _ _ _ _ _ Hv) as (o & Ho & ->).
    apply paidTo_op in Hv as [Hid _]. split; [by apply (Hpay t)|by exists t]. }
  split.
  - intros [[[Hv _]|[_ Hk]]%put_all_Some Ha]; [|done]. by destruct (Hin u Hv).
  - intros [Hk Ha]. split; [|done]. rewrite put_all_old; [done|]. intros (v & Ek & Hv)%list_elem_of_fmap.
    destruct (Hin v Hv) as (_ & t & Ht & Hid). apply (Hnew t k Ht); [by eexists|]. by rewrite <-Hid, Ek.
Qed.

(** C12: after the wallet has stored a block that spends every coin of an
    address, the client makes its next transaction from these same coins: the
    spent ones are still counted as available. *)
Theorem client_spends_again (w0 : spvwallet DB T) txs h st from spender fee lock os (w : W) addr :
  fits 32 h → fits64s (w_now w0) → (∀ tx, tx ∈ txs → good_tx tx) → wdb st (w_db w0) →
  (∀ u, u ∈ coins st spender → ∃ tx, tx ∈ txs ∧ (TxID (u_Op u), Index (u_Op u)) ∈ etx_Inputs tx) →
  (∀ t o, t ∈ txs → o ∈ etx_Outputs t → ProgramHash o ≠ spender) →
  (∀ t k, t ∈ txs → is_Some (ws_utxos st !! k) → etx_Hash t ≠ TxID k) →
  os ≠ [] → Uint168FromAddress from = Some spender → receivers os → ws_addrs st !! spender = Some addr →
  0 ≤ fee → (∀ o, o ∈ os → 0 ≤ tr_Value o) → 0 < fee + asked os < 2 ^ 63 →
  (∀ u, u ∈ coins st spender → 0 ≤ u_Value u) → fee + asked os ≤ coin_value (coins st spender) →
  ∃ fps (w1 : spvwallet DB T) us args w', wallet_PutTxs txs h w0 = (Ok fps, w1) ∧
    client_createTransaction from fee lock os (cl_set_db (w_db w1) w) = (Ok (CreateTransaction_ args), w') ∧
    ta_Inputs args = InputFromUTXO <$> (unlocked <$> us) ∧ us ≠ [] ∧ us ⊆ coins st spender.
Proof.
  intros Hh Hn Hg Hw Hspent Hpay Hnew Hne Hfrom Hr Ha Hfee Hos Htot Hpos Hen.
  destruct (PutTxs_run txs h w0 st Hh Hn Hg Hw) as (w1 & Hput & Hw1 & _).
  destruct (recorded_fields st (filterOf st w0) (w_now w0) h st txs) as (HU & _ & _ & HA & HS & _).
  set (st' := foldl _ st txs) in *. pose proof (coins_after spender _ h txs st st' HU HS Hpay Hnew) as Hcoins.
  pose proof (createTransaction_ok from spender fee lock os (cl_set_db (w_db w1) w) st' addr Hw1 Hne Hfrom Hr) as Hc.
  rewrite HA, Hcoins in Hc. specialize (Hc Ha Hfee Hos ltac:(lia) Hpos). rewrite decide_False in Hc by lia.
  destruct Hc as (us & rest & change & w' & Hperm & Hrun & _ & _ & _ & _ & _ & Hlast).
  eexists _, w1, us, _, w'. split; [exact Hput|]. split; [exact Hrun|]. split; [done|]. split.
  - destruct (Hlast ltac:(lia)) as (us0 & u & -> & _). by destruct us0.
  - intros u Hu. rewrite <-Hperm. apply elem_of_app. by left.
Qed.

(** ** What is shown *)
Definition all_coins st (a : Uint168) : list UTXO := (map_to_list (filter (λ kv, u_Address kv.2 = a) (ws_utxos st))).*2.
Definition shown (h : Z) (u : UTXO) : Prop := u_AtHeight u ≠ 0 ∧ u_LockTime u < h.
#[global] Instance shown_dec h u : Decision (shown h u).
Proof. unfold shown. apply _. Defined.
(** Spendable, but not shown as available: the lock ends at the present height. *)
Definition unlocks_now (h : Z) (u : UTXO) : Prop := u_AtHeight u ≠ 0 ∧ u_LockTime u = h.
#[global] Instance unlocks_now_dec h u : Decision (unlocks_now h u).
Proof. unfold unlocks_now. apply _. Defined.

Lemma balance_spec h us : ∀ a l, 0 ≤ a → 0 ≤ l → (∀ u, u ∈ us → 0 ≤ u_Value u) → a + l + coin_value us < 2 ^ 63 →
  ∃ lv, balance h us a l = (a + coin_value (filter (shown h) us), l + lv) ∧ coin_value (filter (shown h) us) + lv = coin_value us.
Proof.
  induction us as [|u us IH]; intros a l Ha Hl Hu Hs; cbn [balance].
  - exists 0. change (filter (shown h) []) with (@nil UTXO). cbn. by rewrite !Z.add_0_r.
  - pose proof (Hu u ltac:(left)). assert (Hus : ∀ v, v ∈ us → 0 ≤ u_Value v) by (intros v ?; apply Hu; by right).
    pose proof (coin_value_nonneg us Hus). cbn [coin_value] in Hs |- *. rewrite filter_cons.
    destruct (Z.leb_spec h (u_LockTime u)) as [E1|E1]; cbn [orb].
    + rewrite decide_False by (intros [_ ?]; lia). rewrite i64_small by lia.
      destruct (IH a (l + u_Value u)) as (lv & -> & ?); [lia|lia|done|lia|]. exists (u_Value u + lv). split; [f_equal; lia|lia].
    + destruct (Z.eqb_spec (u_AtHeight u) 0) as [E2|E2].
      * rewrite decide_False by (intros [Hn _]; by apply Hn). rewrite i64_small by lia.
        destruct (IH a (l + u_Value u)) as (lv & -> & ?); [lia|lia|done|lia|]. exists (u_Value u + lv). split; [f_equal; lia|lia].
      * rewrite decide_True by done. rewrite i64_small by lia. cbn [coin_value].
        destruct (IH (a + u_Value u) l) as (lv & -> & ?); [lia|lia|done|lia|]. exists lv. split; [f_equal; lia|lia].
Qed.
Lemma spendable_shown h us : 0 ≤ h → coin_value (filter (spendable h) us) =
  coin_value (filter (shown h) us) + coin_value (filter (unlocks_now h) us).
Proof.
  intros Hh. induction us as [|u us IH]; [done|]. rewrite !filter_cons.
  destruct (decide (u_AtHeight u = 0)) as [E0|E0].
  { rewrite !decide_False by (intros [Hn _]; by apply Hn). done. }
  destruct (Z.lt_total (u_LockTime u) h) as [E1|[E1|E1]].
  - rewrite (decide_True (P := spendable h u)), (decide_True (P := shown h u)) by (split; [done|lia]).
    rewrite decide_False by (intros [_ ?]; lia). cbn [coin_value]. rewrite IH. lia.
  - rewrite (decide_True (P := spendable h u)), (decide_True (P := unlocks_now h u)) by (split; [done|lia]).
    rewrite decide_False by (intros [_ ?]; lia). cbn [coin_value]. rewrite IH. lia.
  - rewrite !decide_False by (intros [_ ?]; lia). done.
Qed.

Definition shown_of st (new : option Uint168) (a : Addr) (s : Shown) : Prop :=
  sh_Address s = ad_hash a ∧ sh_Type s = TypeName a ∧ (sh_New s = true ↔ new = Some (ad_hash a)) ∧
  sh_Available s + sh_Locked s = coin_value (all_coins st (ad_hash a)) ∧
  coin_value (coins st (ad_hash a)) =
    sh_Available s + coin_value (filter (unlocks_now (best_height st)) (all_coins st (ad_hash a))).

Lemma ShowAccounts_run addrs new w st : wdb st (cl_db w) →
  (∀ a, a ∈ addrs → (∀ u, u ∈ all_coins st (ad_hash a) → 0 ≤ u_Value u) ∧ coin_value (all_coins st (ad_hash a)) < 2 ^ 63) →
  ∃ lines w', ShowAccounts addrs new w = (Ok (), w') ∧ cl_shown w' = cl_shown w ++ lines ∧
    Forall2 (shown_of st new) addrs lines ∧ cl_db w' = cl_db w ∧ cl_stdin w' = cl_stdin w.
Proof.
  intros Hw Hv. unfold ShowAccounts. rewrite (bind_run _ _ _ _ _ (client_BestHeight_run w st Hw)).
  pose proof (best_height_fits _ _ Hw) as [Hh _]. revert w Hw. induction addrs as [|a addrs IH]; intros w Hw.
  - exists [], w. rewrite app_nil_r. split_and!; [done|done|constructor|done|done].
  - destruct (Hv a ltac:(left)) as [Hpos Hsum]. destruct (utxos_GetAddrAll_spec (ad_hash a) _ _ Hw) as (us & Hus & Hp).
    destruct (balance_spec (best_height st) us 0 0) as (lv & Hb & Hlv); [lia|lia| | |].
    { intros u Hu. apply Hpos. unfold all_coins. by rewrite <-Hp. }
    { rewrite (coin_value_perm _ _ Hp). fold (all_coins st (ad_hash a)). lia. }
    set (s := mkShown (ad_hash a) (0 + coin_value (filter (shown (best_height st)) us)) (0 + lv) (TypeName a) (bool_decide (new = Some (ad_hash a)))).
    destruct (IH (λ b Hb, Hv b (list_elem_of_further _ _ _ Hb)) (cl_show s w) Hw) as (lines & w' & Hr & Hs & Hf & Hdb & Hln).
    exists (s :: lines), w'. split; [|split; [|split; [constructor; [|done]|by split]]].
    + cbn [forM]. rewrite (bind_run _ _ w () (cl_show s w)); [exact Hr|].
      rewrite (bind_run _ _ w us w) by (apply mapErr_ok, checkErr_run, Hus). by rewrite Hb.
    + rewrite Hs. cbn [cl_show cl_shown]. by rewrite <-app_assoc.
    + unfold shown_of, s. cbn [sh_Address sh_Available sh_Locked sh_Type sh_New].
      assert (Hperm : filter (shown (best_height st)) us ≡ₚ filter (shown (best_height st)) (all_coins st (ad_hash a)))
        by (unfold all_coins; by rewrite Hp).
      split_and!; [done|done|by rewrite bool_decide_eq_true| |].
      * rewrite (coin_value_perm _ _ Hp) in Hlv. fold (all_coins st (ad_hash a)) in Hlv. lia.
      * rewrite (coin_value_perm _ _ Hperm). change (coins st (ad_hash a)) with (filter (spendable (best_height st)) (all_coins st (ad_hash a))).
        rewrite spendable_shown by done. lia.
Qed.

(** [ShowAccounts] prints a line for each address; available and locked are
    together all its coins.  What can be spent is what is shown as available
    plus the coins whose lock ends at the present height, which are shown as
    locked and spent all the same. *)
Theorem ShowAccounts_spec addrs new w st : wdb st (cl_db w) →
  (∀ a, a ∈ addrs → (∀ u, u ∈ all_coins st (ad_hash a) → 0 ≤ u_Value u) ∧ coin_value (all_coins st (ad_hash a)) < 2 ^ 63) →
  ∃ lines w', ShowAccounts addrs new w = (Ok (), w') ∧ cl_shown w' = cl_shown w ++ lines ∧
    Forall2 (shown_of st new) addrs lines ∧ cl_db w' = cl_db w.
Proof.
  intros Hw Hv. destruct (ShowAccounts_run addrs new w st Hw Hv) as (lines & w' & Hr & Hs & Hf & Hdb & _).
  by exists lines, w'.
Qed.

(** ** The address chosen *)
(** The lines that one call after the other gets from the reads: what a read holds
    after the end of a line is lost. *)
Fixpoint prompts (line : bytes) (reads : list (option bytes)) : list (option bytes) :=
  match reads with
  | [] => []
  | None :: reads => None :: prompts [] reads
  | Some chunk :: reads =>
      match upToNewline chunk with
      | Some end_ => Some (line ++ end_) :: prompts [] reads
      | None => prompts (line ++ chunk) reads
      end
  end.
Lemma readString_prompts reads : ∀ line,
  match prompts line reads with
  | [] => readString line reads = (None, [])
  | l :: ls => ∃ reads', readString line reads = (l, reads') ∧ prompts [] reads' = ls
  end.
Proof.
  induction reads as [|[chunk|] reads IH]; intros line; cbn [prompts readString]; [done| |by eexists].
  destruct (upToNewline chunk); [by eexists|apply IH].
Qed.

(** A line after which [getInput] asks again: not a number, above the count, or 0. *)
Definition asks_again (max : Z) (line : option bytes) : bool :=
  match line with
  | None => true
  | Some s => match ParseInt32 (TrimSpace s) with None => true | Some i => (max <? i) || (i =? 0) end
  end.
Definition with_reads reads w : W := cl_set_term (cl_passwords w) reads w.

Lemma getInput_run max l ls w : prompts [] (cl_stdin w) = l :: ls → ∃ reads, prompts [] reads = ls ∧
  getInput max w = (Ok (if asks_again max l then -1 else match l with Some s => default 0 (ParseInt32 (TrimSpace s)) - 1 | None => -1 end),
    with_reads reads w).
Proof.
  intros Hl. pose proof (readString_prompts (cl_stdin w) []) as Hr. rewrite Hl in Hr. destruct Hr as (reads & Hr & Hp).
  exists reads. split; [done|]. unfold getInput.
  rewrite (bind_run _ _ w l (with_reads reads w)) by (unfold readLine; by rewrite Hr).
  unfold asks_again. destruct l as [s|]; [|done]. destruct (ParseInt32 (TrimSpace s)) as [i|]; [|done]. cbn [default].
  destruct (max <? i); [done|]. cbn [orb]. destruct (Z.eqb_spec i 0) as [->|]; done.
Qed.
Lemma inputLoop_skip max ls : ∀ rest w, prompts [] (cl_stdin w) = ls ++ rest → forallb (asks_again max) ls = true →
  ∃ reads, prompts [] reads = rest ∧ ∀ fuel, inputLoop (length ls + fuel) max w = inputLoop fuel max (with_reads reads w).
Proof.
  induction ls as [|l ls IH]; intros rest w Hl Ha.
  - exists (cl_stdin w). split; [done|]. intros fuel. by destruct w.
  - cbn [forallb] in Ha. apply andb_true_iff in Ha as [Ha1 Ha2].
    destruct (getInput_run max l (ls ++ rest) w Hl) as (reads & Hp & Hg).
    destruct (IH rest (with_reads reads w) Hp Ha2) as (reads' & Hp' & Hrun). exists reads'. split; [done|]. intros fuel.
    cbn [length Nat.add inputLoop]. rewrite (bind_run _ _ _ _ _ Hg), Ha1. change (-1 =? -1) with true. cbv iota. by rewrite Hrun.
Qed.
(** When the input has ended, or ends before a line does, no fuel is enough. *)
Lemma inputLoop_eof max fuel : ∀ w, prompts [] (cl_stdin w) = [] → ∃ w', inputLoop fuel max w = (Ok None, w').
Proof.
  induction fuel as [|fuel IH]; intros w Hl; [by eexists|]. cbn [inputLoop].
  pose proof (readString_prompts (cl_stdin w) []) as Hr. rewrite Hl in Hr.
  rewrite (bind_run _ _ w (-1) (with_reads [] w)); [by apply IH|]. unfold getInput.
  by rewrite (bind_run _ _ w None (with_reads [] w)) by (unfold readLine; by rewrite Hr).
Qed.
Lemma inputLoop_never max ls : ∀ fuel w, prompts [] (cl_stdin w) = ls → forallb (asks_again max) ls = true →
  ∃ w', inputLoop fuel max w = (Ok None, w').
Proof.
  induction ls as [|l ls IH]; intros fuel w Hl Ha; [by apply inputLoop_eof|].
  destruct fuel as [|fuel]; [by eexists|]. cbn [forallb] in Ha. apply andb_true_iff in Ha as [Ha1 Ha2]. cbn [inputLoop].
  destruct (getInput_run max l ls w Hl) as (reads & Hp & Hg). rewrite (bind_run _ _ _ _ _ Hg), Ha1.
  change (-1 =? -1) with true. cbv iota. by apply IH.
Qed.

(** C32: choosing an address among several.  The lines the calls get ([prompts]) are
    those that end a read, or begin after one: what a read holds behind the end of
    a line is lost.  A line that is no number, a number above the count or 0 is
    asked again.  The first other line decides: a number from 1 to the count chooses
    that address, a negative one panics.  When there is no other line before the end of
    the input, the call never returns. *)
Theorem SelectAccount_spec w st addrs w1 before rest : wdb st (cl_db w) → client_GetAddrs w = (Ok addrs, w) →
  (2 ≤ length addrs)%nat → ShowAccounts addrs None w = (Ok (), w1) → prompts [] (cl_stdin w1) = before ++ rest →
  forallb (asks_again (Z.of_nat (length addrs))) before = true →
  match rest with
  | [] => ∀ fuel, ∃ w', SelectAccount fuel w = (Ok None, w')
  | l :: _ => asks_again (Z.of_nat (length addrs)) l = false → ∃ s i, l = Some s ∧ ParseInt32 (TrimSpace s) = Some i ∧
      if 1 <=? i
      then ∃ a w', addrs !! Z.to_nat (i - 1) = Some a ∧ SelectAccount (length before + 1) w = (Ok (Some (ad_hash a)), w')
      else ∃ w', SelectAccount (length before + 1) w = (Panic, w')
  end.
Proof.
  intros Hw Hg Hlen Hshow Hl Ha.
  assert (Hsel : ∀ fuel, SelectAccount fuel w =
    (index ←ₗ inputLoop fuel (Z.of_nat (length addrs)); done_ (lift (addr_at index addrs))) w1).
  { intros fuel. unfold SelectAccount. rewrite (bind_run _ _ w (inr addrs) w) by (by apply try_run).
    destruct addrs as [|a [|b l]]; [cbn in Hlen; lia..|]. by rewrite (bind_run _ _ _ _ _ Hshow). }
  destruct rest as [|l rest].
  - intros fuel. rewrite app_nil_r in Hl. destruct (inputLoop_never _ before fuel w1 Hl Ha) as (w' & Hr). exists w'.
    rewrite Hsel. unfold bindL. by rewrite (bind_run _ _ w1 None w').
  - intros Hno. unfold asks_again in Hno. destruct l as [s|]; [|done]. destruct (ParseInt32 (TrimSpace s)) as [i|] eqn:Hi; [|done].
    pose proof Hno as [Hmax%Z.ltb_ge Hnz%Z.eqb_neq]%orb_false_iff. exists s, i. split; [done|]. split; [done|].
    destruct (inputLoop_skip _ _ _ w1 Hl Ha) as (reads & Hp & Hrun).
    destruct (getInput_run (Z.of_nat (length addrs)) (Some s) rest (with_reads reads w1) Hp) as (reads' & _ & Hg').
    assert (Hin : SelectAccount (length before + 1) w = done_ (lift (addr_at (i - 1) addrs)) (with_reads reads' (with_reads reads w1))).
    { rewrite Hsel. unfold bindL at 1. rewrite (bind_run _ _ w1 (Some (i - 1)) (with_reads reads' (with_reads reads w1))); [done|].
      rewrite Hrun. cbn [inputLoop]. rewrite (bind_run _ _ _ _ _ Hg'). unfold asks_again. rewrite Hi, Hno.
      cbn [default from_option id]. by rewrite (proj2 (Z.eqb_neq (i - 1) (-1))) by lia. }
    destruct (Z.leb_spec 1 i).
    + destruct (lookup_lt_is_Some_2 addrs (Z.to_nat (i - 1)) ltac:(lia)) as (a & Hka).
      exists a. eexists. split; [done|]. rewrite Hin. unfold addr_at.
      rewrite (proj2 (Z.ltb_ge _ _)) by lia. rewrite Hka. done.
    + eexists. rewrite Hin. unfold addr_at. by rewrite (proj2 (Z.ltb_lt _ _)) by lia.
Qed.

(** ** Accounts and signatures *)
Context `{!ElaCryptoLaws PK} `{!KeystoreJsonLaws}.
Definition keys_on_disk pw (k : Keystore PK) w : Prop := keystore_ok pw k ∧ stored (ks_file k) (cl_env w).

Lemma VerifyPassword_run pw k w : keys_on_disk pw k w → VerifyPassword pw w = (Ok (), cl_set_keys (Some k) (cl_env w) w).
Proof.
  intros [Hk Hst]. unfold VerifyPassword. rewrite (bind_run _ _ w k w); [done|].
  unfold onKeyEnv. rewrite (zoom_run _ _ _ _ _ _ (open_same pw k _ Hk Hst)). by destruct w.
Qed.
Lemma VerifyPassword_wrong pw pw' k w : keys_on_disk pw k w → Sum256 (ToAesKey pw') ≠ Sum256 (ToAesKey pw) →
  VerifyPassword pw' w = (Err (ErrStr "password wrong"), w).
Proof.
  intros [(sk & Hs & _) Hst] Hne. unfold VerifyPassword. apply bind_run_err. unfold onKeyEnv.
  rewrite (zoom_run _ _ _ _ _ _ (open_wrong pw pw' _ _ _ _ Hs Hst Hne)). by destruct w.
Qed.

(** a new sub account is derived from the keystore that the password opens,
    the keystore file keeps it, its address is watched with its script, and the
    service is told; the wallet can sign for it. *)
Theorem NewSubAccount_spec pw k w st : keys_on_disk pw k w → wdb st (cl_db w) →
  kf_SubAccountsCount (ks_file k) < 2 ^ 63 - 1 →
  ∃ a k' w', NewSubAccount pw w = (Ok (ac_programHash a), w') ∧ keys_on_disk pw k' w' ∧ cl_keystore w' = Some k' ∧
    ks_accounts k' = ks_accounts k ++ [a] ∧
    wdb (set_addrs (<[ac_programHash a := NewAddr (ac_programHash a) (ac_redeemScript a) TypeSub]> (ws_addrs st)) st) (cl_db w') ∧
    cl_calls w' = cl_calls w ++ [("notifynewaddress", Uint168_String (ac_programHash a))] ∧
    ∃ b, GetAccountByProgramHash (ac_programHash a) k' = Some b ∧ ac_programHash b = ac_programHash a.
Proof.
  intros Hkd Hw Hmax. pose proof Hkd as [Hk [Hf _]].
  destruct (NewAccount_run pw k (cl_env w) Hk Hf Hmax) as (a & k' & e' & Hr & Hk' & Hst' & _ & Hacc).
  destruct (addrs_Put_spec_ (ac_programHash a) (ac_redeemScript a) TypeSub (cl_db w) st Hw) as (db' & Hput & Hw').
  { vm_compute. split; congruence. }
  set (w1 := cl_set_keys (Some k) (cl_env w) w). set (w2 := cl_set_keys (Some k') e' w1).
  set (call := ("notifynewaddress", Uint168_String (ac_programHash a))).
  exists a, k', (cl_add_call call (cl_set_db db' w2)). split; [|split_and!; try done].
  - unfold NewSubAccount. rewrite (bind_run _ _ w () w1) by (by apply VerifyPassword_run).
    rewrite (bind_run _ _ w1 a w2).
    2: { unfold onKeys, w1. cbn [cl_keystore cl_set_keys cl_env]. by rewrite Hr. }
    rewrite (bind_run _ _ w2 () (cl_set_db db' w2)).
    2: { unfold AddAddress, onStore. apply (zoom_run cl_db cl_set_db _ w2). exact Hput. }
    by rewrite (bind_run _ _ _ (jsonrpc_CallArray call.1 call.2) (cl_add_call call (cl_set_db db' w2))).
  - unfold GetAccountByProgramHash. rewrite Hacc.
    destruct (list_find (λ account, ac_programHash account = ac_programHash a) (ks_accounts k ++ [a])) as [[i b]|] eqn:Hfind.
    + exists b. split; [done|]. by apply list_find_Some in Hfind as (_ & ? & _).
    + exfalso. apply list_find_None in Hfind. rewrite Forall_forall in Hfind. apply (Hfind a); [|done].
      apply elem_of_app. right. left.
Qed.

(** signing a transaction of a standard account.  With a wrong password
    nothing is signed; with the keystore's, the transaction gets the signature
    of the account whose program hash is its script's, over its unsigned bytes,
    and an error when the keystore has no such account. *)
Theorem Sign_standard pw pw' k w tx code param rest buf : keys_on_disk pw k w →
  etx_Programs tx = mkProgram code param :: rest → GetScriptType code = Ok STANDARD →
  etx_SerializeUnsigned tx [] = (Ok (), buf) →
  if decide (pw' = pw) then
    match GetAccountByProgramHash (common_ToProgramHash PrefixStandard code) k with
    | Some a =>
        a ∈ ks_accounts k ∧ ac_programHash a = common_ToProgramHash PrefixStandard code ∧
        (client_Sign pw' tx w).1 = (signature ← crypto_Sign (ac_privateKey a) buf;
          Ok (etx_SetPrograms [mkProgram code (byte_of_Z (Z.of_nat (length signature)) :: signature)] tx))
    | None => (client_Sign pw' tx w).1 = Err (ErrStr "[Wallet], Invalid signer") ∧
        ∀ a, a ∈ ks_accounts k → ac_programHash a ≠ common_ToProgramHash PrefixStandard code
    end
  else Sum256 (ToAesKey pw') ≠ Sum256 (ToAesKey pw) → client_Sign pw' tx w = (Err (ErrStr "password wrong"), w).
Proof.
  intros Hk Hprog Htype Hser. destruct (decide (pw' = pw)) as [->|Hne].
  2: { intros Hh. unfold client_Sign. apply bind_run_err. by apply (VerifyPassword_wrong pw pw' k). }
  set (w1 := cl_set_keys (Some k) (cl_env w) w).
  assert (Hm : ∀ w, lift (S := W) (main_program tx) w = (Ok (mkProgram code param), w)).
  { intros w0. unfold lift, main_program. by rewrite Hprog. }
  assert (Hrun : client_Sign pw tx w = signStandardTransaction tx w1).
  { unfold client_Sign. rewrite (bind_run _ _ _ _ _ (VerifyPassword_run pw k w Hk)). fold w1.
    rewrite (bind_run _ _ _ _ _ (Hm w1)). rewrite (bind_run _ _ w1 STANDARD w1) by (unfold lift; cbn [Code]; by rewrite Htype).
    by rewrite decide_True. }
  rewrite Hrun. unfold signStandardTransaction. rewrite (bind_run _ _ _ _ _ (Hm w1)). cbn [Code]. cbv zeta.
  set (h := common_ToProgramHash PrefixStandard code).
  assert (Hget : withKeys (GetAccountByProgramHash h) w1 = (Ok (GetAccountByProgramHash h k), w1)) by done.
  rewrite (bind_run _ _ _ _ _ Hget).
  destruct (GetAccountByProgramHash h k) as [a|] eqn:Ha; unfold GetAccountByProgramHash in Ha.
  - apply fmap_Some in Ha as ([i b] & Hf & ->). apply list_find_Some in Hf as (Hi & Hh & _). cbn [snd].
    split; [by eapply list_elem_of_lookup_2|]. split; [done|].
    rewrite (bind_run _ _ w1 buf w1) by (unfold lift, unsigned_bytes; by rewrite Hser).
    unfold mbind at 1, GoM_bind at 1, lift, Account_Sign. by destruct (crypto_Sign (ac_privateKey b) buf).
  - split; [done|]. apply fmap_None, list_find_None in Ha. intros a Hin. rewrite Forall_forall in Ha. by apply Ha.
Qed.
End spec.
