(* ===== verification/ClientCli.v ===== *)
(** * The commands of the wallet client

    [wallet/client/transaction], [wallet/client/account] and
    [wallet/client/wallet]: what each command reads from its arguments, files
    and the terminal, and what it asks of the wallet. *)
From S2P Require Export Client Headers.
#[local] Open Scope Z_scope.

(** A path of the command line: no such file, a file that cannot be opened or
    read, or its content. *)
Inductive fileView := NoFile | NoOpen | NoRead | Content (content : bytes).
(** [cli.Context] *)
Record cliContext := mkContext {
  c_NumFlags : Z;
  c_String : string → bytes;
  c_Int : string → Z;
  c_Bool : string → bool;
  c_File : bytes → fileView;
}.

Class CliLib (PK : Type) := {
  StringToFixed64 : bytes → option Z;
  (* how many signatures there are and are needed, and its error *)
  GetSignStatus : bytes → bytes → Z * Z * option goerr;
  DecodePoint : bytes → outcome PK;
}.

(** [strings.Split] at one byte. *)
Fixpoint split_at (sep : byte) (s : bytes) : list bytes :=
  match s with
  | [] => [[]]
  | b :: s =>
      if bool_decide (b = sep) then [] :: split_at sep s
      else match split_at sep s with l :: ls => (b :: l) :: ls | [] => [[b]] end
  end.
(** The tokens of a [bufio.Scanner]: lines without their end, up to the first
    that does not fit its buffer of 64 kilobytes; the error is the scanner's. *)
Definition MaxScanTokenSize : Z := 65536.
Definition dropCR (line : bytes) : bytes :=
  match reverse line with x0d :: r => reverse r | _ => line end.
Fixpoint scan_lines (lines : list bytes) : list bytes :=
  match lines with
  | [] | [[]] => []
  | line :: lines => if Z.of_nat (length line) <? MaxScanTokenSize then dropCR line :: scan_lines lines else []
  end.
Definition Scanner (content : bytes) : list bytes := scan_lines (split_at x0a content).

(** [fmt.Sprint] of an int. *)
Definition Sprint_int (z : Z) : bytes := if z <? 0 then x2d :: FormatInt (- z) else FormatInt z.

Section cli.
Context {DB PK T : Type} `{!SQLite DB} `{E : ElaCommon} `{!Uint168Bytes} `{!Uint256Bytes} `{!Fixed64Bytes}.
Context `{!ElaTransaction T} `{!TxReader T} `{!ListenerLib} `{!Sha} `{!ElaCrypto PK} `{!KeystoreJson} `{!GoRand} `{!MathRand}.
Context `{!ClientLib PK T} `{!GoSort} `{!CliLib PK}.
Notation W := (Client DB PK).
Implicit Types (c : cliContext).

(** ** [transaction/transaction.go] *)

(** The loop over the lines of the file. *)
Fixpoint readTransfers (lines : list bytes) : outcome (list Transfer) :=
  match lines with
  | [] => Ok []
  | line :: lines =>
      match split_at x2c line with
      | c0 :: c1 :: _ =>
          match StringToFixed64 (TrimSpace c1) with
          | None => Err (ErrStr "invalid multi output transaction amount: ")
          | Some amount => rest ← readTransfers lines; Ok (mkTransfer (TrimSpace c0) amount :: rest)
          end
      | _ => Err (ErrStr "invalid multi output line:")
      end
  end.
Definition lockHeight (lockStr : bytes) : outcome Z :=
  match ParseUint32 lockStr with Some lock => Ok lock | None => Err (ErrStr "invalid lock height") end.
Definition createMultiOutputTransaction c (path from : bytes) (fee : Z) : GoM W T :=
  content ← lift (match c_File c path with
                  | NoFile => Err (ErrStr "invalid multi output file path")
                  | NoOpen => Err (ErrStr "open multi output file failed")
                  | NoRead => Ok []
                  | Content content => Ok content
                  end);
  multiOutput ← lift (readTransfers (Scanner content));
  let failed := Errorf "create multi output transaction failed: " in
  match c_String c "lock" with
  | [] => mapErr failed (CreateMultiOutputTransaction from fee multiOutput)
  | lockStr =>
      lock ← lift (lockHeight lockStr);
      mapErr failed (CreateLockedMultiOutputTransaction from fee lock multiOutput)
  end.

(** [Addr.String]: the error of [ToAddress] is dropped. *)
Definition address_text (h : Uint168) : bytes := match ToAddress h with Ok s => s | _ => [] end.
Definition createSingleTransaction c (from : bytes) (fee : Z) : GoM W T :=
  match c_String c "to", c_String c "amount" with
  | [], _ => throw (ErrStr "use --to to specify receiver address")
  | _, [] => throw (ErrStr "use --amount to specify transfer amount")
  | to, amountStr =>
      match StringToFixed64 amountStr with
      | None => throw (ErrStr "invalid transaction amount")
      | Some amount =>
          let failed := Errorf "create transaction failed: " in
          match c_String c "lock" with
          | [] => mapErr failed (client_CreateTransaction from to amount fee)
          | lockStr =>
              lock ← lift (lockHeight lockStr);
              mapErr failed (CreateLockedTransaction from to amount fee lock)
          end
      end
  end.
Definition cli_createTransaction (fuel : nat) c : GoL W T :=
  match c_String c "fee" with
  | [] => throw (ErrStr "use --fee to specify transfer fee")
  | feeStr =>
      match StringToFixed64 feeStr with
      | None => throw (ErrStr "invalid transaction fee")
      | Some fee =>
          from ←ₗ match c_String c "from" with
                  | [] => h ←ₗ SelectAccount fuel; mret (Some (address_text h))
                  | from => mret (Some from)
                  end;
          match c_String c "file" with
          | [] => done_ (createSingleTransaction c from fee)
          | multiOutput => done_ (createMultiOutputTransaction c multiOutput from fee)
          end
      end
  end.

Definition getContent c : outcome bytes :=
  match TrimSpace (c_String c "file") with
  | [] =>
      match TrimSpace (c_String c "hex") with
      | [] => Err (ErrStr "transaction hex string is empty")
      | content => Ok content
      end
  | filePath =>
      match c_File c filePath with
      | NoFile => Err (ErrStr "invalid transaction file path")
      | NoOpen => Err (ErrStr "open transaction file failed")
      | NoRead => Err (ErrStr "read transaction file failed")
      | Content rawData =>
          match TrimSpace rawData with
          | [] => Err (ErrStr "transaction file is empty")
          | content => Ok content
          end
      end
  end.
Definition getTransaction c : outcome T :=
  content ← getContent c;
  match HexStringToBytes content with
  | Ok rawData =>
      match GetTransactionByBytes rawData with
      | (Ok txn, r) => match (tx_Deserialize txn r).1 with
                       | Err _ => Err (ErrStr "deserialize transaction failed")
                       | o => o
                       end
      | (Err e, _) => Err e
      | (Panic, _) => Panic
      end
  | Err _ => Err (ErrStr "decode transaction content failed")
  | Panic => Panic
  end.

(** The error of [GetSignStatus] is overwritten. *)
Definition cli_signTransaction (password : bytes) (tx : T) : GoM W T :=
  prog ← lift (main_program tx);
  let '(haveSign, needSign, _) := GetSignStatus (Code prog) (Parameter_ prog) in
  if haveSign =? needSign then throw (ErrStr "transaction was fully signed, no need more sign")
  else
    password ← GetPassword password false;
    client_Sign password tx.

(** The name and the content of the file written; the error of [Serialize] is
    dropped. *)
Definition output_file (tx : T) : outcome (bytes * bytes) :=
  match etx_Serialize tx [] with
  | (Panic, _) => Panic
  | (_, buf) =>
      prog ← main_program tx;
      let '(haveSign, needSign, _) := GetSignStatus (Code prog) (Parameter_ prog) in
      let fileName :=
        if haveSign <? needSign then lit "to_be_signed_" ++ Sprint_int haveSign ++ lit "_of_" ++ Sprint_int needSign
        else if needSign =? haveSign then lit "ready_to_send" else lit "to_be_signed" in
      Ok (fileName ++ lit ".tx", BytesToHexString buf)
  end.
Definition output (tx : T) : GoM W (bytes * bytes) :=
  file ← lift (output_file tx);
  onKeyEnv fileOp ≫= λ _,
  onKeyEnv fileOp ≫= λ _,
  mret file.

Definition cli_CreateTransaction (fuel : nat) c : GoL W (bytes * bytes) :=
  txn ←ₗ cli_createTransaction fuel c; done_ (output txn).
Definition cli_SignTransaction (password : bytes) c : GoM W (bytes * bytes) :=
  txn ← lift (getTransaction c);
  txn ← cli_signTransaction password txn;
  output txn.
Definition deserializeErr : goerr → goerr := Errorf "deseralize transaction file failed, error ".
Definition cli_SendTransaction (fuel : nat) (password : bytes) c : GoL W Uint256 :=
  tx ←ₗ match getContent c with
        | Ok content =>
            done_ (data ← mapErr deserializeErr (lift (HexStringToBytes content));
                   let '(o, r) := GetTransactionByBytes data in
                   tx ← mapErr deserializeErr (lift o);
                   lift (tx_Deserialize tx r).1)
        | _ =>
            tx ←ₗ cli_createTransaction fuel c;
            done_ (cli_signTransaction password tx)
        end;
  done_ (client_SendTransaction tx ≫= λ _, mret (etx_Hash tx)).

(** The exit code of [transactionAction], 0 when it returns. *)
Definition orExit {A} (code : Z) (m : GoL W A) (k : GoL W Z) : GoL W Z :=
  r ←ₗ tryL m; match r with inl _ => mret (Some code) | inr _ => k end.
Definition transactionAction (fuel : nat) c : GoL W Z :=
  if c_NumFlags c =? 0 then mret (Some 0) else
  let pass := c_String c "password" in
  orExit 2 (done_ client_Open) (
  (if c_Bool c "create" then orExit 701 (cli_CreateTransaction fuel c) else id) (
  (if c_Bool c "sign" then orExit 702 (done_ (cli_SignTransaction pass c)) else id) (
  (if c_Bool c "send" then orExit 703 (cli_SendTransaction fuel pass c) else id) (
  mret (Some 0))))).

(** ** [account/account.go] *)
Definition MinMultiSignKeys : Z := 3.
Definition addrsErr : goerr → goerr := λ _, ErrStr "get wallet addresses failed".
Definition listBalanceInfo : GoM W unit :=
  addrs ← mapErr addrsErr client_GetAddrs; ShowAccounts addrs None.
Definition newSubAccount (password : bytes) : GoM W unit :=
  password ← GetPassword password false;
  programHash ← NewSubAccount password;
  addrs ← mapErr addrsErr client_GetAddrs;
  ShowAccounts addrs (Some programHash).

(** [keyMap[s]]: the empty text is never found. *)
Fixpoint checkDuplicate (keyMap : gmap bytes bytes) (keys : list bytes) : outcome unit :=
  match keys with
  | [] => Ok ()
  | key :: keys =>
      match default [] (keyMap !! key) with
      | [] => checkDuplicate (<[key := key]> keyMap) keys
      | _ => Err (ErrStr "duplicate public key:")
      end
  end.
Fixpoint decodeKeys (keys : list bytes) : outcome (list PK) :=
  match keys with
  | [] => Ok []
  | v :: keys =>
      keyBytes ← HexStringToBytes (TrimSpace v);
      publicKey ← DecodePoint keyBytes;
      rest ← decodeKeys keys;
      Ok (publicKey :: rest)
  end.
Definition keyStrings c (content : bytes) : outcome (list bytes) :=
  match c_File c content with
  | NoFile => Ok (split_at x2c (TrimSpace content))
  | NoOpen => Err (ErrStr "open public key file failed")
  | NoRead => Err (ErrStr "read public key file failed")
  | Content rawData => Ok (split_at x0a (TrimSpace rawData))
  end.
Definition getPublicKeys c (content : bytes) : outcome (list PK) :=
  match content with
  | [] => Err (ErrStr "content should be the public key[s] file path or public key strings separated by comma")
  | _ =>
      publicKeyStrings ← keyStrings c content;
      checkDuplicate ∅ publicKeyStrings ≫= λ _,
      decodeKeys publicKeyStrings
  end.
Definition multiSignM c (n : Z) : Z := let m := c_Int c "m" in if m =? 0 then n / 2 + 1 else m.
Definition addMultiSignAccount c (content : bytes) : GoM W unit :=
  publicKeys ← lift (getPublicKeys c content);
  let n := Z.of_nat (length publicKeys) in
  if n <? MinMultiSignKeys then throw (ErrStr "multi sign account require at lest ")
  else
    let m := multiSignM c n in
    if (m <? n / 2 + 1) || (n <? m) then
      throw (ErrStr "M must be greater than half number of public keys, less than number of public keys")
    else
      programHash ← AddMultiSignAccount m publicKeys;
      addrs ← mapErr addrsErr client_GetAddrs;
      ShowAccounts addrs (Some programHash).

(** What [ShowAccountInfo] prints: address, public key, type. *)
Definition accountLine (i : nat) (account : Account PK) : bytes * bytes * string :=
  let publicKeyBytes := match EncodePoint (ac_publicKey account) true with Ok b => b | _ => [] end in
  (ac_address account, BytesToHexString publicKeyBytes, if decide (i = 0%nat) then "MASTER" else "SUB")%string.
Definition ShowAccountInfo (password : bytes) : GoM W (list (bytes * bytes * string)) :=
  password ← GetPassword password false;
  keyStore ← onKeyEnv (OpenKeystore password);
  mret (imap accountLine (GetAccounts keyStore)).
Definition accountAction c : GoM W Z :=
  if c_NumFlags c =? 0 then mret 0 else
  let pass := c_String c "password" in
  let orExit (code : Z) (m : GoM W unit) : GoM W Z :=
    r ← try m; mret (match r with inl _ => code | inr _ => 0 end) in
  opened ← try client_Open;
  match opened with
  | inl _ => mret 2
  | inr _ =>
      if c_Bool c "list" then orExit 3 (_ ← ShowAccountInfo pass; mret ())
      else if c_Bool c "new" then orExit 5 (newSubAccount pass)
      else match c_String c "addmultisig" with
           | _ :: _ => orExit 5 (addMultiSignAccount c (c_String c "addmultisig"))
           | [] => if c_Bool c "balance" then orExit 6 listBalanceInfo else mret 0
           end
  end.

(** ** [wallet/wallet.go]: the message each command ends with *)
Definition orSay {A} (m : GoM W A) (failed : string) (k : A → GoM W string) : GoM W string :=
  r ← try m; match r with inl _ => mret failed | inr a => k a end.
Definition createWallet c : GoM W string :=
  orSay (GetPassword (c_String c "password") true) "--GET PASSWORD FAILED--" (λ password,
  orSay (client_Create password) "--CREATE WALLET FAILED--" (λ _,
  _ ← try (ShowAccountInfo password); mret "")).
Definition changePassword c : GoM W string :=
  orSay (GetPassword (c_String c "password") false) "--GET PASSWORD FAILED--" (λ oldPassword,
  orSay client_Open "--OPEN WALLET FAILED--" (λ _,
  orSay (VerifyPassword oldPassword) "--PASSWORD WRONG--" (λ _,
  orSay (GetPassword [] true) "--GET NEW PASSWORD FAILED--" (λ newPassword,
  orSay (onKeys (ChangePassword oldPassword newPassword)) "--CHANGED WALLET PASSWORD FAILED--" (λ _,
  mret "--PASSWORD CHANGED SUCCESSFUL--"))))).

(** [database.Clear] empties the header store, which another process may hold
    open ([None]), and then drops the tables. *)
Context {LDB OM HD : Type} `{!LevelDB LDB} `{!BlockHeader HD} `{!OrderedMap OM Uint256 (Header HD)}.
Notation CW := (W * option (headerStore LDB OM HD))%type.
Definition onW_ {A} (m : GoM W A) : GoM CW A := zoom fst (λ w s, (w, s.2)) m.
Definition clearHeaders : GoM CW unit := λ s,
  match s.2 with
  | None => (Err (ErrStr "resource temporarily unavailable"), s)
  | Some hs => let '(o, hs) := (Database_initCache ≫= λ _, Database_Clear) hs in (o, (s.1, Some hs))
  end.
Definition database_Clear : GoM CW unit := clearHeaders ≫= λ _, onW_ (onStore sqlDatabase_Clear).
Definition resetDatabase c : GoM CW string :=
  let orSay {A} (m : GoM CW A) (failed : string) (k : A → GoM CW string) : GoM CW string :=
    r ← try m; match r with inl _ => mret failed | inr a => k a end in
  orSay (onW_ (GetPassword (c_String c "password") false)) "--GET PASSWORD FAILED--" (λ oldPassword,
  orSay (onW_ client_Open) "--OPEN WALLET FAILED--" (λ _,
  orSay (onW_ (VerifyPassword oldPassword)) "--PASSWORD WRONG--" (λ _,
  orSay database_Clear "--WALLET DATABASE RESET FAILED--" (λ _,
  mret "--WALLET DATABASE HAS BEEN RESET--")))).
End cli.
