(* ===== verification/ClientCliSpec.v ===== *)
(** * What the commands accept *)
From S2P Require Export ClientCli ClientSpec.
#[local] Open Scope Z_scope.

(** ** Text *)
Lemma split_at_app sep a b : sep ∉ a → split_at sep (a ++ sep :: b) = a :: split_at sep b.
Proof.
  induction a as [|x a IH]; intros Ha; cbn [app split_at]; [by rewrite bool_decide_eq_true_2|].
  rewrite bool_decide_eq_false_2 by (intros ->; apply Ha; left). rewrite IH; [done|]. intros ?; apply Ha; by right.
Qed.
Lemma split_at_ne sep s : split_at sep s ≠ [].
Proof. destruct s as [|x s]; cbn; [done|]. case_bool_decide; [done|]. by destruct (split_at sep s). Qed.
Lemma scan_lines_app before long rest : Forall (λ l, Z.of_nat (length l) < MaxScanTokenSize) before →
  MaxScanTokenSize ≤ Z.of_nat (length long) → scan_lines (before ++ long :: rest) = dropCR <$> before.
Proof.
  intros Hb Hl. induction Hb as [|l before Hl' _ IH].
  - cbn [app scan_lines]. destruct long as [|x long]; [unfold MaxScanTokenSize in Hl; cbn in Hl; lia|].
    destruct rest; by rewrite (proj2 (Z.ltb_ge _ _)) by lia.
  - cbn [app scan_lines]. rewrite (proj2 (Z.ltb_lt _ _)) by lia. rewrite IH.
    destruct l; destruct before; done.
Qed.
Lemma scan_lines_end lines : Forall (λ l, Z.of_nat (length l) < MaxScanTokenSize) lines →
  scan_lines (lines ++ [[]]) = dropCR <$> lines.
Proof.
  intros Hb. induction Hb as [|l lines Hl _ IH]; [done|]. cbn [app scan_lines].
  rewrite (proj2 (Z.ltb_lt _ _)) by lia. rewrite IH. destruct l; destruct lines; done.
Qed.

(** ** Public keys *)
Lemma checkDuplicate_spec keys : ∀ m : gmap bytes bytes, (∀ k v, m !! k = Some v → v = k) →
  checkDuplicate m keys = Ok () ∨ checkDuplicate m keys = Err (ErrStr "duplicate public key:").
Proof.
  induction keys as [|k keys IH]; intros m Hm; [by left|]. cbn [checkDuplicate].
  destruct (default [] (m !! k)) as [|b v]; [|by right]. apply IH.
  intros k' v' [[<- <-]|[_ Hk]]%lookup_insert_Some; [done|by apply Hm].
Qed.
Lemma checkDuplicate_ok keys : ∀ m : gmap bytes bytes, (∀ k v, m !! k = Some v → v = k) →
  checkDuplicate m keys = Ok () ↔
  NoDup (filter (λ k, k ≠ []) keys) ∧ ∀ k, k ∈ keys → k ≠ [] → m !! k = None.
Proof.
  induction keys as [|k keys IH]; intros m Hm; cbn [checkDuplicate].
  { split; [intros _; split; [constructor|by intros ? ?%not_elem_of_nil]|done]. }
  assert (Hins : ∀ k' v', <[k := k]> m !! k' = Some v' → v' = k').
  { intros k' v' [[<- <-]|[_ Hk]]%lookup_insert_Some; [done|by apply Hm]. }
  rewrite filter_cons. destruct (decide (k ≠ [])) as [Hk|Hk].
  - destruct (m !! k) as [v|] eqn:Hv; cbn [default from_option].
    + pose proof (Hm _ _ Hv) as ->. split.
      * destruct k; [done|]. discriminate.
      * intros [_ Hn]. specialize (Hn k ltac:(left) Hk). congruence.
    + rewrite IH by done. rewrite NoDup_cons. split.
      * intros [Hnd Hn]. split_and!; [|done|].
        { intros [_ Hin]%list_elem_of_filter. specialize (Hn k Hin Hk). by rewrite lookup_insert_eq in Hn. }
        intros k' [->|Hin]%elem_of_cons Hne; [done|]. by apply Hn, lookup_insert_None in Hin as [? _].
      * intros [[Hk' Hnd] Hn]. split; [done|]. intros k' Hin Hne. rewrite lookup_insert_ne.
        { apply Hn; [by right|done]. }
        intros <-. apply Hk'. by apply list_elem_of_filter.
  - assert (k = []) as -> by (destruct k; [done|by destruct Hk]).
    assert (default [] (m !! []) = []) as ->.
    { destruct (m !! []) as [v|] eqn:Hv; [by rewrite (Hm _ _ Hv)|done]. }
    rewrite IH by done. split; intros [Hnd Hn]; (split; [done|]); intros k' Hin Hne.
    + apply elem_of_cons in Hin as [->|Hin]; [done|]. by apply Hn, lookup_insert_None in Hin as [? _].
    + rewrite lookup_insert_ne by congruence. apply Hn; [by right|done].
Qed.

Section spec.
Context {DB PK T : Type} `{!SQLite DB} `{!SQLiteLaws DB} `{E : ElaCommon} `{!ElaCommonLaws E}.
Context `{!Uint168Bytes} `{!Uint168BytesLaws} `{!Uint256Bytes} `{!Uint256BytesLaws} `{!Fixed64Bytes} `{!Fixed64BytesLaws}.
Context `{!ElaTransaction T} `{!TxReader T} `{!ListenerLib} `{!Sha} `{!ElaCrypto PK} `{!KeystoreJson} `{!GoRand} `{!MathRand}.
Context `{!ClientLib PK T} `{!GoSort} `{!CliLib PK}.
Notation W := (Client DB PK).
Implicit Types (c : cliContext) (w : W) (st : wstore).

Definition too_few : goerr := ErrStr "multi sign account require at lest ".
Definition bad_m : goerr := ErrStr "M must be greater than half number of public keys, less than number of public keys".

(** a multi-signature account.  Fewer than three keys are refused, and every
    number of signers but from a majority to all of them; by default it is the
    smallest majority.  What is accepted is stored with its script, and the
    service is told. *)
Theorem addMultiSignAccount_spec c content w st keys : wdb st (cl_db w) → getPublicKeys (PK := PK) c content = Ok keys →
  let n := Z.of_nat (length keys) in
  let m := if c_Int c "m" =? 0 then n / 2 + 1 else c_Int c "m" in
  (n < 3 → addMultiSignAccount c content w = (Err too_few, w)) ∧
  (3 ≤ n → ¬ (n < 2 * m ∧ m ≤ n) → addMultiSignAccount c content w = (Err bad_m, w)) ∧
  (3 ≤ n → c_Int c "m" = 0 → n < 2 * m ∧ 2 * (m - 1) ≤ n ∧ m ≤ n) ∧
  (3 ≤ n → n < 2 * m ∧ m ≤ n → ∀ ct, CreateMultiSigContract m keys = Ok ct →
    ∃ w' st', wdb st' (cl_db w') ∧
      st' = set_addrs (<[ct_ToProgramHash ct := NewAddr (ct_ToProgramHash ct) (ct_Code ct) TypeMulti]> (ws_addrs st)) st ∧
      cl_calls w' = cl_calls w ++ [("notifynewaddress", Uint168_String (ct_ToProgramHash ct))] ∧
      addMultiSignAccount c content w = (addrs ← mapErr addrsErr client_GetAddrs; ShowAccounts addrs (Some (ct_ToProgramHash ct))) w').
Proof.
  intros Hw Hkeys n m. assert (Hrun : addMultiSignAccount c content w =
    (if n <? 3 then throw too_few else if (m <? n / 2 + 1) || (n <? m) then throw bad_m else
     programHash ← AddMultiSignAccount m keys; addrs ← mapErr addrsErr client_GetAddrs; ShowAccounts addrs (Some programHash)) w).
  { unfold addMultiSignAccount. by rewrite (bind_run _ _ w keys w) by (unfold lift; by rewrite Hkeys). }
  assert (Hmaj : m < n / 2 + 1 ↔ ¬ n < 2 * m).
  { clear. clearbody n m. pose proof (Z.div_mod n 2). pose proof (Z.mod_pos_bound n 2). lia. }
  split_and!.
  - intros Hn. rewrite Hrun. by rewrite (proj2 (Z.ltb_lt _ _)) by lia.
  - intros Hn Hm. rewrite Hrun. rewrite (proj2 (Z.ltb_ge _ _)) by lia.
    assert ((m <? n / 2 + 1) || (n <? m) = true) as ->; [|done]. apply orb_true_iff. rewrite !Z.ltb_lt. lia.
  - intros Hn Hdef. subst m. rewrite Hdef in *. cbn [Z.eqb] in *. pose proof (Z.div_mod n 2). pose proof (Z.mod_pos_bound n 2). lia.
  - intros Hn Hm ct Hct. rewrite Hrun. rewrite (proj2 (Z.ltb_ge _ _)) by lia.
    assert ((m <? n / 2 + 1) || (n <? m) = false) as ->.
    { apply orb_false_iff. rewrite !Z.ltb_ge. split; [|lia]. apply Znot_gt_le. intros ?. apply Hmaj; lia. }
    destruct (addrs_Put_spec_ (ct_ToProgramHash ct) (ct_Code ct) TypeMulti (cl_db w) st Hw) as (db' & Hput & Hw').
    { vm_compute. split; congruence. }
    exists (cl_add_call ("notifynewaddress", Uint168_String (ct_ToProgramHash ct)) (cl_set_db db' w)). eexists.
    split; [exact Hw'|]. split; [done|]. split; [done|].
    unfold mbind at 1, GoM_bind at 1. unfold AddMultiSignAccount.
    rewrite (bind_run _ _ w ct w) by (apply mapErr_ok; unfold lift; by rewrite Hct).
    cbv zeta. rewrite (bind_run _ _ w () (cl_set_db db' w)).
    2: { unfold AddAddress, onStore. apply (zoom_run cl_db cl_set_db _ w). exact Hput. }
    done.
Qed.

(** the public keys of a command line.  Two texts that are equal are
    refused; two texts of one key that differ, by white space around them or by
    the case of their digits, are both taken, and the key is there twice. *)
Theorem getPublicKeys_duplicates c content texts keys : content ≠ [] → keyStrings c content = Ok texts →
  Forall2 (λ t k, t ≠ [] ∧ ∃ b, HexStringToBytes (TrimSpace t) = Ok b ∧ DecodePoint b = Ok k) texts keys →
  (NoDup texts → getPublicKeys (PK := PK) c content = Ok keys) ∧
  (¬ NoDup texts → getPublicKeys (PK := PK) c content = Err (ErrStr "duplicate public key:")) ∧
  ∀ i j t t' b, texts !! i = Some t → texts !! j = Some t' → HexStringToBytes (TrimSpace t) = Ok b →
    HexStringToBytes (TrimSpace t') = Ok b → ∃ k : PK, keys !! i = Some k ∧ keys !! j = Some k.
Proof.
  intros Hc Hs Hf. assert (Hne : filter (λ k, k ≠ []) texts = texts).
  { clear Hs. induction Hf as [|t k texts keys [Ht _] _ IH]; [done|]. rewrite filter_cons, decide_True by done. by rewrite IH. }
  assert (Hdec : decodeKeys texts = Ok keys).
  { clear Hs Hne. induction Hf as [|t k texts keys (_ & b & Hb & Hk) _ IH]; [done|]. cbn [decodeKeys].
    rewrite Hb. cbn [mbind outcome_bind]. rewrite Hk. cbn [mbind outcome_bind]. by rewrite IH. }
  assert (Hrun : getPublicKeys (PK := PK) c content = (checkDuplicate ∅ texts ≫= λ _, Ok keys)).
  { unfold getPublicKeys. destruct content; [done|]. rewrite Hs. cbn [mbind outcome_bind].
    destruct (checkDuplicate ∅ texts) as [[]|e|]; [exact Hdec|done|done]. }
  assert (Hempty : ∀ k v : bytes, (∅ : gmap bytes bytes) !! k = Some v → v = k) by (intros k v Hk; by rewrite lookup_empty in Hk).
  pose proof (checkDuplicate_ok texts ∅ Hempty) as Hd. rewrite Hne in Hd.
  rewrite Hrun. split_and!.
  - intros Hnd. by rewrite (proj2 Hd) by (split; [done|intros; apply lookup_empty]).
  - intros Hnd. destruct (checkDuplicate_spec texts ∅ Hempty) as [Hok| ->]; [|done].
    exfalso. by apply Hnd, Hd.
  - intros i j t t' b Hi Hj Hb Hb'. destruct (Forall2_lookup_l _ _ _ _ _ Hf Hi) as (k & Hk & _ & b1 & Hb1 & Hd1).
    destruct (Forall2_lookup_l _ _ _ _ _ Hf Hj) as (k' & Hk' & _ & b2 & Hb2 & Hd2).
    assert (k = k') as <- by congruence. by exists k.
Qed.

(** a file of several outputs cannot be sent in one step: [--send] reads the
    file of [--file] as the text of a transaction, and fails on one that is not
    hexadecimal before anything is sent. *)
Theorem SendTransaction_file fuel password c w content e : TrimSpace (c_String c "file") ≠ [] →
  c_File c (TrimSpace (c_String c "file")) = Content content → TrimSpace content ≠ [] →
  HexStringToBytes (TrimSpace content) = Err e →
  cli_SendTransaction fuel password c w = (Err (deserializeErr e), w).
Proof.
  intros Hf Hc Hne Hhex. assert (Hg : getContent c = Ok (TrimSpace content)).
  { unfold getContent. destruct (TrimSpace (c_String c "file")) as [|b s]; [done|]. rewrite Hc.
    by destruct (TrimSpace content). }
  unfold cli_SendTransaction. rewrite Hg. unfold bindL at 1. apply bind_run_err. unfold done_.
  apply bind_run_err, bind_run_err. rewrite mapErr_run. unfold lift. by rewrite Hhex.
Qed.

(** a line of the outputs file too long for the scanner ends the reading:
    its output and those of the lines after it are left out of the transaction,
    and no error is given. *)
Theorem createMultiOutput_truncated c c' path from fee w before long rest :
  c_String c' = c_String c → c_File c path = Content (before ++ long ++ x0a :: rest) →
  c_File c' path = Content before →
  (∃ lines, before = concat ((λ l, l ++ [x0a]) <$> lines) ∧
     Forall (λ l, x0a ∉ l ∧ Z.of_nat (length l) < MaxScanTokenSize) lines) →
  x0a ∉ long → MaxScanTokenSize ≤ Z.of_nat (length long) →
  createMultiOutputTransaction c path from fee w = createMultiOutputTransaction c' path from fee w.
Proof.
  intros Hs Hc Hc' (lines & -> & Hl) Hlong Hlen.
  assert (Hsplit : ∀ tail_, split_at x0a (concat ((λ l, l ++ [x0a]) <$> lines) ++ tail_) = lines ++ split_at x0a tail_).
  { intros tail_. clear -Hl. induction Hl as [|l lines [Hl _] _ IH]; [done|]. cbn [fmap list_fmap concat].
    rewrite <-!app_assoc. change ([x0a] ++ ?x) with (x0a :: x). rewrite split_at_app by done. by rewrite IH. }
  assert (Hshort : Forall (λ l, Z.of_nat (length l) < MaxScanTokenSize) lines).
  { eapply Forall_impl; [exact Hl|]. by intros l []. }
  assert (Hscan : Scanner (concat ((λ l, l ++ [x0a]) <$> lines) ++ long ++ x0a :: rest) = Scanner (concat ((λ l, l ++ [x0a]) <$> lines))).
  { unfold Scanner. rewrite Hsplit, split_at_app by done. rewrite scan_lines_app by done.
    rewrite <-(app_nil_r (concat _)), Hsplit. cbn [split_at]. by rewrite scan_lines_end. }
  unfold createMultiOutputTransaction. rewrite Hc, Hc', Hs.
  by rewrite !(lift_bind (Ok _) _ w _ eq_refl), Hscan.
Qed.
End spec.
