(* ===== verification/ClientDemo.v ===== *)
(** * Keys and coins in the small, and the witnesses of the client's theorems *)
From Stdlib Require Import Sorting.Sorted.
From S2P Require Import Demo Samples TxsDemo TablesDemo ArbitersDemo SpvDemo WalletDemo ClientCliSpec.
#[local] Open Scope Z_scope.

(** ** A cipher that shifts bytes, and hexadecimal text *)
Definition shift_bytes (d : Z) (m : bytes) : bytes := (λ b, byte_of_Z (Z_of_byte b + d)) <$> m.
Lemma shift_back d m : shift_bytes (- d) (shift_bytes d m) = m.
Proof.
  unfold shift_bytes. rewrite <-list_fmap_compose. rewrite <-(list_fmap_id m) at 2. apply list_fmap_ext.
  intros i b _. cbn. rewrite Z_of_byte_of_Z. rewrite <-(byte_of_Z_of_byte b) at 2. pose proof (Z_of_byte_range b).
  unfold byte_of_Z. do 3 f_equal. rewrite Zplus_mod_idemp_l. f_equal. lia.
Qed.
Lemma shift_add d e m : shift_bytes d (shift_bytes e m) = shift_bytes (e + d) m.
Proof.
  unfold shift_bytes. rewrite <-list_fmap_compose. apply list_fmap_ext. intros i b _. cbn. rewrite Z_of_byte_of_Z.
  unfold byte_of_Z. do 3 f_equal. rewrite Zplus_mod_idemp_l. f_equal. lia.
Qed.
Definition hex_digit (z : Z) : byte := byte_of_Z (if z <? 10 then 48 + z else 87 + z).
Definition hex_of (b : byte) : bytes := [hex_digit (Z_of_byte b / 16); hex_digit (Z_of_byte b mod 16)].
Definition hex_EncodeToString (bs : bytes) : bytes := bs ≫= hex_of.

Lemma hex_back bs : hex_DecodeString (hex_EncodeToString bs) = Ok bs.
Proof.
  induction bs as [|b bs IH]; [done|]. change (hex_EncodeToString (b :: bs)) with (hex_of b ++ hex_EncodeToString bs).
  unfold hex_of. cbn [app hex_DecodeString].
  assert (Hd : fromHexChar (hex_digit (Z_of_byte b / 16)) = Some (Z_of_byte b / 16) ∧
    fromHexChar (hex_digit (Z_of_byte b mod 16)) = Some (Z_of_byte b mod 16)) by (destruct b; by vm_compute).
  destruct Hd as [-> ->]. rewrite IH. cbn [mbind outcome_bind]. do 2 f_equal.
  rewrite <-(byte_of_Z_of_byte b) at 3. f_equal. pose proof (Z.div_mod (Z_of_byte b) 16). lia.
Qed.
Lemma hex_text bs : ascii (hex_EncodeToString bs).
Proof.
  induction bs as [|b bs IH]; [by apply Forall_nil_2|].
  change (hex_EncodeToString (b :: bs)) with (hex_of b ++ hex_EncodeToString bs). apply Forall_app_2; [|done].
  unfold hex_of. repeat (apply Forall_cons_2; [by destruct b; vm_compute|]). by apply Forall_nil_2.
Qed.

(** A public key is the private key. *)
#[export] Instance demo_crypto : ElaCrypto bytes := {
  ToAesKey pw := resize 32 x00 pw;
  AesEncrypt m key iv := Ok (shift_bytes (Z_of_byte (default x00 (head key))) m);
  AesDecrypt m key iv := Ok (shift_bytes (- Z_of_byte (default x00 (head key))) m);
  GenerateKeyPair _ := Ok (replicate 32 x09, replicate 32 x09);
  GenerateSubKeyPair i mk sk := Ok (resize 32 x00 (le_bytes 8 i), resize 32 x00 (le_bytes 8 i));
  NewPubKey sk := sk;
  EncodePoint pk _ := Ok (resize 65 x00 pk);
  CreateStandardContract pk := Ok (mkContract pk (copy_array 21 pk));
  ToAddress h := Ok (arr_bytes h);
  crypto_Sign sk data := Ok (sk ++ data);
  BytesToHexString := hex_EncodeToString;
  HexStringToBytes := hex_DecodeString;
}.
#[export] Instance demo_crypto_laws : ElaCryptoLaws bytes.
Proof.
  split.
  - exact hex_back.
  - exact hex_text.
  - intros pw. apply length_resize.
  - intros m key iv _ _ _. eexists. split_and!; [done|unfold shift_bytes; apply length_fmap|]. cbn [AesDecrypt demo_crypto].
    by rewrite shift_back.
  - intros pk. eexists. split; [done|apply length_resize].
  - intros i mk sk. by eexists.
  - intros pk. by eexists.
  - intros h. by eexists.
Qed.
#[export] Instance demo_gorand : GoRand := { rand_Read n _ := Ok (replicate n x07) }.
#[export] Instance demo_mathrand : MathRand := { rand_Int63 n := Z.of_nat n + 1234 }.

(** ** A text of a keystore file: its fields between marks, and an end mark *)
Definition kf_count_text (n : Z) : bytes := hex_EncodeToString (le_bytes 8 (u64 n)).
Definition kf_payload (f : KeystoreFile) : bytes :=
  kf_count_text (kf_SubAccountsCount f) ++ x80 :: kf_Version f ++ x80 :: kf_IV f ++ x80 :: kf_PasswordHash f ++
    x80 :: kf_MasterKeyEncrypted f ++ x80 :: kf_PrivateKeyEncrypted f.
Definition ascii_byte (b : byte) : bool := Z_of_byte b <? 128.
Definition text_fileb (f : KeystoreFile) : bool :=
  forallb ascii_byte (kf_Version f ++ kf_IV f ++ kf_PasswordHash f ++ kf_MasterKeyEncrypted f ++ kf_PrivateKeyEncrypted f) &&
  bool_decide (fits64s (kf_SubAccountsCount f)).
Definition kf_parse (bs : bytes) : option KeystoreFile :=
  match reverse bs with
  | xff :: r =>
      match split_at x80 (reverse r) with
      | [c; v; iv; ph; mk; pk] =>
          match hex_DecodeString c with Ok cb => Some (mkKF v iv ph mk pk (i64 (le_value cb))) | _ => None end
      | _ => None
      end
  | _ => None
  end.
#[export] Instance demo_json : KeystoreJson := {
  json_Marshal f := if text_fileb f then Ok (kf_payload f ++ [xff]) else Err (ErrStr "json");
  json_Unmarshal bs g := match kf_parse bs with Some f => (f, None) | None => (g, Some (ErrStr "json")) end;
}.

Lemma split_at_none sep s : sep ∉ s → split_at sep s = [s].
Proof.
  induction s as [|b s IH]; intros Hs; [done|]. cbn [split_at].
  rewrite bool_decide_eq_false_2 by (intros ->; apply Hs; left). rewrite IH; [done|]. intros ?; apply Hs; by right.
Qed.
Lemma ascii_no80 s : ascii s → x80 ∉ s.
Proof. intros Hs Hin. unfold ascii in Hs. rewrite Forall_forall in Hs. specialize (Hs _ Hin). vm_compute in Hs. done. Qed.
Lemma text_fileb_ok f : text_fileb f = true ↔ text_file f.
Proof.
  unfold text_fileb, text_file. rewrite andb_true_iff, bool_decide_eq_true, !forallb_app, !andb_true_iff.
  assert (Ha : ∀ s, forallb ascii_byte s = true ↔ ascii s).
  { intros s. unfold ascii. rewrite forallb_forall, Forall_forall. unfold ascii_byte. setoid_rewrite Z.ltb_lt.
    split; intros Hs b Hb; apply Hs; by apply list_elem_of_In. }
  rewrite !Ha. tauto.
Qed.
#[export] Instance demo_json_laws : KeystoreJsonLaws.
Proof.
  split.
  - intros f Ht. exists (kf_payload f ++ [xff]). cbn [json_Marshal json_Unmarshal demo_json].
    rewrite (proj2 (text_fileb_ok f) Ht). split; [done|]. intros g. unfold kf_parse. rewrite reverse_app.
    change (reverse [xff]) with [xff]. cbn [app].
    destruct Ht as (Tv & Ti & Tp & Tm & Tk & Tc). 
    rewrite reverse_involutive. unfold kf_payload. rewrite !split_at_app, split_at_none by (apply ascii_no80; first [done|apply hex_text]).
    unfold kf_count_text. rewrite hex_back, le_value_bytes. change (256 ^ Z.of_nat 8) with (2 ^ 64). fold (u64 (u64 (kf_SubAccountsCount f))).
    rewrite u64_small by apply u64_fits. rewrite i64_u64 by done. by destruct f.
  - intros f b n g Hb Hn. unfold json_Marshal, demo_json in Hb. unfold json_Unmarshal, demo_json. destruct (text_fileb f) eqn:Ht; [|done].
    assert (b = kf_payload f ++ [xff]) as -> by congruence. apply text_fileb_ok in Ht as (Tv & Ti & Tp & Tm & Tk & _).
    assert (Hend : xff ∉ kf_payload f).
    { assert (Hno : ∀ s, ascii s → xff ∉ s).
      { intros s Hs Hin. unfold ascii in Hs. rewrite Forall_forall in Hs. specialize (Hs _ Hin). vm_compute in Hs. done. }
      unfold kf_payload. rewrite !elem_of_app, !elem_of_cons, !elem_of_app, !elem_of_cons, !elem_of_app, !elem_of_cons, !elem_of_app,
        !elem_of_cons, !elem_of_app, !elem_of_cons. pose proof (Hno _ (hex_text (le_bytes 8 (u64 (kf_SubAccountsCount f))))).
      pose proof (Hno _ Tv). pose proof (Hno _ Ti). pose proof (Hno _ Tp). pose proof (Hno _ Tm). pose proof (Hno _ Tk).
      unfold kf_count_text. naive_solver. }
    assert (Hp : kf_parse (take n (kf_payload f ++ [xff])) = None).
    { rewrite length_app in Hn. change (length [xff]) with 1%nat in Hn. rewrite take_app_le by lia. unfold kf_parse.
      destruct (reverse (take n (kf_payload f))) as [|x r] eqn:Hr; [done|].
      assert (Hx : x ∈ kf_payload f).
      { apply (subseteq_take n). apply elem_of_reverse. rewrite Hr. left. }
      destruct x; try done. }
    by rewrite Hp.
Qed.

(** ** Insertion sort *)
Definition in_order (less : UTXO → UTXO → bool) (x y : UTXO) : bool := negb (less y x) || less x y.
Fixpoint sort_insert (less : UTXO → UTXO → bool) (x : UTXO) (l : list UTXO) : list UTXO :=
  match l with
  | [] => [x]
  | y :: l => if in_order less x y then x :: y :: l else y :: sort_insert less x l
  end.
#[export] Instance demo_sort : GoSort := { sort_Sort less l := foldr (sort_insert less) [] l }.
#[export] Instance demo_sort_laws : GoSortLaws.
Proof.
  split. intros less l Ht Hf. cbn [sort_Sort demo_sort].
  assert (Hins : ∀ x l, sort_insert less x l ≡ₚ x :: l).
  { intros x l0. induction l0 as [|y l0 IH]; [done|]. cbn [sort_insert]. destruct (in_order less x y); [done|].
    rewrite IH. apply perm_swap. }
  assert (Htr : ∀ x y z, (less y x = true → less x y = true) → (less z y = true → less y z = true) → less z x = true → less x z = true).
  { intros x y z. pose proof (Ht x y z). pose proof (Ht x z y). pose proof (Ht y x z). pose proof (Ht y z x).
    pose proof (Ht z x y). pose proof (Ht z y x). pose proof (Hf x y z). pose proof (Hf x z y). pose proof (Hf y x z).
    pose proof (Hf y z x). pose proof (Hf z x y). pose proof (Hf z y x). clear Ht Hf.
    destruct (less x y), (less y x), (less y z), (less z y), (less x z), (less z x); intuition congruence. }
  induction l as [|x l [IHp IHs]]; [split; [done|constructor]|]. cbn [foldr]. set (s := foldr _ _ l) in *.
  split; [by rewrite Hins, IHp|]. clear IHp. clearbody s. clear l. induction IHs as [|y s Hs IH Hall].
  { constructor; [constructor|by apply Forall_nil_2]. }
  cbn [sort_insert]. destruct (in_order less x y) eqn:Ho.
  - constructor; [by constructor|]. unfold in_order in Ho. apply orb_true_iff in Ho.
    assert (Hxy : less y x = true → less x y = true).
    { intros Hyx. destruct Ho as [Ho|Ho]; [by rewrite Hyx in Ho|done]. }
    apply Forall_cons_2; [done|]. eapply Forall_impl; [exact Hall|]. intros z Hz. by apply (Htr x y z).
  - constructor; [done|]. rewrite (Hins x s). apply Forall_cons_2; [|done].
    unfold in_order in Ho. apply orb_false_iff in Ho as [Ho _]. by apply negb_false_iff in Ho.
Qed.

(** ** Keystores *)
Definition pw_a : bytes := [x41].
Definition pw_b : bytes := [x42].
Definition demo_iv : bytes := replicate 16 x07.
Definition demo_mk : bytes := replicate 32 x07.
Definition demo_sk : bytes := replicate 32 x09.
Definition demo_env : kenv := mkEnv None [] 0.
Lemma demo_fresh : fresh demo_env demo_iv demo_mk demo_sk.
Proof. split; done. Qed.
Lemma pw_differ : Sum256 (ToAesKey pw_b) ≠ Sum256 (ToAesKey pw_a).
Proof. intros Hs. apply (f_equal (λ a, le_value (arr_bytes a))) in Hs. vm_compute in Hs. congruence. Qed.

Lemma CreateKeystore_Open_witness : ∃ k e' k', CreateKeystore pw_a demo_env = (Ok k, e') ∧
  OpenKeystore pw_a e' = (Ok k', e') ∧ (length demo_sk = 32%nat → k' = k ∧ keystore_ok pw_a k).
Proof.
  destruct (CreateKeystore_Open pw_a demo_env demo_iv demo_mk demo_sk demo_fresh) as (k & e' & k' & Hc & Ho & _ & _ & _ & _ & Hk).
  exists k, e', k'. split; [exact Hc|split; [exact Ho|exact Hk]].
Defined.
(** A keystore on the disk. *)
Lemma demo_created : ∃ k e, CreateKeystore pw_a demo_env = (Ok k, e) ∧ good (pw_a, (k, e)) ∧ kf_SubAccountsCount (ks_file k) = 0.
Proof.
  destruct (Create_run pw_a demo_env demo_iv demo_mk demo_sk demo_fresh) as (f & main & e' & Hm & Hc & Hs & Hn & Hst).
  exists (mkKeystore f demo_mk [main]), e'. split; [done|]. split; [|done]. rewrite pad32_full in Hs by done.
  split; [|done]. exists demo_sk. cbn [fst snd ks_file ks_masterKey ks_accounts]. rewrite Hn. split_and!; [done|done|].
  unfold derive. by rewrite Hm.
Qed.
Lemma demo_steps : ∃ k0 e1 k e, CreateKeystore pw_a demo_env = (Ok k0, e1) ∧
  rtc kstep (pw_a, (k0, e1)) (pw_b, (k, e)) ∧ length (ks_accounts k) = 2%nat.
Proof.
  destruct demo_created as (k0 & e1 & Hc & (Hk & Hst) & Hn). pose proof Hst as [Hf _]. cbn [fst snd] in *.
  destruct (NewAccount_run pw_a k0 e1 Hk Hf ltac:(lia)) as (a & k1 & e2 & Hr1 & Hk1 & Hst1 & _ & Hacc).
  pose proof Hst1 as [Hf1 _]. destruct (ChangePassword_ok pw_a pw_b k1 e2 Hk1 Hf1) as (k2 & e3 & Hr2 & _ & _ & _ & Hacc2).
  exists k0, e1, k2, e3. split; [done|]. split.
  - eapply rtc_l; [apply (step_NewAccount pw_a k0 e1 a k1 e2); [lia|done]|]. apply rtc_once. by apply step_ChangePassword.
  - rewrite Hacc2, Hacc, length_app. destruct Hk as (sk & _ & _ & Hd). rewrite Hn in Hd.
    destruct (derive_ok 0 (ks_masterKey k0) sk) as (main & l & Hd' & _ & Hl).
    change (Z.to_nat 0) with 0%nat in Hd. rewrite Hd' in Hd. injection Hd as <-. destruct l; [done|discriminate].
Qed.
Lemma keystore_history_witness : ∃ k e, OpenKeystore pw_b e = (Ok k, e) ∧ ks_masterKey k = demo_mk ∧
  length (ks_accounts k) = 2%nat ∧ OpenKeystore (PK := bytes) pw_a e = (Err (ErrStr "password wrong"), e).
Proof.
  destruct demo_steps as (k0 & e1 & k & e & Hc & Hs & Hl). exists k, e.
  destruct (keystore_history pw_a demo_env demo_iv demo_mk demo_sk k0 e1 demo_fresh Hc) as (k1 & _ & _ & _ & Hsame & Hall).
  rewrite <-(Hsame eq_refl) in Hs. destruct (Hall pw_b k e Hs) as (Ho & Hm & _ & Hw).
  split; [exact Ho|]. split; [exact Hm|]. split; [exact Hl|]. apply Hw. intros Heq. apply pw_differ. symmetry. exact Heq.
Defined.

(** Decrypting with another key shifts what the right key gives. *)
Definition key_shift (key : bytes) : Z := Z_of_byte (default x00 (head key)).
Lemma demo_decryptMaster f mk pw pw' d : key_shift (ToAesKey pw) - key_shift (ToAesKey pw') = d →
  decryptMasterKey f (ToAesKey pw) = Ok mk → decryptMasterKey f (ToAesKey pw') = Ok (shift_bytes d mk).
Proof.
  intros <-. unfold decryptMasterKey. intros (iv & -> & (c & -> & Hc)%outcome_bind_Ok)%outcome_bind_Ok.
  cbn [mbind outcome_bind]. change (Ok (shift_bytes (- key_shift (ToAesKey pw)) c) = Ok mk) in Hc.
  change (Ok (shift_bytes (- key_shift (ToAesKey pw')) c) = Ok (shift_bytes (key_shift (ToAesKey pw) - key_shift (ToAesKey pw')) mk)).
  assert (mk = shift_bytes (- key_shift (ToAesKey pw)) c) as -> by congruence. rewrite shift_add.
  generalize (key_shift (ToAesKey pw)) as x, (key_shift (ToAesKey pw')) as y. intros x y. do 2 f_equal. lia.
Qed.
Lemma demo_decryptPrivate f mk mk' sk pk pk' d : key_shift mk - key_shift mk' = d →
  decryptPrivateKey (PK := bytes) f mk pk = Ok (sk, NewPubKey sk) →
  decryptPrivateKey (PK := bytes) f mk' pk' = Ok (shift_bytes d sk, NewPubKey (shift_bytes d sk)).
Proof.
  intros <-. unfold decryptPrivateKey. intros (c & -> & Hc)%outcome_bind_Ok. cbn [mbind outcome_bind].
  destruct (negb _); [done|]. apply outcome_bind_Ok in Hc as (iv & -> & (kp & Hkp & Hc)%outcome_bind_Ok). cbn [mbind outcome_bind].
  change (Ok (shift_bytes (- key_shift mk) c) = Ok kp) in Hkp.
  assert (kp = shift_bytes (- key_shift mk) c) as -> by congruence.
  change (AesDecrypt (PK := bytes) c mk' iv) with (Ok (shift_bytes (- key_shift mk') c)). cbn [mbind outcome_bind].
  assert (Hs : shift_bytes (- key_shift mk') c = shift_bytes (key_shift mk - key_shift mk') (shift_bytes (- key_shift mk) c)).
  { rewrite shift_add. f_equal. lia. }
  rewrite Hs. set (kp := shift_bytes (- key_shift mk) c) in *. unfold shift_bytes at 1. rewrite length_fmap.
  destruct (_ <? 96); [done|]. injection Hc as <-. unfold shift_bytes. by rewrite <-fmap_drop, <-fmap_take.
Qed.
Lemma ChangePassword_unchecked_witness : ∃ k e k' e' k2,
  keystore_ok pw_a k ∧ ChangePassword pw_b pw_b (k, e) = (Ok (), (k', e')) ∧ ks_accounts k' = ks_accounts k ∧
  OpenKeystore pw_b e' = (Ok k2, e') ∧ ks_masterKey k2 = replicate 32 x06.
Proof.
  destruct (Create_run pw_a demo_env demo_iv demo_mk demo_sk demo_fresh) as (f & main & e' & Hm & Hc & Hs & Hn & Hst).
  rewrite pad32_full in Hs by reflexivity.
  set (k := mkKeystore f demo_mk [main]).
  assert (Hk : keystore_ok pw_a k).
  { exists demo_sk. unfold k. cbn [ks_file ks_masterKey ks_accounts]. rewrite Hn. split; [exact Hs|]. split; [reflexivity|].
    unfold derive. rewrite Hm. reflexivity. }
  destruct (ChangePassword_unchecked pw_a pw_b pw_b k e' (replicate 32 x06) (replicate 32 x0a) Hk (proj1 Hst))
    as (k' & e2 & k2 & Hr & Ha & Ho & Hmk & _).
  - exact (demo_decryptMaster f demo_mk pw_a pw_b (-1) eq_refl (sl_master _ _ _ _ Hs)).
  - reflexivity.
  - exact (demo_decryptPrivate f demo_mk (replicate 32 x06) demo_sk (ToAesKey pw_a) (ToAesKey pw_b) 1 eq_refl (sl_private _ _ _ _ Hs _)).
  - reflexivity.
  - exists k, e', k', e2, k2. split; [exact Hk|]. split; [exact Hr|]. split; [exact Ha|]. split; [exact Ho|exact Hmk].
Defined.

Lemma impl_Open_keeps_file_witness : ∃ o k, impl_Open pw_b (None : option (Keystore bytes), mkEnv (Some [x01]) [] 0) =
  (o, (k, mkEnv (Some [x01]) [] 0)).
Proof.
  destruct (impl_Open_keeps_file pw_b (None : option (Keystore bytes), mkEnv (Some [x01]) [] 0) [x01] eq_refl eq_refl) as (o & k & Hr & _).
  exists o, k. exact Hr.
Defined.
Lemma save_fault_loses_keys_witness : ∃ (k : Keystore bytes) e k' e', keystore_ok pw_a k ∧ stored (ks_file k) e ∧
  Keystore_NewAccount (k, mkEnv (ke_disk e) [None; Some 0%nat] (ke_rand e)) = (Panic, (k', e')) ∧
  ke_disk e' = Some [] ∧ ∃ x, OpenKeystore (PK := bytes) pw_a e' = (Err x, e').
Proof.
  destruct demo_created as (k & e & _ & (Hk & Hst) & Hn). cbn [fst snd] in Hk, Hst.
  pose proof Hk as (sk & [Ht _ _ _ _ _ _] & _).
  assert (Hb : json_Marshal (SetSubAccountsCount (kf_SubAccountsCount (ks_file k) + 1) (ks_file k)) =
    Ok (kf_payload (SetSubAccountsCount (kf_SubAccountsCount (ks_file k) + 1) (ks_file k)) ++ [xff])).
  { rewrite Hn. unfold json_Marshal, demo_json. rewrite (proj2 (text_fileb_ok _)); [reflexivity|].
    destruct Ht as (? & ? & ? & ? & ? & _). split_and!; first [assumption | unfold fits64s; cbn; lia]. }
  destruct (save_fault_loses_keys pw_a k e 0 _ Hk Hst Hb) as (k' & e' & Hr & Hd & _ & Ho).
  - rewrite Hn. reflexivity.
  - rewrite length_app. change (length [xff]) with 1%nat. lia.
  - exists k, e, k', e'. split; [exact Hk|]. split; [exact Hst|]. split; [exact Hr|]. split; [exact Hd|apply Ho].
Defined.

(** ** Coins *)
#[export] Instance demo_clientlib : ClientLib bytes sample_tx := {
  TxVersionDefault := 0;
  TransferAsset := TxTypeOther 2;
  TransferCrossChainVersion := 1;
  CreateTransaction_ args := mkST (h256 99) (TxTypeOther 2) POther [] ((λ i, (ti_TxID i, ti_Index i)) <$> ta_Inputs args);
  etx_Programs _ := [mkProgram demo_sk []];
  etx_SetPrograms _ tx := tx;
  etx_SerializeUnsigned tx := λ buf, (Ok (), buf ++ arr_bytes (st_id tx));
  GetScriptType _ := Ok xac;
  STANDARD := xac;
  MULTISIG := xae;
  PrefixStandard := x21;
  common_ToProgramHash _ code := copy_array 21 code;
  ParseMultisigScript _ := Ok [];
  AppendSignature _ s _ _ _ := Ok s;
  CreateMultiSigContract m pks := Ok (mkContract (concat pks) (copy_array 21 (concat pks)));
  Uint168_String := arr_bytes;
  jsonrpc_CallArray _ _ := Ok ();
}.
Notation demo_C := (Client tables bytes).
Definition demo_client : demo_C := mkClient demo_db2 None demo_env (h256 55) 0 [] [] [] [].
Definition demo_transfer : Transfer := mkTransfer [x05] 6.
Lemma demo_coins : coins demo_st2 (h168 5) = [demo_utxo].
Proof. vm_compute. reflexivity. Qed.
Lemma demo_receivers os : (∀ o, o ∈ os → tr_Address o = [x05]) → receivers os.
Proof. intros Ho o Hin. rewrite (Ho o Hin). by exists (h168 5). Qed.
Lemma demo_one_value (P : Z → Prop) : P 10 → ∀ u, u ∈ coins demo_st2 (h168 5) → P (u_Value u).
Proof. intros HP u. rewrite demo_coins. intros [->|?%not_elem_of_nil]%elem_of_cons; [exact HP|done]. Qed.
Lemma demo_one_transfer o : o ∈ [demo_transfer] → tr_Address o = [x05] ∧ 0 ≤ tr_Value o.
Proof. intros [->|?%not_elem_of_nil]%elem_of_cons; [|done]. split; [done|vm_compute; congruence]. Qed.

Lemma createTransaction_spec_witness : ∃ us rest change w', us ++ rest ≡ₚ [demo_utxo] ∧
  client_createTransaction [x05] 1 0 [demo_transfer] demo_client =
    (Ok (CreateTransaction_ (mkTxArgs TxVersionDefault TransferAsset TransferCrossChainVersion POther
       [FormatInt 1234] (InputFromUTXO <$> (unlocked <$> us))
       ((output_of (h256 55) 0 <$> [demo_transfer]) ++ change) 0 [mkProgram [x21] []])), w') ∧
  coin_value us = paid ((output_of (h256 55) 0 <$> [demo_transfer]) ++ change) + 1.
Proof.
  pose proof (createTransaction_spec [x05] (h168 5) 1 0 [demo_transfer] demo_client demo_st2 demo_addr demo_db2_ok) as Hc.
  rewrite demo_coins in Hc. rewrite decide_False in Hc by (vm_compute; congruence).
  destruct Hc as (us & rest & change & w' & Hp & Hr & _ & Hv & _).
  - discriminate.
  - reflexivity.
  - apply demo_receivers. intros o Ho. by apply demo_one_transfer.
  - vm_compute. reflexivity.
  - lia.
  - intros o Ho. by apply demo_one_transfer.
  - vm_compute. reflexivity.
  - intros u [->|?%not_elem_of_nil]%elem_of_cons; [vm_compute; congruence|done].
  - exists us, rest, change, w'. split; [exact Hp|]. split; [exact Hr|exact Hv].
Defined.

(** Two amounts that fill 64 bits with the fee. *)
Definition demo_huge : list Transfer := [mkTransfer [x05] (2 ^ 63 - 1); mkTransfer [x05] (2 ^ 63 - 1)].
Lemma createTransaction_overflow_witness : ∃ w',
  let outputs := (output_of (cl_assetId demo_client) 0 <$> demo_huge) ++ [mkTxOutput (cl_assetId demo_client) (h168 5) (10 - i64 (2 + asked demo_huge)) 0] in
  client_createTransaction [x05] 2 0 demo_huge demo_client =
    (Ok (CreateTransaction_ (mkTxArgs TxVersionDefault TransferAsset TransferCrossChainVersion POther
       [FormatInt 1234] [InputFromUTXO (unlocked demo_utxo)] outputs 0 [mkProgram [x21] []])), w') ∧
  paid outputs + 2 - 10 = 2 ^ 64.
Proof.
  pose proof (createTransaction_overflow [x05] (h168 5) 2 0 demo_huge demo_client demo_st2 demo_addr demo_db2_ok) as Ho.
  cbv zeta in Ho. rewrite demo_coins in Ho. destruct Ho as (u & Hu & _ & Hr & Hp).
  - discriminate.
  - reflexivity.
  - apply demo_receivers. intros o [->|[->|?%not_elem_of_nil]%elem_of_cons]%elem_of_cons; done.
  - reflexivity.
  - vm_compute. congruence.
  - rewrite <-demo_coins. apply (demo_one_value (λ v, 0 ≤ v ∧ v - i64 (2 + asked demo_huge) < 2 ^ 63)). vm_compute. split; congruence.
  - apply list_elem_of_singleton in Hu as ->. eexists. cbv zeta. split; [exact Hr|].
    change (u_Value demo_utxo) with 10 in Hp. exact (eq_trans Hp ltac:(vm_compute; reflexivity)).
Defined.

Lemma client_spends_again_witness : ∃ fps (w1 : demo_W) us args w', wallet_PutTxs [demo_out] 4 demo_wallet = (Ok fps, w1) ∧
  client_createTransaction [x05] 1 0 [demo_transfer] (cl_set_db (w_db w1) demo_client) = (Ok (CreateTransaction_ args), w') ∧
  ta_Inputs args = InputFromUTXO <$> (unlocked <$> us) ∧ us ≠ [] ∧ us ⊆ coins demo_st2 (h168 5).
Proof.
  apply (client_spends_again demo_wallet [demo_out] 4 demo_st2 [x05] (h168 5) 1 0 [demo_transfer] demo_client demo_addr).
  - exact (demo_fits 4 eq_refl).
  - exact demo_now.
  - exact demo_out_good.
  - exact demo_db2_ok.
  - intros u. rewrite demo_coins. intros [->|?%not_elem_of_nil]%elem_of_cons; [|done]. exists demo_out.
    split; [left|vm_compute; left].
  - intros t o [->|?%not_elem_of_nil]%elem_of_cons; [|done]. intros ?%not_elem_of_nil. done.
  - intros t k [->|?%not_elem_of_nil]%elem_of_cons; [|done]. intros [u Hk].
    change (({[demo_op := demo_utxo]} : gmap OutPoint UTXO) !! k = Some u) in Hk.
    apply lookup_singleton_Some in Hk as [<- _]. vm_compute. congruence.
  - discriminate.
  - reflexivity.
  - apply demo_receivers. intros o Ho. by apply demo_one_transfer.
  - vm_compute. reflexivity.
  - lia.
  - intros o Ho. by apply demo_one_transfer.
  - vm_compute. split; reflexivity.
  - apply (demo_one_value (λ v, 0 ≤ v)). lia.
  - rewrite demo_coins. vm_compute. congruence.
Defined.

Lemma demo_all_coins : all_coins demo_st2 (h168 5) = [demo_utxo].
Proof. vm_compute. reflexivity. Qed.
Lemma ShowAccounts_spec_witness : ∃ lines w', ShowAccounts [demo_addr] None demo_client = (Ok (), w') ∧
  cl_shown w' = lines ∧ Forall2 (shown_of demo_st2 None) [demo_addr] lines.
Proof.
  destruct (ShowAccounts_spec [demo_addr] None demo_client demo_st2 demo_db2_ok) as (lines & w' & Hr & Hs & Hf & _).
  - intros a [->|?%not_elem_of_nil]%elem_of_cons; [|done]. change (ad_hash demo_addr) with (h168 5). rewrite demo_all_coins. split; [|vm_compute; reflexivity].
    intros u [->|?%not_elem_of_nil]%elem_of_cons; [vm_compute; congruence|done].
  - exists lines, w'. split; [exact Hr|]. split; [exact Hs|exact Hf].
Defined.

(** ** A choice between two addresses *)
Definition demo_addr2 : Addr := NewAddr (h168 6) [x21] TypeSub.
Definition demo_db3 : tables := (sqlAddrs_Put (h168 6) [x21] TypeSub demo_db2).2.
Definition demo_st3 : wstore := set_addrs (<[h168 6 := demo_addr2]> (ws_addrs demo_st2)) demo_st2.
Lemma demo_db3_ok : wdb demo_st3 demo_db3.
Proof.
  unfold demo_db3. apply (keep_end _ _ () (wdb demo_st3)).
  apply (addrs_Put_spec_ (h168 6) [x21] TypeSub _ _ demo_db2_ok). vm_compute. split; congruence.
Qed.
(** The lines "x" and "1" in one read, then the line "-5". *)
Definition demo_reads : list (option bytes) := [Some [x78; x0a; x31; x0a]; Some [x2d; x35; x0a]].
Definition demo_chooser : demo_C := mkClient demo_db3 None demo_env (h256 55) 0 [] [] demo_reads [].
Lemma demo_two : ∃ addrs w1, client_GetAddrs demo_chooser = (Ok addrs, demo_chooser) ∧ length addrs = 2%nat ∧
  ShowAccounts addrs None demo_chooser = (Ok (), w1) ∧ cl_stdin w1 = demo_reads.
Proof.
  destruct (addrs_GetAll_spec demo_db3 _ (wr_addrs _ _ demo_db3_ok)) as (addrs & Hg & Hp).
  assert (Hp2 : addrs ≡ₚ [demo_addr2; demo_addr]).
  { rewrite Hp. vm_compute. apply perm_swap || reflexivity. }
  destruct (ShowAccounts_run addrs None demo_chooser demo_st3 demo_db3_ok) as (lines & w1 & Hr & _ & _ & _ & Ht).
  - intros a. rewrite Hp2. intros Ha. split.
    + intros u (k & [Hk _]%map_lookup_filter_Some)%map_values_elem.
      change (({[demo_op := demo_utxo]} : gmap OutPoint UTXO) !! k = Some u) in Hk.
      apply lookup_singleton_Some in Hk as [_ <-]. vm_compute. congruence.
    + apply elem_of_cons in Ha as [->|Ha]; [vm_compute; reflexivity|]. apply list_elem_of_singleton in Ha as ->. vm_compute. reflexivity.
  - exists addrs, w1. split; [|split; [by rewrite Hp2|split; [exact Hr|exact Ht]]].
    apply (checkErr_run sqlAddrs_GetAll demo_chooser addrs). exact Hg.
Qed.
Lemma SelectAccount_spec_witness : ∃ w', SelectAccount 2 demo_chooser = (Panic, w').
Proof.
  destruct demo_two as (addrs & w1 & Hg & Hl & Hr & Ht).
  pose proof (SelectAccount_spec demo_chooser demo_st3 addrs w1 [Some [x78; x0a]] [Some [x2d; x35; x0a]] demo_db3_ok Hg) as Hs.
  rewrite Hl, Ht in Hs. destruct (Hs ltac:(lia) Hr eq_refl eq_refl eq_refl) as (s & i & [= <-] & Hi & Hres).
  assert (i = -5) as -> by (vm_compute in Hi; congruence). exact Hres.
Defined.

(** ** Accounts, signatures and commands *)
(** A client whose keystore is on the disk. *)
Definition demo_at (e : kenv) : demo_C := mkClient demo_db2 None e (h256 55) 0 [] [] [] [].
Lemma NewSubAccount_spec_witness : ∃ (e : kenv) (a : Account bytes) k' w', NewSubAccount pw_a (demo_at e) = (Ok (ac_programHash a), w') ∧
  cl_keystore w' = Some k' ∧ length (ks_accounts k') = 2%nat ∧
  cl_calls w' = [("notifynewaddress"%string, arr_bytes (ac_programHash a))].
Proof.
  destruct demo_created as (k & e & _ & (Hk & Hst) & Hn). pose proof Hk as (sk & _ & _ & Hd). cbn [fst snd] in *.
  destruct (NewSubAccount_spec pw_a k (demo_at e) demo_st2 (conj Hk Hst) demo_db2_ok) as (a & k' & w' & Hr & _ & Hks & Hacc & _ & Hcalls & _).
  - rewrite Hn. reflexivity.
  - exists e, a, k', w'. split; [exact Hr|]. split; [exact Hks|]. split; [|exact Hcalls].
    rewrite Hn in Hd. destruct (derive_ok 0 (ks_masterKey k) sk) as (main & l & Hd' & _ & Hl).
    change (Z.to_nat 0) with 0%nat in Hd. rewrite Hd' in Hd. injection Hd as Hd. rewrite Hacc, <-Hd. destruct l; [reflexivity|discriminate].
Defined.

Lemma demo_key_on_disk : ∃ (k : Keystore bytes) e a, keys_on_disk pw_a k (demo_at e) ∧
  GetAccountByProgramHash (copy_array 21 demo_sk) k = Some a ∧ ac_privateKey a = demo_sk.
Proof.
  destruct (Create_run pw_a demo_env demo_iv demo_mk demo_sk demo_fresh) as (f & main & e' & Hm & Hc & Hs & Hn & Hst).
  rewrite pad32_full in Hs by reflexivity. exists (mkKeystore f demo_mk [main]), e', main.
  assert (Hmain : main = mkAccount demo_sk demo_sk demo_sk (copy_array 21 demo_sk) (arr_bytes (copy_array 21 demo_sk))).
  { assert (Ho : Ok main = Ok (mkAccount demo_sk demo_sk demo_sk (copy_array 21 demo_sk) (arr_bytes (copy_array 21 demo_sk))))
      by (rewrite <-Hm; reflexivity). congruence. }
  split; [split; [|exact Hst]|split; [|by rewrite Hmain]].
  - exists demo_sk. cbn [ks_file ks_masterKey ks_accounts]. rewrite Hn. split_and!; [exact Hs|done|]. unfold derive. by rewrite Hm.
  - unfold GetAccountByProgramHash. cbn [ks_accounts list_find]. rewrite decide_True; [done|by rewrite Hmain].
Qed.
Lemma Sign_standard_witness : ∃ e, (client_Sign pw_a (simple_tx 3 [] []) (demo_at e)).1 = Ok (simple_tx 3 [] []).
Proof.
  destruct demo_key_on_disk as (k & e & a & Hk & Ha & Hp). exists e.
  pose proof (Sign_standard pw_a pw_a k (demo_at e) (simple_tx 3 [] []) demo_sk [] [] (arr_bytes (h256 3)) Hk eq_refl eq_refl eq_refl) as Hs.
  rewrite decide_True in Hs by reflexivity. change (common_ToProgramHash PrefixStandard demo_sk) with (copy_array 21 demo_sk) in Hs.
  rewrite Ha in Hs. destruct Hs as (_ & _ & Hr). exact Hr.
Defined.

#[export] Instance demo_clilib : CliLib bytes := {
  StringToFixed64 s := Some (le_value s);
  GetSignStatus _ _ := (0, 1, None);
  DecodePoint b := Ok b;
}.
Definition demo_ctx (file hex : bytes) (view : fileView) (m : Z) : cliContext :=
  mkContext 1 (λ n, if String.eqb n "file" then file else if String.eqb n "hex" then hex else []) (λ _, m) (λ _, false) (λ _, view).
(** "01,02,03" *)
Definition demo_keys : bytes := [x30; x31; x2c; x30; x32; x2c; x30; x33].
Lemma demo_getKeys m : getPublicKeys (PK := bytes) (demo_ctx [] [] NoFile m) demo_keys = Ok [[x01]; [x02]; [x03]].
Proof. vm_compute. reflexivity. Qed.
Lemma addMultiSignAccount_spec_witness :
  addMultiSignAccount (demo_ctx [] [] NoFile 1) demo_keys demo_client = (Err bad_m, demo_client) ∧
  ∃ (w' : demo_C) st', wdb st' (cl_db w') ∧ ws_addrs st' !! copy_array 21 [x01; x02; x03] = Some (NewAddr (copy_array 21 [x01; x02; x03]) [x01; x02; x03] TypeMulti).
Proof.
  destruct (addMultiSignAccount_spec (demo_ctx [] [] NoFile 1) demo_keys demo_client demo_st2 [[x01]; [x02]; [x03]] demo_db2_ok
    (demo_getKeys 1)) as (_ & Hbad & _).
  destruct (addMultiSignAccount_spec (demo_ctx [] [] NoFile 0) demo_keys demo_client demo_st2 [[x01]; [x02]; [x03]] demo_db2_ok
    (demo_getKeys 0)) as (_ & _ & _ & Hgood).
  split.
  - apply Hbad; [vm_compute; congruence|]. intros [Hm _]. vm_compute in Hm. congruence.
  - destruct (λ H1 H2, Hgood H1 H2 (mkContract [x01; x02; x03] (copy_array 21 [x01; x02; x03])) eq_refl)
      as (w' & st' & Hw & -> & _); [vm_compute; congruence|vm_compute; split; congruence|]. exists w'. eexists. split; [exact Hw|]. cbn [ws_addrs set_addrs]. apply lookup_insert_eq.
Defined.

(** " 01,01,02" *)
Definition demo_same_keys : bytes := [x30; x31; x2c; x30; x31; x20; x2c; x30; x32].
Lemma getPublicKeys_duplicates_witness :
  getPublicKeys (PK := bytes) (demo_ctx [] [] NoFile 0) demo_same_keys = Ok [[x01]; [x01]; [x02]] ∧
  getPublicKeys (PK := bytes) (demo_ctx [] [] NoFile 0) [x30; x31; x2c; x30; x31] = Err (ErrStr "duplicate public key:").
Proof.
  split.
  - destruct (getPublicKeys_duplicates (PK := bytes) (demo_ctx [] [] NoFile 0) demo_same_keys [[x30; x31]; [x30; x31; x20]; [x30; x32]]
      [[x01]; [x01]; [x02]]) as [Hok _]; [discriminate|vm_compute; reflexivity| |].
    + repeat constructor; try discriminate; eexists; split; vm_compute; reflexivity.
    + apply Hok. apply (bool_decide_unpack _). vm_compute. exact I.
  - destruct (getPublicKeys_duplicates (PK := bytes) (demo_ctx [] [] NoFile 0) [x30; x31; x2c; x30; x31] [[x30; x31]; [x30; x31]]
      [[x01]; [x01]]) as (_ & Hdup & _); [discriminate|vm_compute; reflexivity| |].
    + repeat constructor; try discriminate; eexists; split; vm_compute; reflexivity.
    + apply Hdup. intros Hnd. apply NoDup_cons in Hnd as [Hn _]. apply Hn. left.
Defined.

(** The file "5,6". *)
Lemma SendTransaction_file_witness : ∃ e, cli_SendTransaction (T := sample_tx) 7 [] (demo_ctx [x66] [] (Content [x35; x2c; x36]) 0) demo_client =
  (Err e, demo_client).
Proof.
  exists (deserializeErr (ErrStr "encoding/hex: invalid byte")).
  apply (SendTransaction_file 7 [] (demo_ctx [x66] [] (Content [x35; x2c; x36]) 0) demo_client [x35; x2c; x36]).
  - vm_compute. congruence.
  - vm_compute. reflexivity.
  - vm_compute. congruence.
  - vm_compute. reflexivity.
Defined.
Definition demo_line : bytes := [x05; x2c; x06].
Definition demo_long : bytes := replicate (Z.to_nat 65536) x20.
Lemma createMultiOutput_truncated_witness :
  createMultiOutputTransaction (T := sample_tx) (demo_ctx [x66] [] (Content ((demo_line ++ [x0a]) ++ demo_long ++ x0a :: demo_line)) 0) [x66] [x05] 1 demo_client =
  createMultiOutputTransaction (T := sample_tx) (demo_ctx [x66] [] (Content (demo_line ++ [x0a])) 0) [x66] [x05] 1 demo_client.
Proof.
  apply (createMultiOutput_truncated _ _ [x66] [x05] 1 demo_client (demo_line ++ [x0a]) demo_long demo_line).
  - reflexivity.
  - reflexivity.
  - reflexivity.
  - exists [demo_line]. split; [reflexivity|]. repeat constructor. apply (bool_decide_unpack _). vm_compute. exact I.
  - unfold demo_long. intros [Heq _]%elem_of_replicate. discriminate.
  - unfold demo_long. rewrite length_replicate, Z2Nat.id by lia. unfold MaxScanTokenSize. lia.
Defined.
