(* ===== verification/Start.v ===== *)
(** * Starting the programs

    [NewSPVService] ([interface/spvservice.go]) and [NewWallet] ([spvwallet.go])
    over the files of a data directory: both open their header store, which
    fills its cache from the disk, open their database, and hand a chain store to
    [newService] ([sdk/service.go]), which puts the genesis header in a chain that
    is empty and starts a sync manager.  The files may hold the data of an
    earlier run. *)
From S2P Require Export SyncChain Service SpvService Wallet.
#[local] Open Scope Z_scope.

(** The state a constructor leaves, or its error. *)
Definition made {S} (r : outcome unit * S) : outcome S := (λ _, r.2) <$> r.1.

(** ** The header stores *)
Section headers.
Context {DB OM H} `{!LevelDB DB} `{!BlockHeader H} `{!OrderedMap OM Uint256 (Header H)} `{E : ElaCommon}.
Notation HS := (headerStore DB OM H).

Definition newCache : OM := om_New.
(** [db]: what [leveldb.OpenFile] answers. *)
Definition NewHeaderStore (db : outcome DB) : outcome HS :=
  db ← db; made (headers_initCache (mkHS db None newCache)).
Definition headers_NewDatabase (db : outcome DB) : outcome HS :=
  db ← db; made (Database_initCache (mkHS db None newCache)).

(** The wallet's store as a header database of the chain. *)
Definition Database_HeadersDB : HeadersDB HS H := {|
  hdPut := Database_Put;
  hdGetPrevious := Database_GetPrevious;
  hdGet := Database_Get;
  hdGetBest := Database_GetBest;
  hdClear := Database_Clear;
  hdClose := mret ();
|}.
End headers.

(** ** [newService] *)
Section service.
Context {HS TS H T : Type} `{!BlockHeader H} `{!HeadersDB HS H} `{!TxsDB TS T}.
Notation CS := (chainDB HS TS).

(** [NewServer]: whether the peer-to-peer server could be made; the error of
    making the data directory is dropped. *)
Definition newService (genesisHeader : H) (hasNotifier : bool) (NewServer : outcome unit) (chainStore : CS) :
    outcome (service CS H T) :=
  chain ← made (BlockChain_New genesisHeader chainStore);
  NewServer ≫= λ _,
  Ok (mkService (sync_New chain) ∅ [] (mkTxState ∅ ∅ ∅ []) hasNotifier []).
End service.

(** ** [NewSPVService] *)
Record SpvConfig (DB H : Type) := mkSpvConfig {
  sc_MkdirAll : outcome unit;              (* making the data directory *)
  sc_headerDB : outcome DB;                (* opening its two databases *)
  sc_storeDB : outcome DB;
  sc_CRCArbiters : list bytes;             (* cfg.ChainParams.DPoSConfiguration.CRCArbiters *)
  sc_GenesisBlockAddress : bytes;
  sc_OnRollback : bool;                    (* OnRollback != nil *)
  sc_FilterType : byte;
  sc_GenesisHeader : H;
  sc_NewServer : outcome unit;
  sc_now : Z;                              (* the clock *)
}.
Arguments mkSpvConfig {DB H}.
Arguments sc_MkdirAll {DB H}.
Arguments sc_headerDB {DB H}.
Arguments sc_storeDB {DB H}.
Arguments sc_CRCArbiters {DB H}.
Arguments sc_GenesisBlockAddress {DB H}.
Arguments sc_OnRollback {DB H}.
Arguments sc_FilterType {DB H}.
Arguments sc_GenesisHeader {DB H}.
Arguments sc_NewServer {DB H}.
Arguments sc_now {DB H}.

Fixpoint decodeArbiters (arbiters : list bytes) : outcome (list bytes) :=
  match arbiters with
  | [] => Ok []
  | a :: arbiters => v ← hex_DecodeString a; rest ← decodeArbiters arbiters; Ok (v :: rest)
  end.

Section spv.
Context {DB OM H T : Type} `{!LevelDB DB} `{!BlockHeader H} `{!OrderedMap OM Uint256 (Header H)} `{E : ElaCommon}.
Context `{!Uint168Bytes} `{!Uint256Bytes} `{!MapOrder} `{!DposState} `{!Sha}.
Context `{!ElaTransaction T} `{!TxReader T} `{!ListenerLib}.
Notation Sv := (spvservice DB OM H T).

Definition NewSPVService (cfg : SpvConfig DB H) : outcome (service (chainDB (headerStore DB OM H) Sv) H T) :=
  match sc_MkdirAll cfg with
  | Err _ => Err (ErrStr "make data dir failed")
  | Panic => Panic
  | Ok _ =>
      headerStore ← NewHeaderStore (sc_headerDB cfg);
      originArbiters ← decodeArbiters (sc_CRCArbiters cfg);
      db ← sc_storeDB cfg;
      dataStore ← NewDataStore db originArbiters (Z.of_nat (length (sc_CRCArbiters cfg)) * 3) (sc_GenesisBlockAddress cfg);
      let service := mkSpv headerStore dataStore (sc_OnRollback cfg) ∅ false false (sc_FilterType cfg) false (sc_now cfg) [] in
      let chainStore := mkChainDB headerStore service in
      newService (sc_GenesisHeader cfg) true (sc_NewServer cfg) chainStore
  end.
End spv.

(** ** [NewWallet] *)
Section wallet.
Context {LDB OM H DB T : Type} `{!LevelDB LDB} `{!BlockHeader H} `{!OrderedMap OM Uint256 (Header H)} `{E : ElaCommon}.
Context `{!SQLite DB} `{!Uint168Bytes} `{!Uint256Bytes} `{!Fixed64Bytes} `{!MapOrder}.
Context `{!ElaTransaction T} `{!TxReader T} `{!ListenerLib} `{!WalletLib T}.
Notation W := (spvwallet DB T).
#[local] Existing Instance Database_HeadersDB.

(** [headerDB] and [sqlDB]: the header database and [wallet.db] opened; the RPC
    server is started after. *)
Definition NewWallet (headerDB : outcome LDB) (sqlDB : outcome DB) (genesisHeader : H) (NewServer : outcome unit)
    (now : Z) : outcome (service (chainDB (headerStore LDB OM H) W) H T) :=
  headers ← headers_NewDatabase headerDB;
  db ← sqlDB;
  db ← made (NewDatabase db);
  let w := mkWallet db None false now [] in
  let chainStore := mkChainDB headers w in
  newService genesisHeader true NewServer chainStore.
End wallet.
