(* ===== verification/StartSpec.v ===== *)
(** * Starting and restarting

    A start over empty files gives the chain of the genesis block; a start over
    the files of an earlier run gives the same headers, the same tip and the same
    tables.  Over a transaction database that keeps its contract the chain and its
    transactions stay consistent through messages and restarts
    ([sync_survives_restarts]; the headers alone need no such contract, see
    [CrashSpec]), and what the client's reset leaves is what the next start of the
    wallet finds ([reset_then_start]). *)
From S2P Require Export Start ClientCli WalletStoreSpec.
#[local] Open Scope Z_scope.

(** ** The header stores *)
Section reopen.
Context {DB OM H} `{!LevelDB DB} `{!BlockHeader H} `{!OrderedMap OM Uint256 (Header H)} `{E : ElaCommon}.
Context `{!LevelDBLaws DB} `{!BlockHeaderLaws H} `{!ElaCommonLaws E} `{!OrderedMapLaws OM Uint256 (Header H)}.
Context (hk tk : bytes) (Htk : length tk ≠ (length hk + 32)%nat).
Notation HS := (headerStore DB OM H).
Notation opened db := (mkHS (OM := OM) (H := H) db None newCache).

(** What the disk says about the tip is what the store said. *)
Lemma opened_ok (s : HS) : store_ok hk tk s → store_ok hk tk (opened (hs_db s)) ∧
  store_view hk (opened (hs_db s)) = store_view hk s ∧ store_best tk (opened (hs_db s)) = store_best tk s.
Proof.
  intros Hok. pose proof (so_tip _ _ s Hok) as Ht. split_and!; [split|done|].
  - apply (so_bucket _ _ s Hok).
  - intros k h. cbn. unfold newCache. by rewrite om_New_view, lookup_empty.
  - cbn. destruct (hs_tip s) as [h|]; [|done]. destruct Ht as (v & Hv & Hs). intros v'. rewrite Hv. intros [= <-]. by exists h.
  - unfold store_best. cbn. destruct (hs_tip s) as [h|]; [|done]. destruct Ht as (v & -> & Hs). cbn.
    by apply stored_decodeHeader.
Qed.
Lemma reopen_run (s : HS) : store_ok hk tk s →
  (∀ h, store_best tk s = Some h → store_view hk s !! hdrHash h = Some h) →
  ∃ s', made (hs_initCache hk tk (opened (hs_db s))) = Ok s' ∧ store_ok hk tk s' ∧
    store_view hk s' = store_view hk s ∧ store_best tk s' = store_best tk s.
Proof.
  intros Hok Hb. destruct (opened_ok s Hok) as (Hok0 & Hv0 & Hb0).
  destruct (hs_initCache_run hk tk (opened (hs_db s)) Hok0 eq_refl) as (s' & Hr & Hok' & Hv & Hbest & _).
  { by rewrite Hv0, Hb0. }
  exists s'. unfold made. rewrite Hr. split_and!; [done|done|congruence|congruence].
Qed.
Lemma empty_ok (db : DB) : db_view db = ∅ →
  store_ok hk tk (opened db) ∧ store_view hk (opened db) = ∅ ∧ store_best tk (opened db) = None.
Proof.
  intros Hdb. split_and!.
  - split; intros *; cbn; unfold newCache; by rewrite ?om_New_view, ?Hdb, lookup_empty.
  - apply map_eq. intros k. rewrite store_view_lookup. cbn. by rewrite Hdb, !lookup_empty.
  - unfold store_best; cbn; by rewrite Hdb, lookup_empty.
Qed.
Lemma empty_run (db : DB) : db_view db = ∅ →
  ∃ s' : HS, made (hs_initCache hk tk (opened db)) = Ok s' ∧ store_ok hk tk s' ∧ store_view hk s' = ∅ ∧ store_best tk s' = None.
Proof.
  intros Hdb. destruct (empty_ok db Hdb) as (Hok & Hv & Hb).
  destruct (reopen_run (opened db) Hok) as (s' & Hr & Hok' & Hv' & Hb').
  { by rewrite Hb. }
  exists s'. split_and!; [done|done|congruence|congruence].
Qed.
End reopen.

(** The wallet's header store discharges the interface of the chain. *)
Section database.
Context {DB OM H} `{!LevelDB DB} `{!BlockHeader H} `{!OrderedMap OM Uint256 (Header H)} `{E : ElaCommon}.
Context `{!LevelDBLaws DB} `{!BlockHeaderLaws H} `{!ElaCommonLaws E} `{!OrderedMapLaws OM Uint256 (Header H)}.
Notation HS := (headerStore DB OM H).
#[local] Existing Instance Database_HeadersDB.

Definition Database_HeadersLaws : HeadersLaws HS H.
Proof.
  refine {| hd_ok := store_ok WBKTHeaders WBKTChainTip; hd_fits := Header_wf;
            hd_view := store_view WBKTHeaders; hd_best := store_best WBKTChainTip |}.
  - intros s k Hok. by apply (hs_Get_view WBKTHeaders WBKTChainTip).
  - done.
  - intros s Hok. by apply (hs_GetBest_view WBKTHeaders WBKTChainTip).
  - intros s h newTip Hok Hwf.
    destruct (hs_Put_run WBKTHeaders WBKTChainTip s h newTip Hwf) as (s' & v & Hp & Hst & Hv & Ht & Hc).
    exists s'. split; [done|].
    apply (put_store_ok WBKTHeaders WBKTChainTip wallet_tip_length s s' h v newTip Hok Hst);
      [by intros; rewrite Hv|by rewrite Hv|done..].
Defined.
End database.

(** ** [newService] *)
Section service.
Context {HS TS H T : Type} `{!BlockHeader H} `{!HeadersDB HS H} `{!TxsDB TS T} `{!HeadersLaws HS H}.
Notation CS := (chainDB HS TS).
Implicit Types (c : CS).

Definition started (c : CS) (notifier : bool) : service CS H T :=
  mkService (sync_New c) ∅ [] (mkTxState ∅ ∅ ∅ []) notifier [].
Lemma newService_restart g n c best : hd_ok (cd_h c) → hd_best (cd_h c) = Some best →
  newService g n (Ok ()) c = Ok (started c n).
Proof.
  intros Hok Hb. unfold newService, made, BlockChain_New.
  rewrite (bind_run _ _ c (inr best) c); [done|]. by apply try_run, getBest_run.
Qed.
(** The header stored for the genesis block. *)
Definition genesisOf (g : H) : Header H := mkHeader g 0 0 [] [] 0.
Lemma genesis_chain g : hdrPrevious (genesisOf g) ≠ hdrHash (genesisOf g) →
  chain_inv (genesisOf g) {[hdrHash (genesisOf g) := genesisOf g]} (genesisOf g).
Proof.
  intros Hne. split; [split| |].
  - by intros k h [<- <-]%lookup_singleton_Some.
  - by intros k h [_ <-]%lookup_singleton_Some.
  - split_and!; [apply lookup_singleton_eq|done|done|by apply lookup_singleton_ne].
  - intros k h [<- _]%lookup_singleton_Some. done.
  - apply lookup_singleton_eq.
  - by intros k h [_ <-]%lookup_singleton_Some.
Qed.
Lemma newService_first g n c : hd_ok (cd_h c) → hd_view (cd_h c) = ∅ → hd_best (cd_h c) = None →
  hd_fits (genesisOf g) → hdrPrevious (genesisOf g) ≠ hdrHash (genesisOf g) →
  ∃ c', newService g n (Ok ()) c = Ok (started c' n) ∧ chain_ok (genesisOf g) c' (genesisOf g) ∧
    hd_view (cd_h c') = {[hdrHash (genesisOf g) := genesisOf g]} ∧ cd_t c' = cd_t c.
Proof.
  intros Hok Hv Hb Hfit Hne. pose proof (hdGetBest_law (cd_h c) Hok) as Hg. rewrite Hb in Hg. destruct Hg as (e & Hg).
  destruct (hdPut_law (cd_h c) (genesisOf g) true Hok Hfit) as (hs & Hp & Hok' & Hv' & Hb').
  exists (mkChainDB hs (cd_t c)). rewrite Hv in Hv'. split_and!; try done.
  - unfold newService, made, BlockChain_New.
    rewrite (bind_run _ _ c (inl e) c) by (by apply try_run_err, onHeaders_read).
    cbv zeta. fold (genesisOf g). unfold onHeaders, zoom. by rewrite Hp.
  - split_and!; [done|done| |done]. cbn [cd_h]. rewrite Hv', insert_empty. by apply genesis_chain.
Qed.
End service.

(** ** A run of the manager with restarts *)
Section life.
Context {DB OM H TS T : Type} `{!LevelDB DB} `{!BlockHeader H} `{!OrderedMap OM Uint256 (Header H)} `{E : ElaCommon}.
Context `{!LevelDBLaws DB} `{!BlockHeaderLaws H} `{!ElaCommonLaws E} `{!OrderedMapLaws OM Uint256 (Header H)}.
Context `{!Transaction T} `{!TxsDB TS T} `{!TxsLaws TS T} `{!Sha} `{!PeerLib} `{!MsgConsts} `{!MapOrder}.
Context (flags : list Z) (txFilter : GoM TS (Message H T)) (announce : T → GoM TS unit).
Context (Hfilter : ∀ t, ∃ m, txFilter t = (Ok m, t) ∧ ∀ l, m ≠ MGetData l)
        (Hannounce : ∀ tx t, announce tx t = (Ok (), t)).
Notation HS := (headerStore DB OM H).
Notation CS := (chainDB HS TS).
Notation SM := (SyncManager CS H T).
(** [reopen]: the transaction database closed and opened again. *)
Context (reopen : TS → TS).
Context (Hreopen : ∀ t, (∀ x, td_main (reopen t) x = td_main t x) ∧ td_fork (reopen t) = td_fork t).
Context (g : H) (txs_of : Uint256 → list T).
Notation genesis := (genesisOf g).
#[local] Instance life_cfg : SyncConfig CS H T := blockChainConfig flags txFilter announce.

(** A start over the disk of [c]. *)
Definition start (db : DB) (t : TS) : outcome (service CS H T) :=
  hs ← NewHeaderStore (Ok db); newService g true (Ok ()) (mkChainDB hs t).
Inductive life : SM → SM → Prop :=
  | life_step s s' : sync_step (admissible genesis txs_of) s s' → life s s'
  | life_restart s v : start (hs_db (cd_h (sm_cfg s))) (reopen (cd_t (sm_cfg s))) = Ok v → life s (syncManager v).

Lemma restart_run (c : CS) best t : chain_ok genesis c best → ∃ c', start (hs_db (cd_h c)) t = Ok (started c' true) ∧
  chain_ok genesis c' best ∧ hd_view (cd_h c') = hd_view (cd_h c) ∧ cd_t c' = t.
Proof.
  intros (Hok & Hb & Hc & Hh).
  destruct (reopen_run BKTHeaders BKTChainTip (cd_h c) Hok) as (hs & Hr & Hok' & Hv & Hb').
  { change (store_best BKTChainTip (cd_h c)) with (hd_best (cd_h c)). rewrite Hb. intros h [= <-]. apply (ci_best _ _ _ Hc). }
  exists (mkChainDB hs t). change (store_best BKTChainTip (cd_h c)) with (hd_best (cd_h c)) in Hb'. rewrite Hb in Hb'.
  split_and!; [|split_and!; [done|done| |done]|done|done].
  - unfold start, NewHeaderStore, headers_initCache. cbn [mbind outcome_bind]. rewrite Hr. cbn [mbind outcome_bind].
    by apply (newService_restart _ _ _ best).
  - cbn [cd_h]. by change (hd_view hs) with (store_view BKTHeaders hs); rewrite Hv.
Qed.
Lemma restart_good (c : CS) : chain_good genesis txs_of c →
  ∃ c', start (hs_db (cd_h c)) (reopen (cd_t c)) = Ok (started c' true) ∧ chain_good genesis txs_of c'.
Proof.
  intros (best & Hs & [Hmain Habove Hfork]). destruct (restart_run c best (reopen (cd_t c)) Hs) as (c' & Hr & Hs' & Hv & Ht).
  exists c'. split; [done|]. exists best. split; [done|]. rewrite Hv, Ht. destruct (Hreopen (cd_t c)) as [Hm Hf].
  split; [intros h|intros x|intros h]; rewrite ?Hm, ?Hf; auto.
Qed.
Lemma life_good (c : CS) s : (0 < MaxInvPerMsg)%nat → chain_good genesis txs_of c → rtc life (sync_New c) s →
  ∃ c', chain_good genesis txs_of c' ∧ rtc (sync_step (admissible genesis txs_of)) (sync_New c') s.
Proof.
  intros Hmax Hc. revert s.
  apply (rtc_ind_r (λ s, ∃ c', chain_good genesis txs_of c' ∧ rtc (sync_step (admissible genesis txs_of)) (sync_New c') s));
    [by exists c|].
  intros s s' _ [s1 s1' Hs|s1 v Hv] (c1 & Hc1 & Hr1).
  - exists c1. split; [done|]. by eapply rtc_r.
  - destruct (sync_reach_known Hmax _ _ (SyncConfigLaws0 := blockChain_laws flags txFilter announce genesis txs_of Hfilter Hannounce) c1 s1 Hc1 Hr1)
      as (_ & Hgood & _).
    destruct (restart_good _ Hgood) as (c2 & Hv2 & Hc2). rewrite Hv in Hv2. injection Hv2 as ->.
    by exists c2.
Qed.

(** the same with the transactions, over a database that does what the interface
    says ([TxsLaws]): from the first start over an empty data directory, the peers
    sending blocks that are [admissible] (not stored yet, and no heavier branch that
    is not higher) and the program stopped between two messages and started again
    over its files, the headers form a tree of the genesis block whose tip has the
    most work, and both transaction stores hold the transactions of their
    blocks. *)
Theorem sync_survives_restarts (db : DB) (t : TS) : (0 < MaxInvPerMsg)%nat → db_view db = ∅ →
  (∀ x, td_main t x = []) → Header_wf genesis → hdrPrevious genesis ≠ hdrHash genesis →
  filter (λ tx, td_keep tx) (txs_of (hdrHash genesis)) = [] →
  ∃ v, start db t = Ok v ∧ ∀ s, rtc life (syncManager v) s →
    ∃ best, chain_ok genesis (sm_cfg s) best ∧ txs_inv txs_of (hd_view (cd_h (sm_cfg s))) best (cd_t (sm_cfg s)).
Proof.
  intros Hmax Hdb Ht Hwf Hne Hg.
  destruct (empty_run BKTHeaders BKTChainTip (OM := OM) (H := H) db Hdb) as (hs & Hr & Hok & Hv & Hb).
  destruct (newService_first (T := T) g true (mkChainDB hs t : CS)) as (c & Hs & Hc & Hvc & Htc); [done..|].
  exists (started c true). split.
  { unfold start, NewHeaderStore, headers_initCache. cbn [mbind outcome_bind]. rewrite Hr. exact Hs. }
  intros s Hlife. assert (Hgood : chain_good genesis txs_of c).
  { exists genesis. split; [done|]. rewrite Hvc, Htc. cbn [cd_t]. split.
    - intros h [_ <-]%lookup_singleton_Some _. rewrite Ht. symmetry. exact Hg.
    - intros x _. apply Ht.
    - intros h [_ <-]%lookup_singleton_Some Hno. destruct Hno. exists []. split; [|done].
      split; [by apply lookup_singleton_eq|done]. }
  destruct (life_good c s Hmax Hgood Hlife) as (c' & Hc' & Hr').
  destruct (sync_reach_known Hmax _ _ (SyncConfigLaws0 := blockChain_laws flags txFilter announce genesis txs_of Hfilter Hannounce) c' s Hc' Hr')
    as (_ & Hfin & _). exact Hfin.
Qed.
End life.

(** ** The SPV service *)
Section spv.
Context {DB OM H T : Type} `{!LevelDB DB} `{!BlockHeader H} `{!OrderedMap OM Uint256 (Header H)} `{E : ElaCommon}.
Context `{!LevelDBLaws DB} `{!BlockHeaderLaws H} `{!ElaCommonLaws E} `{!OrderedMapLaws OM Uint256 (Header H)}.
Context `{!Uint168Bytes} `{!Uint168BytesLaws} `{!Uint256Bytes} `{!MapOrder} `{!DposState} `{!Sha}.
Context `{!ElaTransaction T} `{!TxReader T} `{!ListenerLib}.
Notation Sv := (spvservice DB OM H T).
Notation CS := (chainDB (headerStore DB OM H) Sv).

(** C27: the SPV service started again over its files: the headers, the tip and
    the watched addresses and types are those of the earlier run, and the
    database with its queue is as it was; the listeners have to be registered
    again.  A fault while the directory, the header database, the data database or
    the peer-to-peer server is opened, or an arbiter that is not hexadecimal, is
    answered as an error, the first of them in the order of the code. *)
Theorem NewSPVService_restart (cfg : SpvConfig DB H) (c : CS) best : chain_ok (genesisOf (sc_GenesisHeader cfg)) c best →
  let d := sv_db (cd_t c) in addrs_ok (comp_addrs d) → txTypes_ok (comp_txTypes d) →
  (∀ db, sc_headerDB cfg = Ok db → db = hs_db (cd_h c)) → (∀ db, sc_storeDB cfg = Ok db → db = ds_db d) →
  match sc_MkdirAll cfg, sc_headerDB cfg, decodeArbiters (sc_CRCArbiters cfg), sc_storeDB cfg, sc_NewServer cfg with
  | Err _, _, _, _, _ => NewSPVService (OM := OM) (T := T) cfg = Err (ErrStr "make data dir failed")
  | Ok _, Err e, _, _, _ | Ok _, Ok _, Err e, _, _ | Ok _, Ok _, Ok _, Err e, _ | Ok _, Ok _, Ok _, Ok _, Err e =>
      NewSPVService (OM := OM) (T := T) cfg = Err e
  | Ok _, Ok _, Ok arbiters, Ok _, Ok _ => ∃ v, NewSPVService cfg = Ok v ∧ let c' : CS := sm_cfg (syncManager v) in
      chain_ok (genesisOf (sc_GenesisHeader cfg)) c' best ∧ hd_view (cd_h c') = hd_view (cd_h c) ∧
      ds_db (sv_db (cd_t c')) = ds_db d ∧ ds_addrs (sv_db (cd_t c')) = ds_addrs d ∧ ds_tps (sv_db (cd_t c')) = ds_tps d ∧
      ds_ars (sv_db (cd_t c')) = NewArbiters (ds_db d) arbiters (Z.of_nat (length (sc_CRCArbiters cfg)) * 3) ∧
      sv_listeners (cd_t c') = ∅ ∧ sv_IsCurrent (cd_t c') = false
  | _, _, _, _, _ => True
  end.
Proof.
  intros Hc d Ha Ht Hhd Hsd. pose proof Hc as (Hok & Hb & Hci & Hh).
  destruct (reopen_run BKTHeaders BKTChainTip (cd_h c) Hok) as (hs & Hr & Hok' & Hv & Hb').
  { change (store_best BKTChainTip (cd_h c)) with (hd_best (cd_h c)). rewrite Hb. intros h [= <-]. apply (ci_best _ _ _ Hci). }
  change (store_best BKTChainTip (cd_h c)) with (hd_best (cd_h c)) in Hb'. rewrite Hb in Hb'.
  unfold NewSPVService, NewHeaderStore, headers_initCache. destruct (sc_MkdirAll cfg) as [[]|e|]; [|done..].
  destruct (sc_headerDB cfg) as [hdb|e|]; [|done..]. rewrite (Hhd _ eq_refl). cbn [mbind outcome_bind]. rewrite Hr. cbn [mbind outcome_bind].
  destruct (decodeArbiters (sc_CRCArbiters cfg)) as [ars|e|]; [|done..]. cbn [mbind outcome_bind].
  destruct (sc_storeDB cfg) as [sdb|e|]; [|done..]. rewrite (Hsd _ eq_refl). cbn [mbind outcome_bind].
  unfold NewDataStore. pose proof (NewAddrs_run _ Ha) as Hna. pose proof (NewTxTypes_run _ Ht) as Hnt.
  cbn [a_db tt_db comp_addrs comp_txTypes] in Hna, Hnt. rewrite Hna, Hnt. cbn [mbind outcome_bind a_filter tt_filter].
  set (sv := mkSpv _ _ _ _ _ _ _ _ _ _). set (c' := mkChainDB hs sv).
  assert (Hc' : chain_ok (genesisOf (sc_GenesisHeader cfg)) c' best).
  { split_and!; [done|done| |done]. change (hd_view (cd_h c')) with (store_view BKTHeaders hs). by rewrite Hv. }
  destruct (sc_NewServer cfg) as [[]|e|]; [| |done].
  - exists (started c' true). split; [by eapply newService_restart|]. cbn [sm_cfg syncManager started sync_New]. by split_and!.
  - unfold newService, made, BlockChain_New.
    by rewrite (bind_run _ _ c' (inr best) c') by (by apply try_run, getBest_run).
Qed.
End spv.

(** ** The wallet *)
Section wallet.
Context {LDB OM H DB PK T : Type} `{!LevelDB LDB} `{!BlockHeader H} `{!OrderedMap OM Uint256 (Header H)} `{E : ElaCommon}.
Context `{!LevelDBLaws LDB} `{!BlockHeaderLaws H} `{!ElaCommonLaws E} `{!OrderedMapLaws OM Uint256 (Header H)}.
Context `{!SQLite DB} `{!SQLiteLaws DB} `{!Uint168Bytes} `{!Uint168BytesLaws} `{!Uint256Bytes} `{!Uint256BytesLaws}.
Context `{!Fixed64Bytes} `{!Fixed64BytesLaws} `{!MapOrder}.
Context `{!ElaTransaction T} `{!TxReader T} `{!ListenerLib} `{!WalletLib T}.
Notation W := (spvwallet DB T).
Notation HS := (headerStore LDB OM H).
Notation CS := (chainDB HS W).
#[local] Existing Instance Database_HeadersDB.
#[local] Existing Instance Database_HeadersLaws.
Notation opened db := (mkHS (OM := OM) (H := H) db None newCache).

Lemma Database_reopen genesis (c : CS) best : chain_ok genesis c best →
  ∃ hs : HS, made (Database_initCache (opened (hs_db (cd_h c)))) = Ok hs ∧ hd_ok hs ∧
    hd_view hs = hd_view (cd_h c) ∧ hd_best hs = Some best.
Proof.
  intros (Hok & Hb & Hci & _).
  destruct (reopen_run WBKTHeaders WBKTChainTip (cd_h c) Hok) as (hs & Hr & Hok' & Hv & Hb').
  { change (store_best WBKTChainTip (cd_h c)) with (hd_best (cd_h c)). rewrite Hb. intros h [= <-]. apply (ci_best _ _ _ Hci). }
  exists hs. split_and!; [done|done|done|]. change (store_best WBKTChainTip hs) with (hd_best hs) in Hb'. by rewrite Hb', <-Hb.
Qed.

(** the wallet started again over its files: the same headers, tip, watched
    addresses, coins and transactions; the filter is loaded anew. *)
Theorem NewWallet_restart (g : H) (c : CS) best st now : chain_ok (genesisOf g) c best → wdb st (w_db (cd_t c)) →
  ∃ v, NewWallet (Ok (hs_db (cd_h c))) (Ok (w_db (cd_t c))) g (Ok ()) now = Ok v ∧
    let c' : CS := sm_cfg (syncManager v) in
    chain_ok (genesisOf g) c' best ∧ hd_view (cd_h c') = hd_view (cd_h c) ∧ wdb st (w_db (cd_t c')) ∧
    w_filter (cd_t c') = None ∧ StateNotifier v = true.
Proof.
  intros Hc Hw. destruct (Database_reopen _ c best Hc) as (hs & Hr & Hok & Hv & Hb).
  destruct (NewDatabase_again _ _ Hw) as (db & Hd & Hw'). pose proof Hc as (_ & _ & Hci & Hh).
  set (c' := mkChainDB hs (mkWallet db None false now []) : CS). exists (started c' true).
  split; [|split_and!; [split_and!; [done|done| |done]|done..]].
  - unfold NewWallet, headers_NewDatabase. cbn [mbind outcome_bind]. rewrite Hr. cbn [mbind outcome_bind].
    unfold made at 1. rewrite Hd. by apply (newService_restart g true c' best).
  - change (hd_view (cd_h (sm_cfg (syncManager (started c' true))))) with (hd_view hs). by rewrite Hv.
Qed.

(** [Clear] of a header store that was just opened. *)
Lemma Database_Clear_run (hs : HS) : ∃ hs', Database_Clear hs = (Ok (), hs') ∧ db_view (hs_db hs') = ∅.
Proof.
  unfold Database_Clear, hs_Clear.
  rewrite (bind_run _ _ hs (ldb_Iterate (hs_db hs) []) hs) by (by apply onDB_read).
  destruct (dbWrite_view (hs_db hs) ((λ kv, BDelete kv.1) <$> ldb_Iterate (hs_db hs) [])) as (db' & Hw & Hv).
  exists (mkHS db' (hs_tip hs) (hs_cache hs)). split; [unfold Headers.onDB, zoom; by rewrite Hw|].
  cbn [hs_db]. rewrite Hv. apply map_empty. intros k.
  change ((λ kv, BDelete kv.1) <$> ldb_Iterate (hs_db hs) []) with ((BDelete ∘ fst) <$> ldb_Iterate (hs_db hs) []).
  rewrite list_fmap_compose, apply_batch_deletes. case_decide as Hd; [done|].
  apply eq_None_not_Some. intros [v Hkv]. apply Hd.
  apply (list_elem_of_fmap_2 fst _ (k, v)), ldb_Iterate_elem. split; [done|]. apply prefix_nil.
Qed.

(** C26: the client's reset of a stopped wallet and the wallet's next start: the
    chain begins again at the genesis block, without coins and spent coins; the
    watched addresses are kept, and so are the transactions of the old chain,
    which [GetTxs] still answers at their heights. *)
Theorem reset_then_start (g : H) (c : CS) best st (cl : Client DB PK) now : chain_ok (genesisOf g) c best →
  cl_db cl = w_db (cd_t c) → wdb st (cl_db cl) → Header_wf (genesisOf g) →
  hdrPrevious (genesisOf g) ≠ hdrHash (genesisOf g) →
  ∃ cl' hs v, database_Clear (cl, Some (opened (hs_db (cd_h c)))) = (Ok (), (cl', Some hs)) ∧
    NewWallet (Ok (hs_db hs)) (Ok (cl_db cl')) g (Ok ()) now = Ok v ∧
    let c' : CS := sm_cfg (syncManager v) in
    chain_ok (genesisOf g) c' (genesisOf g) ∧ hd_view (cd_h c') = {[hdrHash (genesisOf g) := genesisOf g]} ∧
    wdb (mkWS ∅ (ws_addrs st) ∅ ∅ (ws_txs st) (ws_forks st)) (w_db (cd_t c')) ∧
    ∀ k t, ws_txs st !! k = Some t →
      ∃ ts, sqlTxs_GetAllFrom (Tx_Height t) (w_db (cd_t c')) = (Ok (ts, None), w_db (cd_t c')) ∧ t ∈ ts.
Proof.
  intros Hc Hcl Hw Hwf Hne. destruct (Database_reopen _ c best Hc) as (hs0 & Hr0 & _).
  destruct (Database_Clear_run hs0) as (hs & Hclear & Hempty).
  destruct (Clear_reopen _ _ Hw) as (db1 & db2 & Hdb1 & Hdb2 & Hw2).
  destruct (empty_run WBKTHeaders WBKTChainTip (OM := OM) (H := H) (hs_db hs) Hempty) as (hs1 & Hr1 & Hok1 & Hv1 & Hb1).
  destruct (newService_first (T := T) g true (mkChainDB hs1 (mkWallet db2 None false now []) : CS)) as (c' & Hs & Hc' & Hv' & Ht');
    [done..|].
  exists (cl_set_db db1 cl), hs, (started c' true). split; [|split; [|split; [done|split; [done|split] ] ] ].
  - unfold database_Clear. rewrite (bind_run _ _ _ () (cl, Some hs)).
    + unfold onW_, onStore, zoom. cbn [fst snd]. by rewrite Hdb1.
    + unfold clearHeaders. cbn [fst snd]. unfold made in Hr0. destruct (Database_initCache _) as [[[]|e|] hs'] eqn:Hi; [|done..].
      injection Hr0 as ->. by rewrite (bind_run _ _ _ _ _ Hi), Hclear.
  - unfold NewWallet, headers_NewDatabase, Database_initCache. cbn [mbind outcome_bind]. rewrite Hr1. cbn [mbind outcome_bind cl_db cl_set_db].
    unfold made at 1. rewrite Hdb2. exact Hs.
  - cbn [started syncManager sync_New sm_cfg]. by rewrite Ht'.
  - intros k t Hk. cbn [started syncManager sync_New sm_cfg]. rewrite Ht'. cbn [cd_t w_db].
    destruct (txs_GetAllFrom_spec (Tx_Height t) _ _ Hw2) as (ts & Hg & Hts). exists ts. split; [done|].
    rewrite Hts, map_values_elem. exists k. apply map_lookup_filter_Some. by split; [|right].
Qed.
End wallet.
