(* ===== verification/Crash.v ===== *)
(** * A program that dies between two writes

    A disk that takes some more writes: the next one after them does not happen
    and the process is gone, which the caller sees as a panic nothing recovers
    from.  Reads go on.  Such a disk is a LevelDB of its own, so the calls of
    [Headers] and [Chain] run over it as they are, and the death can come between
    any two writes of one call. *)
From S2P Require Export StartSpec.
#[local] Open Scope Z_scope.

#[export] Instance dying_LevelDB {DB} `{!LevelDB DB} : LevelDB (DB * nat) := {
  ldb_Get d k := ldb_Get d.1 k;
  ldb_Put d k v := match d.2 with O => Panic | S n => (λ db, (db, n)) <$> ldb_Put d.1 k v end;
  ldb_Write d b := match d.2 with O => Panic | S n => (λ db, (db, n)) <$> ldb_Write d.1 b end;
  ldb_Iterate d p := ldb_Iterate d.1 p;
}.

(** The same for a transaction database whose calls write once, as the batch of
    the SPV service and the database transaction of the wallet do. *)
Definition dying_write {S A} (m : GoM S A) : GoM (S * nat) A := λ s,
  match s.2 with
  | O => (Panic, s)
  | S n => let '(o, t) := m s.1 in (o, (t, n))
  end.
Definition dying_read {S A} (m : GoM S A) : GoM (S * nat) A := zoom fst (λ t s, (t, s.2)) m.
Definition dying_TxsDB {TS T} `{!TxsDB TS T} : TxsDB (TS * nat) T := {|
  tdPutTxs txs height := dying_write (tdPutTxs txs height);
  tdPutForkTxs txs hash := dying_write (tdPutForkTxs txs hash);
  tdHaveTx txId := dying_read (tdHaveTx txId);
  tdGetTxs height := dying_read (tdGetTxs height);
  tdGetForkTxs hash := dying_read (tdGetForkTxs hash);
  tdDelTxs height := dying_write (tdDelTxs height);
  tdClear := dying_write tdClear;
  tdClose := dying_read tdClose;
|}.

(** ** What a header store promises when the program may die

    [dy_live s m b]: the running store [s] has the headers [m] and the tip [b];
    [dy_holds d m b]: so has the disk [d].  A [Put] does all its writes, or dies
    having stored nothing, the header alone, or the header as the tip. *)
Class DyingHeaders (HS D H : Type) `{!BlockHeader H} `{!HeadersDB HS H} := {
  dy_disk : HS → D;
  dy_open : D → nat → outcome HS;
  dy_live : HS → gmap Uint256 (Header H) → option (Header H) → Prop;
  dy_holds : D → gmap Uint256 (Header H) → option (Header H) → Prop;
  dy_fits : Header H → Prop;
  dy_live_disk s m b : dy_live s m b → dy_holds (dy_disk s) m b;
  dy_open_law d n m b : dy_holds d m b → (∀ h, b = Some h → m !! hdrHash h = Some h) →
    ∃ s, dy_open d n = Ok s ∧ dy_live s m b;
  dy_Get_law s m b k : dy_live s m b →
    match m !! k with Some h => hdGet k s = (Ok h, s) | None => ∃ e, hdGet k s = (Err e, s) end;
  dy_GetPrevious_law s (h : Header H) : hdGetPrevious h s = hdGet (hdrPrevious h) s;
  dy_GetBest_law s m b : dy_live s m b →
    match b with Some h => hdGetBest s = (Ok h, s) | None => ∃ e, hdGetBest s = (Err e, s) end;
  dy_Put_law s m b h newTip : dy_live s m b → dy_fits h →
    let m' := <[hdrHash h := h]> m in
    let b' := if (newTip : bool) then Some h else b in
    ∃ s', (hdPut h newTip s = (Ok (), s') ∧ dy_live s' m' b') ∨
      (hdPut h newTip s = (Panic, s') ∧
       (dy_holds (dy_disk s') m b ∨ dy_holds (dy_disk s') m' b ∨ dy_holds (dy_disk s') m' b'));
}.

(** ** The program and its disk

    [Alive c]: the program runs with the chain store [c]; [Dead d]: it is gone
    and [d] is what it left.  Whatever the transaction database does, and in
    whatever state it is found again, is not looked at. *)
Section machine.
Context {HS D TS H T : Type} `{!BlockHeader H} `{!HeadersDB HS H} `{!TxsDB TS T} `{!DyingHeaders HS D H}.
Notation CS := (chainDB HS TS).
Context (g : H).

Inductive machine := Alive (c : CS) | Dead (d : D).
Definition after {A} (r : outcome A * CS) : machine :=
  match r with (Panic, c) => Dead (dy_disk (cd_h c)) | (_, c) => Alive c end.
Definition machine_disk (s : machine) : D :=
  match s with Alive c => dy_disk (cd_h c) | Dead d => d end.

(** The block fits the store: its header serializes, its height is in range, its
    hash belongs to no other header. *)
Definition block_fits (m : gmap Uint256 (Header H)) (block : Block H T) : Prop := ∀ p,
  m !! hdrPrevious (BlockHdr block) = Some p → checkProofOfWork (BlockHdr block) = true →
  extends (genesisOf g) m p (filled block p) ∧ dy_fits (filled block p) ∧ Height p < 2 ^ 32 - 1.

Inductive mstep : machine → machine → Prop :=
  | m_commit c block : (∀ m b, dy_live (cd_h c) m b → block_fits m block) → mstep (Alive c) (after (CommitBlock block c))
  | m_kill c : mstep (Alive c) (Dead (dy_disk (cd_h c)))
  | m_boot d n hs t : dy_open d n = Ok hs → mstep (Dead d) (after (BlockChain_New g (mkChainDB hs t))).
End machine.
Arguments machine : clear implicits.

(** ** The sync manager over a disk

    The manager runs on the chain of a process that may die at any write.
    [Up s]: it runs; [Down d]: the process is gone.  A message is handled to its
    end or to the death of the process; peers come with whatever state they have;
    a start makes a manager that knows no peer.  The transaction database, the
    filter and the announcements are not looked at: whatever they do and answer. *)
Section node.
Context {HS D TS H T : Type} `{!BlockHeader H} `{!Transaction T} `{!HeadersDB HS H} `{!TxsDB TS T} `{!DyingHeaders HS D H}.
Context `{!Sha} `{!PeerLib} `{!MsgConsts} `{!MapOrder}.
Context (flags : list Z) (txFilter : GoM TS (Message H T)) (announce : T → GoM TS unit).
Notation CS := (chainDB HS TS).
Notation SM := (SyncManager CS H T).
#[local] Instance node_cfg : SyncConfig CS H T := blockChainConfig flags txFilter announce.
Context (g : H).

Inductive node := Up (s : SM) | Down (d : D).
Definition handled {A} (r : outcome A * SM) : node :=
  match r with (Panic, s) => Down (dy_disk (cd_h (sm_cfg s))) | (_, s) => Up s end.
Definition booted (r : outcome unit * CS) : node :=
  match r with (Ok _, c) => Up (sync_New c) | (_, c) => Down (dy_disk (cd_h c)) end.
Definition node_disk (s : node) : D :=
  match s with Up s => dy_disk (cd_h (sm_cfg s)) | Down d => d end.
(** A block that is delivered fits the store. *)
Definition msg_fits (c : CS) (msg : syncMsg H T) : Prop :=
  match msg with blockMsg block _ _ => ∀ m b, dy_live (cd_h c) m b → block_fits g m block | _ => True end.

Inductive nstep : node → node → Prop :=
  | n_message s msg : msg_fits (sm_cfg s) msg → nstep (Up s) (handled (sync_blockHandler msg s))
  | n_connect s p np : nstep (Up s) (Up (set_peers (<[p := np]> (sm_peers s)) s))
  | n_stop s : nstep (Up s) (handled (sync_Stop s))
  | n_kill s : nstep (Up s) (Down (dy_disk (cd_h (sm_cfg s))))
  | n_boot d n hs t : dy_open d n = Ok hs → nstep (Down d) (booted (BlockChain_New g (mkChainDB hs t))).
End node.
Arguments node : clear implicits.

(** ** The header stores

    Both header stores keep the promise [DyingHeaders]: at whatever write the
    program dies, the disk holds the headers from before or those with the new
    header, and a tip that is one of them. *)
Section stores.
Context {DB OM H} `{!LevelDB DB} `{!BlockHeader H} `{!OrderedMap OM Uint256 (Header H)} `{E : ElaCommon}.
Context `{!LevelDBLaws DB} `{!BlockHeaderLaws H} `{!ElaCommonLaws E} `{!OrderedMapLaws OM Uint256 (Header H)}.
Notation HS := (headerStore DB OM H).
Notation HS' := (headerStore (DB * nat) OM H).
Notation opened db := (mkHS (OM := OM) (H := H) db None newCache).

(** The store [s] with [n] writes left. *)
Definition dying (n : nat) (s : HS) : HS' := mkHS (hs_db s, n) (hs_tip s) (hs_cache s).

Section buckets.
Context (hk tk : bytes) (Htk : length tk ≠ (length hk + 32)%nat).

Definition store_holds (d : DB) (m : gmap Uint256 (Header H)) (b : option (Header H)) : Prop :=
  store_ok hk tk (opened d) ∧ store_view hk (opened d) = m ∧ store_best tk (opened d) = b.
Definition store_live (s : HS') (m : gmap Uint256 (Header H)) (b : option (Header H)) : Prop :=
  ∃ s0 n, s = dying n s0 ∧ store_ok hk tk s0 ∧ store_view hk s0 = m ∧ store_best tk s0 = b.
Lemma live_dying n s : store_ok hk tk s → store_live (dying n s) (store_view hk s) (store_best tk s).
Proof. intros Hok. by exists s, n. Qed.
Lemma store_holds_disk (s : HS) : store_ok hk tk s → store_holds (hs_db s) (store_view hk s) (store_best tk s).
Proof. intros Hok. by destruct (opened_ok hk tk s Hok) as (? & ? & ?). Qed.

(** ** Reads *)
Lemma getHeader_dying n (s : HS) key : ∃ o, getHeader key s = (o, s) ∧ getHeader key (dying n s) = (o, dying n s).
Proof.
  unfold getHeader, try, mbind, GoM_bind, Headers.onDB, zoom, dbGet, lift, throw. cbn.
  destruct (ldb_Get (hs_db s) key); eexists; split; try reflexivity; by destruct s.
Qed.
Lemma hs_Get_dying n (s : HS) k : ∃ o, hs_Get hk k s = (o, s) ∧ hs_Get hk k (dying n s) = (o, dying n s).
Proof.
  unfold hs_Get. change ((getS ≫= ?f) s) with (f s s). change ((getS ≫= ?f) (dying n s)) with (f (dying n s) (dying n s)).
  cbn [dying hs_cache]. destruct (cache_get k (hs_cache s)); [by eexists|apply getHeader_dying..].
Qed.
Lemma hs_GetBest_dying n (s : HS) : ∃ o, hs_GetBest tk s = (o, s) ∧ hs_GetBest tk (dying n s) = (o, dying n s).
Proof.
  unfold hs_GetBest. change ((getS ≫= ?f) s) with (f s s). change ((getS ≫= ?f) (dying n s)) with (f (dying n s) (dying n s)).
  cbn [dying hs_tip]. destruct (hs_tip s); [by eexists|apply getHeader_dying].
Qed.
Lemma live_Get (s : HS') m b k : store_live s m b →
  match m !! k with Some h => hs_Get hk k s = (Ok h, s) | None => ∃ e, hs_Get hk k s = (Err e, s) end.
Proof.
  intros (s0 & n & -> & Hok & <- & <-). pose proof (hs_Get_view hk tk s0 k Hok) as Hg.
  destruct (hs_Get_dying n s0 k) as (o & Ho & ->). rewrite Ho in Hg.
  destruct (store_view hk s0 !! k); [|destruct Hg as [e Hg]; exists e]; congruence.
Qed.
Lemma live_GetBest (s : HS') m b : store_live s m b →
  match b with Some h => hs_GetBest tk s = (Ok h, s) | None => ∃ e, hs_GetBest tk s = (Err e, s) end.
Proof.
  intros (s0 & n & -> & Hok & <- & <-). pose proof (hs_GetBest_view hk tk s0 Hok) as Hg.
  destruct (hs_GetBest_dying n s0) as (o & Ho & ->). rewrite Ho in Hg.
  destruct (store_best tk s0); [|destruct Hg as [e Hg]; exists e]; congruence.
Qed.

(** Filling the cache writes nothing. *)
Lemma initLoop_dying n (s : HS) k best hs : ∃ o, initLoop hk k best hs s = (o, s) ∧ initLoop hk k best hs (dying n s) = (o, dying n s).
Proof.
  revert hs. induction k as [|k IH]; intros hs; [by eexists|]. cbn [initLoop]. unfold hs_GetPrevious.
  destruct (hs_Get_dying n s (hdrPrevious best)) as (o & H1 & H2).
  unfold try, mbind, GoM_bind. rewrite H1, H2. destruct o as [h|e|]; [apply IH|by eexists..].
Qed.
Lemma cache_all_dying n (s : HS) hs : ∃ o s', 
  forM hs (λ h, modify (λ s, mkHS (hs_db s) (hs_tip s) (cache_set h (hs_cache s)))) s = (o, s') ∧
  forM hs (λ h, modify (λ s, mkHS (hs_db s) (hs_tip s) (cache_set h (hs_cache s)))) (dying n s) = (o, dying n s').
Proof.
  revert s. induction hs as [|h hs IH]; intros s; [by eexists _, _|]. cbn [forM].
  rewrite !(bind_run (modify _) _ _ () _ eq_refl). apply (IH (mkHS (hs_db s) (hs_tip s) (cache_set h (hs_cache s)))).
Qed.
Lemma hs_initCache_dying n (s : HS) : ∃ o s', hs_initCache hk tk s = (o, s') ∧ hs_initCache hk tk (dying n s) = (o, dying n s').
Proof.
  unfold hs_initCache. destruct (hs_GetBest_dying n s) as (o & H1 & H2).
  unfold try at 1 2, mbind, GoM_bind. rewrite H1, H2. destruct o as [best|e|]; [|by eexists _, _..].
  set (s1 := mkHS (hs_db s) (Some best) (hs_cache s)). cbn [modify].
  change (mkHS (hs_db (dying n s)) (Some best) (hs_cache (dying n s))) with (dying n s1). fold s1.
  destruct (initLoop_dying n s1 99 best [best]) as (o & -> & ->). destruct o as [hs|e|]; [|by eexists _, _..].
  apply cache_all_dying.
Qed.
Lemma reopen_dying d n m b : store_holds d m b → (∀ h, b = Some h → m !! hdrHash h = Some h) →
  ∃ s : HS', made (hs_initCache hk tk (mkHS (d, n) None newCache)) = Ok s ∧ store_live s m b.
Proof.
  intros (Hok & Hv & Hb) Hin. destruct (reopen_run hk tk (opened d) Hok) as (s & Hr & Hok' & Hv' & Hb').
  { rewrite Hb, Hv. exact Hin. }
  cbn [hs_db] in Hr. destruct (hs_initCache_dying n (opened d)) as (o & s' & H1 & H2).
  unfold dying in H2 at 1. cbn [hs_db hs_tip hs_cache] in H2.
  unfold made in *. rewrite H1 in Hr. rewrite H2. destruct o as [[]|e|]; [|done..]. injection Hr as ->.
  exists (dying n s). split; [done|]. exists s, n. split_and!; [done..|congruence|congruence].
Qed.

(** ** Writes *)
Lemma put_dying n (s : HS) k v : ∃ db', db_view db' = <[k := v]> (db_view (hs_db s)) ∧
  Headers.onDB (dbPut k v) (dying n s) =
    match n with
    | O => (Panic, dying 0 s)
    | S n => (Ok (), dying n (mkHS db' (hs_tip s) (hs_cache s)))
    end.
Proof.
  destruct (ldb_Put_view (hs_db s) k v) as (db' & Hp & Hv). exists db'. split; [done|].
  unfold Headers.onDB, zoom, dbPut, dying. cbn. destruct n; [done|]. rewrite Hp. done.
Qed.

Context (h : Header H) (Hwf : Header_wf h).
(** Dying in [hs_Put]: nothing, the header, or the header and the tip. *)
Lemma hs_Put_dying n (s : HS) newTip : store_ok hk tk s →
  let m := store_view hk s in let b := store_best tk s in
  let m' := <[hdrHash h := h]> m in let b' := if (newTip : bool) then Some h else b in
  ∃ s', (∃ n', hs_Put hk tk h newTip (dying n s) = (Ok (), dying n' s') ∧ store_ok hk tk s' ∧ store_view hk s' = m' ∧ store_best tk s' = b') ∨
    (hs_Put hk tk h newTip (dying n s) = (Panic, dying 0 s') ∧ (n < 2)%nat ∧ (store_holds (hs_db s') m b ∨ store_holds (hs_db s') m' b)).
Proof.
  intros Hok m b m' b'. destruct (serialize_stored h Hwf) as (v & Hser & Hst).
  set (s1 := mkHS (hs_db s) (if newTip then Some h else hs_tip s) (cache_set h (hs_cache s))).
  destruct (put_dying n s1 (array_key hk (hdrHash h)) v) as (db1 & Hv1 & Hp1).
  assert (Hrun : hs_Put hk tk h newTip (dying n s) =
    (Headers.onDB (dbPut (array_key hk (hdrHash h)) v) ≫= λ _, if newTip then Headers.onDB (dbPut tk v) else mret ()) (dying n s1)).
  { unfold hs_Put. rewrite (bind_run (modify _) _ (dying n s) () _ eq_refl).
    rewrite (bind_run _ _ _ () (dying n s1)) by (by destruct newTip).
    cbv zeta. rewrite Hser. by rewrite (bind_run (lift (Ok v)) _ _ v _ eq_refl). }
  rewrite Hrun. unfold mbind, GoM_bind. rewrite Hp1.
  destruct n as [|n].
  { exists s1. right. split_and!; [done|lia|]. left. apply (store_holds_disk s Hok). }
  assert (Hone : store_holds db1 m' b).
  { set (sx := mkHS db1 (hs_tip s) (cache_set h (hs_cache s))).
    destruct (put_store_ok hk tk Htk s sx h v false Hok Hst) as (Hokx & Hvx & Hbx);
      [intros; cbn; by rewrite Hv1|cbn; by rewrite Hv1|done|done|].
    pose proof (store_holds_disk sx Hokx) as Hh. by rewrite Hvx, Hbx in Hh. }
  set (s2 := mkHS db1 (hs_tip s1) (hs_cache s1)) in *. destruct newTip.
  - destruct (put_dying n s2 tk v) as (db2 & Hv2 & Hp2). rewrite Hp2. destruct n as [|n].
    + exists s2. right. split_and!; [done|lia|]. by right.
    + set (s3 := mkHS db2 (hs_tip s2) (hs_cache s2)). exists s3. left. exists n. split; [done|].
      apply (put_store_ok hk tk Htk s s3 h v true Hok Hst); [intros; cbn; by rewrite Hv2; cbn; rewrite Hv1..|done|done].
  - exists s2. left. exists n. split; [done|].
    apply (put_store_ok hk tk Htk s s2 h v false Hok Hst); [intros; cbn; by rewrite Hv1..|done|done].
Qed.
End buckets.

(** ** [interface/store/headers.go] *)
Lemma headers_Put_dying (s : HS') m b h newTip : store_live BKTHeaders BKTChainTip s m b → Header_wf h →
  let m' := <[hdrHash h := h]> m in
  let b' := if (newTip : bool) then Some h else b in
  ∃ s', (headers_Put h newTip s = (Ok (), s') ∧ store_live BKTHeaders BKTChainTip s' m' b') ∨
    (headers_Put h newTip s = (Panic, s') ∧ let d := (hs_db s').1 in
     (store_holds BKTHeaders BKTChainTip d m b ∨ store_holds BKTHeaders BKTChainTip d m' b ∨ store_holds BKTHeaders BKTChainTip d m' b')).
Proof.
  intros (s0 & n & -> & Hok & <- & <-) Hwf m' b'. unfold headers_Put, mbind, GoM_bind.
  destruct (hs_Put_dying _ _ chaintip_length h Hwf n s0 newTip Hok) as (s1 & [(n1 & Hp & Hok1 & Hv1 & Hb1)|(Hp & _ & Hd)]); rewrite Hp.
  2: { eexists. right. split; [done|]. cbn. tauto. }
  pose proof (store_holds_disk _ _ s1 Hok1) as Hd1. rewrite Hv1, Hb1 in Hd1.
  destruct (put_dying n1 s1 (toKey BKTIndexes (le_bytes 4 (Height h))) (arr_bytes (hdrHash h))) as (db2 & Hv2 & Hp2).
  rewrite Hp2. destruct n1 as [|n1].
  { eexists. right. split; [done|]. cbn. tauto. }
  eexists. left. split; [done|]. eexists _, n1. split; [done|].
  set (s2 := mkHS db2 (hs_tip s1) (hs_cache s1)).
  assert (Hk : ∀ k : Uint256, db_view db2 !! array_key BKTHeaders k = db_view (hs_db s1) !! array_key BKTHeaders k).
  { intros k. rewrite Hv2, lookup_insert_ne; [done|]. apply index_key_headers. }
  assert (Ht : db_view db2 !! BKTChainTip = db_view (hs_db s1) !! BKTChainTip).
  { rewrite Hv2, lookup_insert_ne; [done|]. apply index_key_tip. }
  split; [split|split].
  - intros k v Hx. apply (so_bucket _ _ s1 Hok1 k v). by rewrite <-Hk.
  - intros k x Hx. destruct (so_cache _ _ s1 Hok1 k x Hx) as (v & Hv & Hs). exists v. split; [|done].
    etransitivity; [apply Hk|done].
  - pose proof (so_tip _ _ s1 Hok1) as Htip. change (hs_tip s2) with (hs_tip s1). change (hs_db s2) with db2. by rewrite Ht.
  - etransitivity; [|exact Hv1]. apply map_eq. intros k. rewrite !store_view_lookup. change (hs_db s2) with db2. by rewrite Hk.
  - etransitivity; [|exact Hb1]. unfold store_best. change (hs_tip s2) with (hs_tip s1). change (hs_db s2) with db2. by rewrite Ht.
Qed.

(** With two writes left the header is stored as the tip, whatever follows. *)
Lemma headers_Put_late n (s : HS) h : store_ok BKTHeaders BKTChainTip s → Header_wf h → (2 ≤ n)%nat →
  ∃ o s' n', headers_Put h true (dying n s) = (o, dying n' s') ∧ (o = Ok () ∨ o = Panic) ∧
    store_holds BKTHeaders BKTChainTip (hs_db s') (<[hdrHash h := h]> (store_view BKTHeaders s)) (Some h).
Proof.
  intros Hok Hwf Hn. destruct (hs_Put_dying _ _ chaintip_length h Hwf n s true Hok) as (s1 & [(n1 & Hp & Hok1 & Hv1 & Hb1)|(_ & ? & _)]); [|lia].
  pose proof (headers_Put_dying (dying n s) _ _ h true (live_dying _ _ n s Hok) Hwf) as (s2 & [[Hr (s0 & n0 & -> & Hok2 & Hv2 & Hb2)]|[Hr _]]).
  - exists (Ok ()), s0, n0. split_and!; [done|by left|]. rewrite <-Hv2, <-Hb2. by apply store_holds_disk.
  - exists Panic, s1, 0%nat. split_and!; [|by right|rewrite <-Hv1, <-Hb1; by apply store_holds_disk].
    unfold headers_Put, mbind, GoM_bind in *. rewrite Hp in *.
    destruct (put_dying n1 s1 (toKey BKTIndexes (le_bytes 4 (Height h))) (arr_bytes (hdrHash h))) as (db2 & Hv2 & Hp2).
    rewrite Hp2 in *. by destruct n1.
Qed.

#[export] Instance headers_DyingHeaders : DyingHeaders HS' DB H.
Proof.
  refine {| dy_disk s := (hs_db s).1; dy_open d n := NewHeaderStore (Ok (d, n));
            dy_live := store_live BKTHeaders BKTChainTip; dy_holds := store_holds BKTHeaders BKTChainTip; dy_fits := Header_wf |}.
  - intros s m b (s0 & n & -> & Hok & <- & <-). by apply store_holds_disk.
  - intros d n m b Hd Hin. unfold NewHeaderStore, headers_initCache. cbn [mbind outcome_bind]. by apply reopen_dying.
  - intros s m b k Hl. by eapply live_Get.
  - done.
  - intros s m b Hl. by eapply live_GetBest.
  - intros s m b h newTip Hl Hwf. by apply headers_Put_dying.
Defined.

(** ** [wallet/store/headers] *)
Definition Database_DyingHeaders : @DyingHeaders HS' DB H _ Database_HeadersDB.
Proof.
  refine {| dy_disk s := (hs_db s).1; dy_open d n := headers_NewDatabase (Ok (d, n));
            dy_live := store_live WBKTHeaders WBKTChainTip; dy_holds := store_holds WBKTHeaders WBKTChainTip; dy_fits := Header_wf |}.
  - intros s m b (s0 & n & -> & Hok & <- & <-). by apply store_holds_disk.
  - intros d n m b Hd Hin. unfold headers_NewDatabase, Database_initCache. cbn [mbind outcome_bind]. by apply reopen_dying.
  - intros s m b k Hl. by apply (live_Get WBKTHeaders WBKTChainTip s m b k).
  - done.
  - intros s m b Hl. by eapply (live_GetBest WBKTHeaders WBKTChainTip).
  - intros s m b h newTip (s0 & n & -> & Hok & <- & <-) Hwf.
    destruct (hs_Put_dying _ _ wallet_tip_length h Hwf n s0 newTip Hok) as (s1 & [(n1 & Hp & Hok1 & Hv1 & Hb1)|(Hp & _ & Hd)]).
    + exists (dying n1 s1). left. split; [exact Hp|]. by exists s1, n1.
    + exists (dying 0 s1). right. split; [exact Hp|]. cbn. tauto.
Defined.
End stores.
