(* ===== verification/CrashSpec.v ===== *)
(** * What survives a death

    The header tree survives deaths at any write of any call, whatever the
    transaction database does ([headers_survive_deaths]): the tip is always a
    stored header and no header is lost, also under the sync manager and whatever
    its peers send ([sync_survives_deaths]).  The transactions of a block do not:
    the header store is written first, so a death in between leaves a block the
    program never asks for again ([death_loses_transactions]). *)
From S2P Require Export Crash SpvSpec.
#[local] Open Scope Z_scope.

(** ** Calls that end well or die well *)
Definition survives {S A} (I J : S → Prop) (m : GoM S A) : Prop :=
  ∀ s, I s → match m s with (Panic, s') => J s' | (_, s') => I s' end.

Section rules.
Context {S : Type} (I J : S → Prop) (HIJ : ∀ s, I s → J s).
Lemma survives_ret {A} (a : A) : survives I J (mret a).
Proof. by intros s Hs. Qed.
Lemma survives_lift {A} (o : outcome A) : survives I J (lift o).
Proof. intros s Hs. destruct o; [done..|by apply HIJ]. Qed.
Lemma survives_bind {A B} (m : GoM S A) (f : A → GoM S B) :
  survives I J m → (∀ a, survives I J (f a)) → survives I J (m ≫= f).
Proof.
  intros Hm Hf s Hs. unfold mbind, GoM_bind. specialize (Hm s Hs). destruct (m s) as [[a|e|] s']; [|done..].
  by apply Hf.
Qed.
Lemma survives_try {A} (m : GoM S A) : survives I J m → survives I J (try m).
Proof. intros Hm s Hs. unfold try. specialize (Hm s Hs). by destruct (m s) as [[a|e|] s']. Qed.
Lemma survives_bindL {A B} (m : GoL S A) (f : A → GoL S B) :
  survives I J m → (∀ a, survives I J (f a)) → survives I J (bindL m f).
Proof. intros Hm Hf. apply survives_bind; [done|]. intros [a|]; [apply Hf|apply survives_ret]. Qed.
Lemma survives_done {A} (m : GoM S A) : survives I J m → survives I J (done_ m).
Proof. intros Hm. apply survives_bind; [done|]. intros a. apply survives_ret. Qed.
Lemma survives_tryL {A} (m : GoL S A) : survives I J m → survives I J (tryL m).
Proof. intros Hm. apply survives_bind; [by apply survives_try|]. intros r. apply survives_ret. Qed.
End rules.

Create HintDb survives.
#[export] Hint Resolve survives_ret survives_lift survives_bind survives_try survives_bindL survives_done survives_tryL : survives.

Section machine.
Context {HS D TS H T : Type} `{!BlockHeader H} `{!HeadersDB HS H} `{!TxsDB TS T} `{!DyingHeaders HS D H}.
Notation CS := (chainDB HS TS).
Context (g : H).
Notation genesis := (genesisOf g).

(** A tree with a tip in it. *)
Definition good (m : gmap Uint256 (Header H)) (b : option (Header H)) : Prop :=
  tree_inv genesis m ∧ ∃ best, b = Some best ∧ m !! hdrHash best = Some best.
Lemma good_tip m b h : good m b → m !! hdrHash h = Some h → good m (Some h).
Proof. intros [Ht _] Hh. split; [done|]. by exists h. Qed.

(** ** After the header is stored *)
(** What [CommitBlock] does with the answer of [chainDB_CommitBlock]. *)
Definition commit_rest (newTip reorg : bool) (newHeight : Z) (best new : Header H) (block : Block H T)
    (fps : goerr + Z) : GoL CS (commitResult * Block H T) :=
  match fps with
  | inl e => mret (Some (mkCommitResult newTip reorg 0 0 (Some e), block))
  | inr fps =>
    if negb reorg then mret (Some (mkCommitResult newTip reorg newHeight fps None, block))
    else
      ancestor ←ₗ tryL (getCommonAncestor new best);
      match ancestor with
      | inl e => mret (Some (mkCommitResult newTip reorg 0 0 (Some e), block))
      | inr commonAncestor =>
        done ←ₗ tryL (chainDB_ProcessReorganize commonAncestor best new);
        mret (Some (match done with
          | inl e => mkCommitResult newTip reorg 0 0 (Some e)
          | inr _ => mkCommitResult newTip reorg newHeight fps None
          end, block))
      end
  end.
Section stored.
Context (m : gmap Uint256 (Header H)) (new : Header H) (Hnew : m !! hdrHash new = Some new) (Hfit : dy_fits new).
Definition live_at (c : CS) : Prop := ∃ b, dy_live (cd_h c) m b ∧ good m b.
Definition left_at (c : CS) : Prop := ∃ b, dy_holds (dy_disk (cd_h c)) m b ∧ good m b.
Lemma live_left c : live_at c → left_at c.
Proof. intros (b & Hl & Hg). exists b. split; [by apply dy_live_disk|done]. Qed.
Hint Resolve live_left : survives.
Notation surv := (survives live_at left_at).

Lemma survives_GetPrevious h : surv (onHeaders (hdGetPrevious h)).
Proof.
  intros c (b & Hl & Hg). unfold onHeaders, zoom. rewrite dy_GetPrevious_law.
  pose proof (dy_Get_law _ _ _ (hdrPrevious h) Hl) as Hr.
  destruct (m !! hdrPrevious h); [|destruct Hr as [e Hr]]; rewrite Hr; by exists b.
Qed.
Lemma survives_onTxs {A} (op : GoM TS A) : surv (onTxs op).
Proof.
  intros c (b & Hl & Hg). unfold onTxs, zoom. destruct (op (cd_t c)) as [[a|e|] t]; [by exists b..|].
  apply live_left. by exists b.
Qed.
Lemma survives_Put : surv (onHeaders (hdPut new true)).
Proof.
  intros c (b & Hl & Hg). unfold onHeaders, zoom.
  destruct (dy_Put_law _ _ _ new true Hl Hfit) as (s' & [[-> Hl']|[-> Hd]]); rewrite insert_id in * by done.
  - exists (Some new). split; [done|by eapply good_tip].
  - destruct Hd as [Hd|[Hd|Hd]]; [by exists b..|]. exists (Some new). split; [done|by eapply good_tip].
Qed.
Hint Resolve survives_GetPrevious survives_onTxs survives_Put : survives.

Lemma survives_rollback n h : surv (rollback n h).
Proof. revert h. induction n; intros h; cbn; eauto with survives. Qed.
Lemma survives_commonLoop n a b : surv (commonLoop n a b).
Proof. revert a b. induction n; intros a b; cbn; [|case_decide]; eauto with survives. Qed.
Hint Resolve survives_rollback survives_commonLoop : survives.
Lemma survives_getCommonAncestor a b : surv (getCommonAncestor a b).
Proof. unfold getCommonAncestor. destruct (Height b <? Height a), (Height a <? Height b); eauto with survives. Qed.
Lemma survives_moveToFork n r h : surv (moveToFork n r h).
Proof. revert h. induction n; intros h; cbn; [|case_decide]; eauto with survives. Qed.
Lemma survives_indexSubChain n r h sub : surv (indexSubChain n r h sub).
Proof. revert h sub. induction n; intros h sub; cbn; [|case_decide]; eauto with survives. Qed.
Lemma survives_connectSubChain n sub tip h : surv (connectSubChain n sub tip h).
Proof. revert h. induction n; intros h; cbn; [|case_decide]; eauto 12 with survives. Qed.
Hint Resolve survives_moveToFork survives_indexSubChain survives_connectSubChain : survives.
Lemma survives_ProcessReorganize c p : surv (chainDB_ProcessReorganize c p new).
Proof. unfold chainDB_ProcessReorganize. eauto 10 with survives. Qed.
Lemma survives_rest (newTip reorg : bool) newHeight best (block : Block H T) :
  surv (try (if newTip then onTxs (tdPutTxs (Transactions block) (Height new))
             else onTxs (tdPutForkTxs (Transactions block) (hdrHash new)) ≫= λ _, mret 0) ≫=
        commit_rest newTip reorg newHeight best new block).
Proof.
  pose proof survives_getCommonAncestor. pose proof survives_ProcessReorganize.
  apply survives_bind; [destruct newTip; eauto with survives|]. intros [e|fps]; [apply survives_ret|].
  unfold commit_rest. destruct reorg; [|apply survives_ret]. apply survives_bindL; [eauto with survives|]. intros [e|ca]; [apply survives_ret|].
  apply survives_bindL; eauto with survives.
Qed.
End stored.

(** ** A commit *)
Definition alive (m0 : gmap Uint256 (Header H)) (s : machine HS D TS) (m : gmap Uint256 (Header H)) (b : option (Header H)) : Prop :=
  dom m0 ⊆ dom m ∧ match s with Alive c => dy_live (cd_h c) m b ∧ good m b | Dead d => dy_holds d m b ∧ good m b end.
Lemma stored_alive m0 m A (r : outcome A * CS) : dom m0 ⊆ dom m →
  (match r with (Panic, c) => left_at m c | (_, c) => live_at m c end) → ∃ m' b, alive m0 (after r) m' b.
Proof. intros Hm. destruct r as [[a|e|] c]; intros (b & ? & ?); by exists m, b. Qed.

Lemma same_alive A (o : outcome A) (c : CS) m b : dy_live (cd_h c) m b → good m b → ∃ m' b', alive m (after (o, c)) m' b'.
Proof. intros Hl Hg. exists m, b. split; [done|]. destruct o; [done..|]. split; [by apply dy_live_disk|done]. Qed.
(** The parent the call finds, in memory or in the store. *)
Lemma parent_live (c : CS) m best header : dy_live (cd_h c) m (Some best) → m !! hdrHash best = Some best →
  ∃ r, (if decide (hdrPrevious header = hdrHash best) then mret (inr best) else try (onHeaders (hdGetPrevious header))) c =
    (Ok r : outcome (goerr + Header H), c) ∧
    match r with inr p => m !! hdrPrevious header = Some p | inl _ => m !! hdrPrevious header = None end.
Proof.
  intros Hl Hbest. case_decide as Hd.
  - exists (inr best). split; [done|]. by rewrite Hd.
  - pose proof (dy_Get_law _ _ _ (hdrPrevious header) Hl) as Hr. rewrite <-dy_GetPrevious_law in Hr.
    destruct (m !! hdrPrevious header) as [p|].
    + exists (inr p). split; [by apply try_run, onHeaders_read|done].
    + destruct Hr as [e Hr]. exists (inl e). split; [by apply try_run_err, onHeaders_read|done].
Qed.

(** A header put on a tree it extends: the tree with it, under the old tip or
    the new one. *)
Lemma good_insert m best p new : good m (Some best) → extends genesis m p new → hdrHash best ≠ hdrHash new →
  good (<[hdrHash new := new]> m) (Some best) ∧ good (<[hdrHash new := new]> m) (Some new) ∧
  dom m ⊆ dom (<[hdrHash new := new]> m).
Proof.
  intros (Ht & ? & [= <-] & Hbest) He Hne. pose proof (tree_inv_insert _ _ _ _ Ht He). split_and!.
  - split; [done|]. exists best. split; [done|]. rewrite lookup_insert_ne; [done|]. by apply not_eq_sym.
  - split; [done|]. exists new. split; [done|apply lookup_insert_eq].
  - rewrite dom_insert. set_solver.
Qed.

(** The call refuses the block, or goes on to store it. *)
Lemma CommitBlock_live (c : CS) m best block : dy_live (cd_h c) m (Some best) → good m (Some best) → block_fits g m block →
  ((∃ r, CommitBlock block c = (Ok r, c)) ∧
    (is_Some (m !! hdrPrevious (BlockHdr block)) → checkProofOfWork (BlockHdr block) = true → hdrHash best = hdrHash (BlockHdr block))) ∨
  ∃ p, m !! hdrPrevious (BlockHdr block) = Some p ∧ let new := filled block p in let newTip := TotalWork best <? TotalWork new in
    let block' := mkBlock new (Transactions block) in
    extends genesis m p new ∧ dy_fits new ∧ hdrHash best ≠ hdrHash new ∧
    CommitBlock block c = (try (chainDB_CommitBlock block' newTip) ≫=
      commit_rest newTip (newTip && negb (bool_decide (hdrHash best = hdrHash p))) (Height new) best new block') c.
Proof.
  intros Hl Hg Hfits. pose proof Hg as (Ht & ? & [= <-] & Hbest).
  unfold CommitBlock. rewrite (bind_run _ _ c (inr best) c).
  2: { apply try_run, onHeaders_read, (dy_GetBest_law _ _ _ Hl). }
  cbv zeta. set (header := BlockHdr block). destruct (parent_live c m best header Hl Hbest) as (r & Hr & Hp).
  rewrite (bind_run _ _ c _ c Hr). destruct r as [e|p].
  { left. split; [by eexists|]. intros [p Hp']. congruence. }
  pose proof (checkHeader_pow genesis _ _ _ Ht Hp) as Hch. fold header in Hch. rewrite Hch.
  destruct (checkProofOfWork header) eqn:Hpow; [|left; split; [by eexists|done]]. cbn [negb].
  destruct (decide (hdrHash best = hdrHash header)) as [Heq|Heq]; [left; split; [by eexists|done]|]. right. exists p.
  destruct (Hfits p Hp Hpow) as (He & Hfit & Hh). pose proof (ti_height _ _ Ht _ _ Hp).
  split_and!; [done..|]. by rewrite u32_small by (unfold fits; lia).
Qed.
Lemma CommitBlock_survives (c : CS) m b block : dy_live (cd_h c) m b → good m b → block_fits g m block →
  ∃ m' b', alive m (after (CommitBlock block c)) m' b'.
Proof.
  intros Hl Hg Hfits. pose proof Hg as (_ & best & -> & _).
  destruct (CommitBlock_live c m best block Hl Hg Hfits) as [[[r ->] _]|(p & _ & He & Hfit & Hne & ->)]; [by eapply same_alive|].
  set (new := filled block p) in *. set (newTip := TotalWork best <? _). set (reorg := newTip && _).
  destruct (good_insert m best p new Hg He Hne) as (Hold & Hnew & Hdom). set (block' := mkBlock new (Transactions block)).
  pose proof (survives_rest (<[hdrHash new := new]> m) new (lookup_insert_eq _ _ _) Hfit newTip reorg (Height new) best block') as Hrest.
  destruct (dy_Put_law _ _ _ new newTip Hl Hfit) as (s' & [[Hput Hl']|[Hput Hd]]);
    unfold chainDB_CommitBlock, try, mbind, GoM_bind, onHeaders at 1, zoom; cbn [block' BlockHdr]; rewrite Hput.
  - apply (stored_alive _ (<[hdrHash new := new]> m)); [done|]. apply (Hrest (mkChainDB s' (cd_t c))).
    eexists. split; [exact Hl'|by destruct newTip].
  - cbn [after cd_h]. destruct Hd as [Hd|[Hd|Hd]]; [by exists m, (Some best)|by eexists _, (Some best)|].
    eexists _, _. split; [exact Hdom|]. split; [exact Hd|by destruct newTip].
Qed.

(** ** A start *)
(** A disk no start has completed on. *)
Definition first (m : gmap Uint256 (Header H)) (b : option (Header H)) : Prop :=
  b = None ∧ (m = ∅ ∨ m = {[hdrHash genesis := genesis]}).
Context (Hfit : dy_fits genesis) (Hne : hdrPrevious genesis ≠ hdrHash genesis).
Lemma good_genesis : good {[hdrHash genesis := genesis]} (Some genesis).
Proof. destruct (genesis_chain g Hne) as [Ht Hb _]. split; [done|by exists genesis]. Qed.

(** What the machine has on its disk. *)
Definition minv (s : machine HS D TS) (m : gmap Uint256 (Header H)) (b : option (Header H)) : Prop :=
  match s with Alive c => dy_live (cd_h c) m b ∧ good m b | Dead d => dy_holds d m b ∧ (good m b ∨ first m b) end.
Lemma alive_minv m0 s m b : alive m0 s m b → minv s m b ∧ dom m0 ⊆ dom m.
Proof. intros [? Hs]. destruct s; naive_solver. Qed.

Lemma boot_survives hs t m b : dy_live hs m b → good m b ∨ first m b →
  ∃ m' b', minv (after (BlockChain_New (TS := TS) g (mkChainDB hs t))) m' b' ∧ dom m ⊆ dom m'.
Proof.
  intros Hl Hs. unfold BlockChain_New. pose proof (dy_GetBest_law _ _ _ Hl) as Hg. destruct Hs as [Hgood|[-> Hm]].
  - pose proof Hgood as (_ & best & -> & _). rewrite (bind_run _ _ _ (inr best) (mkChainDB hs t)) by by apply try_run, onHeaders_read.
    exists m, (Some best). by split.
  - destruct Hg as [e Hg]. rewrite (bind_run _ _ _ (inl e) (mkChainDB hs t)) by by apply try_run_err, onHeaders_read.
    cbv zeta. fold genesis. assert (Hin : <[hdrHash genesis := genesis]> m = {[hdrHash genesis := genesis]}).
    { destruct Hm as [->| ->]; [apply insert_empty|apply insert_singleton_eq]. }
    assert (Hdom : dom m ⊆ dom ({[hdrHash genesis := genesis]} : gmap Uint256 (Header H))) by (destruct Hm as [->| ->]; set_solver).
    destruct (dy_Put_law _ _ _ genesis true Hl Hfit) as (s' & [[Hput Hl']|[Hput Hd]]); rewrite ?Hin in *;
      unfold onHeaders, zoom; cbn [cd_h]; rewrite Hput; cbn [after minv cd_h].
    + eexists _, _. split; [split; [exact Hl'|apply good_genesis]|done].
    + destruct Hd as [Hd|[Hd|Hd]]; eexists _, _; (split; [split; [exact Hd|]|done]).
      * right. by split.
      * right. split; [done|by right].
      * left. apply good_genesis.
Qed.

Lemma mstep_minv s s' m b : minv s m b → mstep g s s' → ∃ m' b', minv s' m' b' ∧ dom m ⊆ dom m'.
Proof.
  intros Hs Hstep. inversion Hstep as [c block Hb|c|d n hs t Ho]; subst; cbn [minv] in Hs; destruct Hs as [Hl Hg].
  - destruct (CommitBlock_survives c m b block Hl Hg (Hb _ _ Hl)) as (m' & b' & Ha). exists m', b'. by apply alive_minv.
  - exists m, b. split; [split; [by apply dy_live_disk|by left]|done].
  - destruct (dy_open_law d n m b Hl) as (hs' & Ho' & Hl').
    { destruct Hg as [(_ & best & -> & Hbest)|[-> _]]; [by intros h [= <-]|done]. }
    assert (hs' = hs) as -> by congruence. by apply boot_survives with b.
Qed.
Lemma msteps_minv s s' m b : minv s m b → rtc (mstep g) s s' → ∃ m' b', minv s' m' b' ∧ dom m ⊆ dom m'.
Proof.
  intros Hs Hr. revert m b Hs. induction Hr as [|s1 s2 s3 H1 _ IH]; intros m b Hs; [by exists m, b|].
  destruct (mstep_minv _ _ _ _ Hs H1) as (m' & b' & Hs' & Hd). destruct (IH _ _ Hs') as (m2 & b2 & ? & ?).
  exists m2, b2. split; [done|set_solver].
Qed.
Lemma minv_disk s m b : minv s m b → dy_holds (machine_disk s) m b ∧ (good m b ∨ first m b).
Proof. destruct s as [c|d]; intros [Hl Hg]; [split; [by apply dy_live_disk|by left]|done]. Qed.
End machine.

(** ** The sync manager

    Every handler of the manager, with its chain on a store that may die: reads
    leave the tree as it is, a block makes it grow. *)
Section node.
Context {HS D TS H T : Type} `{!BlockHeader H} `{!Transaction T} `{!HeadersDB HS H} `{!TxsDB TS T} `{!DyingHeaders HS D H}.
Context `{!Sha} `{!PeerLib} `{!MsgConsts} `{!MapOrder}.
Context (flags : list Z) (txFilter : GoM TS (Message H T)) (announce : T → GoM TS unit).
Notation CS := (chainDB HS TS).
Notation SM := (SyncManager CS H T).
#[local] Instance sync_node_cfg : SyncConfig CS H T := blockChainConfig flags txFilter announce.
Context (g : H).
Notation genesis := (genesisOf g).
Notation step := (nstep flags txFilter announce g).

Section tree.
Context (m : gmap Uint256 (Header H)).
Notation survC := (survives (live_at (TS := TS) g m) (left_at g m)).
Lemma survives_GetBest : survC (onHeaders hdGetBest).
Proof.
  intros c (b & Hl & Hg). unfold onHeaders, zoom. pose proof (dy_GetBest_law _ _ _ Hl) as Hr.
  destruct b; [|destruct Hr as [e Hr]]; rewrite Hr; by eexists.
Qed.
Lemma survives_Get k : survC (onHeaders (hdGet k)).
Proof.
  intros c (b & Hl & Hg). unfold onHeaders, zoom. pose proof (dy_Get_law _ _ _ k Hl) as Hr.
  destruct (m !! k); [|destruct Hr as [e Hr]]; rewrite Hr; by eexists.
Qed.
Hint Resolve live_left survives_GetBest survives_Get survives_rollback survives_onTxs : survives.
Lemma survives_BestHeight : survC BestHeight.
Proof. unfold BestHeight. eauto with survives. Qed.
Lemma survives_HaveBlock h : survC (HaveBlock h).
Proof. unfold HaveBlock. eauto with survives. Qed.
Lemma survives_locator fuel n i p l : survC (locatorLoop fuel n i p l).
Proof.
  revert n i p l. induction fuel as [|fuel IH]; intros n i p l; cbn [locatorLoop]; [apply survives_ret|].
  destruct (if (9 <=? i)%nat then _ else _) as [n' i']. cbv zeta. destruct (MaxBlockLocatorHashes <=? _)%nat; [apply survives_ret|].
  apply survives_bind; [eauto with survives|]. intros [e|p']; eauto with survives.
Qed.
Lemma survives_LatestBlockLocator : survC LatestBlockLocator.
Proof. unfold LatestBlockLocator. pose proof survives_locator. apply survives_bind; [eauto with survives|]. intros []; eauto with survives. Qed.

(** The same for the manager over the chain. *)
Definition up_at (s : SM) : Prop := live_at g m (sm_cfg s).
Definition down_at (s : SM) : Prop := left_at g m (sm_cfg s).
Lemma up_down s : up_at s → down_at s.
Proof. apply live_left. Qed.
Notation surv := (survives up_at down_at).
Lemma survives_onCfg {A} (op : GoM CS A) : survC op → surv (onCfg op).
Proof. intros Hop s Hs. specialize (Hop _ Hs). unfold onCfg, zoom. by destruct (op (sm_cfg s)) as [[a|e|] c]. Qed.
Lemma survives_getS : surv getS.
Proof. by intros s Hs. Qed.
Lemma survives_modify (f : SM → SM) : (∀ s, sm_cfg (f s) = sm_cfg s) → surv (modify f).
Proof. intros Hf s Hs. unfold up_at. cbn. by rewrite Hf. Qed.
Hint Resolve up_down survives_onCfg survives_getS survives_modify survives_BestHeight survives_HaveBlock survives_LatestBlockLocator : survives.
Lemma survives_onPeer p op : surv (onPeer p op).
Proof.
  apply survives_bind; [unfold getPeer; eauto with survives|]. intros np. destruct (op (np_peer np)). eauto with survives.
Qed.
Lemma survives_forM {A} (l : list A) (f : A → GoM SM unit) : (∀ x, surv (f x)) → surv (forM l f).
Proof. intros Hf. induction l; cbn [forM]; eauto with survives. Qed.
Hint Resolve survives_onPeer survives_forM : survives.

(** A handler, call by call. *)
Ltac surv := repeat first
  [ progress intros | progress cbv zeta | solve [eauto 3 with survives] | apply survives_bind | apply survives_bindL | apply survives_done
  | match goal with
    | |- survives _ _ (if ?b then _ else _) => destruct b
    | |- survives _ _ (match ?x with _ => _ end) => destruct x
    | |- survives _ _ (let '(_, _) := ?x in _) => destruct x
    end ].
Local Tactic Notation "handler" reference(f) := unfold f, getPeer, getState, updState, queueMessage, chain_BestHeight, chain_HaveBlock,
  chain_LatestBlockLocator, cfg_GetTxFilter, cfg_TransactionAnnounce, sync_node_cfg, blockChainConfig; surv.
Lemma survives_current : surv current. Proof. handler current. Qed.
Lemma survives_syncWith p : surv (syncWith p). Proof. handler syncWith. Qed.
Lemma survives_pickPeer best l : surv (pickPeer best l).
Proof. induction l as [|[p st] l IH]; cbn [pickPeer]; handler getPeer. Qed.
Hint Resolve survives_current survives_syncWith survives_pickPeer : survives.
Lemma survives_startSync : surv startSync. Proof. handler startSync. Qed.
Lemma survives_pushBloomFilter p : surv (pushBloomFilter p). Proof. handler pushBloomFilter. Qed.
Hint Resolve survives_startSync survives_pushBloomFilter : survives.
Lemma survives_handleNewPeerMsg p : surv (handleNewPeerMsg p). Proof. handler handleNewPeerMsg; handler isSyncCandidate. Qed.
Lemma survives_handleDonePeerMsg p : surv (handleDonePeerMsg p). Proof. handler handleDonePeerMsg. Qed.
Lemma survives_requestLoop p q l : surv (requestLoop p q l).
Proof. revert l. induction q as [|iv q IH]; intros l; cbn [requestLoop]; [apply survives_ret|]. handler requestOne. Qed.
Hint Resolve survives_requestLoop : survives.
Lemma survives_requestQueuedInv p : surv (requestQueuedInv p). Proof. handler requestQueuedInv. Qed.
Lemma survives_handleTxMsg p tx : surv (handleTxMsg p tx). Proof. handler handleTxMsg. Qed.
Lemma survives_queueInv p iv : surv (queueInv p iv). Proof. handler queueInv; handler haveInventory. Qed.
Lemma survives_clearRequests p : surv (clearRequests p). Proof. handler clearRequests. Qed.
Hint Resolve survives_requestQueuedInv survives_queueInv survives_clearRequests : survives.
Lemma survives_handleInvMsg p l : surv (handleInvMsg p l). Proof. handler handleInvMsg. Qed.
Lemma survives_blockAdded p block r now : surv (blockAdded p block r now). Proof. handler blockAdded; handler UpdateHeight. Qed.
Hint Resolve survives_blockAdded : survives.
Lemma survives_afterCommit p r block now : surv (afterCommit p r block now). Proof. handler afterCommit. Qed.
Hint Resolve survives_handleNewPeerMsg survives_handleDonePeerMsg survives_handleTxMsg survives_handleInvMsg : survives.
Lemma survives_other msg : match msg with blockMsg _ _ _ => True | _ => surv (sync_blockHandler msg) end.
Proof. destruct msg; [..|done| | | | |]; handler sync_blockHandler. Qed.
End tree.

(** A call that lets the tree grow. *)
Definition grows (m : gmap Uint256 (Header H)) {A} (op : GoM SM A) : Prop := ∀ s, up_at m s →
  ∃ m', dom m ⊆ dom m' ∧ match op s with (Panic, s') => down_at m' s' | (_, s') => up_at m' s' end.
Lemma grows_of m {A} (op : GoM SM A) : survives (up_at m) (down_at m) op → grows m op.
Proof. intros Hop s Hs. exists m. split; [done|exact (Hop s Hs)]. Qed.
Lemma grows_bind m {A B} (op : GoM SM A) (f : A → GoM SM B) :
  survives (up_at m) (down_at m) op → (∀ a, grows m (f a)) → grows m (op ≫= f).
Proof.
  intros Hop Hf s Hs. unfold mbind, GoM_bind. specialize (Hop s Hs). destruct (op s) as [[a|e|] s1]; [by apply Hf|exists m; by split..].
Qed.
Lemma grows_then m {A B} (op : GoL SM A) (f : A → GoL SM B) :
  grows m op → (∀ a m', survives (up_at m') (down_at m') (f a)) → grows m (bindL op f).
Proof.
  intros Hop Hf s Hs. destruct (Hop s Hs) as (m' & Hm & Hr). exists m'. split; [done|].
  unfold bindL, mbind, GoM_bind. destruct (op s) as [[[a|]|e|] s1]; [by apply Hf|done..].
Qed.

Lemma CommitBlock_grows m (block : Block H T) : block_fits g m block → grows m (onCfg (CommitBlock block)).
Proof.
  intros Hfits s (b & Hl & Hg). destruct (CommitBlock_survives g (sm_cfg s) m b block Hl Hg Hfits) as (m' & b' & Hdom & Ha).
  exists m'. split; [done|]. unfold onCfg, zoom, after in *. by destruct (CommitBlock block (sm_cfg s)) as [[r|e|] c]; exists b'.
Qed.
Lemma handleBlockMsg_grows m p (block : Block H T) now : block_fits g m block → grows m (handleBlockMsg p block now).
Proof.
  intros Hfits. pose proof (survives_current m) as Hcur. pose proof (survives_onPeer m) as Hpeer.
  assert (Hset : ∀ f : SM → SM, (∀ s, sm_cfg (f s) = sm_cfg s) → survives (up_at m) (down_at m) (modify f)) by apply survives_modify.
  assert (Hret : ∀ A (a : A), survives (up_at m) (down_at m) (mret a)) by (intros; apply survives_ret).
  assert (Hbind : ∀ A B (op : GoM SM A) (f : A → GoM SM B), survives (up_at m) (down_at m) op →
    (∀ a, survives (up_at m) (down_at m) (f a)) → survives (up_at m) (down_at m) (op ≫= f)) by (intros; by apply survives_bind).
  unfold handleBlockMsg. apply grows_bind; [apply survives_getS|]. intros s.
  apply grows_bind; [destruct (decide _); auto|]. intros [|]; [by apply grows_of|].
  destruct (peerStates s !! p) as [st|]; [|apply grows_of; auto].
  destruct (ps_requestedBlocks st !! _); [|apply grows_of; auto].
  apply grows_bind; [by apply Hset|]. intros _. apply grows_bind; [by apply Hset|]. intros _.
  apply grows_then; [by apply CommitBlock_grows|]. intros [r block'] m'. exact (survives_afterCommit m' p r block' now).
Qed.
Lemma message_grows m s (msg : syncMsg H T) : up_at m s → msg_fits g (sm_cfg s) msg →
  ∃ m', dom m ⊆ dom m' ∧ match sync_blockHandler msg s with (Panic, s') => down_at m' s' | (_, s') => up_at m' s' end.
Proof.
  intros Hs Hfits. revert s Hs Hfits. enough (Hm : ∀ s, up_at m s → msg_fits g (sm_cfg s) msg → grows m (sync_blockHandler msg)).
  { intros s Hs Hfits. by apply (Hm s). }
  intros s (b & Hl & _) Hfits. pose proof (survives_other m msg) as Hother. destruct msg; try by apply grows_of.
  apply grows_then; [apply handleBlockMsg_grows; by eapply Hfits|]. intros b' m'. apply survives_ret.
Qed.

(** What a node has on its disk. *)
Definition ninv (s : node HS D TS H T) (m : gmap Uint256 (Header H)) (b : option (Header H)) : Prop :=
  match s with
  | Up s => dy_live (cd_h (sm_cfg s)) m b ∧ good g m b
  | Down d => dy_holds d m b ∧ (good g m b ∨ first g m b)
  end.
Context (Hfit : dy_fits genesis) (Hne : hdrPrevious genesis ≠ hdrHash genesis).
Lemma nstep_ninv s s' m b : ninv s m b → step s s' → ∃ m' b', ninv s' m' b' ∧ dom m ⊆ dom m'.
Proof.
  intros Hs Hstep. inversion Hstep as [sm msg Hmsg|sm p np|sm|sm|d n hs t Ho]; subst; cbn [ninv] in Hs; destruct Hs as [Hl Hg].
  - destruct (message_grows m sm msg) as (m' & Hdom & Hr); [by exists b|done|]. unfold handled.
    destruct (sync_blockHandler msg sm) as [[r|e|] s1]; destruct Hr as (b' & ? & ?); exists m', b'; try done.
    split; [|done]. split; [done|by left].
  - by exists m, b.
  - by exists m, b.
  - exists m, b. split; [split; [by apply dy_live_disk|by left]|done].
  - destruct (dy_open_law d n m b Hl) as (hs' & Ho' & Hl').
    { destruct Hg as [(_ & best & -> & Hbest)|[-> _]]; [by intros h [= <-]|done]. }
    assert (hs' = hs) as -> by congruence.
    destruct (boot_survives g Hfit Hne hs t m b Hl' Hg) as (m' & b' & Hm & Hdom). exists m', b'. split; [|done].
    unfold after, booted in *. destruct (BlockChain_New g _) as [[u|e|] c]; [done| |done].
    destruct Hm as [Hlc Hgc]. split; [by apply dy_live_disk|by left].
Qed.
Lemma nsteps_ninv s s' m b : ninv s m b → rtc step s s' → ∃ m' b', ninv s' m' b' ∧ dom m ⊆ dom m'.
Proof.
  intros Hs Hr. revert m b Hs. induction Hr as [|s1 s2 s3 Hstep _ IH]; intros m b Hs; [by exists m, b|].
  destruct (nstep_ninv _ _ _ _ Hs Hstep) as (m' & b' & Hs' & Hd). destruct (IH _ _ Hs') as (m2 & b2 & ? & ?).
  exists m2, b2. split; [done|set_solver].
Qed.
Lemma ninv_disk s m b : ninv s m b → dy_holds (node_disk s) m b ∧ (good g m b ∨ first g m b).
Proof. destruct s as [c|d]; intros [Hl Hg]; [split; [by apply dy_live_disk|by left]|done]. Qed.
End node.

(** ** The service's store *)
Section spv.
Context {DB OM H TS T : Type} `{!LevelDB DB} `{!BlockHeader H} `{!OrderedMap OM Uint256 (Header H)} `{E : ElaCommon}.
Context `{!LevelDBLaws DB} `{!BlockHeaderLaws H} `{!ElaCommonLaws E} `{!OrderedMapLaws OM Uint256 (Header H)} `{!TxsDB TS T}.
Notation HS := (headerStore DB OM H).
Notation HS' := (headerStore (DB * nat) OM H).
Notation CS := (chainDB HS TS).
Context (g : H).
Notation genesis := (genesisOf g).
Context (Hwf : Header_wf genesis) (Hne : hdrPrevious genesis ≠ hdrHash genesis).

(** A start over a disk that was left by the machine. *)
Lemma start_left (d : DB) m b (t : TS) : dy_holds (HS := HS') d m b → good g m b ∨ first g m b →
  ∃ (hs : HS) (c : CS) best, NewHeaderStore (Ok d) = Ok hs ∧ store_view BKTHeaders hs = m ∧
    start (OM := OM) (T := T) g d t = Ok (started c true) ∧ store_ok BKTHeaders BKTChainTip (cd_h c) ∧
    store_best BKTChainTip (cd_h c) = Some best ∧ store_view BKTHeaders (cd_h c) !! hdrHash best = Some best ∧
    tree_inv genesis (store_view BKTHeaders (cd_h c)) ∧ dom m ⊆ dom (store_view BKTHeaders (cd_h c)).
Proof.
  intros (Hok0 & Hv0 & Hb0) Hs. destruct (reopen_run BKTHeaders BKTChainTip _ Hok0) as (hs & Hr & Hok & Hv & Hb).
  { rewrite Hb0, Hv0. destruct Hs as [(_ & best & -> & Hbest)|[-> _]]; [by intros h [= <-]|done]. }
  cbn [hs_db] in Hr. rewrite Hv0 in Hv. rewrite Hb0 in Hb.
  assert (Hnew : NewHeaderStore (Ok d) = Ok hs) by (unfold NewHeaderStore, headers_initCache; cbn [mbind outcome_bind]; by rewrite Hr).
  exists hs. unfold start. rewrite Hnew. cbn [mbind outcome_bind]. destruct Hs as [(Ht & best & -> & Hbest)|[-> Hm]].
  - exists (mkChainDB hs t), best. rewrite (newService_restart g true _ best) by done. cbn [cd_h]. rewrite Hv. by split_and!.
  - pose proof (hdGetBest_law hs Hok) as Hg. change (hd_best hs) with (store_best BKTChainTip hs) in Hg. rewrite Hb in Hg.
    destruct Hg as [e Hg]. destruct (headers_Put_run hs genesis true Hok Hwf) as (hs2 & Hp & Hok2 & Hv2 & Hb2 & _).
    exists (mkChainDB hs2 t), genesis. cbn [cd_h].
    destruct (good_genesis g Hne) as [Htree _].
    assert (Hv2' : store_view BKTHeaders hs2 = {[hdrHash genesis := genesis]}).
    { rewrite Hv2, Hv. destruct Hm as [->| ->]; [apply insert_empty|apply insert_singleton_eq]. }
    rewrite Hv2'. split_and!; try done; [|apply lookup_singleton_eq|destruct Hm as [->| ->]; set_solver].
    unfold newService, made, BlockChain_New.
    rewrite (bind_run _ _ _ (inl e) (mkChainDB hs t)) by (by apply try_run_err, onHeaders_read).
    cbv zeta. fold genesis. unfold onHeaders, zoom. cbn [cd_h]. change (hdPut genesis true hs) with (headers_Put genesis true hs). by rewrite Hp.
Qed.

(** Starts over an earlier and over a later disk. *)
Lemma disks_start (d d' : DB) m b m' b' (t : TS) : dy_holds (HS := HS') d m b → good g m b ∨ first g m b →
  dy_holds (HS := HS') d' m' b' → good g m' b' ∨ first g m' b' → dom m ⊆ dom m' →
  ∃ (hs : HS) (c : CS) best, NewHeaderStore (Ok d) = Ok hs ∧ start (T := T) g d' t = Ok (started c true) ∧
    headers_GetBest (cd_h c) = (Ok best, cd_h c) ∧ headers_Get (hdrHash best) (cd_h c) = (Ok best, cd_h c) ∧
    tree_inv genesis (store_view BKTHeaders (cd_h c)) ∧
    dom (store_view BKTHeaders hs) ⊆ dom (store_view BKTHeaders (cd_h c)).
Proof.
  intros Hd Hg Hd' Hg' Hdom.
  destruct (start_left _ m b t Hd Hg) as (hs & _ & _ & Hnew & Hv & _).
  destruct (start_left _ m' b' t Hd' Hg') as (_ & c & best & _ & _ & Hstart & Hok & Hb & Hbest & Htree & Hsub).
  exists hs, c, best. split_and!; [done|done| | |done|rewrite Hv; set_solver].
  - pose proof (hs_GetBest_view BKTHeaders BKTChainTip _ Hok) as Hr. by rewrite Hb in Hr.
  - pose proof (hs_Get_view BKTHeaders BKTChainTip _ (hdrHash best) Hok) as Hr. by rewrite Hbest in Hr.
Qed.

(** C6: the program dies when the header of a block on the tip is on the disk and
    the transactions are not.  The next start has the block as its tip and the
    transaction database as it was before the block; the block counts as known, so
    it is not asked for again, and it is refused when a peer sends it. *)
Theorem death_loses_transactions (s : HS) (t : TS) (n : nat) best (block : Block H T) : (2 ≤ n)%nat →
  let c : CS := mkChainDB s t in let new := filled block best in
  chain_ok genesis c best → hdrPrevious (BlockHdr block) = hdrHash best → checkProofOfWork (BlockHdr block) = true →
  hdrHash best ≠ hdrHash (BlockHdr block) → 0 < CalcWork (hdrBits (BlockHdr block)) → storable genesis c block best →
  Height best + 1 < 2 ^ 32 - 1 →
  ∃ c1 : chainDB HS' (TS * nat), CommitBlock (TDB := dying_TxsDB) block (mkChainDB (dying n s) (t, 0%nat)) = (Panic, c1) ∧
    ∃ c' : CS, start g (dy_disk (cd_h c1)) (cd_t c1).1 = Ok (started (T := T) c' true) ∧ chain_ok genesis c' new ∧ cd_t c' = t ∧
      BestHeight c' = (Ok (Height best + 1), c') ∧ HaveBlock (hdrHash (BlockHdr block)) c' = (Ok true, c') ∧
      CommitBlock block c' = (Ok (Some (mkCommitResult false false 0 0 None, block)), c').
Proof.
  intros Hn c new Hc Hprev Hpow Hneq Hwork Hst Hhigh. pose proof Hc as (Hok & Hb & Hci & Hbh). destruct Hst as (He & Hfit & _).
  destruct (headers_Put_late n s new Hok Hfit Hn) as (o & s' & n' & Hput & Ho & Hd). set (m := hd_view s) in *.
  exists (mkChainDB (dying n' s') (t, 0%nat)). split.
  - set (c0 := mkChainDB (dying n s) (t, 0%nat)).
    assert (Hl : dy_live (cd_h c0) m (Some best)).
    { pose proof (live_dying BKTHeaders BKTChainTip n s Hok) as Hl. change (store_best BKTChainTip s = Some best) in Hb. by rewrite Hb in Hl. }
    assert (Hg : good g m (Some best)) by (split; [apply Hci|exists best; split; [done|apply (ci_best _ _ _ Hci)]]).
    assert (Hbest : m !! hdrPrevious (BlockHdr block) = Some best) by (rewrite Hprev; apply (ci_best _ _ _ Hci)).
    assert (Hfits : block_fits (HS := HS') g m block).
    { intros p Hp _. assert (p = best) as -> by congruence. by split_and!. }
    destruct (CommitBlock_live (TxsDB0 := dying_TxsDB) g c0 m best block Hl Hg Hfits) as [[_ Hno]|(p & Hp & _ & _ & _ & Hrun)].
    { destruct Hneq. apply Hno; [by eexists|done]. }
    assert (p = best) as -> by congruence. cbv zeta in Hrun. rewrite Hrun. fold new.
    replace (TotalWork best <? TotalWork new) with true by (symmetry; apply Z.ltb_lt; unfold new, filled; cbn; lia).
    unfold chainDB_CommitBlock, try, mbind, GoM_bind, Chain.onHeaders, zoom. cbn [BlockHdr c0 cd_h cd_t].
    change (hdPut new true (dying n s)) with (headers_Put new true (dying n s)). rewrite Hput.
    by destruct Ho as [-> | ->].
  - destruct Hd as (Hok' & Hv' & Hb'). set (d := mkHS (hs_db s') None newCache : HS).
    assert (Hnew : TotalWork best <? TotalWork new = true) by (apply Z.ltb_lt; unfold new, filled; cbn; lia).
    assert (Hd : chain_ok genesis (mkChainDB d t : CS) new).
    { split_and!; [done|done| |cbn; lia]. change (chain_inv genesis (store_view BKTHeaders d) new).
      replace (store_view BKTHeaders d) with (<[hdrHash new := new]> m) by exact (eq_sym Hv'). pose proof (chain_inv_insert genesis _ best best new Hci He Hneq) as Hi. by rewrite Hnew in Hi. }
    destruct (restart_run (T := T) g _ new t Hd) as (c' & Hr & Hc' & Hvc & Ht). exists c'.
    assert (Hview : hd_view (cd_h c') = <[hdrHash new := new]> m) by (rewrite Hvc; exact Hv').
    split_and!; [exact Hr|done|done|by apply (BestHeight_run _ _ _ Hc')| |].
    + pose proof Hc' as (Hokc & _). pose proof (hdGet_law (cd_h c') (hdrHash new) Hokc) as Hg. rewrite Hview, lookup_insert_eq in Hg.
      unfold HaveBlock. by rewrite (bind_run _ _ c' (inr new) c') by (by apply try_run, onHeaders_read).
    + apply (CommitBlock_refused genesis c' new block best Hc'); [|by right].
      rewrite Hview, Hprev, lookup_insert_ne by exact (not_eq_sym Hneq). apply (ci_best _ _ _ Hci).
Qed.

(** C5: the program runs, commits blocks, is killed or dies at any write of a
    call, and is started again with as many more writes as may be; whatever the
    transaction database does.  From an empty directory on, the next start always
    comes up with a tree of the genesis block that holds its tip, and every header
    that was on the disk is still there. *)
Theorem headers_survive_deaths (db : DB) (s s' : machine HS' DB TS) (t : TS) : db_view db = ∅ →
  rtc (mstep g) (Dead db) s → rtc (mstep g) s s' →
  ∃ (hs : HS) (c : CS) best, NewHeaderStore (Ok (machine_disk s)) = Ok hs ∧
    start (T := T) g (machine_disk s') t = Ok (started c true) ∧
    headers_GetBest (cd_h c) = (Ok best, cd_h c) ∧ headers_Get (hdrHash best) (cd_h c) = (Ok best, cd_h c) ∧
    tree_inv genesis (store_view BKTHeaders (cd_h c)) ∧
    dom (store_view BKTHeaders hs) ⊆ dom (store_view BKTHeaders (cd_h c)).
Proof.
  intros Hdb Hs Hs'. assert (H0 : minv (TS := TS) g (Dead db) ∅ None).
  { split; [by apply empty_ok|]. right. split; [done|by left]. }
  assert (Hfit : dy_fits (HS := HS') genesis) by exact Hwf.
  destruct (msteps_minv g Hfit Hne _ _ _ _ H0 Hs) as (m & b & Hm & _).
  destruct (msteps_minv g Hfit Hne _ _ _ _ Hm Hs') as (m' & b' & Hm' & Hdom).
  destruct (minv_disk g _ _ _ Hm) as [Hd Hg]. destruct (minv_disk g _ _ _ Hm') as [Hd' Hg'].
  by eapply disks_start.
Qed.

Context `{!Transaction T} `{!Sha} `{!PeerLib} `{!MsgConsts} `{!MapOrder}.
Context (flags : list Z) (txFilter : GoM TS (Message H T)) (announce : T → GoM TS unit).
(** C4: the sync manager over the service's header store, whatever messages the
    peers send, whatever the transaction database, the filter and the callbacks
    do, killed or dead at any write and started again as often as may be; a block
    that is delivered has a header that serializes, a height in range and a hash
    that no header with other parents or work has.  From an empty directory on, the
    tip of a manager that runs is a header it has; the next start always comes up
    with a tree of the genesis block that holds its tip; and no header that was on
    the disk is ever gone. *)
Theorem sync_survives_deaths (db : DB) (s s' : node HS' DB TS H T) (t : TS) : db_view db = ∅ →
  rtc (nstep flags txFilter announce g) (Down db) s → rtc (nstep flags txFilter announce g) s s' →
  match s' with
  | Up sm => let hs := cd_h (sm_cfg sm) in
      ∃ best, headers_GetBest hs = (Ok best, hs) ∧ headers_Get (hdrHash best) hs = (Ok best, hs)
  | Down _ => True
  end ∧
  ∃ (hs : HS) (c : CS) best, NewHeaderStore (Ok (node_disk s)) = Ok hs ∧
    start (T := T) g (node_disk s') t = Ok (started c true) ∧
    headers_GetBest (cd_h c) = (Ok best, cd_h c) ∧ headers_Get (hdrHash best) (cd_h c) = (Ok best, cd_h c) ∧
    tree_inv genesis (store_view BKTHeaders (cd_h c)) ∧
    dom (store_view BKTHeaders hs) ⊆ dom (store_view BKTHeaders (cd_h c)).
Proof.
  intros Hdb Hs Hs'. assert (Hinit : ninv (TS := TS) (T := T) g (Down db) ∅ None).
  { split; [by apply empty_ok|]. right. split; [done|by left]. }
  assert (Hfit : dy_fits (HS := HS') genesis) by exact Hwf.
  destruct (nsteps_ninv flags txFilter announce g Hfit Hne _ _ _ _ Hinit Hs) as (m & b & Hm & _).
  destruct (nsteps_ninv flags txFilter announce g Hfit Hne _ _ _ _ Hm Hs') as (m' & b' & Hm' & Hdom). split.
  - destruct s' as [sm|d]; [|done]. destruct Hm' as [Hl (_ & best & -> & Hbest)]. exists best.
    split; [exact (dy_GetBest_law _ _ _ Hl)|]. pose proof (dy_Get_law _ _ _ (hdrHash best) Hl) as Hr. by rewrite Hbest in Hr.
  - destruct (ninv_disk g _ _ _ Hm) as [Hd Hg]. destruct (ninv_disk g _ _ _ Hm') as [Hd' Hg']. by eapply disks_start.
Qed.
End spv.

(** ** The service's tables

    The calls of the service that change its tables collect the changes of all
    their transactions and write them in one piece. *)
Section batch.
Context {DB OM H T : Type} `{!LevelDB DB} `{!BlockHeader H} `{!OrderedMap OM Uint256 (Header H)} `{E : ElaCommon}.
Context `{!Uint168Bytes} `{!Uint256Bytes} `{!MapOrder} `{!DposState} `{!Sha}.
Context `{!ElaTransaction T} `{!TxReader T} `{!ListenerLib}.
Notation Sv := (spvservice DB OM H T).
Definition sv_disk (s : Sv) : DB := ds_db (sv_db s).

(** Nothing written and no success, or success and one write. *)
Definition one_write {A} (s : Sv) (r : outcome A * Sv) : Prop :=
  (sv_disk r.2 = sv_disk s ∧ ¬ is_ok r.1) ∨ ∃ b, is_ok r.1 ∧ ldb_Write (sv_disk s) b = Ok (sv_disk r.2).

Lemma Commit_one_write (s : Sv) b : let r := onBatch dataBatch_Commit (s, b) in
  (r.1 = Ok () ∧ ldb_Write (sv_disk s) b = Ok (sv_disk r.2.1)) ∨ (¬ is_ok r.1 ∧ sv_disk r.2.1 = sv_disk s).
Proof.
  unfold onBatch, zoom, dataBatch_Commit. cbn [fst snd]. rewrite (bind_run getS _ _ _ _ eq_refl).
  unfold onBDS, onDS, zoom, dbWrite, sv_disk. cbn [fst snd].
  destruct (ldb_Write (ds_db (sv_db s)) b) as [db'|e|] eqn:Hw; cbn; [by left|by right; split; [intros []|]..].
Qed.
Lemma batch_one_write {A B} (m : GoM (Sv * batch) A) (f : A → B) (s : Sv) : (∀ I, keeps (svB I) m) →
  one_write s (sv_withBatch (a ← m; r ← onBatch dataBatch_Commit; mret (f a)) s).
Proof.
  intros Hm. destruct (Hm (λ db, db = sv_disk s) (s, [])) as [[Hd _] _]; [by split|].
  unfold sv_withBatch, zoom, mbind, GoM_bind. destruct (m (s, [])) as [[a|e|] [s1 b1]]; [|by left; split; [|intros []]..].
  change (sv_disk s1 = sv_disk s) in Hd.
  pose proof (Commit_one_write s1 b1) as [[Hr Hw]|[Hr Hw]]; destruct (onBatch dataBatch_Commit (s1, b1)) as [o [s2 b2]];
    cbn [fst snd] in *.
  - subst o. right. exists b1. split; [done|]. cbn. congruence.
  - left. destruct o; [done|split; [cbn; congruence|done]..].
Qed.

(** C16: the changes of a block, whatever its transactions, reach the database of
    the service in one write, at the end and only when all of them were accepted:
    an error or the death of the program leaves the tables as they were.  So does
    the roll-back of a height. *)
Theorem service_writes_once (s : Sv) txs height :
  one_write s (PutTxs txs height s) ∧ one_write s (DelTxs height s).
Proof.
  split.
  - unfold PutTxs. apply (batch_one_write (putTxs txs height 0) id s). intros I. apply keeps_putTxs.
  - pose proof (batch_one_write (onBatch (dataBatch_DelAll (T := T) height)) (λ _, ()) s) as Hw.
    match type of Hw with _ → one_write s ?r => set (r1 := r) in Hw end.
    assert (Hsame : sv_withBatch (onBatch (dataBatch_DelAll (T := T) height) ≫= λ _, onBatch dataBatch_Commit) s = r1).
    { unfold r1, sv_withBatch, zoom, mbind, GoM_bind. destruct (onBatch (dataBatch_DelAll _) (s, [])) as [[[]|e|] t]; [|done..].
      by destruct (onBatch dataBatch_Commit t) as [[[]|e|] t']. }
    specialize (Hw ltac:(intros I; apply keeps_onBatch, keeps_DelAll)).
    unfold DelTxs. unfold mbind at 1, GoM_bind at 1. rewrite Hsame. destruct r1 as [[[]|e|] s1]; [|done..].
    rewrite (bind_run getS _ _ _ _ eq_refl). destruct (sv_rollback s1); exact Hw.
Qed.
End batch.
