(* ===== verification/StartDemo.v ===== *)
(** * Witnesses of the start, of the deaths and of the replayed work

    Both programs over an in-memory disk. *)
From S2P Require Import Demo Samples StoreDemo TxsDemo TablesDemo ArbitersDemo CustomIdDemo ChainDemo SpvDemo SyncDemo.
From S2P Require Import WalletDemo ClientDemo StartSpec CrashSpec ElaHeader.
#[local] Open Scope Z_scope.

Definition demo_g : sample_header := BlockHeaderOf demo_genesis.
Notation demo_HS := (headerStore (gmap bytes bytes) (list (Uint256 * Header sample_header)) sample_header).
Lemma demo_g_wf : Header_wf (genesisOf demo_g).
Proof. repeat split; vm_compute; congruence. Qed.
Lemma demo_g_hash : hdrPrevious (genesisOf demo_g) ≠ hdrHash (genesisOf demo_g).
Proof. vm_compute. congruence. Qed.

Lemma sync_survives_restarts_witness :
  ∃ v, start (OM := list (Uint256 * Header sample_header)) (T := sample_tx) demo_g ∅ (mkMT ∅ ∅) = Ok v ∧
    ∀ s, rtc (life [1] demo_filter (λ _, mret ()) id demo_g demo_txs_of) (syncManager v) s →
      ∃ best, chain_ok (genesisOf demo_g) (sm_cfg s) best ∧
        txs_inv demo_txs_of (hd_view (cd_h (sm_cfg s))) best (cd_t (sm_cfg s)).
Proof.
  apply sync_survives_restarts.
  - exact demo_filter_returns.
  - done.
  - done.
  - exact demo_inv_max.
  - done.
  - done.
  - exact demo_g_wf.
  - exact demo_g_hash.
  - vm_compute. reflexivity.
Defined.

(** ** The SPV service *)
Definition demo_cfg0 (hdb sdb : gmap bytes bytes) : SpvConfig (gmap bytes bytes) sample_header :=
  mkSpvConfig (Ok ()) (Ok hdb) (Ok sdb) [[x30; x31]] [] false x00 demo_g (Ok ()) 0.
Lemma demo_hs_empty_ok hk tk : store_ok hk tk (mkHS ∅ None [] : demo_HS).
Proof. exact (demo_empty_ok hk tk). Qed.
(** A chain of the genesis block alone over a service, on a disk. *)
Lemma demo_first (sv : demo_spv) : ∃ c : chainDB demo_HS demo_spv, chain_ok (genesisOf demo_g) c (genesisOf demo_g) ∧ cd_t c = sv.
Proof.
  destruct (newService_first (T := sample_tx) demo_g true (mkChainDB (mkHS ∅ None [] : demo_HS) sv)) as (c & _ & Hc & _ & Ht).
  - exact (demo_hs_empty_ok _ _).
  - done.
  - done.
  - exact demo_g_wf.
  - exact demo_g_hash.
  - by exists c.
Qed.
Lemma demo_ds_addrs_ok : addrs_ok (comp_addrs (mkDataStore ∅ ∅ ∅ (NewArbiters ∅ [] 3) (NewCustomID ∅ [])) : addrs (gmap bytes bytes)).
Proof. exact demo_addrs_ok. Qed.

Lemma NewSPVService_restart_witness : ∃ (c : chainDB demo_HS demo_spv) (v : service (chainDB demo_HS demo_spv) sample_header sample_tx),
  chain_ok (genesisOf demo_g) c (genesisOf demo_g) ∧
  NewSPVService (demo_cfg0 (hs_db (cd_h c)) ∅) = Ok v ∧
  hd_view (cd_h (sm_cfg (syncManager v))) = hd_view (cd_h c) ∧ sv_listeners (cd_t (sm_cfg (syncManager v))) = ∅.
Proof.
  set (ds := mkDataStore ∅ ∅ ∅ (NewArbiters ∅ [] 3) (NewCustomID ∅ []) : dataStore (gmap bytes bytes)).
  set (sv := mkSpv (mkHS ∅ None []) ds false {[demo_listenerKey := demo_listener]} false false x00 true 0 [] : demo_spv).
  destruct (demo_first sv) as (c & Hc & Ht). assert (Hd : sv_db (cd_t c) = ds) by by rewrite Ht.
  pose proof (NewSPVService_restart (demo_cfg0 (hs_db (cd_h c)) ∅) c (genesisOf demo_g) Hc) as Hr. rewrite Hd in Hr.
  specialize (Hr demo_ds_addrs_ok demo_txTypes_ok).
  specialize (Hr ltac:(intros db [= <-]; reflexivity) ltac:(intros db [= <-]; reflexivity)).
  assert (Hdec : decodeArbiters [[x30; x31]] = Ok [[x01]]) by (vm_compute; reflexivity).
  cbn [demo_cfg0 sc_MkdirAll sc_headerDB sc_CRCArbiters sc_storeDB sc_NewServer] in Hr. rewrite Hdec in Hr. destruct Hr as (v & Hv & _ & Hview & _ & _ & _ & _ & Hl & _).
  exists c, v. split_and!; [exact Hc|exact Hv|exact Hview|exact Hl].
Defined.

(** ** The wallet *)
Notation demo_WCS := (chainDB demo_HS demo_W).
Lemma demo_wallet_first : ∃ c : demo_WCS,
  chain_ok (HeadersDB0 := Database_HeadersDB) (HeadersLaws0 := Database_HeadersLaws) (genesisOf demo_g) c (genesisOf demo_g) ∧
  cd_t c = demo_wallet.
Proof.
  destruct (newService_first (T := sample_tx) (HeadersDB0 := Database_HeadersDB) (HeadersLaws0 := Database_HeadersLaws)
    demo_g true (mkChainDB (mkHS ∅ None [] : demo_HS) demo_wallet)) as (c & _ & Hc & _ & Ht).
  - exact (demo_hs_empty_ok _ _).
  - done.
  - done.
  - exact demo_g_wf.
  - exact demo_g_hash.
  - by exists c.
Qed.
Lemma NewWallet_restart_witness : ∃ (c : demo_WCS) (v : service demo_WCS sample_header sample_tx),
  NewWallet (Ok (hs_db (cd_h c))) (Ok (w_db (cd_t c))) demo_g (Ok ()) 5 = Ok v ∧
  wdb demo_st2 (w_db (cd_t (sm_cfg (syncManager v)))) ∧ StateNotifier v = true.
Proof.
  destruct demo_wallet_first as (c & Hc & Ht).
  destruct (NewWallet_restart demo_g c (genesisOf demo_g) demo_st2 5 Hc) as (v & Hv & _ & _ & Hw & _ & Hn).
  - rewrite Ht. exact demo_db2_ok.
  - exists c, v. by split_and!.
Defined.
Lemma reset_then_start_witness : ∃ (c : demo_WCS) cl' hs (v : service demo_WCS sample_header sample_tx),
  database_Clear (demo_client, Some (mkHS (OM := list (Uint256 * Header sample_header)) (H := sample_header) (hs_db (cd_h c)) None newCache)) =
    (Ok (), (cl', Some hs)) ∧
  NewWallet (Ok (hs_db hs)) (Ok (cl_db cl')) demo_g (Ok ()) 5 = Ok v ∧
  wdb (mkWS ∅ (ws_addrs demo_st2) ∅ ∅ (ws_txs demo_st2) (ws_forks demo_st2)) (w_db (cd_t (sm_cfg (syncManager v)))).
Proof.
  destruct demo_wallet_first as (c & Hc & Ht).
  destruct (reset_then_start demo_g c (genesisOf demo_g) demo_st2 demo_client 5 Hc) as (cl' & hs & v & Hcl & Hv & _ & _ & Hw & _).
  - by rewrite Ht.
  - exact demo_db2_ok.
  - exact demo_g_wf.
  - exact demo_g_hash.
  - exists c, cl', hs, v. by split_and!.
Defined.

(** ** Deaths *)
Notation demo_disk := (gmap bytes bytes).
Notation demo_dying := (headerStore (demo_disk * nat) (list (Uint256 * Header sample_header)) sample_header).
Notation demo_machine := (machine demo_dying demo_disk mem_txs).
Notation demo_CS := (chainDB demo_HS mem_txs).

(** The first start dies after one write, the second comes up. *)
Definition demo_boot (d : demo_disk) (n : nat) : demo_machine :=
  match NewHeaderStore (Ok (d, n)) with
  | Ok hs => after (BlockChain_New (HS := demo_dying) demo_g (mkChainDB hs (mkMT ∅ ∅)))
  | _ => Dead d
  end.
Lemma demo_boot_step d n : is_ok (NewHeaderStore (OM := list (Uint256 * Header sample_header)) (H := sample_header) (Ok (d, n))) = true →
  mstep demo_g (Dead d : demo_machine) (demo_boot d n).
Proof. intros Hr. unfold demo_boot. destruct (NewHeaderStore _) as [hs|e|] eqn:Ho; [|done..]. by apply (m_boot demo_g d n). Qed.
Definition demo_died : demo_machine := demo_boot ∅ 1.
Definition demo_up : demo_machine := demo_boot (machine_disk demo_died) 9.

Lemma demo_died_step : mstep demo_g (Dead ∅) demo_died.
Proof. apply demo_boot_step. vm_compute. reflexivity. Qed.
Definition is_dead (s : demo_machine) : bool := match s with Dead _ => true | Alive _ => false end.
Lemma is_dead_disk s : is_dead s = true → s = Dead (machine_disk s).
Proof. by destruct s. Qed.
Lemma demo_died_dead : demo_died = Dead (machine_disk demo_died).
Proof. apply is_dead_disk. vm_compute. reflexivity. Qed.
Lemma demo_up_step : mstep demo_g demo_died demo_up.
Proof.
  rewrite demo_died_dead at 1. apply demo_boot_step. vm_compute. reflexivity.
Qed.
Lemma headers_survive_deaths_witness : ∃ (hs : demo_HS) (c : demo_CS) best,
  NewHeaderStore (Ok (machine_disk demo_died)) = Ok hs ∧
  start (T := sample_tx) demo_g (machine_disk demo_up) (mkMT ∅ ∅) = Ok (started c true) ∧
  headers_GetBest (cd_h c) = (Ok best, cd_h c) ∧ headers_Get (hdrHash best) (cd_h c) = (Ok best, cd_h c) ∧
  tree_inv (genesisOf demo_g) (store_view BKTHeaders (cd_h c)) ∧
  dom (store_view BKTHeaders hs) ⊆ dom (store_view BKTHeaders (cd_h c)).
Proof.
  apply (headers_survive_deaths demo_g demo_g_wf demo_g_hash ∅ demo_died demo_up (mkMT ∅ ∅)).
  - reflexivity.
  - apply rtc_once. exact demo_died_step.
  - apply rtc_once. exact demo_up_step.
Defined.

(** The first start dies after one write; the second has three: two for the
    genesis block, and one for the block a peer delivers, which kills it. *)
Notation demo_node := (node demo_dying demo_disk mem_txs sample_header sample_tx).
Notation demo_nstep := (nstep (HS := demo_dying) (TS := mem_txs) [1] demo_filter (λ _, mret ()) demo_g).
#[local] Instance demo_node_cfg : SyncConfig (chainDB demo_dying mem_txs) sample_header sample_tx :=
  node_cfg [1] demo_filter (λ _, mret ()).
Definition demo_nboot (d : demo_disk) (n : nat) : demo_node :=
  match NewHeaderStore (Ok (d, n)) with
  | Ok hs => booted (BlockChain_New (HS := demo_dying) demo_g (mkChainDB hs (mkMT ∅ ∅)))
  | _ => Down d
  end.
Lemma demo_nboot_step d n : is_ok (NewHeaderStore (OM := list (Uint256 * Header sample_header)) (H := sample_header) (Ok (d, n))) = true →
  demo_nstep (Down d) (demo_nboot d n).
Proof. intros Hr. unfold demo_nboot. destruct (NewHeaderStore _) as [hs|e|] eqn:Ho; [|done..]. by apply (n_boot _ _ _ demo_g d n). Qed.
Definition is_up (s : demo_node) : bool := match s with Up _ => true | Down _ => false end.
Definition demo_sm (s : demo_node) : SyncManager (chainDB demo_dying mem_txs) sample_header sample_tx :=
  match s with Up sm => sm | Down d => sync_New (mkChainDB (mkHS (d, 0%nat) None []) (mkMT ∅ ∅)) end.
Lemma is_up_sm s : is_up s = true → s = Up (demo_sm s).
Proof. by destruct s. Qed.
Lemma is_up_down s : is_up s = false → s = Down (node_disk s).
Proof. by destruct s. Qed.
Definition demo_n0 : demo_node := demo_nboot ∅ 1.
Definition demo_n1 : demo_node := demo_nboot (node_disk demo_n0) 3.
Definition demo_n2 : demo_node := Up (set_peers (<[1%nat := demo_net 3]> (sm_peers (demo_sm demo_n1))) (demo_sm demo_n1)).
Definition demo_n3 : demo_node := handled (sync_blockHandler (newPeerMsg 1%nat) (demo_sm demo_n2)).
Definition demo_n4 : demo_node :=
  handled (sync_blockHandler (invMsg [mkInvVect InvTypeBlock (hdrHash (BlockHdr demo_b1))] 1%nat) (demo_sm demo_n3)).
Definition demo_n5 : demo_node := handled (sync_blockHandler (blockMsg demo_b1 1%nat 0) (demo_sm demo_n4)).

Lemma demo_n0_reached : rtc demo_nstep (Down ∅) demo_n0.
Proof. apply rtc_once, demo_nboot_step. vm_compute. reflexivity. Qed.
Lemma demo_n4_reached : rtc demo_nstep demo_n0 demo_n4.
Proof.
  rewrite (is_up_down demo_n0) by (vm_compute; reflexivity).
  eapply rtc_l; [apply (demo_nboot_step _ 3); vm_compute; reflexivity|]. change (rtc demo_nstep demo_n1 demo_n4).
  rewrite (is_up_sm demo_n1) by (vm_compute; reflexivity).
  eapply rtc_l; [exact (n_connect _ _ _ _ _ 1%nat (demo_net 3))|]. change (rtc demo_nstep demo_n2 demo_n4).
  eapply rtc_l; [exact (n_message _ _ _ _ (demo_sm demo_n2) (newPeerMsg 1%nat) I)|]. change (rtc demo_nstep demo_n3 demo_n4).
  rewrite (is_up_sm demo_n3) by (vm_compute; reflexivity).
  apply rtc_once. exact (n_message _ _ _ _ (demo_sm demo_n3) (invMsg _ 1%nat) I).
Qed.

Lemma demo_b1_wf : Header_wf (filled demo_b1 (genesisOf demo_g)).
Proof. repeat split; vm_compute; congruence. Qed.

Definition demo_hs4 : demo_HS :=
  let hs := cd_h (sm_cfg (demo_sm demo_n4)) in mkHS (hs_db hs).1 (hs_tip hs) (hs_cache hs).
Lemma demo_n4_view m b : dy_live (cd_h (sm_cfg (demo_sm demo_n4))) m b → m = store_view BKTHeaders demo_hs4.
Proof. intros (s0 & n & Hs & _ & <- & _). unfold demo_hs4. rewrite Hs. by destruct s0. Qed.
Lemma demo_n4_genesis : store_view BKTHeaders demo_hs4 !! hdrPrevious (BlockHdr demo_b1) = Some (genesisOf demo_g).
Proof. rewrite store_view_lookup. vm_compute. reflexivity. Qed.
Lemma demo_n4_fresh : store_view BKTHeaders demo_hs4 !! hdrHash (filled demo_b1 (genesisOf demo_g)) = None.
Proof. rewrite store_view_lookup. vm_compute. reflexivity. Qed.
Lemma demo_b1_fits : msg_fits demo_g (sm_cfg (demo_sm demo_n4)) (blockMsg demo_b1 1%nat 0).
Proof.
  intros m b Hl p Hp _. rewrite (demo_n4_view m b Hl) in *. rewrite demo_n4_genesis in Hp. injection Hp as <-.
  split; [split; [exact demo_n4_genesis|split; [|split] ]|split].
  - vm_compute. repeat split.
  - vm_compute. congruence.
  - intros h Hh. rewrite demo_n4_fresh in Hh. discriminate.
  - exact demo_b1_wf.
  - vm_compute. reflexivity.
Qed.
Lemma sync_survives_deaths_witness : demo_n5 = Down (node_disk demo_n5) ∧
  ∃ (hs : demo_HS) (c : demo_CS) best, NewHeaderStore (Ok (node_disk demo_n4)) = Ok hs ∧
    start (T := sample_tx) demo_g (node_disk demo_n5) (mkMT ∅ ∅) = Ok (started c true) ∧
    headers_GetBest (cd_h c) = (Ok best, cd_h c) ∧ headers_Get (hdrHash best) (cd_h c) = (Ok best, cd_h c) ∧
    tree_inv (genesisOf demo_g) (store_view BKTHeaders (cd_h c)) ∧
    dom (store_view BKTHeaders hs) ⊆ dom (store_view BKTHeaders (cd_h c)).
Proof.
  split; [apply is_up_down; vm_compute; reflexivity|].
  apply (sync_survives_deaths demo_g demo_g_wf demo_g_hash [1] demo_filter (λ _, mret ()) ∅ demo_n4 demo_n5 (mkMT ∅ ∅)).
  - reflexivity.
  - etrans; [exact demo_n0_reached|exact demo_n4_reached].
  - rewrite (is_up_sm demo_n4) by (vm_compute; reflexivity). apply rtc_once.
    exact (n_message _ _ _ _ (demo_sm demo_n4) (blockMsg demo_b1 1%nat 0) demo_b1_fits).
Defined.

(** The block on the genesis, with two writes left to the header store. *)
Lemma death_loses_transactions_witness : ∃ (s : demo_HS) (c1 : chainDB demo_dying (mem_txs * nat)) (c' : demo_CS),
  CommitBlock (TDB := dying_TxsDB) demo_b1 (mkChainDB (dying 2 s) (mkMT ∅ ∅, 0%nat)) = (Panic, c1) ∧
  start demo_g (dy_disk (cd_h c1)) (cd_t c1).1 = Ok (started (T := sample_tx) c' true) ∧ cd_t c' = mkMT ∅ ∅ ∧
  BestHeight c' = (Ok 1, c') ∧ HaveBlock (hdrHash (BlockHdr demo_b1)) c' = (Ok true, c').
Proof.
  destruct (newService_first (T := sample_tx) demo_g true (mkChainDB (mkHS ∅ None [] : demo_HS) (mkMT ∅ ∅))) as (c & _ & Hc & Hv & Ht).
  - exact (demo_hs_empty_ok _ _).
  - done.
  - done.
  - exact demo_g_wf.
  - exact demo_g_hash.
  - destruct c as [s t]. cbn [cd_t] in Ht. subst t.
    destruct (death_loses_transactions (T := sample_tx) demo_g s (mkMT ∅ ∅) 2 (genesisOf demo_g) demo_b1) as (c1 & Hr & c' & Hs & _ & Ht & Hb & Hh & _).
    + done.
    + exact Hc.
    + vm_compute. reflexivity.
    + vm_compute. reflexivity.
    + vm_compute. congruence.
    + vm_compute. reflexivity.
    + split; [split; [|split; [|split] ]|split].
      * change (hd_view (cd_h (mkChainDB s (mkMT ∅ ∅)) : demo_HS) !! hdrHash (genesisOf demo_g) = Some (genesisOf demo_g)).
        rewrite Hv. apply lookup_singleton_eq.
      * vm_compute. repeat split.
      * vm_compute. congruence.
      * intros h'. rewrite Hv, lookup_singleton_ne by (vm_compute; congruence). congruence.
      * exact demo_b1_wf.
      * vm_compute. reflexivity.
    + vm_compute. reflexivity.
    + by exists s, c1, c'.
Defined.

(** A block with a paying transaction, over the service of [SpvDemo]. *)
Lemma service_writes_once_demo : is_ok (PutTxs [demo_pay (h256 77)] 7 demo_service).1 = true.
Proof. vm_compute. reflexivity. Qed.

(** ** Replayed work: a wrapped sample header *)
#[export] Instance demo_ela_header : ElaBlockHeader sample_header := {
  eh_Previous := sh_prev;
  eh_Bits := Bits;
  eh_MerkleRoot := sh_root;
  eh_Hash := Hash;
  eh_AuxPow_ParBlockHeader_Hash := sh_pow;
  eh_Serialize := SerializeHeader;
  eh_Deserialize := DeserializeHeader;
  eh_empty := mksh zeroHash zeroHash 0 0;
}.
#[export] Instance demo_ela_header_laws : ElaBlockHeaderLaws (EH := sample_header).
Proof. split. exact BlockHeader_ok. Qed.

Notation demo_EH := (elaHeader sample_header).
Notation demo_EHS := (headerStore (gmap bytes bytes) (list (Uint256 * Header demo_EH)) demo_EH).
Definition demo_eg : demo_EH := NewHeader (BlockHeaderOf demo_genesis).
(** A header of an earlier block, and a block that repeats its work. *)
Definition demo_used : Header demo_EH := mkHeader (NewHeader (mksh (h256 3) (h256 55) 0x207fffff 1)) 0 0 [] [] 0.
Definition demo_forged : Block demo_EH sample_tx :=
  mkBlock (mkHeader (NewHeader (mksh (hdrHash (genesisOf demo_eg)) (h256 9) 0x207fffff 1)) 0 1 [] [] 0) [simple_tx 9 [] []].
Lemma demo_eg_wf : Header_wf (genesisOf demo_eg).
Proof. repeat split; vm_compute; congruence. Qed.
Lemma demo_forged_wf : Header_wf (filled demo_forged (genesisOf demo_eg)).
Proof. repeat split; vm_compute; congruence. Qed.

Lemma replayed_work_witness : ∃ (s s' : chainDB demo_EHS mem_txs) fps,
  CommitBlock demo_forged s = (Ok (Some (mkCommitResult true false 1 fps None,
    mkBlock (filled demo_forged (genesisOf demo_eg)) (Transactions demo_forged))), s').
Proof.
  destruct (newService_first (T := sample_tx) demo_eg true (mkChainDB (mkHS ∅ None [] : demo_EHS) (mkMT ∅ ∅))) as (s & _ & Hs & Hv & _).
  - exact (proj1 (empty_ok BKTHeaders BKTChainTip (OM := list (Uint256 * Header demo_EH)) (H := demo_EH) (∅ : gmap bytes bytes) eq_refl)).
  - exact eq_refl.
  - exact eq_refl.
  - exact demo_eg_wf.
  - vm_compute. congruence.
  - destruct (replayed_work (genesisOf demo_eg) s (genesisOf demo_eg) demo_forged demo_used Hs) as (s' & fps & Hr & _).
    + vm_compute. reflexivity.
    + split; vm_compute; reflexivity.
    + vm_compute. reflexivity.
    + vm_compute. congruence.
    + split; [split; [|split; [|split] ]|split].
      * rewrite Hv. apply lookup_singleton_eq.
      * vm_compute. repeat split.
      * vm_compute. congruence.
      * intros h'. rewrite Hv, lookup_singleton_ne by (vm_compute; congruence). congruence.
      * exact demo_forged_wf.
      * vm_compute. reflexivity.
    + exists s, s', fps. exact Hr.
Defined.
